(* ===== verification/_CoqProject ===== *)
-Q . S2P
Prelude.v
Hal.v
Frames.v
Mm.v
MmSpec.v
MmWalk.v
Elf.v
PoolAcct.v
ElfProofs.v
CopySpec.v
Owner.v
UserView.v
Console.v
Utf8.v
Framing.v
JsonDoc.v
JsonText.v
RpcJson.v
Walkers.v
RpcJsonProofs.v
KState.v
BuildRs.v
Sbi.v
Hart.v
Traps.v
TrapsProofs.v
Vector.v
VectorProofs.v
Payload.v
LoadOwn.v
Base64.v
Syscall.v
Handler.v
Rpc.v
Sched.v
Docs.v
Userland.v
KRun.v
Iso.v
IsoCode.v
Panic.v
Demo.v
SyscallProofs.v
PreemptProofs.v
HandlerProofs.v
UserlandProofs.v
KSpec.v
SchedInv.v
SchedProofs.v
Isolation.v
TrapMachine.v
Checkpoint.v
Sound.v
Progress.v
Events.v
RpcProofs.v
KeysProofs.v
Traces.v
Overflow.v
Fork.v
