(* ===== verification/Prelude.v ===== *)
(** * A verification library for kernai, an agent-native RISC-V unikernel

    kernai boots one hart of a qemu-virt machine, runs small ELF payloads in
    user mode under Sv39 paging, and talks to its operator over a serial line:
    every event is a framed JSON document, every command a byte or a framed
    JSON-RPC request. This library models the kernel (kernel/src) down to the
    bytes on the wire and the instructions of its assembly, the payload runtime
    and fixtures (payloads), and proves what makes the parts, and the machine
    they form with hostile payloads and an arbitrary operator, correct.

    ** The program and the files that model it

    - [Prelude] (this file): machine integers, little-endian bytes, number
      formatting, rings, and the tactics and lemmas the rest shares.
    - [Hal]: the frame pool as byte-addressed memory and its five bounds-checked
      accessors (hal/boot.rs). [Frames]: the bitmap allocator (frames.rs), its
      invariant and the interface [FrameAllocator] its clients are proved against.
    - [Mm]: page-table entries, mapping, translation, copy_from_user, the
      diagnostic walk, destroy and deep_copy (mm.rs). [MmSpec]: an address space
      as a finite map of tables with an abstract page map, and mapping as an
      update of it. [MmWalk]: translation, copies and tear-down against that map.
      [CopySpec]: deep_copy against it, by a loop invariant on the copy.
      [Owner]: the pool as a list of tenants (address spaces and single frames)
      that share no frame, and every pool operation as a change of that list.
      [UserView]: what a load of the hart in user mode reads through a table,
      and copy_from_user against it.
    - [Elf], [ElfProofs]: the loader (elf.rs), for both overflow-check profiles.
      [PoolAcct]: the allocator's books across mapping, copying and loading,
      which is what bounds the loader's loop. [LoadOwn]: a load, however it
      ends, takes frames nobody had and writes to nobody else's.
    - [Console]: the frame buffer that poisons on overflow, the JSON escapers
      and the wire format (console.rs). A writer is a small program ([wprog])
      whose results are propagated or dropped the way the code does at each
      call; [text] is what it means to write. [Framing]: the host's decoder of
      that format (harness/framing.py), chunk by chunk. [Utf8]: Rust's strings
      as UTF-8 bytes, slicing and trimming. [JsonDoc]: the JSON grammar of RFC
      8259 on UTF-8 text and a pushdown recogniser proved sound for it;
      [JsonText]: the pieces the kernel's documents are made of; [Docs]: every
      writer of the kernel writes a document, an echoed request id with
      superfluous zeros excepted.
    - [RpcJson], [RpcJsonProofs]: the structural JSON reader, the id echo and the
      idempotency window (rpc.rs), against a JSON syntax with a printer.
      [Walkers]: the reader with the bounds check of every index written out, and
      that none of them fails.
    - [KState]: every static of the kernel as a field of [K], the machine below
      as streams (console polls, clock increments, interrupts), and the state
      monad [M] the kernel code is written in. Code that never returns ends with
      an [exit]. An index out of range is a panic ([in_bounds], the lookups of
      slots, checkpoints and images, [glyph]); an index that the source reduces
      modulo the length of its array or masks to it on the spot (the rings, the
      key ring, the operation ids, the base64 alphabet, the bitmap) is a total
      lookup.
    - [BuildRs]: the build script (build.rs). [Sbi]: the firmware calls
      (hal/sbi.rs) under a firmware that is a parameter, and the console and
      timer operations of [KState] as refinements of them.
    - [Hart]: a hart with registers, supervisor CSRs and the instructions the
      assembly uses, and the CSR functions (hal/csr.rs). [Vector],
      [VectorProofs]: the trap vector, __resume_user and the shim between them
      (hal/trap.rs) and the boot entry (hal/boot.rs), line by line.
    - [Traps], [TrapsProofs]: trap frames and their serialisation, the two trap
      rings, the digest, re-arming the timer (traps.rs).
    - [Payload]: the image table, the process table and suites, every event,
      every syscall hook, checkpoints, preemption, operator verbs and keys
      (payload.rs). [Base64]: the pixel encoder. [Syscall]: the dispatch
      (syscall.rs). [Handler]: the trap handler and the fault reports (traps.rs).
      [Rpc]: frame reader, methods, tools and resources (rpc.rs).
    - [Sched]: the scheduler ([run], [start], [service_console]), the command
      loop and boot (payload.rs, main.rs), and the machine as a step relation.
      [Panic]: the panic handler (main.rs).
    - [Userland], [UserlandProofs]: the payload runtime (payloads/sys) and the
      fixtures, as programs that run on the kernel model.
    - [KRun], [Demo]: evaluation lemmas for the monad and a concrete kernel the
      theorems are instantiated at. [SyscallProofs], [PreemptProofs],
      [HandlerProofs], [RpcProofs], [KeysProofs]: what each operation does, as
      equations on the whole state. [KSpec], [SchedInv], [SchedProofs]: the
      invariant of the reachable machine. [Iso], [IsoCode], [Isolation]: the
      claims the state has on the pool, a triple for code that takes frames and
      puts them into the state, proved for every kernel function, and memory
      isolation of the reachable machine. [TrapMachine]: a hart and a
      state of the machine that agree, the trap stack's bytes included, and the
      assembly as a step of the machine. [Checkpoint]: what becomes of a
      checkpoint along a run, and where a continuation starts. [Sound]: a type
      discipline for the state under which no kernel code panics. [Progress]:
      the scheduler reaches a payload or the command loop. [Events]: the ids,
      the documents and the frames on the wire. [Traces]: concrete runs from
      reset, and the runs that show defects. [Overflow]: the fixture that runs
      out of stack, in any reachable state. [Fork]: a run that takes a
      checkpoint, writes on and continues it.

    ** The machine

    [step] alternates kernel code, which is a run of the monad, with a payload,
    which is an adversary: it may end in any user-mode frame and change any byte
    its own page table lets it write. A trap out of it runs [handle] on any
    cause. Kernel code runs with interrupts off inside the handler and while a
    frame is built and sent; elsewhere a timer interrupt can hit. [irq_point]
    marks the places where one may: around the reaping and servicing in [run],
    and after CURRENT is set in [start] before and after the start event. A wait
    for input parks the hart until an interrupt comes: [wait_for_interrupt]
    takes the next one of the stream, or the tick of the armed timer. Elsewhere
    CURRENT is empty, so that a tick would only record, count, re-arm and report
    itself, or interrupts are off. The operator and the clock are arbitrary:
    [step_input] replaces the streams (a frame saved at an interrupt has the 31
    registers of its array).

    The machine ends where its future is not the kernel's code any more: in
    [COff], and in [CKernel], the state after an sret into supervisor mode at a
    saved frame that is not a payload's, which the defect of a tick in [start]
    reaches ([preempt_in_start_resumes_kernel]). Of [CKernel] only [step_input]
    is a step: what runs there, the kernel's own code under a payload's page
    table, is not modelled, and what holds "in every reachable state" says
    nothing about what such a run goes on to do.

    ** What the theorems show

    - Memory: the allocator hands out zeroed, disjoint frames and accounts for
      them; page tables refine an abstract map; the kernel reads for a payload
      exactly what of the pool the payload's own loads would read; the kernel's
      gigapage is closed to payloads, to the last byte of a buffer; destroy
      returns what a space owns, but for pages without any permission; deep_copy
      yields a space that reads like its source, in frames of its own, or
      leaves the pool as it was.
    - Isolation: in every reachable state no frame belongs to two of the kernel's
      table, the slots and the checkpoints, and a payload in user mode changes
      neither its own mappings nor anything of anybody else.
    - Checkpoints: until it is discarded nothing changes a checkpoint, and a
      continuation queued from it starts with the memory and the registers of
      the payload at the call, but for the result.
    - Loading: a loaded image is in place, bytes and permissions, never writable
      and executable at once, and nothing else has changed; the loader is total
      on arbitrary bytes in a release build, and with overflow checks on every
      image without a file range that wraps.
    - The machine: in every reachable state capabilities are within their
      image's ceiling and their parent's grant, at most one payload runs, and
      no kernel code panics in a release build; left alone, the scheduler settles
      in a bounded number of rounds.
    - The wire: in every reachable state what was sent is a sequence of whole
      frames, each with one JSON document whatever payloads and operator
      supplied (but for the superfluous zeros of an echoed id), with strictly
      increasing event ids; and the host's decoder recovers exactly those
      frames' bodies, however the line is cut.
    - Assembly: __resume_user and a whole trap through the vector are equivalent
      to loading and saving the frames the kernel model works on; a trap of a
      hart that runs a payload, from the vector through the handler to sret, is
      a step of the machine; the boot entry clears exactly the zero-initialised
      memory.
    - Payloads: the isolation, recursion and delegation fixtures behave as
      their comments say, end to end, from their source through the kernel to
      the wire.
    - Syscalls and traps: the capability gate, spawn, write, blit, frame chunks,
      deadlines, faults, preemption and resumption, saved frames, each on every
      branch, with the exact events they send; the rings, the digest and the
      tick cadence.
    - Control plane: framing, a stalled sender, the JSON reader, one answer per
      request, replays within the window of eight ids, the busy guard, the operator verbs; frames are sent whole or not at all
      and payload bytes cannot leave the string they are confined to.
    - Defects: [Traces] and [ElfProofs] hold runs in which the code falls short
      (a tick in [start] that resumes the kernel as a payload, frames lost to a
      kill followed by a suite, frames lost by the loader).

    ** Bounds and fuel

    Integers are Z with wrap-around written out where the code wraps. Loops over
    memory or input carry fuel that is proved, or by construction, enough: a
    copy takes at least a byte per round, a segment a frame of the pool per
    round, a console loop a poll per round. The event counter is kept as the
    number of ids taken, its value is that number modulo 2^64.

    ** Not modelled

    The linker script (its addresses are parameters), the C payloads, the host
    harness but for its frame decoder. Caches of translations: an sfence has no
    effect to model. The compiled Rust code of the handler: [TrapMachine] runs
    [handle] on the frame the vector pushed, as a function from the memory and
    the frame to their new values, not as instructions. A payload's embedded
    bytes, the features, the profile and link-time addresses are the parameters
    [Build], [Link] and [Binary]; the firmware and the hart's choices among
    legal CSR values are [Firmware] and [Isa].

    With no theorem of its own: that every allocated frame belongs to somebody.
    It does not hold (frames are lost on the paths under Defects); what holds is
    that whatever somebody has is allocated, and his alone. *)

From Stdlib Require Export ZArith Lia Bool.
From Stdlib Require Import Strings.String Strings.Byte.
From stdpp Require Export base tactics decidable list list_numbers option gmap.
From coqutil Require Export Byte.
From coqutil Require Import Word.LittleEndianList Z.bitblast.

Export Strings.Byte.
Export Stdlib.Strings.String.StringSyntax.

Global Open Scope Z_scope.

(** ** Bytes and text *)

Abbreviation bytes := (list byte).

#[export] Instance byte_eq_decision : EqDecision byte := Byte.byte_eq_dec.

Definition bz (b : byte) : Z := byte.unsigned b.

(** Equality of bytes through their values. *)
Definition beq (a b : byte) : bool := Byte.eqb a b.

(** The bytes of a string literal of the source. *)
Definition lit (s : string) : bytes := String.list_byte_of_string s.

(** JSON text: the literals of the source are raw strings full of double
    quotes; here an apostrophe stands for each of them. *)
Definition js (s : string) : bytes :=
  map (fun b => if beq b x27 then x22 else b) (lit s).

(** ** Machine integers: [u64]/[usize], [u32] and [isize] as Z *)

Definition W64 : Z := 18446744073709551616.
Definition W32 : Z := 4294967296.
Definition wrap64 (z : Z) : Z := z mod W64.
Definition wrap32 (z : Z) : Z := z mod W32.
Definition u64_ok (z : Z) : Prop := 0 <= z < W64.
Definition u32_ok (z : Z) : Prop := 0 <= z < W32.

(** [x as isize] of a [usize], and back. *)
Definition as_isize (z : Z) : Z :=
  if z <? 9223372036854775808 then z else z - W64.
Definition as_u64 (z : Z) : Z := wrap64 z.

(** [checked_add] and [checked_mul] on [usize]. *)
Definition checked_add (a b : Z) : option Z :=
  if a + b <? W64 then Some (a + b) else None.
Definition checked_mul (a b : Z) : option Z :=
  if a * b <? W64 then Some (a * b) else None.

Definition saturating_sub (a b : Z) : Z := Z.max 0 (a - b).

(** ** Number formatting ([{}], [{:x}], [{:04x}]) *)

Definition digit (d : Z) : byte :=
  byte.of_Z (if d <? 10 then 48 + d else 87 + d).

Fixpoint digits (fuel : nat) (base n : Z) (acc : bytes) : bytes :=
  match fuel with
  | O => acc
  | S f =>
      let acc' := digit (n mod base) :: acc in
      if n / base =? 0 then acc' else digits f base (n / base) acc'
  end.

(** Decimal and lower-case hexadecimal of a [u64]; the fuel is the number of
    digits of the largest one. *)
Definition dec (n : Z) : bytes := digits 20 10 (wrap64 n) [].
Definition hex (n : Z) : bytes := digits 16 16 n [].
Definition dec_i (z : Z) : bytes :=
  if z <? 0 then lit "-" ++ dec (- z) else dec z.
Definition hex04 (n : Z) : bytes :=
  let h := hex n in replicate (4 - length h)%nat x30 ++ h.
Definition dec_bool (b : bool) : bytes := if b then lit "true" else lit "false".

(** ** Little-endian words *)

Definition le_bytes (n : nat) (z : Z) : bytes := le_split n z.
Definition le_word (l : bytes) : Z := le_combine l.

(** ** Tactics *)

(** Case analysis on every boolean test of the goal and the hypotheses. *)
Ltac break_match :=
  repeat match goal with
  | |- context [ match ?x with _ => _ end ] =>
      lazymatch x with context [ match _ with _ => _ end ] => fail | _ => destruct x eqn:? end
  | H : context [ match ?x with _ => _ end ] |- _ =>
      lazymatch x with context [ match _ with _ => _ end ] => fail | _ => destruct x eqn:? end
  end.

(** Turn boolean comparisons on Z into propositions and finish with lia. *)
Ltac zbool :=
  repeat match goal with
  | H : andb _ _ = true |- _ => apply andb_prop in H as [? ?]
  | H : orb _ _ = false |- _ => apply orb_false_elim in H as [? ?]
  | H : negb _ = true |- _ => apply negb_true_iff in H
  | H : negb _ = false |- _ => apply negb_false_iff in H
  | H : (_ =? _) = true |- _ => apply Z.eqb_eq in H
  | H : (_ =? _) = false |- _ => apply Z.eqb_neq in H
  | H : (_ <? _) = true |- _ => apply Z.ltb_lt in H
  | H : (_ <? _) = false |- _ => apply Z.ltb_ge in H
  | H : (_ <=? _) = true |- _ => apply Z.leb_le in H
  | H : (_ <=? _) = false |- _ => apply Z.leb_gt in H
  end.

Create HintDb kernai.

(** ** Shared lemmas *)

Lemma bz_range (b : byte) : 0 <= bz b < 256.
Proof. exact (byte.unsigned_range b). Qed.

Lemma bz_of_Z (z : Z) : 0 <= z < 256 -> bz (byte.of_Z z) = z.
Proof. intros H. unfold bz. rewrite byte.unsigned_of_Z. apply Z.mod_small. exact H. Qed.

Lemma beq_eq (a b : byte) : beq a b = true <-> a = b.
Proof.
  unfold beq. split.
  - apply Byte.byte_dec_bl.
  - apply Byte.byte_dec_lb.
Qed.

Lemma beq_neq (a b : byte) : beq a b = false <-> a <> b.
Proof. rewrite <- beq_eq. destruct (beq a b); split; congruence. Qed.

Lemma wrap64_range (z : Z) : 0 <= wrap64 z < W64.
Proof. apply Z.mod_pos_bound. reflexivity. Qed.

Lemma wrap64_small (z : Z) : 0 <= z < W64 -> wrap64 z = z.
Proof. apply Z.mod_small. Qed.

#[export] Hint Resolve bz_range wrap64_range : kernai.

Lemma forallb_impl {T} (p q : T -> bool) (l : list T) :
  (forall x, p x = true -> q x = true) -> forallb p l = true -> forallb q l = true.
Proof.
  intros H. induction l as [|x l IH]; [done|]. cbn. intros E.
  apply andb_prop in E as [Hx Hl]. by rewrite H, IH.
Qed.

(** *** Formatting lemmas *)

Lemma digits_acc (f : nat) (base n : Z) (acc : bytes) :
  digits f base n acc = digits f base n [] ++ acc.
Proof.
  revert n acc. induction f as [|f IH]; intros n acc; [done|].
  cbn [digits]. destruct (n / base =? 0); [done|].
  rewrite IH, (IH _ [_]), <- app_assoc. done.
Qed.

Lemma digits_length (f : nat) (base n : Z) (acc : bytes) :
  (length (digits f base n acc) <= f + length acc)%nat.
Proof.
  revert n acc. induction f as [|f IH]; intros n acc; [done|].
  cbn [digits]. destruct (n / base =? 0); [cbn; lia|].
  specialize (IH (n / base) (digit (n mod base) :: acc)). cbn in IH. lia.
Qed.

Lemma dec_length (n : Z) : (length (dec n) <= 20)%nat.
Proof. pose proof (digits_length 20 10 (wrap64 n) []). cbn [length] in *. unfold dec. lia. Qed.

Lemma hex_length (n : Z) : (length (hex n) <= 16)%nat.
Proof. pose proof (digits_length 16 16 n []). cbn in *. unfold hex. lia. Qed.

Definition is_digit (b : byte) : bool := (48 <=? bz b) && (bz b <=? 57).

(** The value of a decimal numeral, read from the left. *)
Definition undec (l : bytes) : Z := fold_left (fun a b => a * 10 + (bz b - 48)) l 0.

Lemma bz_digit (d : Z) : 0 <= d < 10 -> bz (digit d) = 48 + d.
Proof.
  intros H. unfold digit. destruct (d <? 10) eqn:E; zbool; [|lia].
  apply bz_of_Z. lia.
Qed.

Lemma undec_snoc (l : bytes) (b : byte) : undec (l ++ [b]) = undec l * 10 + (bz b - 48).
Proof. unfold undec. rewrite fold_left_app. done. Qed.

Lemma digits_undec (f : nat) (n : Z) :
  0 <= n < 10 ^ Z.of_nat f -> undec (digits f 10 n []) = n.
Proof.
  revert n. induction f as [|f IH]; intros n Hn; [cbn in *; lia|].
  cbn [digits]. rewrite Nat2Z.inj_succ, Z.pow_succ_r in Hn by lia.
  pose proof (Z.mod_pos_bound n 10 ltac:(lia)) as Hm.
  pose proof (Z.div_mod n 10 ltac:(lia)) as Hd.
  assert (0 <= n / 10 < 10 ^ Z.of_nat f) as Hq.
  { split; [apply Z.div_pos; lia|apply Z.div_lt_upper_bound; lia]. }
  destruct (n / 10 =? 0) eqn:E; zbool.
  - unfold undec. cbn [fold_left]. rewrite bz_digit by lia. lia.
  - rewrite digits_acc, undec_snoc, IH, bz_digit by lia. lia.
Qed.

Lemma dec_undec (n : Z) : u64_ok n -> undec (dec n) = n.
Proof. intros H. unfold dec. rewrite wrap64_small by done. apply digits_undec. unfold u64_ok, W64 in H. lia. Qed.

Lemma digits_forall (P : byte -> Prop) (f : nat) (base n : Z) (acc : bytes) : 0 < base ->
  (forall d, 0 <= d < base -> P (digit d)) -> Forall P acc -> Forall P (digits f base n acc).
Proof.
  intros Hb Hd. revert n acc. induction f as [|f IH]; intros n acc Ha; [done|]. cbn [digits].
  assert (Forall P (digit (n mod base) :: acc)) as H by (constructor; [apply Hd, Z.mod_pos_bound; lia|done]).
  destruct (n / base =? 0); auto.
Qed.

Lemma dec_digits (n : Z) : Forall (fun b => is_digit b = true) (dec n).
Proof.
  apply digits_forall; [lia| |constructor]. intros d Hd. unfold is_digit. rewrite bz_digit by lia. lia.
Qed.

Lemma digits_nonempty (f : nat) (base n : Z) (acc : bytes) :
  acc <> [] \/ f <> O -> digits f base n acc <> [].
Proof.
  revert n acc. induction f as [|f IH]; intros n acc H; cbn [digits].
  - destruct H; done.
  - destruct (n / base =? 0); [done|]. apply IH. left. done.
Qed.

Lemma dec_nonempty (n : Z) : dec n <> [].
Proof. apply digits_nonempty. right. done. Qed.

(** *** Little-endian words *)

Lemma le_bytes_length (n : nat) (z : Z) : length (le_bytes n z) = n.
Proof. apply length_le_split. Qed.

Lemma le_word_bytes (n : nat) (z : Z) :
  0 <= z < 2 ^ (Z.of_nat n * 8) -> le_word (le_bytes n z) = z.
Proof. intros H. unfold le_word, le_bytes. rewrite le_combine_split. apply Z.mod_small. done. Qed.

Lemma le_word_range (l : bytes) : 0 <= le_word l < 2 ^ (8 * Z.of_nat (length l)).
Proof. apply le_combine_bound. Qed.

(** ** Rings: the last [N] values of a growing sequence

    A ring of [N] slots in which value number [n] of the sequence [xs] goes to
    slot [n mod N]. [ring_holds] is the representation invariant. *)

Section Ring.
Context {T : Type} (N : nat) (init : T).

Record ring_holds (ring xs : list T) : Prop := {
  ring_length : length ring = N;
  ring_recent : forall n, (length xs - N <= n < length xs)%nat -> ring !! (n mod N)%nat = xs !! n;
  ring_unused : forall i, (length xs <= i < N)%nat -> ring !! i = Some init
}.

Lemma ring_holds_init : ring_holds (replicate N init) [].
Proof.
  split; [apply length_replicate|cbn; intros; lia|].
  intros i Hi. apply lookup_replicate. split; [done|lia].
Qed.

Lemma mod_window (a b : nat) :
  (a < b)%nat -> (b - a < N)%nat -> (a mod N <> b mod N)%nat.
Proof.
  intros Hab Hn E.
  pose proof (Nat.div_mod_eq a N) as Ea. pose proof (Nat.div_mod_eq b N) as Eb.
  pose proof (Nat.Div0.div_le_mono a b N ltac:(lia)) as Hd.
  destruct (decide (a / N = b / N)%nat) as [Eq|Ne]; [rewrite Eq, E in Ea; lia|].
  assert (N * (a / N) + N <= N * (b / N))%nat by nia. lia.
Qed.

Lemma ring_holds_push (ring xs : list T) (v : T) : (0 < N)%nat ->
  ring_holds ring xs -> ring_holds (<[(length xs mod N)%nat := v]> ring) (xs ++ [v]).
Proof.
  intros HN [Hl Hr Hu].
  pose proof (Nat.mod_upper_bound (length xs) N ltac:(lia)) as Hm.
  split; rewrite ?length_insert, ?length_app; cbn [length]; [done| |].
  - intros n Hn. destruct (decide (n = length xs)) as [-> |Hne].
    + rewrite list_lookup_insert_eq, lookup_app_r, Nat.sub_diag by lia. done.
    + rewrite list_lookup_insert_ne by (apply not_eq_sym, mod_window; lia).
      rewrite lookup_app_l by lia. apply Hr. lia.
  - intros i Hi. rewrite list_lookup_insert_ne; [apply Hu; lia|].
    rewrite Nat.mod_small by lia. lia.
Qed.

(** The values in the ring are the last [N] of the sequence. *)
Lemma ring_holds_in (ring xs : list T) (v : T) : (0 < N)%nat ->
  ring_holds ring xs -> v <> init ->
  In v ring <-> In v (drop (length xs - N) xs).
Proof.
  intros HN [Hl Hr Hu] Hv. rewrite <- !list_elem_of_In, !list_elem_of_lookup. split.
  - intros [i Hi]. pose proof (lookup_lt_Some _ _ _ Hi) as Hlt.
    destruct (decide (length xs <= i)%nat) as [Hge|Hge]; [rewrite Hu in Hi by lia; congruence|].
    set (n := (length xs - 1 - (length xs - 1 - i) mod N)%nat).
    pose proof (Nat.mod_upper_bound (length xs - 1 - i) N ltac:(lia)) as Hm.
    pose proof (Nat.Div0.mod_le (length xs - 1 - i) N) as Hm2.
    assert (n mod N = i)%nat as En.
    { unfold n. pose proof (Nat.div_mod_eq (length xs - 1 - i) N) as E.
      replace (length xs - 1 - (length xs - 1 - i) mod N)%nat
        with (i + ((length xs - 1 - i) / N) * N)%nat by lia.
      rewrite Nat.Div0.mod_add, Nat.mod_small by lia. done. }
    exists (n - (length xs - N))%nat. rewrite lookup_drop.
    replace (length xs - N + (n - (length xs - N)))%nat with n by lia.
    rewrite <- Hr by lia. by rewrite En.
  - intros [i Hi]. rewrite lookup_drop in Hi. pose proof (lookup_lt_Some _ _ _ Hi) as Hlt.
    exists ((length xs - N + i) mod N)%nat. rewrite Hr by lia. done.
Qed.

End Ring.
