(* ===== verification/Hal.v ===== *)
(** * Physical memory (kernel/src/hal/boot.rs)

    The frame pool as a byte-addressed memory and the five bounds-checked
    accessors the safe code uses. An address outside the pool is refused, in
    the code by [None]/[false], here by [None]. The memory is total: only the
    bytes of the pool are ever read. *)

From S2P Require Import Prelude.

Definition mem : Type := Z -> byte.

Definition POOL_BASE : Z := 0x80400000.
Definition POOL_END : Z := 0x88000000.

(** [pool_ptr]: the access [pa, pa+len) lies wholly in the pool. *)
Definition pool_ptr (pa len : Z) : option Z :=
  match checked_add pa len with
  | None => None
  | Some e => if (pa <? POOL_BASE) || (POOL_END <? e) then None else Some pa
  end.

(** Raw byte access, used by the accessors below once [pool_ptr] agreed. *)
Definition load (m : mem) (pa : Z) (n : nat) : bytes :=
  map (fun i => m (pa + Z.of_nat i)) (seq 0 n).

Definition store (m : mem) (pa : Z) (bs : bytes) : mem := fun a =>
  if (pa <=? a) && (a <? pa + Z.of_nat (length bs))
  then nth (Z.to_nat (a - pa)) bs x00 else m a.

Definition fill0 (m : mem) (pa len : Z) : mem := fun a =>
  if (pa <=? a) && (a <? pa + len) then x00 else m a.

Definition phys_write (m : mem) (pa : Z) (bs : bytes) : option mem :=
  match pool_ptr pa (Z.of_nat (length bs)) with
  | Some dst => Some (store m dst bs)
  | None => None
  end.

Definition phys_zero (m : mem) (pa len : Z) : option mem :=
  match pool_ptr pa len with
  | Some dst => Some (fill0 m dst len)
  | None => None
  end.

Definition phys_read (m : mem) (pa : Z) (len : nat) : option bytes :=
  match pool_ptr pa (Z.of_nat len) with
  | Some src => Some (load m src len)
  | None => None
  end.

Definition phys_read_u64 (m : mem) (pa : Z) : option Z :=
  if negb (pa mod 8 =? 0) then None else
  match pool_ptr pa 8 with
  | Some p => Some (le_word (load m p 8))
  | None => None
  end.

Definition phys_write_u64 (m : mem) (pa val : Z) : option mem :=
  if negb (pa mod 8 =? 0) then None else
  match pool_ptr pa 8 with
  | Some p => Some (store m p (le_bytes 8 val))
  | None => None
  end.

(** ** Lemmas *)

Lemma load_length (m : mem) (pa : Z) (n : nat) : length (load m pa n) = n.
Proof. unfold load. rewrite length_map, length_seq. done. Qed.

Lemma load_ext (m m' : mem) (pa : Z) (n : nat) :
  (forall a, pa <= a < pa + Z.of_nat n -> m a = m' a) -> load m pa n = load m' pa n.
Proof.
  intros H. unfold load. apply map_ext_in. intros i Hi.
  apply in_seq in Hi. apply H. lia.
Qed.

Lemma load_lookup (m : mem) (pa : Z) (n i : nat) :
  (i < n)%nat -> load m pa n !! i = Some (m (pa + Z.of_nat i)).
Proof.
  intros H. unfold load. rewrite list_lookup_fmap.
  rewrite lookup_seq_lt by done. done.
Qed.

Lemma load_store_same (m : mem) (pa : Z) (bs : bytes) :
  load (store m pa bs) pa (length bs) = bs.
Proof.
  apply list_eq. intros i. destruct (decide (i < length bs)%nat) as [H|H].
  - rewrite load_lookup by done. unfold store.
    destruct (_ && _) eqn:E; zbool; [|lia].
    replace (Z.to_nat (pa + Z.of_nat i - pa)) with i by lia.
    symmetry.
    destruct (lookup_lt_is_Some_2 bs i H) as [b Hb]. rewrite Hb. f_equal.
    symmetry. rewrite nth_lookup, Hb. done.
  - rewrite !lookup_ge_None_2; rewrite ?load_length; [done|lia|lia].
Qed.

Lemma store_other (m : mem) (pa : Z) (bs : bytes) (a : Z) :
  ~ (pa <= a < pa + Z.of_nat (length bs)) -> store m pa bs a = m a.
Proof. intros H. unfold store. destruct (_ && _) eqn:E; zbool; [lia|done]. Qed.

Lemma fill0_other (m : mem) (pa len a : Z) :
  ~ (pa <= a < pa + len) -> fill0 m pa len a = m a.
Proof. intros H. unfold fill0. destruct (_ && _) eqn:E; zbool; [lia|done]. Qed.

Lemma fill0_in (m : mem) (pa len a : Z) :
  pa <= a < pa + len -> fill0 m pa len a = x00.
Proof. intros H. unfold fill0. destruct (_ && _) eqn:E; [done|]. apply andb_false_iff in E as [E|E]; zbool; lia. Qed.

Definition in_pool (pa len : Z) : Prop :=
  0 <= len /\ POOL_BASE <= pa /\ pa + len <= POOL_END.

Lemma pool_ptr_in (pa len : Z) : in_pool pa len -> pool_ptr pa len = Some pa.
Proof.
  unfold in_pool, pool_ptr, checked_add, POOL_BASE, POOL_END, W64. intros H.
  destruct (pa + len <? _) eqn:E; zbool; [|lia].
  destruct (_ || _) eqn:E2; [|done]. apply orb_true_iff in E2 as [?|?]; zbool; lia.
Qed.

Lemma pool_ptr_inv (pa len p : Z) :
  0 <= len -> pool_ptr pa len = Some p -> p = pa /\ in_pool pa len.
Proof.
  unfold in_pool, pool_ptr, checked_add. intros Hl H. break_match; simplify_eq.
  zbool. lia.
Qed.
