(* ===== verification/Frames.v ===== *)
(** * The physical frame allocator (kernel/src/frames.rs)

    A bitmap of the pool's 4 KiB frames, a search hint and a live count. The
    state also carries the pool memory, because [alloc] zeroes the frame it
    hands out. [pool_ok] is the allocator's invariant; the class
    [FrameAllocator] is what the page-table and loader proofs rely on. *)

From S2P Require Import Prelude Hal.

Definition FRAME_SIZE : Z := 4096.
Definition POOL_FRAMES : Z := (POOL_END - POOL_BASE) / FRAME_SIZE.
Definition BITMAP_WORDS : Z := (POOL_FRAMES + 63) / 64.

Record fpool := mkPool {
  bitmap : list Z;      (* BITMAP: one bit per frame, 64 per word *)
  next_hint : Z;        (* NEXT_HINT *)
  allocated : Z;        (* ALLOCATED *)
  pmem : mem            (* the pool memory itself *)
}.

Definition bm_word (bm : list Z) (i : Z) : Z := nth (Z.to_nat i) bm 0.
Definition bm_store (bm : list Z) (i v : Z) : list Z := <[Z.to_nat i := v]> bm.

Definition test (bm : list Z) (frame : Z) : bool :=
  negb (Z.land (bm_word bm (frame / 64)) (Z.shiftl 1 (frame mod 64)) =? 0).

Definition set (bm : list Z) (frame : Z) : list Z :=
  bm_store bm (frame / 64)
    (Z.lor (bm_word bm (frame / 64)) (Z.shiftl 1 (frame mod 64))).

Definition clear (bm : list Z) (frame : Z) : list Z :=
  bm_store bm (frame / 64)
    (Z.land (bm_word bm (frame / 64)) (Z.lnot (Z.shiftl 1 (frame mod 64)))).

Definition frame_pa (frame : Z) : Z := POOL_BASE + frame * FRAME_SIZE.

(** The search loop of [alloc]: [n] candidates left, the next one is
    [(start + i) % POOL_FRAMES]. [hal::phys_zero]'s result is ignored. *)
Fixpoint alloc_loop (n : nat) (start i : Z) (p : fpool) : option Z * fpool :=
  match n with
  | O => (None, p)
  | S n' =>
      let frame := (start + i) mod POOL_FRAMES in
      if negb (test (bitmap p) frame) then
        let pa := frame_pa frame in
        (Some pa,
         {| bitmap := set (bitmap p) frame;
            next_hint := frame + 1;
            allocated := wrap64 (allocated p + 1);
            pmem := default (pmem p) (phys_zero (pmem p) pa FRAME_SIZE) |})
      else alloc_loop n' start (i + 1) p
  end.

Definition alloc (p : fpool) : option Z * fpool :=
  alloc_loop (Z.to_nat POOL_FRAMES) (next_hint p mod POOL_FRAMES) 0 p.

Definition free (pa : Z) (p : fpool) : fpool :=
  if negb ((POOL_BASE <=? pa) && (pa <? POOL_END))
     || negb ((pa - POOL_BASE) mod FRAME_SIZE =? 0)
  then p else
  let frame := (pa - POOL_BASE) / FRAME_SIZE in
  if test (bitmap p) frame then
    {| bitmap := clear (bitmap p) frame; next_hint := next_hint p;
       allocated := wrap64 (allocated p - 1); pmem := pmem p |}
  else p.

Definition stats (p : fpool) : Z * Z := (allocated p, POOL_FRAMES).

(** The pool at boot: the statics are zero-initialised. *)
Definition pool_init (m : mem) : fpool :=
  {| bitmap := replicate (Z.to_nat BITMAP_WORDS) 0; next_hint := 0;
     allocated := 0; pmem := m |}.

Definition with_mem (p : fpool) (m : mem) : fpool :=
  {| bitmap := bitmap p; next_hint := next_hint p;
     allocated := allocated p; pmem := m |}.

(** ** Invariant and abstract view *)

(** A frame address: page-aligned and inside the pool. *)
Definition frame_addr (pa : Z) : Prop :=
  POOL_BASE <= pa < POOL_END /\ (pa - POOL_BASE) mod FRAME_SIZE = 0.

Definition owned (p : fpool) (pa : Z) : Prop :=
  frame_addr pa /\ test (bitmap p) ((pa - POOL_BASE) / FRAME_SIZE) = true.

(** Number of set bits among the pool's frames. *)
Definition live (bm : list Z) : list Z :=
  filter (fun f => test bm f = true) (seqZ 0 POOL_FRAMES).

Definition pool_ok (p : fpool) : Prop :=
  length (bitmap p) = Z.to_nat BITMAP_WORDS /\
  allocated p = Z.of_nat (length (live (bitmap p))) /\
  0 <= next_hint p <= POOL_FRAMES.

(** ** Bitmap lemmas *)

Lemma pool_frames_val : POOL_FRAMES = 31744.
Proof. reflexivity. Qed.
Lemma bitmap_words_val : BITMAP_WORDS = 496.
Proof. reflexivity. Qed.

Lemma land_bit (w k : Z) : 0 <= k ->
  negb (Z.land w (Z.shiftl 1 k) =? 0) = Z.testbit w k.
Proof.
  intros Hk. destruct (Z.testbit w k) eqn:E.
  - apply negb_true_iff, Z.eqb_neq. intros H.
    apply (f_equal (fun z => Z.testbit z k)) in H.
    rewrite Z.land_spec, E, Z.shiftl_1_l, Z.pow2_bits_true, Z.bits_0 in H by lia. done.
  - apply negb_false_iff, Z.eqb_eq. apply Z.bits_inj. intros n.
    rewrite Z.land_spec, Z.bits_0, Z.shiftl_1_l, Z.pow2_bits_eqb by lia.
    destruct (k =? n) eqn:En; [|by rewrite andb_false_r].
    apply Z.eqb_eq in En. subst n. by rewrite E.
Qed.

Lemma test_testbit (bm : list Z) (f : Z) :
  test bm f = Z.testbit (bm_word bm (f / 64)) (f mod 64).
Proof. apply land_bit. apply Z.mod_pos_bound. lia. Qed.

Lemma bm_word_store (bm : list Z) (i j v : Z) :
  0 <= i -> 0 <= j -> (Z.to_nat i < length bm)%nat ->
  bm_word (bm_store bm i v) j = if i =? j then v else bm_word bm j.
Proof.
  intros Hi Hj Hl. unfold bm_word, bm_store. rewrite !nth_lookup.
  destruct (i =? j) eqn:E; zbool.
  - subst j. rewrite list_lookup_insert_eq by done. done.
  - rewrite list_lookup_insert_ne by lia. done.
Qed.

Section Bitmap.
Context (bm : list Z) (Hlen : length bm = Z.to_nat BITMAP_WORDS).

Lemma word_in_range (f : Z) :
  0 <= f < POOL_FRAMES -> 0 <= f / 64 /\ (Z.to_nat (f / 64) < length bm)%nat.
Proof.
  rewrite Hlen, bitmap_words_val, pool_frames_val. intros H.
  assert (0 <= f / 64 < 496) by (split; [apply Z.div_pos|apply Z.div_lt_upper_bound]; lia).
  lia.
Qed.

Lemma same_bit (f g : Z) :
  (f / 64 = g / 64 /\ f mod 64 = g mod 64) <-> f = g.
Proof.
  split; [|by intros ->]. intros [H1 H2].
  rewrite (Z.div_mod f 64), (Z.div_mod g 64) by lia. lia.
Qed.

Lemma test_set (f g : Z) :
  0 <= f < POOL_FRAMES -> 0 <= g < POOL_FRAMES ->
  test (set bm f) g = (f =? g) || test bm g.
Proof.
  intros Hf Hg. pose proof (word_in_range f Hf) as [Hf1 Hf2].
  pose proof (word_in_range g Hg) as [Hg1 _].
  pose proof (same_bit f g) as Hs.
  pose proof (Z.mod_pos_bound f 64 ltac:(lia)). pose proof (Z.mod_pos_bound g 64 ltac:(lia)).
  rewrite !test_testbit. unfold set. rewrite bm_word_store by done.
  destruct (f / 64 =? g / 64) eqn:E; zbool.
  - rewrite Z.lor_spec, Z.shiftl_1_l, Z.pow2_bits_eqb, E by lia.
    destruct (f mod 64 =? g mod 64) eqn:E2; zbool.
    + replace f with g by (symmetry; apply Hs; done). by rewrite Z.eqb_refl, orb_true_r.
    + destruct (f =? g) eqn:E3; zbool; [subst; lia|]. by rewrite orb_false_r.
  - destruct (f =? g) eqn:E3; zbool; [subst; lia|done].
Qed.

Lemma test_clear (f g : Z) :
  0 <= f < POOL_FRAMES -> 0 <= g < POOL_FRAMES ->
  test (clear bm f) g = negb (f =? g) && test bm g.
Proof.
  intros Hf Hg. pose proof (word_in_range f Hf) as [Hf1 Hf2].
  pose proof (word_in_range g Hg) as [Hg1 _].
  pose proof (same_bit f g) as Hs.
  pose proof (Z.mod_pos_bound f 64 ltac:(lia)). pose proof (Z.mod_pos_bound g 64 ltac:(lia)).
  rewrite !test_testbit. unfold clear. rewrite bm_word_store by done.
  destruct (f / 64 =? g / 64) eqn:E; zbool.
  - rewrite Z.land_spec, Z.lnot_spec, Z.shiftl_1_l, Z.pow2_bits_eqb, E by lia.
    destruct (f mod 64 =? g mod 64) eqn:E2; zbool.
    + replace f with g by (symmetry; apply Hs; done). by rewrite Z.eqb_refl, andb_false_r.
    + destruct (f =? g) eqn:E3; zbool; [subst; lia|]. by rewrite andb_true_r.
  - destruct (f =? g) eqn:E3; zbool; [subst; lia|done].
Qed.

Lemma set_length (f : Z) : length (set bm f) = length bm.
Proof. apply length_insert. Qed.
Lemma clear_length (f : Z) : length (clear bm f) = length bm.
Proof. apply length_insert. Qed.

End Bitmap.

Lemma filter_ext_in {A} (P Q : A -> Prop)
    `{!forall x, Decision (P x)} `{!forall x, Decision (Q x)} (l : list A) :
  (forall y, y ∈ l -> (P y <-> Q y)) -> filter P l = filter Q l.
Proof.
  induction l as [|a l IH]; intros He; [done|]. rewrite !filter_cons.
  rewrite IH by (intros; apply He; by right). pose proof (He a ltac:(by left)).
  destruct (decide (P a)), (decide (Q a)); tauto.
Qed.

(** Counting: changing a predicate at one element of a duplicate-free list
    changes the filtered length by one. *)
Lemma filter_add_one {A} `{EqDecision A} (P Q : A -> Prop)
    `{!forall x, Decision (P x)} `{!forall x, Decision (Q x)} (l : list A) (x : A) :
  NoDup l -> x ∈ l -> ~ P x -> Q x -> (forall y, y ∈ l -> y <> x -> (P y <-> Q y)) ->
  length (filter Q l) = S (length (filter P l)).
Proof.
  induction l as [|a l IH]; intros Hnd Hx HP HQ He; [by inversion Hx|].
  apply NoDup_cons in Hnd as [Ha Hnd]. rewrite !filter_cons.
  destruct (decide (a = x)) as [->|Hne].
  - destruct (decide (Q x)); [|done]. destruct (decide (P x)); [done|]. cbn.
    f_equal. f_equal. apply filter_ext_in. intros y Hy. symmetry.
    apply He; [by right|]. intros ->. done.
  - assert (x ∈ l) as Hxl by (inversion Hx; congruence || done).
    specialize (IH Hnd Hxl HP HQ ltac:(intros; apply He; [by right|done])).
    pose proof (He a ltac:(by left) Hne).
    destruct (decide (P a)), (decide (Q a)); cbn; try tauto; lia.
Qed.

Lemma live_set (bm : list Z) (f : Z) :
  length bm = Z.to_nat BITMAP_WORDS -> 0 <= f < POOL_FRAMES -> test bm f = false ->
  length (live (set bm f)) = S (length (live bm)).
Proof.
  intros Hl Hf Ht. unfold live. apply filter_add_one with (x := f).
  - apply NoDup_seqZ.
  - apply elem_of_seqZ. lia.
  - congruence.
  - rewrite test_set, Z.eqb_refl by done. done.
  - intros y Hy Hne. apply elem_of_seqZ in Hy.
    rewrite test_set by (done || lia). destruct (f =? y) eqn:E; zbool; [lia|done].
Qed.

Lemma live_clear (bm : list Z) (f : Z) :
  length bm = Z.to_nat BITMAP_WORDS -> 0 <= f < POOL_FRAMES -> test bm f = true ->
  length (live bm) = S (length (live (clear bm f))).
Proof.
  intros Hl Hf Ht. unfold live. apply filter_add_one with (x := f).
  - apply NoDup_seqZ.
  - apply elem_of_seqZ. lia.
  - rewrite test_clear, Z.eqb_refl by done. done.
  - done.
  - intros y Hy Hne. apply elem_of_seqZ in Hy.
    rewrite test_clear by (done || lia). destruct (f =? y) eqn:E; zbool; [lia|done].
Qed.

Lemma live_le (bm : list Z) : (length (live bm) <= Z.to_nat POOL_FRAMES)%nat.
Proof.
  unfold live. etransitivity; [apply length_filter|]. rewrite length_seqZ. done.
Qed.

(** ** Frame addresses *)

Lemma frame_addr_pa (f : Z) : 0 <= f < POOL_FRAMES -> frame_addr (frame_pa f).
Proof.
  rewrite pool_frames_val. unfold frame_addr, frame_pa, POOL_BASE, POOL_END, FRAME_SIZE.
  intros H. split; [lia|].
  replace (0x80400000 + f * 4096 - 0x80400000) with (f * 4096) by lia. apply Z.mod_mul. lia.
Qed.

Lemma frame_index_pa (f : Z) : (frame_pa f - POOL_BASE) / FRAME_SIZE = f.
Proof.
  unfold frame_pa. replace (POOL_BASE + f * FRAME_SIZE - POOL_BASE) with (f * FRAME_SIZE) by lia.
  apply Z.div_mul. unfold FRAME_SIZE. lia.
Qed.

Lemma frame_addr_index (pa : Z) : frame_addr pa ->
  0 <= (pa - POOL_BASE) / FRAME_SIZE < POOL_FRAMES /\
  pa = frame_pa ((pa - POOL_BASE) / FRAME_SIZE).
Proof.
  rewrite pool_frames_val. unfold frame_addr, frame_pa, POOL_BASE, POOL_END, FRAME_SIZE.
  intros [H1 H2]. pose proof (Z.div_mod (pa - 0x80400000) 4096 ltac:(lia)).
  split; [split; [apply Z.div_pos|apply Z.div_lt_upper_bound]; lia|lia].
Qed.

Lemma frame_addr_in_pool (pa : Z) : frame_addr pa -> in_pool pa FRAME_SIZE.
Proof.
  intros H. apply frame_addr_index in H as [H ->]. rewrite pool_frames_val in H.
  unfold in_pool, frame_pa, POOL_BASE, POOL_END, FRAME_SIZE in *. lia.
Qed.

(** Distinct frames do not overlap. *)
Lemma frames_disjoint (f g a : Z) :
  frame_addr f -> frame_addr g -> f <> g ->
  f <= a < f + FRAME_SIZE -> ~ (g <= a < g + FRAME_SIZE).
Proof.
  intros Hf Hg Hne. apply frame_addr_index in Hf as [_ Ef]. apply frame_addr_index in Hg as [_ Eg].
  unfold frame_pa, FRAME_SIZE, POOL_BASE in *. lia.
Qed.

(** ** The operations *)

(** What [alloc] promises when it succeeds. *)
Definition alloc_ok (p : fpool) (pa : Z) (p' : fpool) : Prop :=
  frame_addr pa /\ ~ owned p pa /\
  (forall g, owned p' g <-> owned p g \/ g = pa) /\
  pmem p' = fill0 (pmem p) pa FRAME_SIZE /\
  allocated p' = allocated p + 1 /\ pool_ok p'.

Lemma alloc_step_ok (p : fpool) (f : Z) :
  pool_ok p -> 0 <= f < POOL_FRAMES -> test (bitmap p) f = false ->
  alloc_ok p (frame_pa f)
    {| bitmap := set (bitmap p) f; next_hint := f + 1;
       allocated := wrap64 (allocated p + 1);
       pmem := default (pmem p) (phys_zero (pmem p) (frame_pa f) FRAME_SIZE) |}.
Proof.
  intros (Hl & Ha & Hh) Hf Ht. pose proof (frame_addr_pa f Hf) as Hfa.
  assert (wrap64 (allocated p + 1) = allocated p + 1) as Hw.
  { apply wrap64_small. pose proof (live_le (bitmap p)) as Hle.
    rewrite pool_frames_val in Hle. unfold W64. lia. }
  split_and!; cbn.
  - done.
  - intros [_ H]. rewrite frame_index_pa in H. congruence.
  - intros g. unfold owned; cbn. split.
    + intros [Hg H]. pose proof (frame_addr_index g Hg) as [Hgi Hge].
      rewrite test_set in H by done. apply orb_true_iff in H as [H|H]; [|tauto].
      zbool. right. congruence.
    + intros [[Hg H]| ->].
      * split; [done|]. pose proof (frame_addr_index g Hg) as [Hgi _].
        rewrite test_set, H by done. apply orb_true_r.
      * split; [done|]. rewrite frame_index_pa, test_set, Z.eqb_refl by done. done.
  - unfold phys_zero. rewrite pool_ptr_in by (apply frame_addr_in_pool; done). done.
  - done.
  - split_and!; cbn; [rewrite set_length; done| |lia|rewrite pool_frames_val in *; lia].
    rewrite Hw, live_set by done. lia.
Qed.

Lemma alloc_loop_some (n : nat) (start i : Z) (p p' : fpool) (pa : Z) :
  pool_ok p -> alloc_loop n start i p = (Some pa, p') -> alloc_ok p pa p'.
Proof.
  intros Hp. revert i. induction n as [|n IH]; intros i H; [done|]. cbn [alloc_loop] in H.
  destruct (negb (test _ _)) eqn:E; [|eauto]. zbool. injection H as <- <-.
  apply alloc_step_ok; [done| |done]. apply Z.mod_pos_bound. rewrite pool_frames_val. lia.
Qed.

Lemma alloc_loop_none (n : nat) (start i : Z) (p p' : fpool) :
  alloc_loop n start i p = (None, p') ->
  p' = p /\ forall j, i <= j < i + Z.of_nat n -> test (bitmap p) ((start + j) mod POOL_FRAMES) = true.
Proof.
  revert i. induction n as [|n IH]; intros i H.
  - injection H as <-. split; [done|lia].
  - cbn [alloc_loop] in H. destruct (negb (test _ _)) eqn:E; [done|]. zbool.
    apply IH in H as [-> H]. split; [done|]. intros j Hj.
    destruct (decide (j = i)) as [->|]; [done|apply H; lia].
Qed.

Lemma alloc_none_full (p p' : fpool) :
  alloc p = (None, p') -> p' = p /\ forall pa, frame_addr pa -> owned p pa.
Proof.
  intros H. apply alloc_loop_none in H as [-> H]. split; [done|].
  intros pa Hpa. split; [done|]. pose proof (frame_addr_index pa Hpa) as [Hi _].
  set (f := (pa - POOL_BASE) / FRAME_SIZE) in *. rewrite pool_frames_val in Hi, H.
  specialize (H ((f - next_hint p mod 31744) mod 31744)).
  rewrite Zplus_mod_idemp_r in H.
  replace (next_hint p mod 31744 + (f - next_hint p mod 31744)) with f in H by lia.
  rewrite (Z.mod_small f) in H by lia. apply H.
  pose proof (Z.mod_pos_bound (f - next_hint p mod 31744) 31744 ltac:(lia)). lia.
Qed.

(** What [free] promises for an address it accepts. *)
Definition free_ok (p : fpool) (pa : Z) (p' : fpool) : Prop :=
  (forall g, owned p' g <-> owned p g /\ g <> pa) /\
  pmem p' = pmem p /\ next_hint p' = next_hint p /\
  allocated p' = allocated p - (if test (bitmap p) ((pa - POOL_BASE) / FRAME_SIZE) then 1 else 0) /\
  pool_ok p'.

Lemma free_frame (p : fpool) (pa : Z) :
  pool_ok p -> frame_addr pa -> free_ok p pa (free pa p).
Proof.
  intros (Hl & Ha & Hh) Hpa. pose proof (frame_addr_index pa Hpa) as [Hi He].
  destruct Hpa as [Hr Hm]. unfold free.
  destruct (_ || _) eqn:E.
  { apply orb_true_iff in E as [E|E]; zbool; [|lia].
    apply andb_false_iff in E as [E|E]; zbool; lia. }
  set (f := (pa - POOL_BASE) / FRAME_SIZE) in *.
  destruct (test (bitmap p) f) eqn:Ht.
  - pose proof (live_clear (bitmap p) f Hl Hi Ht) as Hc.
    assert (wrap64 (allocated p - 1) = allocated p - 1) as Hw.
    { apply wrap64_small. pose proof (live_le (bitmap p)) as Hle.
      rewrite pool_frames_val in Hle. unfold W64. lia. }
    unfold free_ok. fold f. rewrite Ht. split_and!; cbn; try done.
    + intros g. unfold owned; cbn. split.
      * intros [Hg H]. pose proof (frame_addr_index g Hg) as [Hgi Hge].
        rewrite test_clear in H by done. apply andb_true_iff in H as [H1 H2]. zbool.
        split; [done|]. intros ->. apply H1. done.
      * intros [[Hg H] Hne]. split; [done|]. pose proof (frame_addr_index g Hg) as [Hgi Hge].
        rewrite test_clear, H by done. destruct (f =? _) eqn:E2; zbool; [|done].
        exfalso. apply Hne. rewrite Hge, He. f_equal. done.
    + split_and!; cbn; [rewrite clear_length; done| |lia|lia]. lia.
  - unfold free_ok. fold f. rewrite Ht. split_and!; try done; try lia.
    intros g. split; [|tauto]. intros Hg. split; [done|]. intros ->. destruct Hg as [_ Hg].
    fold f in Hg. congruence.
Qed.

Lemma free_foreign (p : fpool) (pa : Z) : ~ frame_addr pa -> free pa p = p.
Proof.
  intros H. unfold free. destruct (_ || _) eqn:E; [done|]. zbool.
  exfalso. apply H. unfold frame_addr. lia.
Qed.

(** The interface the page tables, the loader and the scheduler rely on: a
    frame allocator over the pool, with an ownership predicate. *)
Class FrameAllocator (alloc : fpool -> option Z * fpool) (free : Z -> fpool -> fpool)
    (ok : fpool -> Prop) (own : fpool -> Z -> Prop) : Prop := {
  own_frame : forall p f, own p f -> frame_addr f;
  alloc_gives : forall p pa p', ok p -> alloc p = (Some pa, p') -> alloc_ok p pa p';
  alloc_exhausted : forall p p', alloc p = (None, p') -> p' = p /\ forall f, frame_addr f -> own p f;
  free_releases : forall p pa, ok p -> frame_addr pa -> free_ok p pa (free pa p);
  free_ignores : forall p pa, ~ frame_addr pa -> free pa p = p
}.

#[export] Instance frames_allocator : FrameAllocator alloc free pool_ok owned.
Proof.
  split.
  - by intros p f [H _].
  - intros p pa p' Hp H. eapply alloc_loop_some; eauto.
  - apply alloc_none_full.
  - apply free_frame.
  - apply free_foreign.
Qed.

Lemma filter_none (l : list Z) (n : nat) :
  filter (fun f => test (replicate n 0) f = true) l = [].
Proof.
  induction l as [|f l IH]; [done|]. rewrite filter_cons, decide_False; [done|].
  unfold test, bm_word. rewrite nth_lookup.
  destruct (replicate n 0 !! _) eqn:E; [apply lookup_replicate in E as [-> _]|]; done.
Qed.

Lemma pool_init_ok (m : mem) : pool_ok (pool_init m).
Proof.
  unfold pool_init. split_and!; cbn [bitmap allocated next_hint].
  - apply length_replicate.
  - unfold live. rewrite filter_none. reflexivity.
  - lia.
  - rewrite pool_frames_val. lia.
Qed.

(** ** Properties *)

(** C16: [alloc] on a well-formed pool either hands out a page-aligned pool
    frame that was free, now owned and zero-filled, with every other frame's
    ownership, the rest of memory and the live count (plus one) accounted for;
    or it reports exhaustion without touching anything, and then every frame
    of the pool is owned. *)
Theorem alloc_correct (p : fpool) : pool_ok p ->
  match alloc p with
  | (Some pa, p') => alloc_ok p pa p'
  | (None, p') => p' = p /\ forall f, frame_addr f -> owned p f
  end.
Proof.
  intros Hp. destruct (alloc p) as [[pa|] p'] eqn:E.
  - apply alloc_gives; done.
  - apply alloc_exhausted; done.
Qed.

Lemma alloc_correct_witness :
  exists p', alloc (pool_init (fun _ => xff)) = (Some POOL_BASE, p') /\
             alloc_ok (pool_init (fun _ => xff)) POOL_BASE p'.
Proof.
  pose proof (alloc_correct (pool_init (fun _ => xff)) (pool_init_ok _)) as Ha.
  assert (fst (alloc (pool_init (fun _ => xff))) = Some POOL_BASE) as E by (vm_compute; reflexivity).
  destruct (alloc (pool_init (fun _ => xff))) as [o p']. cbn in E. subst o. eauto.
Defined.

(** C17: returning a frame gives exactly that frame back: after a successful
    [alloc], [free] of the result restores the ownership of every frame and the
    live count, a second [free] of it changes nothing, and an address that is
    not a pool frame is ignored. *)
Theorem alloc_free_roundtrip (p p1 : fpool) (pa : Z) :
  pool_ok p -> alloc p = (Some pa, p1) ->
  let p2 := free pa p1 in
  pool_ok p2 /\ (forall g, owned p2 g <-> owned p g) /\ allocated p2 = allocated p /\
  free pa p2 = p2 /\ (forall pa', ~ frame_addr pa' -> free pa' p2 = p2).
Proof.
  intros Hp H. pose proof (alloc_gives p pa p1 Hp H) as (Hf & Hn & Ho & _ & Ha & Hp1).
  pose proof (free_releases p1 pa Hp1 Hf) as (Ho2 & _ & _ & Ha2 & Hp2). cbn.
  assert (owned p1 pa) as [_ Ht] by (apply Ho; by right). rewrite Ht in Ha2.
  split_and!; [done| |lia| |intros; by apply free_ignores].
  - intros g. rewrite Ho2, Ho. split; [tauto|]. intros Hg. split; [by left|]. intros ->. done.
  - assert (~ owned (free pa p1) pa) as Hno by (rewrite Ho2; tauto).
    clear Ht. revert Hno. generalize (free pa p1). intros q Hno. unfold free.
    destruct (_ || _); [done|]. destruct (test _ _) eqn:Ht2; [|done].
    exfalso. apply Hno. by split.
Qed.

Lemma alloc_free_roundtrip_witness :
  exists p', alloc (pool_init (fun _ => xff)) = (Some POOL_BASE, p') /\
             allocated (free POOL_BASE p') = 0.
Proof.
  assert (fst (alloc (pool_init (fun _ => xff))) = Some POOL_BASE) as E by (vm_compute; reflexivity).
  destruct (alloc (pool_init (fun _ => xff))) as [o p'] eqn:Ea. cbn in E. subst o.
  exists p'. split; [done|].
  destruct (alloc_free_roundtrip (pool_init (fun _ => xff)) p' POOL_BASE (pool_init_ok _) Ea) as (_ & _ & H & _).
  exact H.
Defined.
