(* ===== verification/Mm.v ===== *)
(** * Sv39 page tables: the operations (kernel/src/mm.rs)

    Page-table entries, the table walks and the operations that build, copy
    and tear down an address space, all over the pool state of [Frames]. An
    address space is its root frame. The recursion of [copy_user_pages] and
    [free_subtree] is on the level, the loops over the 512 slots are
    structural. Theorems about these definitions are in [MmSpec]. *)

From S2P Require Import Prelude Hal Frames.

Definition PAGE_SIZE : Z := 4096.

Definition V : Z := Z.shiftl 1 0.
Definition R : Z := Z.shiftl 1 1.
Definition W : Z := Z.shiftl 1 2.
Definition X : Z := Z.shiftl 1 3.
Definition U : Z := Z.shiftl 1 4.
Definition G : Z := Z.shiftl 1 5.
Definition A : Z := Z.shiftl 1 6.
Definition D : Z := Z.shiftl 1 7.
Definition PERM_MASK : Z := Z.lor (Z.lor R W) X.

Inductive MmError := NoFrame | Overlap | Unaligned.

(** ** PTE helpers *)

Definition vpn (va level : Z) : Z :=
  Z.land (Z.shiftr va (12 + 9 * level)) 0x1ff.
Definition read_pte (m : mem) (pa : Z) : Z := default 0 (phys_read_u64 m pa).
Definition write_pte (m : mem) (pa val : Z) : mem := default m (phys_write_u64 m pa val).
Definition pte_pa (pte : Z) : Z :=
  Z.shiftl (Z.land (Z.shiftr pte 10) 0xfffffffffff) 12.
Definition nonleaf (pa : Z) : Z :=
  Z.lor (wrap64 (Z.shiftl (Z.shiftr pa 12) 10)) V.
Definition leaf (pa perms : Z) : Z :=
  Z.lor (Z.lor (Z.lor (Z.lor (wrap64 (Z.shiftl (Z.shiftr pa 12) 10)) perms) V) A) D.

Definition has (pte mask : Z) : bool := negb (Z.land pte mask =? 0).

(** [satp] value of an address space: MODE = 8 (Sv39), ASID = 0. *)
Definition satp_of (root : Z) : Z := Z.lor (Z.shiftl 8 60) (Z.shiftr root 12).

(** ** Mapping *)

(** [AddressSpace::new]: a zeroed root table. *)
Definition space_new (p : fpool) : option Z * fpool := alloc p.

(** One iteration of the loop of [map_page] at [level]: follow or create the
    next table. *)
Definition map_step (p : fpool) (table va level : Z) : (MmError + Z) * fpool :=
  let slot := table + vpn va level * 8 in
  let pte := read_pte (pmem p) slot in
  if negb (has pte V) then
    match alloc p with
    | (None, p') => (inl NoFrame, p')
    | (Some next, p') => (inr next, with_mem p' (write_pte (pmem p') slot (nonleaf next)))
    end
  else if has pte PERM_MASK then (inl Overlap, p)
  else (inr (pte_pa pte), p).

(** The last step: write the leaf unless the slot is taken. *)
Definition map_leaf (p : fpool) (table va pa perms : Z) : (MmError + unit) * fpool :=
  let slot := table + vpn va 0 * 8 in
  if has (read_pte (pmem p) slot) V then (inl Overlap, p)
  else (inr tt, with_mem p (write_pte (pmem p) slot (leaf pa perms))).

Definition map_page (p : fpool) (root va pa perms : Z) : (MmError + unit) * fpool :=
  match map_step p root va 2 with
  | (inl e, p1) => (inl e, p1)
  | (inr t1, p1) =>
      match map_step p1 t1 va 1 with
      | (inl e, p2) => (inl e, p2)
      | (inr t0, p2) => map_leaf p2 t0 va pa perms
      end
  end.

Definition GIB : Z := Z.shiftl 1 30.

Definition map_gigapage (p : fpool) (root va pa perms : Z) : (MmError + unit) * fpool :=
  if negb (va mod GIB =? 0) || negb (pa mod GIB =? 0) then (inl Unaligned, p) else
  let slot := root + vpn va 2 * 8 in
  if has (read_pte (pmem p) slot) V then (inl Overlap, p)
  else (inr tt, with_mem p (write_pte (pmem p) slot (leaf pa perms))).

Definition KERNEL_GIGAPAGE_VA : Z := 0x80000000.

Definition map_kernel (p : fpool) (root : Z) : (MmError + unit) * fpool :=
  map_gigapage p root KERNEL_GIGAPAGE_VA KERNEL_GIGAPAGE_VA
    (Z.lor (Z.lor (Z.lor R W) X) G).

(** ** Translation *)

(** The loop of [translate_checked] over the remaining levels. *)
Fixpoint translate_levels (m : mem) (table va need : Z) (levels : list Z) : option Z :=
  match levels with
  | [] => None
  | level :: rest =>
      let pte := read_pte m (table + vpn va level * 8) in
      if negb (has pte V) then None
      else if has pte PERM_MASK then
        if negb (need =? 0) && (negb (has pte U) || negb (Z.land pte need =? need)) then None
        else
          let page := Z.shiftl 1 (12 + 9 * level) in
          Some (pte_pa pte + Z.land va (page - 1))
      else translate_levels m (pte_pa pte) va need rest
  end.

Definition translate_checked (m : mem) (root va need : Z) : option Z :=
  translate_levels m root va need [2; 1; 0].

Definition translate (m : mem) (root va : Z) : option Z := translate_checked m root va 0.

(** The loop of [copy_from_user]: [want] bytes still to copy, [done] copied.
    Each round copies at least one byte, so [want] rounds are enough. *)
Fixpoint copy_loop (fuel : nat) (m : mem) (root va done want : Z) : option bytes :=
  if want <=? 0 then Some [] else
  match fuel with
  | O => None
  | S f =>
      let cur := wrap64 (va + done) in
      match translate_checked m root cur (Z.lor U R) with
      | None => None
      | Some pa =>
          let page_left := PAGE_SIZE - cur mod PAGE_SIZE in
          let n := Z.min page_left want in
          match phys_read m pa (Z.to_nat n) with
          | None => None
          | Some chunk =>
              match copy_loop f m root va (done + n) (want - n) with
              | None => None
              | Some rest => Some (chunk ++ rest)
              end
          end
      end
  end.

Definition copy_from_user (m : mem) (root va : Z) (len : Z) : option bytes :=
  copy_loop (Z.to_nat len) m root va 0 len.

(** ** The diagnostic walk *)

(** [WalkChain]: up to three (level, pte) pairs, outermost first. *)
Definition WalkChain : Type := list (Z * Z).

Definition walk_push (c : WalkChain) (level pte : Z) : WalkChain :=
  if Z.of_nat (length c) <? 3 then c ++ [(level, pte)] else c.

Fixpoint walk_levels (m : mem) (table va : Z) (levels : list Z) (chain : WalkChain) : WalkChain :=
  match levels with
  | [] => chain
  | level :: rest =>
      let pte := read_pte m (table + vpn va level * 8) in
      let chain := walk_push chain level pte in
      if negb (has pte V) || has pte PERM_MASK then chain
      else walk_levels m (pte_pa pte) va rest chain
  end.

Definition walk (m : mem) (root va : Z) : WalkChain := walk_levels m root va [2; 1; 0] [].

(** ** Tear-down *)

Definition slots512 : list Z := seqZ 0 512.

(** [free_subtree table level]: the body of the loop for one slot, then the
    loop; [sub] is the recursive call at the level below. *)
Definition free_slot (sub : option (Z -> fpool -> fpool)) (table : Z) (p : fpool) (i : Z) : fpool :=
  let pte := read_pte (pmem p) (table + i * 8) in
  if negb (has pte V) then p
  else if has pte PERM_MASK then free (pte_pa pte) p
  else match sub with Some f => f (pte_pa pte) p | None => p end.

Fixpoint free_subtree (level : nat) (table : Z) (p : fpool) : fpool :=
  let sub := match level with O => None | S l => Some (free_subtree l) end in
  free table (fold_left (free_slot sub table) slots512 p).

Definition destroy_slot (root : Z) (p : fpool) (i : Z) : fpool :=
  let pte := read_pte (pmem p) (root + i * 8) in
  if negb (has pte V) || has pte PERM_MASK then p
  else free_subtree 1 (pte_pa pte) p.

Definition destroy (root : Z) (p : fpool) : fpool :=
  free root (fold_left (destroy_slot root) slots512 p).

(** ** Deep copy *)

(** The leaf case of [copy_user_pages]: a window outside the pool is aliased,
    a pool page is copied into a fresh frame. *)
Definition copy_leaf (dst va pte : Z) (p : fpool) : bool * fpool :=
  if negb (has pte U) then (true, p) else
  let src_frame := pte_pa pte in
  let perms := Z.land pte (Z.lor (Z.lor (Z.lor R W) X) U) in
  if negb ((POOL_BASE <=? src_frame) && (src_frame <? POOL_END)) then
    match map_page p dst va src_frame perms with
    | (inl _, p1) => (false, p1)
    | (inr _, p1) => (true, p1)
    end
  else
  match alloc p with
  | (None, p1) => (false, p1)
  | (Some new_frame, p1) =>
      match phys_read (pmem p1) src_frame (Z.to_nat PAGE_SIZE) with
      | None => (false, free new_frame p1)
      | Some buf =>
          match phys_write (pmem p1) new_frame buf with
          | None => (false, free new_frame p1)
          | Some m2 =>
              match map_page (with_mem p1 m2) dst va new_frame perms with
              | (inl _, p3) => (false, free new_frame p3)
              | (inr _, p3) => (true, p3)
              end
          end
      end
  end.

Definition copy_slot (sub : option (Z -> Z -> fpool -> bool * fpool)) (level : nat)
    (dst table va_base : Z) (st : bool * fpool) (i : Z) : bool * fpool :=
  let '(ok, p) := st in
  if negb ok then st else
  let pte := read_pte (pmem p) (table + i * 8) in
  if negb (has pte V) then (true, p) else
  let va := va_base + Z.shiftl i (12 + 9 * Z.of_nat level) in
  if has pte PERM_MASK then copy_leaf dst va pte p
  else match sub with
       | Some f => f (pte_pa pte) va p
       | None => (true, p)
       end.

(** [copy_user_pages(dst, table, level, va_base)]. *)
Fixpoint copy_user_pages (level : nat) (dst table va_base : Z) (p : fpool) : bool * fpool :=
  let sub := match level with O => None | S l => Some (copy_user_pages l dst) end in
  fold_left (copy_slot sub level dst table va_base) slots512 (true, p).

Definition deep_copy (p : fpool) (root : Z) : option Z * fpool :=
  match space_new p with
  | (None, p1) => (None, p1)
  | (Some dst, p1) =>
      match map_kernel p1 dst with
      | (inl _, p2) => (None, destroy dst p2)
      | (inr _, p2) =>
          match copy_user_pages 2 dst root 0 p2 with
          | (false, p3) => (None, destroy dst p3)
          | (true, p3) => (Some dst, p3)
          end
      end
  end.
