(* ===== verification/MmSpec.v ===== *)
(** * Sv39 page tables: the abstract address space and the refinement proofs

    [shape] is the ghost tree of an address space: a finite map from a path of
    table indices to the frame of the table found there ([[]] the root, [[i]] a
    level-1 table, [[i;j]] a level-0 table). [space_wf] ties a shape to the
    pool. [page_of] and [giga_of] are the abstract content: the 4 KiB and 1 GiB
    entries. The theorems show that the walks read exactly that content and
    that the mapping operations update it at one point. *)

From S2P Require Import Prelude Hal Frames Mm.

(** Goals about the flag constants. *)
Ltac flag_lia := unfold PERM_MASK, V, R, W, X, U, G, A, D in *; vm_compute; split; congruence.

(** ** Entries *)

Definition slot (t i : Z) : Z := t + i * 8.

Lemma vpn_range (va level : Z) : 0 <= vpn va level < 512.
Proof.
  unfold vpn. change 0x1ff with (Z.ones 9). rewrite Z.land_ones by lia.
  apply Z.mod_pos_bound. reflexivity.
Qed.

(** The two halves of an entry: the frame number above bit 10, flags below. *)
Lemma pte_parts (n f : Z) : 0 <= n < 2 ^ 44 -> 0 <= f < 1024 ->
  let e := Z.lor (Z.shiftl n 10) f in
  0 <= e < W64 /\ pte_pa e = n * 4096 /\
  (forall mask, 0 <= mask < 1024 -> Z.land e mask = Z.land f mask).
Proof.
  intros Hn Hf e.
  assert (e = n * 1024 + f) as He.
  { unfold e. rewrite Z.shiftl_mul_pow2 by lia. change (2 ^ 10) with 1024.
    rewrite <- (Z.mod_small f 1024) at 1 by lia.
    rewrite <- Z.add_nocarry_lor; [rewrite Z.mod_small by lia; lia|].
    apply Z.bits_inj'. intros b Hb. rewrite Z.land_spec, Z.bits_0.
    change 1024 with (2 ^ 10). destruct (decide (b < 10)).
    - rewrite Z.mul_pow2_bits_low by lia. done.
    - rewrite Z.mod_pow2_bits_high by lia. apply andb_false_r. }
  split_and!.
  - rewrite He. unfold W64. lia.
  - rewrite He. unfold W64. lia.
  - unfold pte_pa. rewrite He, Z.shiftr_div_pow2, Z.shiftl_mul_pow2 by lia.
    change (2 ^ 10) with 1024. change (2 ^ 12) with 4096.
    replace ((n * 1024 + f) / 1024) with n by (rewrite Z.div_add_l, Z.div_small by lia; lia).
    change 0xfffffffffff with (Z.ones 44). rewrite Z.land_ones, Z.mod_small by lia. done.
  - intros mask Hm. unfold e. rewrite Z.land_lor_distr_l.
    replace (Z.land (Z.shiftl n 10) mask) with 0; [done|]. symmetry.
    apply Z.bits_inj'. intros b Hb. rewrite Z.land_spec, Z.bits_0.
    destruct (decide (b < 10)); [rewrite Z.shiftl_spec_low by lia; done|].
    rewrite <- (Z.mod_small mask (2 ^ 10)), Z.mod_pow2_bits_high by lia.
    apply andb_false_r.
Qed.

(** Physical addresses a leaf can name: page-aligned, below 2^56. *)
Definition page_pa (pa : Z) : Prop := 0 <= pa < 2 ^ 56 /\ pa mod 4096 = 0.

Lemma page_pa_split (pa : Z) : page_pa pa ->
  exists n, pa = n * 4096 /\ 0 <= n < 2 ^ 44 /\
    wrap64 (Z.shiftl (Z.shiftr pa 12) 10) = Z.shiftl n 10.
Proof.
  intros [H Hm]. exists (pa / 4096). pose proof (Z.div_mod pa 4096 ltac:(lia)) as Hd.
  change (2 ^ 56) with 72057594037927936 in *. change (2 ^ 44) with 17592186044416.
  assert (0 <= pa / 4096 < 17592186044416).
  { split; [apply Z.div_pos|apply Z.div_lt_upper_bound]; lia. }
  split_and!; try lia. rewrite Z.shiftr_div_pow2 by lia. change (2 ^ 12) with 4096.
  apply wrap64_small. rewrite Z.shiftl_mul_pow2 by lia. change (2 ^ 10) with 1024.
  unfold W64. lia.
Qed.

Lemma frame_page_pa (t : Z) : frame_addr t -> page_pa t.
Proof.
  intros H. apply frame_addr_index in H as [H E]. rewrite pool_frames_val in H.
  revert H E. generalize ((t - POOL_BASE) / FRAME_SIZE). intros n H ->.
  unfold page_pa, frame_pa, POOL_BASE, FRAME_SIZE. change (2 ^ 56) with 72057594037927936.
  split; [lia|]. replace (0x80400000 + n * 4096) with ((525312 + n) * 4096) by lia.
  apply Z.mod_mul. lia.
Qed.

Lemma nonleaf_spec (t : Z) : frame_addr t ->
  0 <= nonleaf t < W64 /\ pte_pa (nonleaf t) = t /\
  has (nonleaf t) V = true /\ has (nonleaf t) PERM_MASK = false.
Proof.
  intros H. destruct (page_pa_split t (frame_page_pa t H)) as (n & -> & Hn & He).
  unfold nonleaf. rewrite He. destruct (pte_parts n V Hn) as (H1 & H2 & H3); [flag_lia|].
  split_and!; try done; try lia; unfold has; rewrite H3 by flag_lia; done.
Qed.

Definition leaf_flags (perms : Z) : Z := Z.lor (Z.lor (Z.lor perms V) A) D.

Lemma lor_bound (a b : Z) : 0 <= a < 1024 -> 0 <= b < 1024 -> 0 <= Z.lor a b < 1024.
Proof.
  intros Ha Hb. split; [apply Z.lor_nonneg; lia|].
  destruct (decide (Z.lor a b = 0)); [lia|]. change 1024 with (2 ^ 10).
  apply Z.log2_lt_pow2; [pose proof (proj2 (Z.lor_nonneg a b) ltac:(lia)); lia|].
  rewrite Z.log2_lor by lia. apply Z.max_lub_lt.
  - destruct (decide (a = 0)) as [-> |]; [cbn; lia|apply Z.log2_lt_pow2; lia].
  - destruct (decide (b = 0)) as [-> |]; [cbn; lia|apply Z.log2_lt_pow2; lia].
Qed.

Lemma leaf_spec (pa perms : Z) : page_pa pa -> 0 <= perms < 1024 ->
  0 <= leaf pa perms < W64 /\ pte_pa (leaf pa perms) = pa /\
  (forall mask, 0 <= mask < 1024 -> Z.land (leaf pa perms) mask = Z.land (leaf_flags perms) mask).
Proof.
  intros H Hp. destruct (page_pa_split pa H) as (n & -> & Hn & He).
  unfold leaf. rewrite He.
  replace (Z.lor (Z.lor (Z.lor (Z.lor (Z.shiftl n 10) perms) V) A) D)
    with (Z.lor (Z.shiftl n 10) (leaf_flags perms)) by (unfold leaf_flags; rewrite !Z.lor_assoc; done).
  apply pte_parts; [done|]. unfold leaf_flags. repeat apply lor_bound; done || flag_lia.
Qed.

(** ** Reading and writing slots *)

Lemma slot_in_frame (t i : Z) : 0 <= i < 512 -> t <= slot t i /\ slot t i + 8 <= t + FRAME_SIZE.
Proof. unfold slot, FRAME_SIZE. lia. Qed.

Lemma slot_access (t i : Z) : frame_addr t -> 0 <= i < 512 ->
  (slot t i mod 8 =? 0) = true /\ pool_ptr (slot t i) 8 = Some (slot t i).
Proof.
  intros Ht Hi. pose proof (frame_addr_in_pool t Ht) as (_ & Hl & Hh).
  pose proof (slot_in_frame t i Hi). split.
  - apply Z.eqb_eq. destruct Ht as [_ Ht]. unfold slot.
    rewrite Z.add_comm, Z.add_mod, Z.mod_mul, Z.add_0_l, Z.mod_mod by lia.
    pose proof (Z.div_mod (t - POOL_BASE) FRAME_SIZE ltac:(unfold FRAME_SIZE; lia)) as Hd.
    rewrite Ht in Hd. unfold POOL_BASE, FRAME_SIZE in *.
    replace t with ((268959744 + 512 * ((t - 0x80400000) / 4096)) * 8) by lia.
    apply Z.mod_mul. lia.
  - apply pool_ptr_in. unfold in_pool. lia.
Qed.

Lemma read_slot (m : mem) (t i : Z) : frame_addr t -> 0 <= i < 512 ->
  read_pte m (slot t i) = le_word (load m (slot t i) 8).
Proof.
  intros Ht Hi. destruct (slot_access t i Ht Hi) as [E1 E2].
  unfold read_pte, phys_read_u64. rewrite E1, E2. done.
Qed.

Lemma write_slot (m : mem) (t i v : Z) : frame_addr t -> 0 <= i < 512 ->
  write_pte m (slot t i) v = store m (slot t i) (le_bytes 8 v).
Proof.
  intros Ht Hi. destruct (slot_access t i Ht Hi) as [E1 E2].
  unfold write_pte, phys_write_u64. rewrite E1, E2. done.
Qed.

Lemma read_write_same (m : mem) (t i v : Z) :
  frame_addr t -> 0 <= i < 512 -> 0 <= v < W64 ->
  read_pte (write_pte m (slot t i) v) (slot t i) = v.
Proof.
  intros Ht Hi Hv. rewrite read_slot, write_slot by done.
  pose proof (load_store_same m (slot t i) (le_bytes 8 v)) as H.
  rewrite le_bytes_length in H. rewrite H. apply le_word_bytes. exact Hv.
Qed.

(** A read depends only on the eight bytes of its slot. *)
Lemma read_slot_ext (m m' : mem) (t i : Z) : frame_addr t -> 0 <= i < 512 ->
  (forall a, t <= a < t + FRAME_SIZE -> m a = m' a) ->
  read_pte m (slot t i) = read_pte m' (slot t i).
Proof.
  intros Ht Hi H. rewrite !read_slot by done. f_equal. apply load_ext.
  intros a Ha. apply H. pose proof (slot_in_frame t i Hi). lia.
Qed.

Lemma write_slot_outside (m : mem) (t i v a : Z) : frame_addr t -> 0 <= i < 512 ->
  ~ (t <= a < t + FRAME_SIZE) -> write_pte m (slot t i) v a = m a.
Proof.
  intros Ht Hi Ha. rewrite write_slot by done. apply store_other.
  rewrite le_bytes_length. pose proof (slot_in_frame t i Hi). lia.
Qed.

Lemma read_write_other (m : mem) (t i t' i' v : Z) :
  frame_addr t -> frame_addr t' -> 0 <= i < 512 -> 0 <= i' < 512 ->
  (t, i) <> (t', i') ->
  read_pte (write_pte m (slot t i) v) (slot t' i') = read_pte m (slot t' i').
Proof.
  intros Ht Ht' Hi Hi' Hne. rewrite !read_slot by done. f_equal. apply load_ext. intros a Ha.
  rewrite write_slot by done. apply store_other. rewrite le_bytes_length.
  destruct (decide (t = t')) as [<- |Hd].
  - assert (i <> i') by congruence. unfold slot in *. lia.
  - intros Hw. pose proof (slot_in_frame t i Hi). pose proof (slot_in_frame t' i' Hi').
    apply (frames_disjoint t t' a Ht Ht' Hd); lia.
Qed.

Lemma read_zeroed (m : mem) (t i : Z) : frame_addr t -> 0 <= i < 512 ->
  read_pte (fill0 m t FRAME_SIZE) (slot t i) = 0.
Proof.
  intros Ht Hi. rewrite read_slot by done.
  rewrite (load_ext _ (fun _ => x00)); [reflexivity|].
  intros a Ha. apply fill0_in. pose proof (slot_in_frame t i Hi). lia.
Qed.

Lemma read_fill_other (m : mem) (t n i : Z) :
  frame_addr t -> frame_addr n -> t <> n -> 0 <= i < 512 ->
  read_pte (fill0 m n FRAME_SIZE) (slot t i) = read_pte m (slot t i).
Proof.
  intros Ht Hn Hne Hi. apply read_slot_ext; [done..|]. intros a Ha. apply fill0_other.
  apply (frames_disjoint t n a); done.
Qed.

(** ** Shapes *)

Abbreviation shape := (gmap (list Z) Z).

Definition is_table (e : Z) : Prop := has e V = true /\ has e PERM_MASK = false.

Record space_wf (p : fpool) (sh : shape) (root : Z) : Prop := {
  wf_pool : pool_ok p;
  wf_root : sh !! [] = Some root;
  wf_inj : forall k k' t, sh !! k = Some t -> sh !! k' = Some t -> k = k';
  wf_own : forall k t, sh !! k = Some t -> owned p t;
  wf_path : forall k i, is_Some (sh !! (k ++ [i])) ->
    is_Some (sh !! k) /\ (length k < 2)%nat /\ 0 <= i < 512;
  wf_entry : forall k t i, sh !! k = Some t -> (length k < 2)%nat -> 0 <= i < 512 ->
    match sh !! (k ++ [i]) with
    | Some t' => read_pte (pmem p) (slot t i) = nonleaf t'
    | None => ~ is_table (read_pte (pmem p) (slot t i))
    end
}.

(** The 4 KiB entry at indices [i2 i1 i0], and the root's large leaf. *)
Definition valid (e : Z) : option Z := if has e V then Some e else None.

Definition page_of (p : fpool) (sh : shape) (i2 i1 i0 : Z) : option Z :=
  match sh !! [i2; i1] with
  | Some t0 => valid (read_pte (pmem p) (slot t0 i0))
  | None => None
  end.

Definition mega_of (p : fpool) (sh : shape) (i2 i1 : Z) : option Z :=
  match sh !! [i2], sh !! [i2; i1] with
  | Some t1, None => valid (read_pte (pmem p) (slot t1 i1))
  | _, _ => None
  end.

Definition giga_of (p : fpool) (sh : shape) (i2 : Z) : option Z :=
  match sh !! [], sh !! [i2] with
  | Some root, None => valid (read_pte (pmem p) (slot root i2))
  | _, _ => None
  end.

(** The pool evolved from [p] to [p'] by adding tables only: the abstract
    content, the old tables and all memory outside the tables are unchanged. *)
Record grows (p : fpool) (sh : shape) (p' : fpool) (sh' : shape) : Prop := {
  gr_sub : sh ⊆ sh';
  gr_own : forall g, owned p' g <-> owned p g \/ (exists k, sh' !! k = Some g);
  gr_new : forall k g, sh' !! k = Some g -> sh !! k = None -> ~ owned p g;
  gr_mem : forall a, (forall k t, sh' !! k = Some t -> ~ (t <= a < t + FRAME_SIZE)) ->
    pmem p' a = pmem p a;
  gr_page : forall i2 i1 i0, 0 <= i0 < 512 -> page_of p' sh' i2 i1 i0 = page_of p sh i2 i1 i0;
  gr_mega : forall i2 i1, 0 <= i1 < 512 -> mega_of p' sh' i2 i1 = mega_of p sh i2 i1;
  gr_giga : forall i2, 0 <= i2 < 512 -> giga_of p' sh' i2 = giga_of p sh i2
}.

Lemma wf_frame (p : fpool) (sh : shape) (root t : Z) (k : list Z) :
  space_wf p sh root -> sh !! k = Some t -> frame_addr t.
Proof. intros H Hk. apply (wf_own _ _ _ H) in Hk as [Hf _]. done. Qed.

Lemma grows_refl (p : fpool) (sh : shape) (root : Z) : space_wf p sh root -> grows p sh p sh.
Proof.
  intros H. split; try done; [|congruence].
  intros g. split; [by left|]. intros [Hg|[k Hk]]; [done|]. by eapply wf_own.
Qed.

Lemma grows_trans (p1 p2 p3 : fpool) (s1 s2 s3 : shape) :
  grows p1 s1 p2 s2 -> grows p2 s2 p3 s3 -> grows p1 s1 p3 s3.
Proof.
  intros H1 H2. split.
  - etransitivity; [apply (gr_sub _ _ _ _ H1)|apply (gr_sub _ _ _ _ H2)].
  - intros g. rewrite (gr_own _ _ _ _ H2), (gr_own _ _ _ _ H1). split.
    + intros [[?|[k Hk]]|?]; [by left| |by right]. right. exists k.
      eapply lookup_weaken; [done|apply (gr_sub _ _ _ _ H2)].
    + intros [?|?]; [by left; left|by right].
  - intros k g Hk Hn Ho. destruct (s2 !! k) as [g'|] eqn:E.
    + assert (g' = g) as ->.
      { eapply lookup_weaken in E; [|apply (gr_sub _ _ _ _ H2)]. congruence. }
      eapply (gr_new _ _ _ _ H1); eauto.
    + eapply (gr_new _ _ _ _ H2); eauto. apply (gr_own _ _ _ _ H1). by left.
  - intros a Ha. rewrite (gr_mem _ _ _ _ H2) by done. apply (gr_mem _ _ _ _ H1).
    intros k t Hk. apply (Ha k). eapply lookup_weaken; [done|apply (gr_sub _ _ _ _ H2)].
  - intros. rewrite (gr_page _ _ _ _ H2), (gr_page _ _ _ _ H1) by done. done.
  - intros. rewrite (gr_mega _ _ _ _ H2), (gr_mega _ _ _ _ H1) by done. done.
  - intros. rewrite (gr_giga _ _ _ _ H2), (gr_giga _ _ _ _ H1) by done. done.
Qed.

#[export] Hint Resolve wf_frame : kernai.

(** ** Linking a fresh table *)

Section Link.
Context (p p1 : fpool) (sh : shape) (root t n i : Z) (k : list Z).
Context (Hwf : space_wf p sh root) (Hk : sh !! k = Some t) (Hlk : (length k < 2)%nat)
  (Hi : 0 <= i < 512) (Hfree : sh !! (k ++ [i]) = None)
  (Hinv : has (read_pte (pmem p) (slot t i)) V = false)
  (Halloc : alloc p = (Some n, p1)).

Let p2 := with_mem p1 (write_pte (pmem p1) (slot t i) (nonleaf n)).
Let sh2 : shape := <[k ++ [i] := n]> sh.

Lemma link_alloc : alloc_ok p n p1.
Proof. apply alloc_gives; [apply (wf_pool _ _ _ Hwf)|exact Halloc]. Qed.

Lemma link_fresh (k' : list Z) (t' : Z) : sh !! k' = Some t' -> t' <> n.
Proof.
  intros H ->. destruct link_alloc as (_ & Hn & _). apply Hn. by eapply wf_own.
Qed.

Lemma link_frame : frame_addr n.
Proof. by destruct link_alloc as (H & _). Qed.

(** Slots of old tables keep their entry, except the linked one. *)
Lemma link_read_old (k' : list Z) (t' i' : Z) :
  sh !! k' = Some t' -> 0 <= i' < 512 -> (k', i') <> (k, i) ->
  read_pte (pmem p2) (slot t' i') = read_pte (pmem p) (slot t' i').
Proof.
  intros Hk' Hi' Hne. unfold p2. cbn [pmem with_mem].
  pose proof (wf_frame _ _ _ _ _ Hwf Hk). pose proof (wf_frame _ _ _ _ _ Hwf Hk').
  rewrite read_write_other; [|done..|].
  - destruct link_alloc as (_ & _ & _ & -> & _). apply read_fill_other; auto using link_frame.
    by eapply link_fresh.
  - intros [= <- <-]. apply Hne. f_equal. by eapply wf_inj.
Qed.

Lemma link_read_linked : read_pte (pmem p2) (slot t i) = nonleaf n.
Proof.
  unfold p2. cbn [pmem with_mem]. apply read_write_same; [by eapply wf_frame|done|].
  apply nonleaf_spec, link_frame.
Qed.

Lemma link_read_new (i' : Z) : 0 <= i' < 512 -> read_pte (pmem p2) (slot n i') = 0.
Proof.
  intros Hi'. unfold p2. cbn [pmem with_mem].
  rewrite read_write_other; [|by eapply wf_frame|apply link_frame|done|done|].
  - destruct link_alloc as (_ & _ & _ & -> & _). apply read_zeroed; auto using link_frame.
  - intros [= E _]. by apply (link_fresh k t).
Qed.

Lemma link_wf : space_wf p2 sh2 root.
Proof.
  destruct link_alloc as (Hf & Hn & Ho & Hm & _ & Hok).
  assert (forall k', is_Some (sh !! k') -> k' <> k ++ [i]) as Hne by (intros k' [? ?] ->; congruence).
  split.
  - exact Hok.
  - unfold sh2. rewrite lookup_insert_ne; [apply (wf_root _ _ _ Hwf)|]. by destruct k.
  - intros k1 k2 t'. unfold sh2. rewrite !lookup_insert.
    repeat case_decide; intros E1 E2; [congruence| | |by eapply (wf_inj _ _ _ Hwf)].
    + exfalso. apply (link_fresh k2 t'); congruence.
    + exfalso. apply (link_fresh k1 t'); congruence.
  - intros k' t' Hk'. change (owned p1 t'). apply Ho. unfold sh2 in Hk'.
    rewrite lookup_insert in Hk'. case_decide; [right; congruence|].
    left. by eapply (wf_own _ _ _ Hwf).
  - intros k' i'. unfold sh2. rewrite lookup_insert. case_decide as Hd.
    + apply app_inj_tail in Hd as [<- <-]. intros _.
      rewrite lookup_insert_ne by (intros E; apply (f_equal length) in E; rewrite length_app in E; cbn in E; lia).
      rewrite Hk. eauto.
    + intros H. destruct (wf_path _ _ _ Hwf _ _ H) as (H1 & H2 & H3).
      rewrite lookup_insert_ne by (symmetry; auto). done.
  - intros k' t' i' Hk' Hl' Hi'. unfold sh2 in *. destruct (decide (k' = k ++ [i])) as [-> |Hd].
    + rewrite lookup_insert_eq in Hk'. injection Hk' as <-.
      rewrite lookup_insert_ne by (intros E; apply (f_equal length) in E; rewrite !length_app in E; cbn in E; lia).
      rewrite link_read_new by done.
      destruct (sh !! ((k ++ [i]) ++ [i'])) eqn:E; [|intros [E1 _]; done].
      exfalso. destruct (wf_path _ _ _ Hwf (k ++ [i]) i') as [[? ?] _]; [eauto|congruence].
    + rewrite lookup_insert_ne in Hk' by done. destruct (decide ((k', i') = (k, i))) as [[= -> ->]|Hn'].
      * rewrite lookup_insert_eq. assert (t' = t) as -> by congruence. apply link_read_linked.
      * rewrite lookup_insert_ne by (intros E; apply app_inj_tail in E as [-> ->]; done).
        rewrite (link_read_old k') by done. by apply (wf_entry _ _ _ Hwf).
Qed.

Lemma link_grows : grows p sh p2 sh2.
Proof.
  destruct link_alloc as (Hf & Hn & Ho & Hm & _ & Hok).
  assert (forall k', length k' = 2%nat -> sh !! k' = Some t -> False) as Hlen2.
  { intros k' Hl H. assert (k' = k) by (by eapply (wf_inj _ _ _ Hwf)). subst. lia. }
  split.
  - by apply insert_subseteq.
  - intros g. change (owned p2 g) with (owned p1 g). rewrite Ho. unfold sh2. split.
    + intros [?| ->]; [by left|]. right. exists (k ++ [i]). by rewrite lookup_insert_eq.
    + intros [?|[k' Hk']]; [by left|]. rewrite lookup_insert in Hk'. case_decide; [right; congruence|].
      left. by eapply (wf_own _ _ _ Hwf).
  - intros k' g Hk' Hno. unfold sh2 in Hk'. rewrite lookup_insert in Hk'. case_decide; congruence.
  - intros a Ha. unfold p2. cbn [pmem with_mem]. rewrite write_slot_outside; [|by eapply wf_frame|done|].
    + rewrite Hm. apply fill0_other. apply (Ha (k ++ [i])). unfold sh2. by rewrite lookup_insert_eq.
    + apply (Ha k). unfold sh2. rewrite lookup_insert_ne; [done|].
      intros E. apply (f_equal length) in E. rewrite length_app in E. cbn in E. lia.
  - intros i2 i1 i0 Hi0. unfold page_of, sh2. rewrite lookup_insert. case_decide as Hd.
    + rewrite <- Hd, Hfree, link_read_new by done. done.
    + destruct (sh !! [i2; i1]) as [t0|] eqn:E; [|done].
      rewrite (link_read_old [i2; i1]); [done..|]. intros [= Ek _]. apply (Hlen2 [i2; i1]); [done|]. rewrite Ek. done.
  - intros i2 i1 Hi1. unfold mega_of, sh2. rewrite !lookup_insert. case_decide as Hd; case_decide as Hd2.
    + rewrite Hd in Hd2. done.
    + rewrite <- Hd, Hfree. destruct (sh !! [i2; i1]) eqn:E.
      { exfalso. destruct (wf_path _ _ _ Hwf [i2] i1) as [[? ?] _]; [eauto|congruence]. }
      rewrite link_read_new by done. done.
    + destruct k as [|a [|]]; [done| |cbn in Hlk; lia]. injection Hd2 as -> ->.
      cbn in Hfree. rewrite Hk, Hfree. unfold valid. rewrite Hinv. done.
    + destruct (sh !! [i2]) as [t1|] eqn:E1; [|done]. destruct (sh !! [i2; i1]) eqn:E2; [done|].
      rewrite (link_read_old [i2]); [done..|]. intros [= E3 E4]. apply Hd2. by rewrite <- E3, <- E4.
  - intros i2 Hi2. unfold giga_of, sh2. rewrite !lookup_insert. case_decide as Hd; [by destruct k|].
    destruct (sh !! []) as [r|] eqn:E; [|done]. case_decide as Hd2.
    + destruct k; [|apply (f_equal length) in Hd2; rewrite length_app in Hd2; cbn in Hd2; lia].
      injection Hd2 as ->. cbn in Hfree. rewrite Hfree. assert (r = t) as -> by congruence. unfold valid. rewrite Hinv. done.
    + destruct (sh !! [i2]) eqn:E2; [done|]. rewrite (link_read_old []); [done..|].
      intros [= E3 E4]. apply Hd2. by rewrite <- E3, <- E4.
Qed.

End Link.

(** ** One step of the descent *)

Lemma slot_unfold (t i : Z) : t + i * 8 = slot t i.
Proof. reflexivity. Qed.

Lemma entry_table (p : fpool) (sh : shape) (root t t' i : Z) (k : list Z) :
  space_wf p sh root -> sh !! k = Some t -> sh !! (k ++ [i]) = Some t' ->
  let e := read_pte (pmem p) (slot t i) in
  has e V = true /\ has e PERM_MASK = false /\ pte_pa e = t'.
Proof.
  intros Hwf Hk Ht'. destruct (wf_path _ _ _ Hwf k i) as (_ & Hl & Hi); [eauto|].
  pose proof (wf_entry _ _ _ Hwf k t i Hk Hl Hi) as He. rewrite Ht' in He. cbn. rewrite He.
  destruct (nonleaf_spec t') as (_ & H1 & H2 & H3); [by eapply wf_frame|]. done.
Qed.

Lemma entry_no_table (p : fpool) (sh : shape) (root t i : Z) (k : list Z) :
  space_wf p sh root -> sh !! k = Some t -> (length k < 2)%nat -> 0 <= i < 512 ->
  sh !! (k ++ [i]) = None ->
  let e := read_pte (pmem p) (slot t i) in has e V = true -> has e PERM_MASK = true.
Proof.
  intros Hwf Hk Hl Hi Hn e HV. pose proof (wf_entry _ _ _ Hwf k t i Hk Hl Hi) as He.
  rewrite Hn in He. destruct (has e PERM_MASK) eqn:E; [done|]. exfalso. by apply He.
Qed.

Lemma map_step_spec (p p' : fpool) (sh : shape) (root t va level : Z) (k : list Z) (r : MmError + Z) :
  space_wf p sh root -> sh !! k = Some t -> (length k < 2)%nat ->
  map_step p t va level = (r, p') ->
  match r with
  | inr t' => exists sh', space_wf p' sh' root /\ grows p sh p' sh' /\
                sh' !! (k ++ [vpn va level]) = Some t' /\
                (p' = p /\ sh' = sh \/ sh !! (k ++ [vpn va level]) = None)
  | inl Overlap => p' = p /\ sh !! (k ++ [vpn va level]) = None /\
                   has (read_pte (pmem p) (slot t (vpn va level))) V = true
  | inl NoFrame => p' = p /\ forall f, frame_addr f -> owned p f
  | inl Unaligned => False
  end.
Proof.
  intros Hwf Hk Hl H. unfold map_step in H. rewrite slot_unfold in H.
  pose proof (vpn_range va level) as Hi. set (i := vpn va level) in *.
  destruct (sh !! (k ++ [i])) as [t'|] eqn:Ht'.
  - destruct (entry_table p sh root t t' i k Hwf Hk Ht') as (HV & HP & Hpa).
    rewrite HV, HP, Hpa in H. injection H as <- <-.
    exists sh. split_and!; [done|by eapply grows_refl|done|by left].
  - destruct (has _ V) eqn:HV; cbn [negb] in H.
    + rewrite (entry_no_table p sh root t i k) in H by done. injection H as <- <-. done.
    + destruct (alloc p) as [[n|] p1] eqn:Ea.
      * injection H as <- <-. eexists. split_and!; [by eapply link_wf|by eapply link_grows| |by right].
        apply lookup_insert_eq.
      * injection H as <- <-. apply alloc_exhausted in Ea. done.
Qed.

(** ** Writing a leaf *)

Section Leaf.
Context (p : fpool) (sh : shape) (root t0 j2 j1 j0 e : Z).
Context (Hwf : space_wf p sh root) (Ht0 : sh !! [j2; j1] = Some t0) (Hj0 : 0 <= j0 < 512)
  (He : 0 <= e < W64).

Let p' := with_mem p (write_pte (pmem p) (slot t0 j0) e).

Lemma leaf_read_other (k : list Z) (t i : Z) :
  sh !! k = Some t -> 0 <= i < 512 -> (k, i) <> ([j2; j1], j0) ->
  read_pte (pmem p') (slot t i) = read_pte (pmem p) (slot t i).
Proof.
  intros Hk Hi Hne. unfold p'. cbn [pmem with_mem].
  apply read_write_other; [by eapply wf_frame|by eapply wf_frame|done|done|].
  intros [= <- <-]. apply Hne. f_equal. by eapply (wf_inj _ _ _ Hwf).
Qed.

Lemma leaf_write_wf : space_wf p' sh root.
Proof.
  split; [exact (wf_pool _ _ _ Hwf)|exact (wf_root _ _ _ Hwf)|exact (wf_inj _ _ _ Hwf)
         |exact (wf_own _ _ _ Hwf)|exact (wf_path _ _ _ Hwf)|].
  intros k t i Hk Hl Hi. rewrite (leaf_read_other k) by (done || (intros [= -> _]; cbn in Hl; lia)).
  by apply (wf_entry _ _ _ Hwf).
Qed.

Lemma leaf_page_of (i2 i1 i0 : Z) : 0 <= i0 < 512 ->
  page_of p' sh i2 i1 i0 =
  if decide ((i2, i1, i0) = (j2, j1, j0)) then valid e else page_of p sh i2 i1 i0.
Proof.
  intros Hi0. unfold page_of. case_decide as Hd.
  - injection Hd as -> -> ->. rewrite Ht0. unfold p'. cbn [pmem with_mem].
    rewrite read_write_same; [done|by eapply wf_frame|done|done].
  - destruct (sh !! [i2; i1]) as [t|] eqn:E; [|done].
    rewrite (leaf_read_other [i2; i1]); [done..|]. intros [= -> -> ->]. done.
Qed.

Lemma leaf_mega_giga (i2 i1 : Z) : 0 <= i2 < 512 -> 0 <= i1 < 512 ->
  mega_of p' sh i2 i1 = mega_of p sh i2 i1 /\ giga_of p' sh i2 = giga_of p sh i2.
Proof.
  intros H2 H1. unfold mega_of, giga_of. rewrite (wf_root _ _ _ Hwf). split.
  - destruct (sh !! [i2]) as [t|] eqn:E; [|done]. destruct (sh !! [i2; i1]); [done|].
    by rewrite (leaf_read_other [i2]).
  - destruct (sh !! [i2]); [done|]. rewrite (leaf_read_other []); [done|apply (wf_root _ _ _ Hwf)|done|done].
Qed.

End Leaf.

(** ** [map_page] *)

(** The abstract effect of a successful mapping: one new 4 KiB entry, at an
    address that was not covered; everything else is as it was, and the only
    frames taken are the new tables of [sh']. *)
Record mapped (p : fpool) (sh : shape) (p' : fpool) (sh' : shape) (va e : Z) : Prop := {
  mp_sub : sh ⊆ sh';
  mp_vacant : page_of p sh (vpn va 2) (vpn va 1) (vpn va 0) = None /\
              mega_of p sh (vpn va 2) (vpn va 1) = None /\ giga_of p sh (vpn va 2) = None;
  mp_own : forall g, owned p' g <-> owned p g \/ (exists k, sh' !! k = Some g);
  mp_new : forall k g, sh' !! k = Some g -> sh !! k = None -> ~ owned p g;
  mp_mem : forall a, (forall k t, sh' !! k = Some t -> ~ (t <= a < t + FRAME_SIZE)) ->
    pmem p' a = pmem p a;
  mp_page : forall i2 i1 i0, 0 <= i0 < 512 ->
    page_of p' sh' i2 i1 i0 =
    if decide ((i2, i1, i0) = (vpn va 2, vpn va 1, vpn va 0)) then Some e else page_of p sh i2 i1 i0;
  mp_mega : forall i2 i1, 0 <= i2 < 512 -> 0 <= i1 < 512 -> mega_of p' sh' i2 i1 = mega_of p sh i2 i1;
  mp_giga : forall i2, 0 <= i2 < 512 -> giga_of p' sh' i2 = giga_of p sh i2
}.

Lemma leaf_valid (pa perms : Z) : page_pa pa -> 0 <= perms < 1024 -> has (leaf pa perms) V = true.
Proof.
  intros Hpa Hp. unfold has. destruct (leaf_spec pa perms Hpa Hp) as (_ & _ & ->); [|flag_lia].
  unfold leaf_flags. apply negb_true_iff, Z.eqb_neq. intros E.
  apply (f_equal (fun z => Z.testbit z 0)) in E. unfold V in E.
  rewrite Z.land_spec, !Z.lor_spec, Z.bits_0 in E. cbn in E.
  rewrite orb_true_r in E. done.
Qed.

Lemma map_page_success (p p1 : fpool) (sh sh1 : shape) (root t0 va pa perms : Z) :
  space_wf p1 sh1 root -> grows p sh p1 sh1 -> sh1 !! [vpn va 2; vpn va 1] = Some t0 ->
  has (read_pte (pmem p1) (slot t0 (vpn va 0))) V = false ->
  page_pa pa -> 0 <= perms < 1024 ->
  let p' := with_mem p1 (write_pte (pmem p1) (slot t0 (vpn va 0)) (leaf pa perms)) in
  space_wf p' sh1 root /\ mapped p sh p' sh1 va (leaf pa perms).
Proof.
  intros Hwf Hg Ht0 Hinv Hpa Hp p'. destruct (leaf_spec pa perms Hpa Hp) as (Hle & _ & _).
  pose proof (vpn_range va 0) as H0. pose proof (vpn_range va 1) as H1. pose proof (vpn_range va 2) as H2.
  assert (is_Some (sh1 !! [vpn va 2])) as [t1 Ht1].
  { destruct (wf_path _ _ _ Hwf [vpn va 2] (vpn va 1)) as (? & _); eauto. }
  split; [by eapply leaf_write_wf|]. split.
  - apply (gr_sub _ _ _ _ Hg).
  - rewrite <- (gr_page _ _ _ _ Hg), <- (gr_mega _ _ _ _ Hg), <- (gr_giga _ _ _ _ Hg) by done.
    unfold page_of, mega_of, giga_of, valid. rewrite Ht0, Ht1, Hinv, (wf_root _ _ _ Hwf). done.
  - apply (gr_own _ _ _ _ Hg).
  - apply (gr_new _ _ _ _ Hg).
  - intros a Ha. rewrite <- (gr_mem _ _ _ _ Hg) by done. unfold p'. cbn [pmem with_mem].
    apply write_slot_outside; [by eapply wf_frame|done|eauto].
  - intros i2 i1 i0 Hi0. unfold p'. rewrite (leaf_page_of p1 sh1 root t0 (vpn va 2) (vpn va 1)) by done. case_decide.
    + unfold valid. rewrite leaf_valid by done. done.
    + apply (gr_page _ _ _ _ Hg). done.
  - intros i2 i1 Hi2 Hi1. unfold p'.
    destruct (leaf_mega_giga p1 sh1 root t0 _ _ (vpn va 0) (leaf pa perms) Hwf Ht0 H0 i2 i1) as [-> _]; [done..|].
    by apply (gr_mega _ _ _ _ Hg).
  - intros i2 Hi2. unfold p'.
    destruct (leaf_mega_giga p1 sh1 root t0 _ _ (vpn va 0) (leaf pa perms) Hwf Ht0 H0 i2 0) as [_ ->]; [done|lia|].
    by apply (gr_giga _ _ _ _ Hg).
Qed.

Lemma map_page_cases (p : fpool) (sh : shape) (root va pa perms : Z) :
  space_wf p sh root -> page_pa pa -> 0 <= perms < 1024 ->
  match map_page p root va pa perms with
  | (inr tt, p') => exists sh', space_wf p' sh' root /\ mapped p sh p' sh' va (leaf pa perms)
  | (inl Overlap, p') => p' = p /\
      (is_Some (page_of p sh (vpn va 2) (vpn va 1) (vpn va 0)) \/
       is_Some (mega_of p sh (vpn va 2) (vpn va 1)) \/ is_Some (giga_of p sh (vpn va 2)))
  | (inl NoFrame, p') => (exists sh', space_wf p' sh' root /\ grows p sh p' sh') /\
      forall f, frame_addr f -> owned p' f
  | (inl Unaligned, _) => False
  end.
Proof.
  intros Hwf Hpa Hp. unfold map_page.
  pose proof (vpn_range va 0) as H0. pose proof (vpn_range va 1) as H1. pose proof (vpn_range va 2) as H2.
  destruct (map_step p root va 2) as [[e|t1] p1] eqn:E1;
    pose proof (map_step_spec p p1 sh root root va 2 [] _ Hwf (wf_root _ _ _ Hwf) ltac:(cbn; lia) E1) as S1;
    cbn [app] in S1.
  { destruct e; [|destruct S1 as (-> & Hn & HV)|done].
    - destruct S1 as [-> Hall]. split; [|done]. exists sh. split; [done|by eapply grows_refl].
    - split; [done|]. right; right. unfold giga_of, valid.
      rewrite (wf_root _ _ _ Hwf), Hn, HV. eauto. }
  destruct S1 as (sh1 & Hwf1 & Hg1 & Ht1 & Hor1).
  destruct (map_step p1 t1 va 1) as [[e|t0] p2] eqn:E2;
    pose proof (map_step_spec p1 p2 sh1 root t1 va 1 [vpn va 2] _ Hwf1 Ht1 ltac:(cbn; lia) E2) as S2;
    cbn [app] in S2.
  { destruct e; [|destruct S2 as (-> & Hn & HV)|done].
    - destruct S2 as [-> Hall]. split; [|done]. by exists sh1.
    - assert (is_Some (mega_of p sh (vpn va 2) (vpn va 1))) as Hm.
      { rewrite <- (gr_mega _ _ _ _ Hg1) by done. unfold mega_of, valid. rewrite Ht1, Hn, HV. eauto. }
      split; [|by right; left]. destruct Hor1 as [[-> _]|Hn1]; [done|].
      unfold mega_of in Hm. rewrite Hn1 in Hm. by destruct Hm. }
  destruct S2 as (sh2 & Hwf2 & Hg2 & Ht0 & Hor2).
  pose proof (grows_trans _ _ _ _ _ _ Hg1 Hg2) as Hg. unfold map_leaf. rewrite slot_unfold.
  destruct (has (read_pte (pmem p2) (slot t0 (vpn va 0))) V) eqn:HV.
  - assert (is_Some (page_of p sh (vpn va 2) (vpn va 1) (vpn va 0))) as Hs.
    { rewrite <- (gr_page _ _ _ _ Hg) by done. unfold page_of, valid. rewrite Ht0, HV. eauto. }
    split; [|by left]. unfold page_of in Hs.
    destruct (sh !! [vpn va 2; vpn va 1]) eqn:Es; [|by destruct Hs].
    destruct Hor1 as [[-> ->]|Hn1]; [destruct Hor2 as [[-> _]|Hn2]; [done|congruence]|].
    destruct (wf_path _ _ _ Hwf [vpn va 2] (vpn va 1)) as ([? ?] & _); [eauto|congruence].
  - eexists. eapply map_page_success; done.
Qed.

(** C9: on a well-formed address space [map_page] refines insertion into the
    abstract page map. Success adds exactly one 4 KiB entry at an address no
    page, megapage or gigapage covered, keeps every other entry and all memory
    outside the tables, and takes only frames that were free. A refused mapping
    changes nothing and means the address is covered; exhaustion means every
    frame is owned, and the space is still well formed with the same content. *)
Theorem map_page_refines (p : fpool) (sh : shape) (root va pa perms : Z) :
  space_wf p sh root -> page_pa pa -> 0 <= perms < 1024 ->
  match map_page p root va pa perms with
  | (inr tt, p') => exists sh', space_wf p' sh' root /\ mapped p sh p' sh' va (leaf pa perms)
  | (inl Overlap, p') => p' = p /\
      (is_Some (page_of p sh (vpn va 2) (vpn va 1) (vpn va 0)) \/
       is_Some (mega_of p sh (vpn va 2) (vpn va 1)) \/ is_Some (giga_of p sh (vpn va 2)))
  | (inl NoFrame, p') => (exists sh', space_wf p' sh' root /\ grows p sh p' sh') /\
      forall f, frame_addr f -> owned p' f
  | (inl Unaligned, _) => False
  end.
Proof. apply map_page_cases. Qed.
