(* ===== verification/MmWalk.v ===== *)
(** * Sv39 page tables: translation, user copies and tear-down

    The walks of [Mm] against the abstract content of [MmSpec]: translation
    returns what the page map says, user copies read only user-readable pages,
    and [destroy] frees exactly the frames an address space owns. *)

From S2P Require Import Prelude Hal Frames Mm MmSpec.

(** ** Translation *)

(** The entry that covers [va], with the level it sits at. *)
Definition lookup_pte (p : fpool) (sh : shape) (va : Z) : option (Z * Z) :=
  match giga_of p sh (vpn va 2) with
  | Some e => Some (2, e)
  | None =>
      match mega_of p sh (vpn va 2) (vpn va 1) with
      | Some e => Some (1, e)
      | None =>
          match page_of p sh (vpn va 2) (vpn va 1) (vpn va 0) with
          | Some e => Some (0, e)
          | None => None
          end
      end
  end.

(** The permission rule: a leaf, and, when bits are asked for, U and all of them. *)
Definition permits (need e : Z) : bool :=
  has e PERM_MASK && ((need =? 0) || (has e U && (Z.land e need =? need))).

Definition page_off (va level : Z) : Z := Z.land va (Z.shiftl 1 (12 + 9 * level) - 1).

Lemma leaf_case (need e va level : Z) : has e PERM_MASK = true ->
  (if negb (need =? 0) && (negb (has e U) || negb (Z.land e need =? need)) then None
   else Some (pte_pa e + Z.land va (Z.shiftl 1 (12 + 9 * level) - 1)))
  = (if permits need e then Some (pte_pa e + page_off va level) else None).
Proof.
  intros H. unfold permits, page_off. rewrite H.
  destruct (need =? 0), (has e U), (Z.land e need =? need); done.
Qed.

Lemma translate_lookup (p : fpool) (sh : shape) (root va need : Z) :
  space_wf p sh root ->
  translate_checked (pmem p) root va need =
  match lookup_pte p sh va with
  | Some (level, e) => if permits need e then Some (pte_pa e + page_off va level) else None
  | None => None
  end.
Proof.
  intros Hwf. pose proof (wf_root _ _ _ Hwf) as Hr.
  pose proof (vpn_range va 1) as H1. pose proof (vpn_range va 2) as H2.
  unfold translate_checked, lookup_pte. cbn [translate_levels]. rewrite !slot_unfold.
  unfold giga_of, mega_of, page_of. rewrite Hr.
  destruct (sh !! [vpn va 2]) as [t1|] eqn:E1.
  - destruct (entry_table p sh root root t1 (vpn va 2) [] Hwf Hr E1) as (-> & -> & ->). cbn [negb].
    destruct (sh !! [vpn va 2; vpn va 1]) as [t0|] eqn:E0.
    + destruct (entry_table p sh root t1 t0 (vpn va 1) [vpn va 2] Hwf E1 E0) as (-> & -> & ->). cbn [negb].
      unfold valid. destruct (has _ V) eqn:HV; [cbn [negb]|done].
      destruct (has (read_pte (pmem p) (slot t0 (vpn va 0))) PERM_MASK) eqn:HP.
      * by apply leaf_case.
      * unfold permits. rewrite HP. done.
    + unfold valid. destruct (has _ V) eqn:HV; [cbn [negb]|done].
      assert (has (read_pte (pmem p) (slot t1 (vpn va 1))) PERM_MASK = true) as HP
        by (apply (entry_no_table p sh root t1 (vpn va 1) [vpn va 2]); auto).
      rewrite HP. by apply leaf_case.
  - destruct (sh !! [vpn va 2; vpn va 1]) as [t0|] eqn:E0.
    { exfalso. destruct (wf_path _ _ _ Hwf [vpn va 2] (vpn va 1)) as ([? ?] & _); [eauto|congruence]. }
    unfold valid. destruct (has _ V) eqn:HV; [cbn [negb]|done].
    assert (has (read_pte (pmem p) (slot root (vpn va 2))) PERM_MASK = true) as HP
      by (apply (entry_no_table p sh root root (vpn va 2) []); auto; cbn; lia).
    rewrite HP. by apply leaf_case.
Qed.

(** C10: address translation returns exactly what the abstract page map
    says: the frame of the covering entry plus the offset of the address in a
    page of that entry's size, provided the entry is a leaf that grants what is
    asked for; otherwise nothing. *)
Theorem translate_refines (p : fpool) (sh : shape) (root va need : Z) :
  space_wf p sh root ->
  translate_checked (pmem p) root va need =
  match lookup_pte p sh va with
  | Some (level, e) => if permits need e then Some (pte_pa e + page_off va level) else None
  | None => None
  end.
Proof. apply translate_lookup. Qed.

(** ** Addresses inside one page *)

Lemma same_page_div (va d : Z) : 0 <= d -> va mod 4096 + d < 4096 -> (va + d) / 4096 = va / 4096.
Proof.
  intros Hd H. pose proof (Z.div_mod va 4096 ltac:(lia)). pose proof (Z.mod_pos_bound va 4096 ltac:(lia)).
  symmetry. apply Z.div_unique with (va mod 4096 + d); lia.
Qed.

Lemma vpn_same_page (va d level : Z) : 0 <= level -> 0 <= d -> va mod 4096 + d < 4096 ->
  vpn (va + d) level = vpn va level.
Proof.
  intros Hl Hd H. unfold vpn. rewrite <- !Z.shiftr_shiftr by lia.
  rewrite !(Z.shiftr_div_pow2 _ 12) by lia. change (2 ^ 12) with 4096.
  rewrite same_page_div by lia. done.
Qed.

Lemma page_off_same_page (va d level : Z) : 0 <= level -> 0 <= d -> va mod 4096 + d < 4096 ->
  page_off (va + d) level = page_off va level + d.
Proof.
  intros Hl Hd H. unfold page_off. rewrite Z.shiftl_1_l.
  replace (2 ^ (12 + 9 * level) - 1) with (Z.ones (12 + 9 * level)) by (rewrite Z.ones_equiv; lia).
  rewrite !Z.land_ones by lia. rewrite Z.pow_add_r by lia. change (2 ^ 12) with 4096.
  assert (0 < 2 ^ (9 * level)) by (apply Z.pow_pos_nonneg; lia).
  rewrite !Z.rem_mul_r by lia. rewrite same_page_div by lia.
  pose proof (Z.mod_pos_bound va 4096 ltac:(lia)).
  replace ((va + d) mod 4096) with (va mod 4096 + d); [lia|].
  rewrite Z.add_mod by lia. rewrite (Z.mod_small d) by lia. symmetry. apply Z.mod_small. lia.
Qed.

Lemma translate_same_page (m : mem) (va d need : Z) (levels : list Z) :
  Forall (fun l => 0 <= l) levels -> 0 <= d -> va mod 4096 + d < 4096 ->
  forall t, translate_levels m t (va + d) need levels =
  option_map (fun pa => pa + d) (translate_levels m t va need levels).
Proof.
  intros Hls Hd Hva. induction Hls as [|l ls Hl _ IH]; intros t; [done|].
  cbn [translate_levels]. rewrite vpn_same_page by done.
  set (e := read_pte m (t + vpn va l * 8)).
  destruct (has e V); [cbn [negb]|done]. destruct (has e PERM_MASK); [|apply IH].
  destruct (negb (need =? 0) && _); [done|]. cbn [option_map].
  pose proof (page_off_same_page va d l) as Hp. unfold page_off in Hp. rewrite Hp by lia.
  f_equal. lia.
Qed.

(** ** [copy_from_user] *)

(** Byte [j] of a user buffer at [va] as the kernel's own walk finds it. What a
    payload reads there is the subject of [UserView]. *)
Definition walk_byte (m : mem) (root va j : Z) : option byte :=
  match translate_checked m root (wrap64 (va + j)) (Z.lor U R) with
  | Some pa => if (POOL_BASE <=? pa) && (pa <? POOL_END) then Some (m pa) else None
  | None => None
  end.

Lemma wrap64_page (va j d : Z) : 0 <= d -> wrap64 (va + j) mod 4096 + d < 4096 ->
  wrap64 (va + (j + d)) = wrap64 (va + j) + d.
Proof.
  intros Hd H. unfold wrap64 in *. change W64 with (4096 * 4503599627370496) in *.
  rewrite Z.add_assoc. rewrite !(Z.rem_mul_r _ 4096 4503599627370496) in * by lia.
  rewrite (Z.mul_comm 4096), Z.mod_add, Z.mod_mod in H by lia.
  rewrite same_page_div by lia. pose proof (Z.mod_pos_bound (va + j) 4096 ltac:(lia)).
  replace ((va + j + d) mod 4096) with ((va + j) mod 4096 + d); [lia|].
  rewrite (Z.add_mod (va + j) d) by lia. rewrite (Z.mod_small d) by lia.
  symmetry. apply Z.mod_small. lia.
Qed.

(** Inside one page the translated addresses are consecutive. *)
Lemma walk_byte_page (m : mem) (root va j d pa : Z) :
  translate_checked m root (wrap64 (va + j)) (Z.lor U R) = Some pa ->
  0 <= d -> wrap64 (va + j) mod 4096 + d < 4096 ->
  translate_checked m root (wrap64 (va + (j + d))) (Z.lor U R) = Some (pa + d).
Proof.
  intros H Hd Hp. rewrite wrap64_page by done. unfold translate_checked in *.
  rewrite translate_same_page by (done || (repeat constructor; lia)). rewrite H. done.
Qed.

Lemma copy_loop_sound (fuel : nat) (m : mem) (root va dn want : Z) (bs : bytes) :
  0 <= want -> copy_loop fuel m root va dn want = Some bs ->
  Z.of_nat (length bs) = want /\
  forall j, 0 <= j < want -> walk_byte m root va (dn + j) = bs !! Z.to_nat j.
Proof.
  revert dn want bs. induction fuel as [|fuel IH]; intros dn want bs Hw H; cbn [copy_loop] in H.
  { destruct (want <=? 0) eqn:E; zbool; [|done]. injection H as <-. cbn. split; lia. }
  destruct (want <=? 0) eqn:E; zbool. { injection H as <-. cbn. split; lia. }
  destruct (translate_checked _ _ _ _) as [pa|] eqn:Et; [|done].
  pose proof (Z.mod_pos_bound (wrap64 (va + dn)) PAGE_SIZE eq_refl) as Hm. unfold PAGE_SIZE in *.
  set (n := Z.min _ want) in *. assert (0 < n <= want) as Hn by lia.
  unfold phys_read in H. destruct (pool_ptr _ _) as [q|] eqn:Eq; [|done].
  apply pool_ptr_inv in Eq as [-> (_ & Hlo & Hhi)]; [|lia].
  destruct (copy_loop fuel m root va (dn + n) (want - n)) as [rest|] eqn:Er; [|done].
  injection H as <-. apply IH in Er as [Hlen Hr]; [|lia].
  rewrite length_app, load_length. split; [lia|]. intros j Hj.
  destruct (decide (j < n)) as [Hjn|Hjn].
  - rewrite lookup_app_l by (rewrite load_length; lia). rewrite load_lookup by lia.
    unfold walk_byte. rewrite (walk_byte_page _ _ _ _ _ pa) by (done || lia).
    destruct (_ && _) eqn:Eb; [do 2 f_equal; lia|]. apply andb_false_iff in Eb as [?|?]; zbool; lia.
  - rewrite lookup_app_r by (rewrite load_length; lia). rewrite load_length.
    replace (dn + j) with (dn + n + (j - n)) by lia. rewrite Hr by lia. f_equal. lia.
Qed.

Lemma copy_loop_complete (fuel : nat) (m : mem) (root va dn want : Z) :
  want <= Z.of_nat fuel ->
  (forall j, 0 <= j < want -> is_Some (walk_byte m root va (dn + j))) ->
  is_Some (copy_loop fuel m root va dn want).
Proof.
  revert dn want. induction fuel as [|fuel IH]; intros dn want Hw H; cbn [copy_loop].
  { destruct (want <=? 0) eqn:E; zbool; [eauto|lia]. }
  destruct (want <=? 0) eqn:E; zbool; [eauto|].
  pose proof (H 0 ltac:(lia)) as [b Hb]. unfold walk_byte in Hb. rewrite Z.add_0_r in Hb.
  destruct (translate_checked _ _ _ _) as [pa|] eqn:Et; [|done].
  destruct (_ && _) eqn:Eb; [|done]. zbool. clear Hb.
  pose proof (Z.mod_pos_bound (wrap64 (va + dn)) PAGE_SIZE eq_refl) as Hm. unfold PAGE_SIZE in *.
  set (n := Z.min _ want). assert (0 < n <= want) as Hn by lia.
  pose proof (H (n - 1) ltac:(lia)) as [b' Hb']. unfold walk_byte in Hb'.
  rewrite (walk_byte_page _ _ _ _ _ pa) in Hb' by (done || lia).
  destruct (_ && _) eqn:Eb2; [|done]. zbool. clear Hb'.
  unfold phys_read. rewrite pool_ptr_in by (unfold in_pool; lia).
  destruct (IH (dn + n) (want - n)) as [rest ->]; [lia| |eauto].
  intros j Hj. replace (dn + n + j) with (dn + (n + j)) by lia. apply H. lia.
Qed.

(** [copy_from_user] goes byte by byte: it succeeds exactly when the walk finds
    every byte of the buffer, and returns those bytes. *)
Lemma copy_from_user_walk (m : mem) (root va len : Z) : 0 <= len ->
  ((exists bs, copy_from_user m root va len = Some bs) <->
   (forall j, 0 <= j < len -> is_Some (walk_byte m root va j))) /\
  (forall bs, copy_from_user m root va len = Some bs ->
     Z.of_nat (length bs) = len /\
     forall j, 0 <= j < len -> walk_byte m root va j = bs !! Z.to_nat j).
Proof.
  intros Hl. unfold copy_from_user.
  assert (forall bs, copy_loop (Z.to_nat len) m root va 0 len = Some bs ->
     Z.of_nat (length bs) = len /\
     forall j, 0 <= j < len -> walk_byte m root va j = bs !! Z.to_nat j) as Hs.
  { intros bs H. apply copy_loop_sound in H as [H1 H2]; [|done]. done. }
  split; [|done]. split.
  - intros [bs H] j Hj. apply Hs in H as [H1 ->]; [|done].
    apply lookup_lt_is_Some. lia.
  - intros H. apply copy_loop_complete; [lia|done].
Qed.

(** ** Tear-down *)

(** The frames [free_subtree] and [destroy] release, read off a memory that
    does not change while they run. *)
Definition slot_frames (sub : option (Z -> list Z)) (m : mem) (table i : Z) : list Z :=
  let pte := read_pte m (table + i * 8) in
  if negb (has pte V) then []
  else if has pte PERM_MASK then [pte_pa pte]
  else match sub with Some f => f (pte_pa pte) | None => [] end.

Fixpoint subtree_frames (level : nat) (m : mem) (table : Z) : list Z :=
  let sub := match level with O => None | S l => Some (subtree_frames l m) end in
  (slots512 ≫= slot_frames sub m table) ++ [table].

Definition root_frames (m : mem) (root i : Z) : list Z :=
  let pte := read_pte m (root + i * 8) in
  if negb (has pte V) || has pte PERM_MASK then [] else subtree_frames 1 m (pte_pa pte).

Definition space_frames (m : mem) (root : Z) : list Z :=
  (slots512 ≫= root_frames m root) ++ [root].

Definition free_all (l : list Z) (p : fpool) : fpool := fold_left (fun p f => free f p) l p.

Lemma free_pmem (pa : Z) (p : fpool) : pmem (free pa p) = pmem p.
Proof. unfold free. by repeat case_match. Qed.

Lemma free_all_pmem (l : list Z) (p : fpool) : pmem (free_all l p) = pmem p.
Proof.
  revert p. induction l as [|f l IH]; intros p; [done|]. cbn. rewrite IH. apply free_pmem.
Qed.

Lemma free_all_app (l1 l2 : list Z) (p : fpool) : free_all (l1 ++ l2) p = free_all l2 (free_all l1 p).
Proof. apply fold_left_app. Qed.

(** A loop over slots whose body frees the frames [g] reads off the memory. *)
Lemma fold_frees (body : fpool -> Z -> fpool) (g : mem -> Z -> list Z) (l : list Z) (p : fpool) :
  (forall p i, body p i = free_all (g (pmem p) i) p) ->
  fold_left body l p = free_all (l ≫= g (pmem p)) p.
Proof.
  intros H. revert p. induction l as [|i l IH]; intros p; [done|].
  cbn [fold_left]. rewrite IH, H. cbn. rewrite free_all_app, free_all_pmem. done.
Qed.

Lemma free_subtree_frames (level : nat) (table : Z) (p : fpool) :
  free_subtree level table p = free_all (subtree_frames level (pmem p) table) p.
Proof.
  revert table p. induction level as [|l IH]; intros table p; cbn [free_subtree subtree_frames];
    rewrite free_all_app.
  - rewrite (fold_frees _ (fun m => slot_frames None m table)); [done|].
    intros q i. unfold free_slot, slot_frames. by repeat case_match.
  - rewrite (fold_frees _ (fun m => slot_frames (Some (subtree_frames l m)) m table)); [done|].
    intros q i. unfold free_slot, slot_frames. repeat case_match; done || apply IH.
Qed.

Lemma destroy_frames (root : Z) (p : fpool) :
  destroy root p = free_all (space_frames (pmem p) root) p.
Proof.
  unfold destroy, space_frames. rewrite free_all_app.
  rewrite (fold_frees _ (fun m => root_frames m root)); [done|]. intros q i. unfold destroy_slot, root_frames.
  destruct (negb _ || _); [done|]. apply free_subtree_frames.
Qed.

Lemma free_all_owned (l : list Z) (p : fpool) : pool_ok p ->
  pool_ok (free_all l p) /\ forall g, owned (free_all l p) g <-> owned p g /\ g ∉ l.
Proof.
  revert p. induction l as [|f l IH]; intros p Hp.
  - split; [done|]. intros g. split; [|tauto]. intros H. split; [done|]. apply not_elem_of_nil.
  - cbn. assert (pool_ok (free f p) /\ forall g, owned (free f p) g <-> owned p g /\ g <> f) as [Hp' Ho].
    { destruct (decide (POOL_BASE <= f < POOL_END /\ (f - POOL_BASE) mod FRAME_SIZE = 0)) as [Hf|Hf].
      - destruct (free_releases p f Hp Hf) as (Ho & _ & _ & _ & Hk). done.
      - rewrite free_ignores by exact Hf. split; [done|]. intros g. split; [|tauto].
        intros Hg. split; [done|]. intros ->. apply Hf. apply Hg. }
    destruct (IH (free f p) Hp') as [Hk Ho2]. split; [done|].
    intros g. rewrite Ho2, Ho, not_elem_of_cons. tauto.
Qed.

(** The frames an address space owns: its tables and the frames its 4 KiB (and
    2 MiB) entries name, whatever permissions they carry. *)
Definition space_owns (p : fpool) (sh : shape) (g : Z) : Prop :=
  (exists k, sh !! k = Some g) \/
  (exists i2 i1 e, 0 <= i2 < 512 /\ 0 <= i1 < 512 /\ mega_of p sh i2 i1 = Some e /\ pte_pa e = g) \/
  (exists i2 i1 i0 e, 0 <= i2 < 512 /\ 0 <= i1 < 512 /\ 0 <= i0 < 512 /\
     page_of p sh i2 i1 i0 = Some e /\ pte_pa e = g).

(** A 4 KiB entry without R, W and X, which the walks take for a pointer. *)
Definition bare (e : Z) : Prop := has e PERM_MASK = false.

(** What [destroy] finds: it passes over the bare entries. *)
Definition space_gives (p : fpool) (sh : shape) (g : Z) : Prop :=
  (exists k, sh !! k = Some g) \/
  (exists i2 i1 e, 0 <= i2 < 512 /\ 0 <= i1 < 512 /\ mega_of p sh i2 i1 = Some e /\ pte_pa e = g) \/
  (exists i2 i1 i0 e, 0 <= i2 < 512 /\ 0 <= i1 < 512 /\ 0 <= i0 < 512 /\
     page_of p sh i2 i1 i0 = Some e /\ has e PERM_MASK = true /\ pte_pa e = g).

Lemma in_slots512 (i : Z) : i ∈ slots512 <-> 0 <= i < 512.
Proof. unfold slots512. rewrite elem_of_seqZ. lia. Qed.

Lemma leaf_table_frames (p : fpool) (t0 g : Z) :
  g ∈ subtree_frames 0 (pmem p) t0 <->
  g = t0 \/ exists i0 e, 0 <= i0 < 512 /\ valid (read_pte (pmem p) (slot t0 i0)) = Some e /\
    has e PERM_MASK = true /\ pte_pa e = g.
Proof.
  cbn [subtree_frames]. rewrite elem_of_app, list_elem_of_singleton, list_elem_of_bind. split.
  - intros [(i0 & Hg & Hi)| ->]; [|by left]. apply in_slots512 in Hi. right.
    unfold slot_frames in Hg. rewrite slot_unfold in Hg.
    destruct (has _ V) eqn:HV; [|by apply not_elem_of_nil in Hg]. cbn [negb] in Hg.
    destruct (has _ PERM_MASK) eqn:HP; [|by apply not_elem_of_nil in Hg].
    apply list_elem_of_singleton in Hg as ->. exists i0. eexists. unfold valid. rewrite HV. done.
  - intros [-> |(i0 & e & Hi & Hv & HP & <-)]; [by right|]. left. exists i0.
    rewrite in_slots512. split; [|done]. unfold slot_frames. rewrite slot_unfold.
    unfold valid in Hv. destruct (has _ V) eqn:HV; [|done]. injection Hv as ->. cbn [negb].
    rewrite HP. by apply list_elem_of_singleton.
Qed.

Lemma mid_table_frames (p : fpool) (sh : shape) (root t1 i2 g : Z) :
  space_wf p sh root -> sh !! [i2] = Some t1 ->
  (g ∈ subtree_frames 1 (pmem p) t1 <->
   g = t1 \/ (exists i1 e, 0 <= i1 < 512 /\ mega_of p sh i2 i1 = Some e /\ pte_pa e = g) \/
   (exists i1 t0, 0 <= i1 < 512 /\ sh !! [i2; i1] = Some t0 /\ g ∈ subtree_frames 0 (pmem p) t0)).
Proof.
  intros Hwf H1. cbn [subtree_frames]. rewrite elem_of_app, list_elem_of_singleton, list_elem_of_bind.
  split.
  - intros [(i1 & Hg & Hi)| ->]; [|by left]. apply in_slots512 in Hi. right.
    unfold slot_frames in Hg. rewrite slot_unfold in Hg. destruct (sh !! [i2; i1]) as [t0|] eqn:E0.
    + destruct (entry_table p sh root t1 t0 i1 [i2] Hwf H1 E0) as (HV & HP & Hpa).
      rewrite HV, HP, Hpa in Hg. right. by exists i1, t0.
    + destruct (has _ V) eqn:HV; [|by apply not_elem_of_nil in Hg]. cbn [negb] in Hg.
      rewrite (entry_no_table p sh root t1 i1 [i2]) in Hg by (done || cbn; lia).
      apply list_elem_of_singleton in Hg as ->. left. exists i1. eexists.
      unfold mega_of, valid. rewrite H1, E0, HV. done.
  - intros [-> |[(i1 & e & Hi & Hm & <-)|(i1 & t0 & Hi & E0 & Hg)]]; [by right|left; exists i1..];
      rewrite in_slots512; (split; [|done]); unfold slot_frames; rewrite slot_unfold.
    + unfold mega_of, valid in Hm. rewrite H1 in Hm. destruct (sh !! [i2; i1]) eqn:E0; [done|].
      destruct (has _ V) eqn:HV; [|done]. injection Hm as <-. cbn [negb].
      rewrite (entry_no_table p sh root t1 i1 [i2]) by (done || cbn; lia).
      by apply list_elem_of_singleton.
    + destruct (entry_table p sh root t1 t0 i1 [i2] Hwf H1 E0) as (-> & -> & ->). done.
Qed.

Lemma path_cases (p : fpool) (sh : shape) (root g : Z) (k : list Z) :
  space_wf p sh root -> sh !! k = Some g ->
  k = [] \/ (exists i2, k = [i2] /\ 0 <= i2 < 512) \/
  (exists i2 i1, k = [i2; i1] /\ 0 <= i2 < 512 /\ 0 <= i1 < 512 /\ is_Some (sh !! [i2])).
Proof.
  intros Hwf Hk. destruct k as [|x k _] using rev_ind; [by left|right].
  destruct (wf_path _ _ _ Hwf k x) as ([t Ht] & Hl & Hx); [eauto|].
  destruct k as [|y k _] using rev_ind; [left; by exists x|right].
  destruct (wf_path _ _ _ Hwf k y) as (_ & Hl2 & Hy); [eauto|].
  rewrite length_app in Hl. cbn in Hl. destruct k; [|cbn in Hl; lia].
  exists y, x. cbn in *. eauto.
Qed.

Lemma space_frames_spec (p : fpool) (sh : shape) (root g : Z) : space_wf p sh root ->
  (g ∈ space_frames (pmem p) root <-> space_gives p sh g).
Proof.
  intros Hwf. pose proof (wf_root _ _ _ Hwf) as Hr. unfold space_frames.
  rewrite elem_of_app, list_elem_of_singleton, list_elem_of_bind.
  assert ((exists i2, g ∈ root_frames (pmem p) root i2 /\ i2 ∈ slots512) <->
          (exists i2 t1, 0 <= i2 < 512 /\ sh !! [i2] = Some t1 /\ g ∈ subtree_frames 1 (pmem p) t1)) as ->.
  { split.
    - intros (i2 & Hg & Hi). apply in_slots512 in Hi. unfold root_frames in Hg. rewrite slot_unfold in Hg.
      destruct (sh !! [i2]) as [t1|] eqn:E1.
      + destruct (entry_table p sh root root t1 i2 [] Hwf Hr E1) as (HV & HP & Hpa).
        rewrite HV, HP, Hpa in Hg. by exists i2, t1.
      + destruct (has (read_pte (pmem p) (slot root i2)) V) eqn:HV; [|by apply not_elem_of_nil in Hg].
        rewrite (entry_no_table p sh root root i2 []) in Hg by (done || cbn; lia).
        by apply not_elem_of_nil in Hg.
    - intros (i2 & t1 & Hi & E1 & Hg). exists i2. rewrite in_slots512. split; [|done].
      unfold root_frames. rewrite slot_unfold.
      destruct (entry_table p sh root root t1 i2 [] Hwf Hr E1) as (-> & -> & ->). done. }
  split.
  - intros [(i2 & t1 & Hi & E1 & Hg)| ->]; [|left; eauto].
    apply (mid_table_frames p sh root t1 i2 g Hwf E1) in Hg as [-> |[(i1 & e & Hi1 & Hm & He)|(i1 & t0 & Hi1 & E0 & Hg)]].
    + left. eauto.
    + right; left. exists i2, i1, e. done.
    + apply leaf_table_frames in Hg as [-> |(i0 & e & Hi0 & Hv & HP & He)]; [left; eauto|].
      right; right. exists i2, i1, i0, e. unfold page_of. rewrite E0. done.
  - intros [[k Hk]|[(i2 & i1 & e & Hi2 & Hi1 & Hm & He)|(i2 & i1 & i0 & e & Hi2 & Hi1 & Hi0 & Hp & HP & He)]].
    + destruct (path_cases p sh root g k Hwf Hk) as [-> |[(i2 & -> & Hi)|(i2 & i1 & -> & Hi2 & Hi1 & [t1 E1])]].
      * right. congruence.
      * left. exists i2, g. split_and!; try lia; [done|].
        apply (mid_table_frames p sh root g i2 g Hwf Hk). by left.
      * left. exists i2, t1. split_and!; try lia; [done|].
        apply (mid_table_frames p sh root t1 i2 g Hwf E1). right; right. exists i1, g.
        split_and!; try lia; [done|]. apply leaf_table_frames. by left.
    + left. unfold mega_of in Hm. destruct (sh !! [i2]) as [t1|] eqn:E1; [|done]. exists i2, t1.
      split_and!; try lia; [done|]. apply (mid_table_frames p sh root t1 i2 g Hwf E1). right; left.
      exists i1, e. unfold mega_of. rewrite E1. done.
    + left. unfold page_of in Hp. destruct (sh !! [i2; i1]) as [t0|] eqn:E0; [|done].
      destruct (wf_path _ _ _ Hwf [i2] i1) as ([t1 E1] & _); [eauto|]. exists i2, t1.
      split_and!; try lia; [done|]. apply (mid_table_frames p sh root t1 i2 g Hwf E1). right; right.
      exists i1, t0. split_and!; try lia; [done|]. apply leaf_table_frames. right. by exists i0, e.
Qed.

Lemma destroy_owned (p : fpool) (sh : shape) (root : Z) : space_wf p sh root ->
  pool_ok (destroy root p) /\
  forall g, owned (destroy root p) g <-> owned p g /\ ~ space_gives p sh g.
Proof.
  intros Hwf. rewrite destroy_frames.
  destruct (free_all_owned (space_frames (pmem p) root) p (wf_pool _ _ _ Hwf)) as [Hk Ho].
  split; [done|]. intros g. rewrite Ho, (space_frames_spec p sh root g Hwf). done.
Qed.

Lemma gives_owns (p : fpool) (sh : shape) (g : Z) : space_gives p sh g -> space_owns p sh g.
Proof.
  intros [H|[H|(i2 & i1 & i0 & e & H2 & H1 & H0 & He & _ & Hg)]]; [by left|by right; left|].
  right; right. by exists i2, i1, i0, e.
Qed.

Lemma owns_gives (p : fpool) (sh : shape) (g : Z) : space_owns p sh g -> space_gives p sh g \/
  exists i2 i1 i0 e, page_of p sh i2 i1 i0 = Some e /\ bare e /\ pte_pa e = g.
Proof.
  intros [H|[H|(i2 & i1 & i0 & e & H2 & H1 & H0 & He & Hg)]]; [by left; left|by left; right; left|].
  destruct (has e PERM_MASK) eqn:Ep; [left; right; right|right]; by exists i2, i1, i0, e.
Qed.

(** C18: [destroy] gives back what the address space owns, its tables and the
    frame of every page mapped in it, and no other frame changes hands. The
    one exception the code has is a page mapped with none of R, W and X: a frame
    that stays behind is named by such an entry. A space without one gives back
    exactly what it owns. *)
Theorem destroy_exact (p : fpool) (sh : shape) (root : Z) : space_wf p sh root ->
  pool_ok (destroy root p) /\
  (forall g, ~ space_owns p sh g -> owned (destroy root p) g <-> owned p g) /\
  (forall g, space_owns p sh g -> owned (destroy root p) g ->
     exists i2 i1 i0 e, page_of p sh i2 i1 i0 = Some e /\ bare e /\ pte_pa e = g) /\
  ((forall i2 i1 i0 e, page_of p sh i2 i1 i0 = Some e -> ~ bare e) ->
   forall g, owned (destroy root p) g <-> owned p g /\ ~ space_owns p sh g).
Proof.
  intros Hwf. destruct (destroy_owned p sh root Hwf) as [Hp Ho].
  assert (Hb : forall g, space_owns p sh g -> owned (destroy root p) g ->
     exists i2 i1 i0 e, page_of p sh i2 i1 i0 = Some e /\ bare e /\ pte_pa e = g).
  { intros g Hg Hd. apply Ho in Hd as [_ Hd]. by destruct (owns_gives p sh g Hg). }
  split; [done|]. split; [|split; [exact Hb|]].
  - intros g Hg. rewrite Ho. split; [tauto|]. intros H. split; [done|]. by intros ?%gives_owns.
  - intros Hn g. rewrite Ho. split; intros [H Hg]; split; try done.
    + intros Hs. destruct (owns_gives p sh g Hs) as [?|(i2 & i1 & i0 & e & He & Hbe & _)]; [done|]. by apply (Hn i2 i1 i0 e).
    + by intros ?%gives_owns.
Qed.

(** ** Fresh address spaces and the kernel gigapage *)

Lemma space_new_wf (p p' : fpool) (root : Z) :
  pool_ok p -> space_new p = (Some root, p') ->
  space_wf p' {[ [] := root ]} root /\ alloc_ok p root p' /\
  (forall i2 i1 i0, page_of p' {[ [] := root ]} i2 i1 i0 = None) /\
  (forall i2 i1, mega_of p' {[ [] := root ]} i2 i1 = None) /\
  (forall i2, 0 <= i2 < 512 -> giga_of p' {[ [] := root ]} i2 = None).
Proof.
  intros Hp H. pose proof (alloc_gives p root p' Hp H) as Ha.
  pose proof Ha as (Hf & Hn & Ho & Hm & _ & Hk).
  assert (forall i, 0 <= i < 512 -> read_pte (pmem p') (slot root i) = 0) as Hz
    by (intros i Hi; rewrite Hm; by apply read_zeroed).
  split_and!; [|done|intros; unfold page_of; by rewrite lookup_singleton_ne
    |intros; unfold mega_of; by rewrite lookup_singleton_ne
    |intros; unfold giga_of; rewrite lookup_singleton_eq, lookup_singleton_ne by done;
     unfold valid; by rewrite Hz].
  split.
  - done.
  - apply lookup_singleton_eq.
  - intros k k' t. rewrite !lookup_singleton_Some. intuition congruence.
  - intros k t [<- <-]%lookup_singleton_Some. apply Ho. by right.
  - intros k i [t [E _]%lookup_singleton_Some]. by destruct k.
  - intros k t i [<- <-]%lookup_singleton_Some _ Hi.
    rewrite lookup_singleton_ne by done. rewrite Hz by done. intros [HV _]. done.
Qed.

Lemma map_gigapage_spec (p p' : fpool) (sh : shape) (root va pa perms : Z) :
  space_wf p sh root -> page_pa pa -> 0 <= perms < 1024 ->
  has (leaf pa perms) PERM_MASK = true ->
  map_gigapage p root va pa perms = (inr tt, p') ->
  space_wf p' sh root /\
  (forall i2, 0 <= i2 < 512 -> giga_of p' sh i2 = if decide (i2 = vpn va 2) then Some (leaf pa perms) else giga_of p sh i2) /\
  (forall i2 i1, 0 <= i1 < 512 -> mega_of p' sh i2 i1 = mega_of p sh i2 i1) /\
  (forall i2 i1 i0, 0 <= i0 < 512 -> page_of p' sh i2 i1 i0 = page_of p sh i2 i1 i0) /\
  (forall g, owned p' g <-> owned p g).
Proof.
  intros Hwf Hpa Hp HP H. unfold map_gigapage in H. destruct (_ || _) in H; [done|].
  rewrite slot_unfold in H. pose proof (vpn_range va 2) as H2. pose proof (wf_root _ _ _ Hwf) as Hr.
  set (j := vpn va 2) in *. destruct (has (read_pte (pmem p) (slot root j)) V) eqn:HV; [done|].
  injection H as <-. destruct (leaf_spec pa perms Hpa Hp) as (Hle & _ & _).
  assert (frame_addr root) as Hfr by (by eapply wf_frame).
  assert (sh !! [j] = None) as Hj.
  { destruct (sh !! [j]) eqn:E; [|done].
    destruct (entry_table p sh root root _ j [] Hwf Hr E) as (HV' & _). congruence. }
  assert (forall k t i, sh !! k = Some t -> 0 <= i < 512 -> (k, i) <> ([], j) ->
    read_pte (write_pte (pmem p) (slot root j) (leaf pa perms)) (slot t i) = read_pte (pmem p) (slot t i)) as Ho.
  { intros k t i Hk Hi Hne. apply read_write_other; [done|by eapply wf_frame|done|done|].
    intros [= <- <-]. apply Hne. f_equal. by eapply (wf_inj _ _ _ Hwf). }
  split_and!.
  - split; [exact (wf_pool _ _ _ Hwf)|done|exact (wf_inj _ _ _ Hwf)|exact (wf_own _ _ _ Hwf)|exact (wf_path _ _ _ Hwf)|].
    intros k t i Hk Hl Hi. cbn [pmem with_mem]. destruct (decide ((k, i) = ([], j))) as [[= -> ->]|Hne].
    + cbn [app]. rewrite Hj. assert (t = root) as -> by congruence.
      rewrite read_write_same by done. intros [_ HP']. congruence.
    + rewrite (Ho k) by done. by apply (wf_entry _ _ _ Hwf).
  - intros i2 Hi2. unfold giga_of. rewrite Hr. cbn [pmem with_mem]. case_decide as Hd.
    + subst i2. rewrite Hj, read_write_same by done. unfold valid. rewrite leaf_valid by done. done.
    + destruct (sh !! [i2]); [done|]. rewrite (Ho []) by (done || congruence). done.
  - intros i2 i1 Hi1. unfold mega_of. cbn [pmem with_mem]. destruct (sh !! [i2]) as [t1|] eqn:E1; [|done].
    destruct (sh !! [i2; i1]); [done|]. rewrite (Ho [i2]); done.
  - intros i2 i1 i0 Hi0. unfold page_of. cbn [pmem with_mem]. destruct (sh !! [i2; i1]) eqn:E; [|done].
    rewrite (Ho [i2; i1]); done.
  - done.
Qed.

Definition kernel_leaf : Z := leaf KERNEL_GIGAPAGE_VA (Z.lor (Z.lor (Z.lor R W) X) G).

Lemma map_kernel_spec (p p' : fpool) (sh : shape) (root : Z) :
  space_wf p sh root -> map_kernel p root = (inr tt, p') ->
  space_wf p' sh root /\
  (forall i2, 0 <= i2 < 512 -> giga_of p' sh i2 = if decide (i2 = 2) then Some kernel_leaf else giga_of p sh i2) /\
  (forall i2 i1, 0 <= i1 < 512 -> mega_of p' sh i2 i1 = mega_of p sh i2 i1) /\
  (forall i2 i1 i0, 0 <= i0 < 512 -> page_of p' sh i2 i1 i0 = page_of p sh i2 i1 i0) /\
  (forall g, owned p' g <-> owned p g).
Proof.
  intros Hwf H. apply (map_gigapage_spec p p' sh root KERNEL_GIGAPAGE_VA KERNEL_GIGAPAGE_VA); try done.
Qed.

(** The bits of an address that Sv39 translates. *)
Definition low39 (va : Z) : Z := va mod 2 ^ 39.

Lemma vpn_giga (va : Z) : KERNEL_GIGAPAGE_VA <= low39 va < KERNEL_GIGAPAGE_VA + GIB -> vpn va 2 = 2.
Proof.
  unfold low39, vpn. rewrite Z.shiftr_div_pow2 by lia. change 0x1ff with (Z.ones 9). rewrite Z.land_ones by lia.
  change (2 ^ 39) with (1073741824 * 512). change (2 ^ (12 + 9 * 2)) with 1073741824. change (2 ^ 9) with 512.
  change GIB with 1073741824. unfold KERNEL_GIGAPAGE_VA. rewrite Z.rem_mul_r by lia.
  pose proof (Z.mod_pos_bound va 1073741824 ltac:(lia)). pose proof (Z.mod_pos_bound (va / 1073741824) 512 ltac:(lia)). lia.
Qed.

(** The kernel gigapage grants nothing to a payload. *)
Lemma kernel_untranslated (p : fpool) (sh : shape) (root va need : Z) :
  space_wf p sh root -> giga_of p sh 2 = Some kernel_leaf ->
  KERNEL_GIGAPAGE_VA <= low39 va < KERNEL_GIGAPAGE_VA + GIB -> need <> 0 -> translate_checked (pmem p) root va need = None.
Proof.
  intros Hwf Hg Hva Hn. rewrite (translate_lookup p sh root va need Hwf). unfold lookup_pte. rewrite (vpn_giga va Hva), Hg.
  unfold permits. replace (has kernel_leaf U) with false by reflexivity.
  destruct (need =? 0) eqn:E; zbool; [done|]. by rewrite andb_false_r.
Qed.

Lemma kernel_uncopied (p : fpool) (sh : shape) (root va len j : Z) :
  space_wf p sh root -> giga_of p sh 2 = Some kernel_leaf -> 0 <= j < len ->
  KERNEL_GIGAPAGE_VA <= low39 (wrap64 (va + j)) < KERNEL_GIGAPAGE_VA + GIB -> copy_from_user (pmem p) root va len = None.
Proof.
  intros Hwf Hg Hj Hva. destruct (copy_from_user (pmem p) root va len) as [bs|] eqn:E; [|done]. exfalso.
  destruct (proj2 (copy_from_user_walk (pmem p) root va len ltac:(lia)) bs E) as [Hl Hb].
  specialize (Hb j Hj). unfold walk_byte in Hb. rewrite (kernel_untranslated p sh root) in Hb by done.
  symmetry in Hb. apply lookup_ge_None in Hb. lia.
Qed.

Lemma kernel_unreachable (p : fpool) (sh : shape) (root va need len : Z) :
  space_wf p sh root -> giga_of p sh 2 = Some kernel_leaf ->
  KERNEL_GIGAPAGE_VA <= va < KERNEL_GIGAPAGE_VA + GIB -> need <> 0 -> 0 < len ->
  translate_checked (pmem p) root va need = None /\
  copy_from_user (pmem p) root va len = None.
Proof.
  intros Hwf Hg Hva Hneed Hlen. assert (Hl : low39 va = va).
  { apply Z.mod_small. change (2 ^ 39) with 549755813888. change GIB with 1073741824 in Hva. unfold KERNEL_GIGAPAGE_VA in *. lia. }
  split; [apply (kernel_untranslated p sh root); rewrite ?Hl; done|].
  apply (kernel_uncopied p sh root va len 0); [done|done|lia|]. rewrite Z.add_0_r, wrap64_small, Hl; [done|].
  change GIB with 1073741824 in Hva. unfold KERNEL_GIGAPAGE_VA, W64 in *. lia.
Qed.

(** C12: kernel memory is out of a payload's reach. In an address space that
    carries the kernel gigapage, no address whose translated bits lie in that
    gigabyte translates for an access on the payload's behalf, whatever bits it
    asks for, and a user copy that touches the gigabyte anywhere, with its first
    byte or a later one, fails as a whole. *)
Theorem kernel_isolated (p : fpool) (sh : shape) (root : Z) :
  space_wf p sh root -> giga_of p sh 2 = Some kernel_leaf ->
  (forall va need, KERNEL_GIGAPAGE_VA <= low39 va < KERNEL_GIGAPAGE_VA + GIB -> need <> 0 ->
     translate_checked (pmem p) root va need = None) /\
  (forall va len j, 0 <= j < len -> KERNEL_GIGAPAGE_VA <= low39 (wrap64 (va + j)) < KERNEL_GIGAPAGE_VA + GIB ->
     copy_from_user (pmem p) root va len = None).
Proof.
  intros Hwf Hg. split; intros; [by apply (kernel_untranslated p sh root)|by apply (kernel_uncopied p sh root va len j)].
Qed.

(** A concrete address space: the first frames of a fresh pool. *)
Definition demo_pool : fpool := pool_init (fun _ => x00).
Definition demo_space : fpool := snd (map_kernel (snd (space_new demo_pool)) POOL_BASE).

Lemma demo_space_wf :
  space_wf demo_space {[ [] := POOL_BASE ]} POOL_BASE /\
  giga_of demo_space {[ [] := POOL_BASE ]} 2 = Some kernel_leaf /\
  (forall i2 i1 i0, 0 <= i0 < 512 -> page_of demo_space {[ [] := POOL_BASE ]} i2 i1 i0 = None) /\
  (forall i2, 0 <= i2 < 512 -> i2 <> 2 -> giga_of demo_space {[ [] := POOL_BASE ]} i2 = None).
Proof.
  unfold demo_space. assert (fst (space_new demo_pool) = Some POOL_BASE) as E by (vm_compute; reflexivity).
  destruct (space_new demo_pool) as [o p1] eqn:E1. cbn in E. subst o. cbn [snd].
  destruct (space_new_wf demo_pool p1 POOL_BASE (pool_init_ok _) E1) as (Hwf & _ & Hp & _ & Hg).
  destruct (map_kernel p1 POOL_BASE) as [[e|[]] p2] eqn:E2; cbn [snd].
  - exfalso. unfold map_kernel, map_gigapage in E2. rewrite slot_unfold in E2.
    pose proof (Hg 2 ltac:(lia)) as Hg2. unfold giga_of, valid in Hg2.
    rewrite lookup_singleton_eq, lookup_singleton_ne in Hg2 by done.
    change (vpn KERNEL_GIGAPAGE_VA 2) with 2 in E2.
    destruct (has (read_pte (pmem p1) (slot POOL_BASE 2)) V); done.
  - destruct (map_kernel_spec p1 p2 _ _ Hwf E2) as (Hwf2 & Hg2 & _ & Hp2 & _).
    split_and!; [done|by rewrite Hg2 by lia|intros; rewrite Hp2 by done; apply Hp|].
    intros i2 Hi Hne. rewrite Hg2, decide_False by done. by apply Hg.
Qed.

Lemma map_page_refines_witness :
  exists p' sh', map_page demo_space POOL_BASE 0x10000 0x80401000 (Z.lor R U) = (inr tt, p') /\
    mapped demo_space {[ [] := POOL_BASE ]} p' sh' 0x10000 (leaf 0x80401000 (Z.lor R U)).
Proof.
  pose proof (map_page_refines demo_space {[ [] := POOL_BASE ]} POOL_BASE 0x10000 0x80401000 (Z.lor R U)) as H.
  specialize (H (proj1 demo_space_wf) ltac:(vm_compute; repeat split; congruence) ltac:(vm_compute; split; congruence)).
  assert (fst (map_page demo_space POOL_BASE 0x10000 0x80401000 (Z.lor R U)) = inr tt) as E by (vm_compute; reflexivity).
  destruct (map_page _ _ _ _ _) as [r p']. cbn in E. subst r.
  destruct H as (sh' & _ & H). by exists p', sh'.
Defined.

Lemma translate_refines_witness :
  translate_checked (pmem demo_space) POOL_BASE 0x80400123 0 = Some 0x80400123 /\
  lookup_pte demo_space {[ [] := POOL_BASE ]} 0x80400123 = Some (2, kernel_leaf).
Proof.
  assert (lookup_pte demo_space {[ [] := POOL_BASE ]} 0x80400123 = Some (2, kernel_leaf)) as E.
  { unfold lookup_pte. change (vpn 0x80400123 2) with 2.
    rewrite (proj1 (proj2 demo_space_wf)). reflexivity. }
  split; [|exact E].
  rewrite (translate_refines demo_space {[ [] := POOL_BASE ]} POOL_BASE 0x80400123 0 (proj1 demo_space_wf)).
  rewrite E. reflexivity.
Defined.

Lemma destroy_exact_witness : ~ owned (destroy POOL_BASE demo_space) POOL_BASE.
Proof.
  destruct (destroy_exact demo_space {[ [] := POOL_BASE ]} POOL_BASE (proj1 demo_space_wf)) as (_ & _ & _ & H).
  intros Ho. apply H in Ho.
  - destruct Ho as [_ Ho]. apply Ho. left. exists []. reflexivity.
  - intros i2 i1 i0 e He _. unfold page_of in He. rewrite lookup_singleton_ne in He by discriminate. discriminate He.
Defined.

(** A copy from below the gigabyte that runs into it. *)
Lemma kernel_isolated_witness :
  translate_checked (pmem demo_space) POOL_BASE 0x80200000 (Z.lor U R) = None /\
  copy_from_user (pmem demo_space) POOL_BASE 0x7ffffff8 16 = None.
Proof.
  pose proof (kernel_isolated demo_space {[ [] := POOL_BASE ]} POOL_BASE (proj1 demo_space_wf) (proj1 (proj2 demo_space_wf))) as [H1 H2].
  split; [apply H1; [vm_compute; split; congruence|discriminate]|apply (H2 _ _ 8); [lia|vm_compute; split; congruence]].
Defined.
