(* ===== verification/Elf.v ===== *)
(** * The ELF64 loader: definitions (kernel/src/elf.rs)

    The loader over the pool state. [overflow_checks] is the build profile: the
    release build wraps an unchecked addition, the dev build panics on it. The
    loops carry fuel; [FuelOut] marks running out of it, which [ElfProofs]
    shows never happens. *)

From S2P Require Import Prelude Hal Frames Mm.

Inductive ElfError :=
  | TooShort | BadMagic | NotElf64Rv | BadProgramHeaders
  | WxViolation | OutOfMemory | MapFailed | EntryUnmapped.

Definition elf_error_str (e : ElfError) : bytes :=
  match e with
  | TooShort => lit "too_short"
  | BadMagic => lit "bad_magic"
  | NotElf64Rv => lit "not_elf64_riscv"
  | BadProgramHeaders => lit "bad_program_headers"
  | WxViolation => lit "wx_violation"
  | OutOfMemory => lit "out_of_memory"
  | MapFailed => lit "map_failed"
  | EntryUnmapped => lit "entry_unmapped"
  end.

(** The outcome of a loader function: a value, an error, a panic (an index out
    of range, or an overflow in a checked build), or no fuel. *)
Inductive eres (T : Type) :=
  | EOk (v : T) | EErr (e : ElfError) | EPanic | FuelOut.
Arguments EOk {T} _.
Arguments EErr {T} _.
Arguments EPanic {T}.
Arguments FuelOut {T}.

Definition PT_LOAD : Z := 1.
Definition PF_X : Z := 1.
Definition PF_W : Z := 2.
Definition PF_R : Z := 4.

(** [b.get(s..e)]. *)
Definition get_range (b : bytes) (s e : Z) : option bytes :=
  if (s <=? e) && (e <=? Z.of_nat (length b))
  then Some (take (Z.to_nat (e - s)) (drop (Z.to_nat s) b)) else None.

Definition uint_at (n : Z) (b : bytes) (off : Z) : option Z :=
  match checked_add off n with
  | None => None
  | Some e => match get_range b off e with Some s => Some (le_word s) | None => None end
  end.
Definition u16_at : bytes -> Z -> option Z := uint_at 2.
Definition u32_at : bytes -> Z -> option Z := uint_at 4.
Definition u64_at : bytes -> Z -> option Z := uint_at 8.

Section Loader.
Context (overflow_checks : bool).

(** An unchecked [usize] addition: [None] is the checked build's panic. *)
Definition add_usize (a b : Z) : option Z :=
  if a + b <? W64 then Some (a + b)
  else if overflow_checks then None else Some (wrap64 (a + b)).

(** The copy of one page: the file bytes that fall in [page, page_end). *)
Definition copy_page (image : bytes) (frame page vaddr offset copy_start copy_end : Z) (p : fpool)
  : eres unit * fpool :=
  if negb (copy_start <? copy_end) then (EOk tt, p) else
  match add_usize offset (copy_start - vaddr) with
  | None => (EPanic, p)
  | Some src_off =>
      match add_usize src_off (copy_end - copy_start) with
      | None => (EPanic, p)
      | Some src_end =>
          match get_range image src_off src_end with
          | None => (EErr BadProgramHeaders, p)
          | Some src =>
              match phys_write (pmem p) (frame + (copy_start - page)) src with
              | None => (EErr MapFailed, free frame p)
              | Some m => (EOk tt, with_mem p m)
              end
          end
      end
  end.

(** The loop of [map_segment], from [page] on. *)
Fixpoint segment_loop (fuel : nat) (image : bytes) (root vaddr offset file_end seg_end perms page : Z)
    (p : fpool) : eres unit * fpool :=
  if negb (page <? seg_end) then (EOk tt, p) else
  match fuel with
  | O => (FuelOut, p)
  | S f =>
      match checked_add page PAGE_SIZE with
      | None => (EErr BadProgramHeaders, p)
      | Some page_end =>
          match alloc p with
          | (None, p1) => (EErr OutOfMemory, p1)
          | (Some frame, p1) =>
              match copy_page image frame page vaddr offset (Z.max page vaddr) (Z.min page_end file_end) p1 with
              | (EOk _, p2) =>
                  match map_page p2 root page frame perms with
                  | (inl _, p3) => (EErr MapFailed, free frame p3)
                  | (inr _, p3) =>
                      segment_loop f image root vaddr offset file_end seg_end perms page_end p3
                  end
              | (r, p2) => (r, p2)
              end
          end
      end
  end.

(** Pages left when the loop starts; every round takes a frame, so one more
    than the pool holds is always enough. *)
Definition segment_fuel (page seg_end : Z) : nat :=
  Z.to_nat (Z.min ((seg_end - page + (PAGE_SIZE - 1)) / PAGE_SIZE) (POOL_FRAMES + 1)).

Definition map_segment (image : bytes) (root vaddr offset filesz memsz perms : Z) (p : fpool)
  : eres unit * fpool :=
  match checked_add vaddr memsz with
  | None => (EErr BadProgramHeaders, p)
  | Some seg_end =>
      match checked_add vaddr filesz with
      | None => (EErr BadProgramHeaders, p)
      | Some file_end =>
          let page := vaddr - vaddr mod PAGE_SIZE in
          segment_loop (segment_fuel page seg_end) image root vaddr offset file_end seg_end perms page p
      end
  end.

(** Page permissions of a segment from its program-header flags. *)
Definition seg_perms (p_flags : Z) : Z :=
  let perms := U in
  let perms := if has p_flags PF_R then Z.lor perms R else perms in
  let perms := if has p_flags PF_W then Z.lor perms W else perms in
  if has p_flags PF_X then Z.lor perms X else perms.

(** One iteration of the program-header loop, at header offset [ph]. *)
Definition load_header (image : bytes) (root ph : Z) (p : fpool) : eres unit * fpool :=
  match u32_at image ph with
  | None => (EErr BadProgramHeaders, p)
  | Some ty =>
      if negb (ty =? PT_LOAD) then (EOk tt, p) else
      match u32_at image (ph + 4), u64_at image (ph + 8), u64_at image (ph + 16),
            u64_at image (ph + 32), u64_at image (ph + 40) with
      | Some p_flags, Some p_offset, Some p_vaddr, Some p_filesz, Some p_memsz =>
          if p_memsz <? p_filesz then (EErr BadProgramHeaders, p) else
          let perms := seg_perms p_flags in
          if has perms W && has perms X then (EErr WxViolation, p)
          else map_segment image root p_vaddr p_offset p_filesz p_memsz perms p
      | _, _, _, _, _ => (EErr BadProgramHeaders, p)
      end
  end.

(** The loop over the [n] remaining headers, the next one number [i]. *)
Fixpoint header_loop (n : nat) (i : Z) (image : bytes) (root phoff phentsize : Z) (p : fpool)
  : eres unit * fpool :=
  match n with
  | O => (EOk tt, p)
  | S n' =>
      match load_header image root (phoff + i * phentsize) p with
      | (EOk _, p') => header_loop n' (i + 1) image root phoff phentsize p'
      | (r, p') => (r, p')
      end
  end.

(** The test of class, data encoding and machine, its operands in order; [None]
    is an index out of range. *)
Definition is_elf64_rv (image : bytes) : option bool :=
  match image !! 4%nat with
  | None => None
  | Some class =>
      if negb (bz class =? 2) then Some false else
      match image !! 5%nat with
      | None => None
      | Some data => Some ((bz data =? 1) && bool_decide (u16_at image 18 = Some 243))
      end
  end.

Definition load_elf (image : bytes) (root : Z) (p : fpool) : eres Z * fpool :=
  let len := Z.of_nat (length image) in
  if len <? 64 then (EErr TooShort, p) else
  if negb (bool_decide (get_range image 0 4 = Some [x7f; x45; x4c; x46])) then (EErr BadMagic, p) else
  match is_elf64_rv image with
  | None => (EPanic, p)
  | Some false => (EErr NotElf64Rv, p)
  | Some true =>
  match u64_at image 24, u64_at image 32, u16_at image 54, u16_at image 56 with
  | Some entry, Some phoff, Some phentsize, Some phnum =>
      if phentsize <? 56 then (EErr BadProgramHeaders, p) else
      match checked_mul phnum phentsize with
      | None => (EErr BadProgramHeaders, p)
      | Some s =>
          match checked_add phoff s with
          | None => (EErr BadProgramHeaders, p)
          | Some table_span =>
              if len <? table_span then (EErr BadProgramHeaders, p) else
              match header_loop (Z.to_nat phnum) 0 image root phoff phentsize p with
              | (EOk _, p1) =>
                  match translate (pmem p1) root entry with
                  | None => (EErr EntryUnmapped, p1)
                  | Some _ => (EOk entry, p1)
                  end
              | (EErr e, p1) => (EErr e, p1)
              | (EPanic, p1) => (EPanic, p1)
              | (FuelOut, p1) => (FuelOut, p1)
              end
          end
      end
  | _, _, _, _ => (EErr TooShort, p)
  end
  end.

End Loader.
