(* ===== verification/PoolAcct.v ===== *)
(** * The allocator's books

    Every operation over the pool, page-table construction, loading, copying
    and tear-down, on whatever memory it finds, keeps the allocator's invariant:
    the bitmap has its size and the live counter counts its set bits. The
    operations that only allocate never lower the counter, which bounds the
    loader's loops by the size of the pool. *)

From S2P Require Import Prelude Hal Frames Mm Elf.

(** [p'] is a good pool with at least as many live frames as [p]. *)
Definition charged (p p' : fpool) : Prop := pool_ok p' /\ allocated p <= allocated p'.

Lemma charged_refl (p : fpool) : pool_ok p -> charged p p.
Proof. split; [done|lia]. Qed.

Lemma charged_trans (p1 p2 p3 : fpool) : charged p1 p2 -> charged p2 p3 -> charged p1 p3.
Proof. intros [_ H1] [H2 H3]. split; [done|lia]. Qed.

Lemma charged_mem (p p' : fpool) (m : mem) : charged p p' -> charged p (with_mem p' m).
Proof. done. Qed.

Lemma alloc_charged (p p' : fpool) (o : option Z) : pool_ok p -> alloc p = (o, p') ->
  charged p p' /\ (o <> None -> allocated p' = allocated p + 1).
Proof.
  intros Hp H. destruct o as [f|].
  - apply (alloc_gives (FrameAllocator := frames_allocator)) in H as (_ & _ & _ & _ & Hc & Hk); [|done].
    split; [split; [done|lia]|done].
  - apply (alloc_exhausted (FrameAllocator := frames_allocator)) in H as [-> _].
    split; [by apply charged_refl|done].
Qed.

Lemma free_pool_ok (pa : Z) (p : fpool) : pool_ok p -> pool_ok (free pa p).
Proof.
  intros Hp. destruct (decide (frame_addr pa)) as [Hf|Hf].
  - apply (free_releases (FrameAllocator := frames_allocator) p pa Hp Hf).
  - by rewrite (free_ignores (FrameAllocator := frames_allocator)).
Qed.

Lemma allocated_bound (p : fpool) : pool_ok p -> 0 <= allocated p <= POOL_FRAMES.
Proof. intros (_ & -> & _). pose proof (live_le (bitmap p)). rewrite pool_frames_val in *. lia. Qed.

(** ** Page tables *)

Lemma map_step_charged (p : fpool) (table va level : Z) : pool_ok p ->
  charged p (snd (map_step p table va level)).
Proof.
  intros Hp. unfold map_step. destruct (negb _); [|by destruct (has _ _); apply charged_refl].
  destruct (alloc p) as [[n|] p1] eqn:E; cbn [snd]; apply alloc_charged in E as [E _]; done.
Qed.

Lemma map_page_charged (p : fpool) (root va pa perms : Z) : pool_ok p ->
  charged p (snd (map_page p root va pa perms)).
Proof.
  intros Hp. unfold map_page. pose proof (map_step_charged p root va 2 Hp) as H1.
  destruct (map_step p root va 2) as [[e|t1] p1]; [done|]. cbn [snd] in H1.
  pose proof (map_step_charged p1 t1 va 1 (proj1 H1)) as H2.
  destruct (map_step p1 t1 va 1) as [[e|t0] p2]; cbn [snd] in *; [by eapply charged_trans|].
  unfold map_leaf. destruct (has _ _); cbn [snd]; [|apply charged_mem]; by eapply charged_trans.
Qed.

Lemma map_kernel_charged (p : fpool) (root : Z) : pool_ok p -> charged p (snd (map_kernel p root)).
Proof.
  intros Hp. unfold map_kernel, map_gigapage. destruct (_ || _); [by apply charged_refl|].
  destruct (has _ _); [by apply charged_refl|]. by apply charged_mem, charged_refl.
Qed.

Lemma fold_pool_ok (body : fpool -> Z -> fpool) (l : list Z) (p : fpool) :
  (forall p i, pool_ok p -> pool_ok (body p i)) -> pool_ok p -> pool_ok (fold_left body l p).
Proof. intros Hb. revert p. induction l as [|i l IH]; intros p Hp; [done|]. cbn. by apply IH, Hb. Qed.

Lemma free_subtree_pool_ok (level : nat) (table : Z) (p : fpool) : pool_ok p -> pool_ok (free_subtree level table p).
Proof.
  revert table p. induction level as [|l IH]; intros table p Hp; cbn [free_subtree];
    apply free_pool_ok, fold_pool_ok; try done; intros q i Hq; unfold free_slot;
    repeat (destruct (negb _) || destruct (has _ _)); try done; by apply free_pool_ok || apply IH.
Qed.

Lemma destroy_pool_ok (root : Z) (p : fpool) : pool_ok p -> pool_ok (destroy root p).
Proof.
  intros Hp. unfold destroy. apply free_pool_ok, fold_pool_ok; [|done]. intros q i Hq. unfold destroy_slot.
  destruct (_ || _); [done|by apply free_subtree_pool_ok].
Qed.

(** ** Deep copy *)

Lemma copy_leaf_pool_ok (dst va pte : Z) (p : fpool) : pool_ok p -> pool_ok (snd (copy_leaf dst va pte p)).
Proof.
  intros Hp. unfold copy_leaf. destruct (negb (has pte U)); [done|].
  assert (Hm : forall q f perms, pool_ok q -> pool_ok (snd (map_page q dst va f perms)))
    by (intros q f perms Hq; apply map_page_charged, Hq).
  destruct (negb _).
  { specialize (Hm p (pte_pa pte) (Z.land pte (Z.lor (Z.lor (Z.lor R W) X) U)) Hp).
    by destruct (map_page p _ _ _ _) as [[?|?] p1]. }
  destruct (alloc p) as [[f|] p1] eqn:Ea; apply alloc_charged in Ea as [[Hp1 _] _]; try done.
  destruct (phys_read _ _ _) as [buf|]; [|by apply free_pool_ok].
  destruct (phys_write _ _ _) as [m2|]; [|by apply free_pool_ok].
  specialize (Hm (with_mem p1 m2) f (Z.land pte (Z.lor (Z.lor (Z.lor R W) X) U)) Hp1).
  destruct (map_page (with_mem p1 m2) _ _ _ _) as [[?|?] p3]; [by apply free_pool_ok|done].
Qed.

Lemma fold_copy_pool_ok (body : bool * fpool -> Z -> bool * fpool) (l : list Z) (st : bool * fpool) :
  (forall st i, pool_ok (snd st) -> pool_ok (snd (body st i))) -> pool_ok (snd st) ->
  pool_ok (snd (fold_left body l st)).
Proof. intros Hb. revert st. induction l as [|i l IH]; intros st Hp; [done|]. cbn. by apply IH, Hb. Qed.

Lemma copy_user_pages_pool_ok (level : nat) (dst table va : Z) (p : fpool) : pool_ok p ->
  pool_ok (snd (copy_user_pages level dst table va p)).
Proof.
  revert table va p. induction level as [|l IH]; intros table va p Hp; cbn [copy_user_pages];
    (apply fold_copy_pool_ok; [|done]); intros [ok q] i Hq; unfold copy_slot;
    (destruct ok; [|done]); cbn [negb snd] in *;
    (destruct (negb _); [done|]); (destruct (has _ _); [by apply copy_leaf_pool_ok|]); [done|by apply IH].
Qed.

Lemma deep_copy_pool_ok (p : fpool) (root : Z) : pool_ok p -> pool_ok (snd (deep_copy p root)).
Proof.
  intros Hp. unfold deep_copy, space_new.
  destruct (alloc p) as [[dst|] p1] eqn:Ea; apply alloc_charged in Ea as [[Hp1 _] _]; try done.
  pose proof (proj1 (map_kernel_charged p1 dst Hp1)) as Hp2.
  destruct (map_kernel p1 dst) as [[e|?] p2]; [by apply destroy_pool_ok|]. cbn [snd] in Hp2.
  pose proof (copy_user_pages_pool_ok 2 dst root 0 p2 Hp2) as Hp3.
  destruct (copy_user_pages 2 dst root 0 p2) as [[|] p3]; [done|by apply destroy_pool_ok].
Qed.

(** ** Loading *)

(** A PT_LOAD header: its fields, if [ph] holds one. *)
Record segment := MkSeg { sg_flags : Z; sg_offset : Z; sg_vaddr : Z; sg_filesz : Z; sg_memsz : Z }.

Definition segment_at (image : bytes) (ph : Z) : option segment :=
  match u32_at image ph, u32_at image (ph + 4), u64_at image (ph + 8), u64_at image (ph + 16),
        u64_at image (ph + 32), u64_at image (ph + 40) with
  | Some ty, Some fl, Some off, Some va, Some fs, Some ms =>
      if ty =? PT_LOAD then Some {| sg_flags := fl; sg_offset := off; sg_vaddr := va;
                                    sg_filesz := fs; sg_memsz := ms |} else None
  | _, _, _, _, _, _ => None
  end.

(** The program-header table of an image: offset, entry size, count. *)
Definition header_table (image : bytes) : option (Z * Z * Z) :=
  match u64_at image 32, u16_at image 54, u16_at image 56 with
  | Some phoff, Some phentsize, Some phnum => Some (phoff, phentsize, phnum)
  | _, _, _ => None
  end.

Section Load.
Context (checks : bool) (image : bytes) (root : Z).

Lemma copy_page_pool_ok (f page vaddr offset cs ce : Z) (p : fpool) : pool_ok p ->
  pool_ok (snd (copy_page checks image f page vaddr offset cs ce p)) /\
  (fst (copy_page checks image f page vaddr offset cs ce p) = EOk tt ->
   allocated (snd (copy_page checks image f page vaddr offset cs ce p)) = allocated p).
Proof.
  intros Hp. unfold copy_page. repeat case_match; cbn [fst snd]; try done.
  split; [by apply free_pool_ok|done].
Qed.

(** No file range of the segment wraps around, if overflow is checked for. *)
Definition no_wrap (offset filesz : Z) : Prop := checks = false \/ offset + filesz < W64.

Lemma copy_page_runs (f page vaddr offset filesz cs ce : Z) (p : fpool) : no_wrap offset filesz -> ce <= vaddr + filesz ->
  match fst (copy_page checks image f page vaddr offset cs ce p) with EPanic | FuelOut => False | _ => True end.
Proof.
  intros [-> |Hw] Hce; unfold copy_page, add_usize; [by repeat case_match|].
  destruct (cs <? ce) eqn:E; zbool; cbn [negb fst]; [|done].
  rewrite (proj2 (Z.ltb_lt (offset + (cs - vaddr)) W64)) by lia.
  rewrite (proj2 (Z.ltb_lt (offset + (cs - vaddr) + (ce - cs)) W64)) by lia. by repeat case_match.
Qed.

(** The loop keeps the books; where no sum wraps it does not panic, and it can
    only run out of fuel after charging the pool once per round. *)
Lemma segment_loop_charges (fuel : nat) (vaddr offset filesz seg_end perms page : Z) (p : fpool) : pool_ok p ->
  let r := segment_loop checks fuel image root vaddr offset (vaddr + filesz) seg_end perms page p in
  pool_ok (snd r) /\
  (no_wrap offset filesz -> fst r <> EPanic) /\
  (no_wrap offset filesz -> fst r = FuelOut ->
   allocated p + Z.of_nat fuel <= POOL_FRAMES /\ page + Z.of_nat fuel * 4096 < seg_end).
Proof.
  revert page p. induction fuel as [|fuel IH]; intros page p Hp; cbn [segment_loop];
    (destruct (page <? seg_end) eqn:E; zbool; cbn [negb]; [|done]).
  { pose proof (allocated_bound p Hp). split; [done|]. split; [done|]. intros _ _. lia. }
  unfold checked_add. destruct (page + PAGE_SIZE <? W64); [|done].
  destruct (alloc p) as [[f|] p1] eqn:Ea; apply alloc_charged in Ea as [[Hp1 _] Hc1]; try done.
  specialize (Hc1 ltac:(done)).
  pose proof (copy_page_pool_ok f page vaddr offset (Z.max page vaddr) (Z.min (page + PAGE_SIZE) (vaddr + filesz)) p1 Hp1) as [Hp2 Hc2].
  pose proof (fun Hw => copy_page_runs f page vaddr offset filesz (Z.max page vaddr) (Z.min (page + PAGE_SIZE) (vaddr + filesz)) p1 Hw ltac:(lia)) as Hrun.
  destruct (copy_page _ _ _ _ _ _ _ _ p1) as [[[]|e| |] p2]; cbn [fst snd] in *;
    try (split; [done|]; split; [done|]; intros Hck ?; by specialize (Hrun Hck)).
  specialize (Hc2 eq_refl). pose proof (map_page_charged p2 root page f perms Hp2) as [Hp3 Hc3].
  destruct (map_page p2 root page f perms) as [[e|[]] p3]; cbn [snd fst] in *; [by split; [apply free_pool_ok|]|].
  specialize (IH (page + PAGE_SIZE) p3 Hp3). cbv zeta in IH. destruct IH as (H1 & H2 & H3).
  split; [done|]. split; [done|]. intros Hck Hfo. specialize (H3 Hck Hfo). unfold PAGE_SIZE in *. lia.
Qed.

Lemma segment_fuel_enough (page seg_end alloc_count : Z) :
  0 <= alloc_count ->
  ~ (alloc_count + Z.of_nat (segment_fuel page seg_end) <= POOL_FRAMES /\
     page + Z.of_nat (segment_fuel page seg_end) * 4096 < seg_end).
Proof.
  intros Ha [H1 H2]. unfold segment_fuel, PAGE_SIZE in *. rewrite pool_frames_val in *.
  change (4096 - 1) with 4095 in *.
  pose proof (Z.div_mod (seg_end - page + 4095) 4096 ltac:(lia)).
  pose proof (Z.mod_pos_bound (seg_end - page + 4095) 4096 ltac:(lia)). lia.
Qed.

(** A result that is a value or a structured error. *)
Definition answered {T} (r : eres T) : Prop := match r with EOk _ | EErr _ => True | _ => False end.

(** Books kept, and an answer given under the condition. *)
Definition kept {T} (safe : Prop) (r : eres T * fpool) : Prop := pool_ok (snd r) /\ (safe -> answered (fst r)).

Lemma map_segment_kept (vaddr offset filesz memsz perms : Z) (p : fpool) : pool_ok p ->
  kept (no_wrap offset filesz) (map_segment checks image root vaddr offset filesz memsz perms p).
Proof.
  intros Hp. unfold map_segment. destruct (checked_add vaddr memsz) as [seg_end|]; [|done].
  unfold checked_add. destruct (vaddr + filesz <? W64); [|done].
  set (page := vaddr - vaddr mod PAGE_SIZE).
  destruct (segment_loop_charges (segment_fuel page seg_end) vaddr offset filesz seg_end perms page p Hp) as (H1 & H2 & H3).
  destruct (segment_loop _ _ _ _ _ _ _ _ _ _ p) as [[| | |] p']; cbn [fst snd] in *; split; try done.
  - intros Hck. by apply H2.
  - intros Hck. specialize (H3 Hck eq_refl).
    apply (segment_fuel_enough page seg_end (allocated p)) in H3; [done|]. by apply allocated_bound.
Qed.

(** The segment of a header is one whose file range does not wrap. *)
Definition header_safe (ph : Z) : Prop := forall sg, segment_at image ph = Some sg -> no_wrap (sg_offset sg) (sg_filesz sg).

Lemma load_header_kept (ph : Z) (p : fpool) : pool_ok p -> kept (header_safe ph) (load_header checks image root ph p).
Proof.
  intros Hp. unfold load_header, header_safe, segment_at. destruct (u32_at image ph) as [ty|]; [|done].
  destruct (ty =? PT_LOAD); [|done]. cbn [negb].
  destruct (u32_at image (ph + 4)) as [fl|]; [|done]. destruct (u64_at image (ph + 8)) as [off|]; [|done].
  destruct (u64_at image (ph + 16)) as [va|]; [|done]. destruct (u64_at image (ph + 32)) as [fs|]; [|done].
  destruct (u64_at image (ph + 40)) as [ms|]; [|done]. repeat case_match; try done.
  destruct (map_segment_kept va off fs ms (seg_perms fl) p Hp) as [H1 H2]. split; [done|].
  intros Hs. apply H2. exact (Hs _ eq_refl).
Qed.

Lemma header_loop_kept (n : nat) (i phoff phe : Z) (p : fpool) : pool_ok p ->
  kept (forall j, i <= j < i + Z.of_nat n -> header_safe (phoff + j * phe)) (header_loop checks n i image root phoff phe p).
Proof.
  revert i p. induction n as [|n IH]; intros i p Hp; [done|]. cbn [header_loop].
  pose proof (load_header_kept (phoff + i * phe) p Hp) as [H1 H2].
  destruct (load_header _ _ _ _ p) as [[?| | |] p1]; cbn [fst snd] in *.
  - destruct (IH (i + 1) p1 H1) as [H3 H4]. split; [done|]. intros Hs. apply H4. intros j Hj. apply Hs. lia.
  - done.
  - split; [done|]. intros Hs. apply H2, Hs. lia.
  - split; [done|]. intros Hs. apply H2, Hs. lia.
Qed.

(** No loadable segment of the image has a file range that wraps. *)
Definition image_safe : Prop := forall phoff phentsize phnum i, header_table image = Some (phoff, phentsize, phnum) ->
  0 <= i < phnum -> header_safe (phoff + i * phentsize).

Lemma elf64_test : 64 <= Z.of_nat (length image) -> is_Some (is_elf64_rv image).
Proof.
  intros Hl. unfold is_elf64_rv.
  destruct (lookup_lt_is_Some_2 image 4) as [c ->]; [lia|]. destruct (negb _); [done|].
  destruct (lookup_lt_is_Some_2 image 5) as [d ->]; [lia|done].
Qed.

Lemma load_elf_kept (p : fpool) : pool_ok p -> kept image_safe (load_elf checks image root p).
Proof.
  intros Hp. unfold load_elf, image_safe, header_table.
  destruct (_ <? 64) eqn:El; zbool; [done|]. destruct (negb _); [done|].
  destruct (elf64_test El) as [[|] ->]; [|done].
  destruct (u64_at image 24) as [entry|]; [|done]. destruct (u64_at image 32) as [phoff|]; [|done].
  destruct (u16_at image 54) as [phe|]; [|done]. destruct (u16_at image 56) as [phn|]; [|done].
  destruct (phe <? 56); [done|]. destruct (checked_mul phn phe) as [s|]; [|done].
  destruct (checked_add phoff s) as [span|]; [|done]. destruct (_ <? span); [done|].
  pose proof (header_loop_kept (Z.to_nat phn) 0 phoff phe p Hp) as [H1 H2].
  assert (Hs : (forall phoff0 phentsize phnum i, Some (phoff, phe, phn) = Some (phoff0, phentsize, phnum) -> 0 <= i < phnum ->
    header_safe (phoff0 + i * phentsize)) -> forall j, 0 <= j < 0 + Z.of_nat (Z.to_nat phn) -> header_safe (phoff + j * phe)).
  { intros H j Hj. apply (H phoff phe phn j eq_refl). lia. }
  destruct (header_loop _ _ _ _ _ _ _ p) as [[?| | |] p1]; cbn [fst snd] in *; try done.
  - by destruct (translate _ _ _).
  - split; [done|]. intros H. by apply H2, Hs.
  - split; [done|]. intros H. by apply H2, Hs.
Qed.

End Load.
