(* ===== verification/ElfProofs.v ===== *)
(** * The ELF64 loader: proofs

    The loader is total in the release build, never maps a page both writable
    and executable, and a successful load puts every byte of every loadable
    segment where the program headers say. Three theorems record what
    modelling showed about failing loads. *)

From S2P Require Import Prelude Hal Frames Mm MmSpec MmWalk Elf PoolAcct.

(** ** Address spaces under changes of the pool *)

(** The pool changed, but not in the tables of [sh]. *)
Lemma wf_transfer (p p' : fpool) (sh : shape) (root : Z) :
  space_wf p sh root -> pool_ok p' ->
  (forall k t, sh !! k = Some t -> owned p' t) ->
  (forall k t a, sh !! k = Some t -> t <= a < t + FRAME_SIZE -> pmem p' a = pmem p a) ->
  space_wf p' sh root /\
  (forall i2 i1 i0, 0 <= i0 < 512 -> page_of p' sh i2 i1 i0 = page_of p sh i2 i1 i0) /\
  (forall i2 i1, 0 <= i1 < 512 -> mega_of p' sh i2 i1 = mega_of p sh i2 i1) /\
  (forall i2, 0 <= i2 < 512 -> giga_of p' sh i2 = giga_of p sh i2).
Proof.
  intros Hwf Hp Ho Hm.
  assert (forall k t i, sh !! k = Some t -> 0 <= i < 512 ->
    read_pte (pmem p') (slot t i) = read_pte (pmem p) (slot t i)) as Hr.
  { intros k t i Hk Hi. apply read_slot_ext; [by eapply wf_frame|done|]. eauto. }
  split_and!.
  - split; [done|exact (wf_root _ _ _ Hwf)|exact (wf_inj _ _ _ Hwf)|done|exact (wf_path _ _ _ Hwf)|].
    intros k t i Hk Hl Hi. rewrite (Hr k) by done. by apply (wf_entry _ _ _ Hwf).
  - intros i2 i1 i0 Hi. unfold page_of. destruct (sh !! [i2; i1]) eqn:E; [|done]. by rewrite (Hr [i2; i1]).
  - intros i2 i1 Hi. unfold mega_of. destruct (sh !! [i2]) eqn:E; [|done].
    destruct (sh !! [i2; i1]); [done|]. by rewrite (Hr [i2]).
  - intros i2 Hi. unfold giga_of. destruct (sh !! []) eqn:E; [|done].
    destruct (sh !! [i2]); [done|]. by rewrite (Hr []).
Qed.

(** What the loader maintains: well-formedness, every 4 KiB entry names a
    frame the space owns, not one of its tables, with flags satisfying [Q];
    there are no megapages, and gigapages are supervisor-only. *)
Record load_inv (Q : Z -> Prop) (p : fpool) (sh : shape) (root : Z) : Prop := {
  li_wf : space_wf p sh root;
  li_page : forall i2 i1 i0 e, 0 <= i0 < 512 -> page_of p sh i2 i1 i0 = Some e ->
    owned p (pte_pa e) /\ (forall k, sh !! k <> Some (pte_pa e)) /\ Q e;
  li_mega : forall i2 i1, 0 <= i2 < 512 -> 0 <= i1 < 512 -> mega_of p sh i2 i1 = None;
  li_giga : forall i2 e, 0 <= i2 < 512 -> giga_of p sh i2 = Some e -> has e U = false
}.

(** Existing pages keep their entry and their bytes, and so does every frame in
    use that is not one of the tables: it becomes none either. *)
Record keeps (p : fpool) (sh : shape) (p' : fpool) (sh' : shape) : Prop := {
  kp_page : forall i2 i1 i0 e, 0 <= i0 < 512 -> page_of p sh i2 i1 i0 = Some e ->
    page_of p' sh' i2 i1 i0 = Some e /\
    forall off, 0 <= off < FRAME_SIZE -> pmem p' (pte_pa e + off) = pmem p (pte_pa e + off);
  kp_giga : forall i2, 0 <= i2 < 512 -> giga_of p' sh' i2 = giga_of p sh i2;
  kp_own : forall g, owned p g -> owned p' g;
  kp_rest : forall g, owned p g -> (forall k, sh !! k <> Some g) ->
    (forall k, sh' !! k <> Some g) /\ forall off, 0 <= off < FRAME_SIZE -> pmem p' (g + off) = pmem p (g + off)
}.

Lemma keeps_refl (p : fpool) (sh : shape) : keeps p sh p sh.
Proof. by split. Qed.

Lemma keeps_trans (p1 p2 p3 : fpool) (s1 s2 s3 : shape) :
  keeps p1 s1 p2 s2 -> keeps p2 s2 p3 s3 -> keeps p1 s1 p3 s3.
Proof.
  intros H1 H2. split.
  - intros i2 i1 i0 e Hi He. apply (kp_page _ _ _ _ H1) in He as [He Hb]; [|done].
    apply (kp_page _ _ _ _ H2) in He as [He Hb2]; [|done]. split; [done|].
    intros off Ho. rewrite Hb2, Hb by done. done.
  - intros i2 Hi. rewrite (kp_giga _ _ _ _ H2), (kp_giga _ _ _ _ H1) by done. done.
  - intros g Hg. apply (kp_own _ _ _ _ H2), (kp_own _ _ _ _ H1). done.
  - intros g Hg Hs. destruct (kp_rest _ _ _ _ H1 g Hg Hs) as [Hs2 Hb].
    destruct (kp_rest _ _ _ _ H2 g (kp_own _ _ _ _ H1 g Hg) Hs2) as [Hs3 Hb2]. split; [done|].
    intros off Ho. by rewrite Hb2, Hb.
Qed.

(** The entries that appear satisfy [P]. *)
Definition adds (P : Z -> Z -> Z -> Z -> Prop) (p : fpool) (sh : shape) (p' : fpool) (sh' : shape) : Prop :=
  forall i2 i1 i0 e, 0 <= i0 < 512 -> page_of p' sh' i2 i1 i0 = Some e ->
  page_of p sh i2 i1 i0 = Some e \/ P i2 i1 i0 e.

Lemma adds_refl (P : Z -> Z -> Z -> Z -> Prop) (p : fpool) (sh : shape) : adds P p sh p sh.
Proof. intros i2 i1 i0 e _ H. by left. Qed.

Lemma adds_trans (P1 P2 P : Z -> Z -> Z -> Z -> Prop) (p1 p2 p3 : fpool) (s1 s2 s3 : shape) :
  (forall i2 i1 i0 e, P1 i2 i1 i0 e -> P i2 i1 i0 e) -> (forall i2 i1 i0 e, P2 i2 i1 i0 e -> P i2 i1 i0 e) ->
  adds P1 p1 s1 p2 s2 -> adds P2 p2 s2 p3 s3 -> adds P p1 s1 p3 s3.
Proof.
  intros H1 H2 A1 A2 i2 i1 i0 e Hi He. destruct (A2 i2 i1 i0 e Hi He) as [He2|He2]; [|right; auto].
  destruct (A1 i2 i1 i0 e Hi He2) as [He1|He1]; auto.
Qed.

Lemma adds_impl (P1 P : Z -> Z -> Z -> Z -> Prop) (p p' : fpool) (sh sh' : shape) :
  adds P1 p sh p' sh' -> (forall i2 i1 i0 e, P1 i2 i1 i0 e -> P i2 i1 i0 e) -> adds P p sh p' sh'.
Proof. intros A H i2 i1 i0 e Hi He. destruct (A i2 i1 i0 e Hi He); auto. Qed.

(** The page at [pg], on a frame [p] had not given out. *)
Definition fresh_page (p : fpool) (perms pg i2 i1 i0 e : Z) : Prop :=
  i2 = vpn pg 2 /\ i1 = vpn pg 1 /\ i0 = vpn pg 0 /\ exists f, e = leaf f perms /\ frame_addr f /\ ~ owned p f.

(** ** The copy of one page *)

(** The byte the loader puts at virtual address [va]. *)
Definition image_byte (image : bytes) (vaddr offset file_end va : Z) : byte :=
  if (vaddr <=? va) && (va <? file_end)
  then nth (Z.to_nat (wrap64 (offset + (va - vaddr)))) image x00 else x00.

Lemma get_range_spec (b s : bytes) (lo hi : Z) : 0 <= lo -> get_range b lo hi = Some s ->
  lo <= hi <= Z.of_nat (length b) /\ Z.of_nat (length s) = hi - lo /\
  forall i, 0 <= i < hi - lo -> nth (Z.to_nat i) s x00 = nth (Z.to_nat (lo + i)) b x00.
Proof.
  unfold get_range. intros Hlo H. destruct (_ && _) eqn:E; [|done]. zbool. injection H as <-.
  split; [done|]. rewrite length_take, length_drop. split; [lia|]. intros i Hi.
  rewrite !nth_lookup, lookup_take_lt, lookup_drop by lia. do 2 f_equal. lia.
Qed.

Lemma copy_page_ok (image : bytes) (f page vaddr offset cs ce : Z) (p p' : fpool) :
  0 <= offset < W64 -> 0 <= vaddr <= cs -> page <= cs -> ce <= page + FRAME_SIZE -> frame_addr f ->
  copy_page false image f page vaddr offset cs ce p = (EOk tt, p') ->
  exists m, p' = with_mem p m /\
    (forall a, ~ (f <= a < f + FRAME_SIZE) -> m a = pmem p a) /\
    (forall off, 0 <= off < FRAME_SIZE ->
       m (f + off) = if (cs <=? page + off) && (page + off <? ce)
                     then nth (Z.to_nat (wrap64 (offset + (page + off - vaddr)))) image x00
                     else pmem p (f + off)).
Proof.
  intros Hof Hv Hcs Hce Hf H. unfold copy_page in H.
  destruct (cs <? ce) eqn:E; zbool; cbn [negb] in H.
  2:{ injection H as <-. exists (pmem p). destruct p. split; [done|]. split; [done|].
      intros off Ho. destruct (_ && _) eqn:Eb; [zbool; lia|done]. }
  unfold FRAME_SIZE in *.
  assert (exists so, add_usize false offset (cs - vaddr) = Some so /\ so = wrap64 (offset + (cs - vaddr))) as (so & Hso & Eso).
  { unfold add_usize. destruct (_ <? W64) eqn:El; zbool; eexists; (split; [done|]); [|done].
    symmetry. apply wrap64_small. lia. }
  rewrite Hso in H. pose proof (wrap64_range (offset + (cs - vaddr))) as Hr. rewrite <- Eso in Hr.
  unfold add_usize in H. destruct (so + (ce - cs) <? W64) eqn:El; zbool.
  2:{ unfold get_range in H. destruct (_ && _) eqn:Eg; [|done]. zbool.
      assert (wrap64 (so + (ce - cs)) = so + (ce - cs) - W64); [|unfold W64 in *; lia].
      unfold wrap64. symmetry. apply Z.mod_unique with 1; unfold W64 in *; lia. }
  destruct (get_range image so _) as [src|] eqn:Eg; [|done].
  apply get_range_spec in Eg as (Hb & Hlen & Hnth); [|lia].
  unfold phys_write in H. destruct (pool_ptr _ _) as [q|] eqn:Eq; [|done].
  apply pool_ptr_inv in Eq as [-> _]; [|lia]. injection H as <-. eexists. split; [done|]. split.
  - intros a Ha. apply store_other. lia.
  - intros off Ho. destruct (_ && _) eqn:Eb.
    + zbool. unfold store. destruct (_ && _) eqn:Es; [|apply andb_false_iff in Es as [?|?]; zbool; lia].
      replace (f + off - (f + (cs - page))) with (page + off - cs) by lia.
      rewrite Hnth by lia. do 2 f_equal.
      rewrite <- (wrap64_small (so + (page + off - cs))) by lia. rewrite Eso.
      unfold wrap64. rewrite Zplus_mod_idemp_l. f_equal. lia.
    + apply store_other. rewrite Hlen. apply andb_false_iff in Eb as [?|?]; zbool; lia.
Qed.

(** ** One page of a segment *)

Definition page_loaded (image : bytes) (vaddr offset file_end perms : Z)
    (p : fpool) (sh : shape) (pg : Z) : Prop :=
  exists f, page_of p sh (vpn pg 2) (vpn pg 1) (vpn pg 0) = Some (leaf f perms) /\ frame_addr f /\
    forall off, 0 <= off < FRAME_SIZE ->
      pmem p (f + off) = image_byte image vaddr offset file_end (pg + off).

Lemma page_loaded_keeps (image : bytes) (vaddr offset file_end perms : Z) (p p' : fpool) (sh sh' : shape) (pg : Z) :
  0 <= perms < 1024 -> keeps p sh p' sh' ->
  page_loaded image vaddr offset file_end perms p sh pg ->
  page_loaded image vaddr offset file_end perms p' sh' pg.
Proof.
  intros Hp Hk (f & He & Hf & Hb). pose proof (vpn_range pg 0) as H0.
  destruct (kp_page _ _ _ _ Hk _ _ _ _ H0 He) as [He' Hb'].
  destruct (leaf_spec f perms (frame_page_pa f Hf) Hp) as (_ & Epa & _). rewrite Epa in Hb'.
  exists f. split_and!; [done|done|]. intros off Ho. rewrite Hb' by done. auto.
Qed.

Section PageStep.
Context (Q : Z -> Prop) (p p1 p2 p3 : fpool) (sh : shape) (root f page perms : Z) (m : mem).
Context (Hinv : load_inv Q p sh root) (Halloc : alloc p = (Some f, p1)) (Ep2 : p2 = with_mem p1 m)
  (Hm : forall a, ~ (f <= a < f + FRAME_SIZE) -> m a = pmem p1 a)
  (Hperms : 0 <= perms < 1024) (HQ : Q (leaf f perms))
  (Hmap : map_page p2 root page f perms = (inr tt, p3)).

Lemma step_alloc_ok : alloc_ok p f p1.
Proof. apply alloc_gives; [apply (wf_pool _ _ _ (li_wf _ _ _ _ Hinv))|done]. Qed.

Lemma step_mem (a : Z) : ~ (f <= a < f + FRAME_SIZE) -> m a = pmem p a.
Proof.
  intros Ha. rewrite Hm by done. destruct step_alloc_ok as (_ & _ & _ & -> & _).
  by apply fill0_other.
Qed.

Lemma step_not_fresh (g : Z) : owned p g -> g <> f.
Proof. intros Hg ->. by destruct step_alloc_ok as (_ & Hn & _). Qed.

(** After the frame is taken and filled, the tables are as before. *)
Lemma step_wf :
  space_wf p2 sh root /\
  (forall i2 i1 i0, 0 <= i0 < 512 -> page_of p2 sh i2 i1 i0 = page_of p sh i2 i1 i0) /\
  (forall i2 i1, 0 <= i1 < 512 -> mega_of p2 sh i2 i1 = mega_of p sh i2 i1) /\
  (forall i2, 0 <= i2 < 512 -> giga_of p2 sh i2 = giga_of p sh i2).
Proof.
  pose proof (li_wf _ _ _ _ Hinv) as Hwf. destruct step_alloc_ok as (Hf & Hn & Ho & _ & _ & Hk).
  rewrite Ep2. apply wf_transfer; [done|exact Hk| |].
  - intros k t Ht. change (owned p1 t). apply Ho. left. by eapply wf_own.
  - intros k t a Ht Ha. cbn [pmem with_mem]. apply step_mem.
    apply (frames_disjoint t f a); [by eapply wf_frame|done| |done].
    apply step_not_fresh. by eapply wf_own.
Qed.

Lemma step_result : exists sh3,
  load_inv Q p3 sh3 root /\ keeps p sh p3 sh3 /\ adds (fresh_page p perms page) p sh p3 sh3 /\
  page_of p3 sh3 (vpn page 2) (vpn page 1) (vpn page 0) = Some (leaf f perms) /\
  (forall off, 0 <= off < FRAME_SIZE -> pmem p3 (f + off) = m (f + off)).
Proof.
  pose proof (li_wf _ _ _ _ Hinv) as Hwf. destruct step_wf as (Hwf2 & Hpg & Hmg & Hgg).
  destruct step_alloc_ok as (Hf & Hn & Ho & _ & _ & _).
  destruct (leaf_spec f perms (frame_page_pa f Hf) Hperms) as (_ & Epa & _).
  pose proof (map_page_cases p2 sh root page f perms Hwf2 (frame_page_pa f Hf) Hperms) as Hc.
  rewrite Hmap in Hc. destruct Hc as (sh3 & Hwf3 & Hmp).
  assert (forall g, owned p2 g <-> owned p g \/ g = f) as Ho2 by (intros g; rewrite Ep2; apply Ho).
  assert (forall g k, owned p2 g -> (forall k, sh !! k <> Some g) -> sh3 !! k <> Some g) as Hnt.
  { intros g k Hg Hs E. destruct (sh !! k) as [g'|] eqn:Ek.
    - apply (Hs k). pose proof (lookup_weaken _ _ _ _ Ek (mp_sub _ _ _ _ _ _ Hmp)). congruence.
    - by apply (mp_new _ _ _ _ _ _ Hmp k g E Ek). }
  assert (forall g off, owned p2 g -> (forall k, sh !! k <> Some g) -> 0 <= off < FRAME_SIZE ->
    pmem p3 (g + off) = pmem p2 (g + off)) as Hkeep.
  { intros g off Hg Hs Hoff. apply (mp_mem _ _ _ _ _ _ Hmp). intros k t Ht.
    assert (t <> g) by (intros ->; by apply (Hnt g k)).
    apply (frames_disjoint g t (g + off)); [apply Hg|by eapply wf_frame|done|lia]. }
  assert (forall k, sh !! k <> Some f) as Hft by (intros k E; apply Hn; by eapply wf_own).
  assert (owned p2 f) as Hof by (apply Ho2; by right).
  assert (forall g, owned p g -> owned p3 g) as Ho3
    by (intros g Hg; apply (mp_own _ _ _ _ _ _ Hmp); left; apply Ho2; by left).
  exists sh3. split_and!.
  - split; [done| |intros; rewrite (mp_mega _ _ _ _ _ _ Hmp), Hmg by done; by apply (li_mega _ _ _ _ Hinv)
           |intros i2 e Hi; rewrite (mp_giga _ _ _ _ _ _ Hmp), Hgg by done; by apply (li_giga _ _ _ _ Hinv)].
    intros i2 i1 i0 e Hi He. rewrite (mp_page _ _ _ _ _ _ Hmp) in He by done.
    case_decide.
    + injection He as <-. rewrite Epa. split_and!; [|by intros k; apply Hnt|done].
      apply (mp_own _ _ _ _ _ _ Hmp). by left.
    + rewrite Hpg in He by done. apply (li_page _ _ _ _ Hinv) in He as (Hoe & Hte & HQe); [|done].
      split_and!; [by apply Ho3| |done]. intros k. apply Hnt; [|done]. apply Ho2. by left.
  - split; [| |done|].
    + intros i2 i1 i0 e Hi He. pose proof He as He'.
      apply (li_page _ _ _ _ Hinv) in He' as (Hoe & Hte & _); [|done].
      rewrite (mp_page _ _ _ _ _ _ Hmp) by done. case_decide as Hd.
      * injection Hd as -> -> ->. destruct (mp_vacant _ _ _ _ _ _ Hmp) as (Hv & _).
        rewrite Hpg in Hv by done. congruence.
      * rewrite Hpg by done. split; [done|]. intros off Hoff.
        rewrite Hkeep by (try done; apply Ho2; by left). rewrite Ep2. cbn [pmem with_mem]. apply step_mem.
        apply (frames_disjoint (pte_pa e) f); [apply Hoe|done|by apply step_not_fresh|lia].
    + intros i2 Hi. rewrite (mp_giga _ _ _ _ _ _ Hmp), Hgg by done. done.
    + intros g Hg Hs. split; [intros k; apply Hnt; [apply Ho2; by left|done]|]. intros off Hoff.
      rewrite Hkeep by (try done; apply Ho2; by left). rewrite Ep2. cbn [pmem with_mem]. apply step_mem.
      apply (frames_disjoint g f); [apply Hg|done|by apply step_not_fresh|lia].
  - intros i2 i1 i0 e Hi He. rewrite (mp_page _ _ _ _ _ _ Hmp) in He by done. case_decide as Hd.
    + injection Hd as -> -> ->. injection He as <-. right. split_and!; try done. by exists f.
    + rewrite Hpg in He by done. by left.
  - rewrite (mp_page _ _ _ _ _ _ Hmp) by apply vpn_range. rewrite decide_True; done.
  - intros off Hoff. rewrite Hkeep by done. rewrite Ep2. done.
Qed.

End PageStep.

(** ** A whole segment *)

Section Segment.
Context (Q : Z -> Prop) (image : bytes) (root vaddr offset file_end seg_end perms : Z).
Context (Hv : 0 <= vaddr) (Hof : 0 <= offset < W64) (Hperms : 0 <= perms < 1024)
  (HQ : forall f, frame_addr f -> Q (leaf f perms)).

Lemma segment_loop_ok (fuel : nat) (page : Z) (p p' : fpool) (sh : shape) :
  load_inv Q p sh root -> vaddr - vaddr mod 4096 <= page ->
  segment_loop false fuel image root vaddr offset file_end seg_end perms page p = (EOk tt, p') ->
  exists sh', load_inv Q p' sh' root /\ keeps p sh p' sh' /\
    adds (fun i2 i1 i0 e => exists n, 0 <= n /\ page + n * FRAME_SIZE < seg_end /\
            fresh_page p perms (page + n * FRAME_SIZE) i2 i1 i0 e) p sh p' sh' /\
    forall n, 0 <= n -> page + n * FRAME_SIZE < seg_end ->
      page_loaded image vaddr offset file_end perms p' sh' (page + n * FRAME_SIZE).
Proof.
  revert page p sh. induction fuel as [|fuel IH]; intros page p sh Hinv Hpg H; cbn [segment_loop] in H.
  { destruct (page <? seg_end) eqn:E; zbool; [done|]. injection H as <-.
    exists sh. split_and!; [done|apply keeps_refl|apply adds_refl|]. unfold FRAME_SIZE. lia. }
  destruct (page <? seg_end) eqn:E; zbool; cbn [negb] in H.
  2:{ injection H as <-. exists sh. split_and!; [done|apply keeps_refl|apply adds_refl|]. unfold FRAME_SIZE. lia. }
  unfold checked_add in H. destruct (page + PAGE_SIZE <? W64) eqn:Ec; [|done].
  destruct (alloc p) as [[f|] p1] eqn:Ea; [|done].
  assert (alloc_ok p f p1) as Hao by (apply alloc_gives; [apply (wf_pool _ _ _ (li_wf _ _ _ _ Hinv))|done]).
  pose proof Hao as (Hf & _ & _ & Hz & _ & _).
  destruct (copy_page _ _ _ _ _ _ _ _ p1) as [[[]| | |] p2] eqn:Ecp; try done.
  pose proof (Z.mod_pos_bound vaddr 4096 ltac:(lia)) as Hvm.
  apply copy_page_ok in Ecp as (m & Ep2 & Hm & Hb); [|done|lia|lia|unfold PAGE_SIZE, FRAME_SIZE; lia|done].
  destruct (map_page p2 root page f perms) as [[?|[]] p3] eqn:Emp; [done|].
  destruct (step_result Q p p1 p2 p3 sh root f page perms m Hinv Ea Ep2 Hm Hperms (HQ f Hf) Emp)
    as (sh3 & Hinv3 & Hk3 & Ha3 & He3 & Hb3).
  destruct (IH (page + PAGE_SIZE) p3 sh3 Hinv3 ltac:(unfold PAGE_SIZE; lia) H) as (sh' & Hinv' & Hk' & Ha' & Hl').
  exists sh'. split_and!; [done|by eapply keeps_trans| |].
  { eapply adds_trans; [| |exact Ha3|exact Ha'].
    - intros i2 i1 i0 e He. exists 0. rewrite Z.mul_0_l, Z.add_0_r. split_and!; [lia|lia|done].
    - intros i2 i1 i0 e (n & Hn & Hlt & H2 & H1 & H0 & g & He & Hg & Hown). exists (n + 1).
      replace (page + (n + 1) * FRAME_SIZE) with (page + PAGE_SIZE + n * FRAME_SIZE) by (unfold PAGE_SIZE, FRAME_SIZE; lia).
      unfold fresh_page. split_and!; try done; [lia|]. exists g. split_and!; try done.
      intros Ho. apply Hown. by apply (kp_own _ _ _ _ Hk3). }
  intros n Hn Hlt.
  destruct (decide (n = 0)) as [-> |Hn0].
  - rewrite Z.mul_0_l, Z.add_0_r. apply (page_loaded_keeps image vaddr offset file_end perms p3 p' sh3 sh'); [done|done|].
    exists f. split_and!; [done|done|]. intros off Hoff. rewrite Hb3, Hb, Hz, fill0_in by lia.
    unfold image_byte, PAGE_SIZE, FRAME_SIZE in *.
    destruct ((Z.max page vaddr <=? page + off) && _) eqn:E1, ((vaddr <=? page + off) && _) eqn:E2;
      [done| | |done]; exfalso;
      repeat match goal with
      | H : _ && _ = false |- _ => apply andb_false_iff in H as [?|?] end; zbool; lia.
  - replace (page + n * FRAME_SIZE) with (page + PAGE_SIZE + (n - 1) * FRAME_SIZE) by (unfold PAGE_SIZE, FRAME_SIZE; lia).
    apply Hl'; unfold PAGE_SIZE, FRAME_SIZE in *; lia.
Qed.

End Segment.

(** ** Program headers *)

Lemma uint_at_range (n : Z) (b : bytes) (off v : Z) : 0 <= n -> 0 <= off ->
  uint_at n b off = Some v -> 0 <= v < 2 ^ (8 * n).
Proof.
  intros Hn Ho H. unfold uint_at, checked_add in H. destruct (_ <? W64); [|done].
  destruct (get_range b off _) as [s|] eqn:E; [|done]. injection H as <-.
  apply get_range_spec in E as (_ & Hl & _); [|done].
  pose proof (le_word_range s) as Hr. rewrite Hl in Hr. replace (off + n - off) with n in Hr by lia. done.
Qed.

Lemma seg_perms_range (fl : Z) : 0 <= seg_perms fl < 1024.
Proof. unfold seg_perms. repeat case_match; flag_lia. Qed.

(** The loader's page invariant: user pages, never writable and executable. *)
Definition wx_page (e : Z) : Prop :=
  has e U = true /\ (has e W = true -> has e X = true -> False).

Lemma seg_perms_wx (fl f : Z) : has (seg_perms fl) W && has (seg_perms fl) X = false ->
  frame_addr f -> wx_page (leaf f (seg_perms fl)).
Proof.
  intros Hwx Hf. destruct (leaf_spec f (seg_perms fl) (frame_page_pa f Hf) (seg_perms_range fl)) as (_ & _ & Hm).
  unfold wx_page, has in *. rewrite !Hm by flag_lia.
  unfold seg_perms in *. repeat case_match; split; try reflexivity; intros E1 E2; try discriminate.
Qed.

(** Every byte of the segment is in place: the page of each address is a leaf
    with the segment's permissions over a frame holding the image bytes, then
    zeros up to the memory size. *)
Definition segment_loaded (image : bytes) (sg : segment) (p : fpool) (sh : shape) : Prop :=
  forall va, sg_vaddr sg <= va < sg_vaddr sg + sg_memsz sg ->
  exists f, page_of p sh (vpn va 2) (vpn va 1) (vpn va 0) = Some (leaf f (seg_perms (sg_flags sg))) /\
    frame_addr f /\
    pmem p (f + va mod 4096) =
      image_byte image (sg_vaddr sg) (sg_offset sg) (sg_vaddr sg + sg_filesz sg) va.

Lemma segment_loaded_keeps (image : bytes) (sg : segment) (p p' : fpool) (sh sh' : shape) :
  keeps p sh p' sh' -> segment_loaded image sg p sh -> segment_loaded image sg p' sh'.
Proof.
  intros Hk H va Hva. destruct (H va Hva) as (f & He & Hf & Hb).
  destruct (kp_page _ _ _ _ Hk _ _ _ _ (vpn_range va 0) He) as [He' Hb'].
  rewrite (proj1 (proj2 (leaf_spec f _ (frame_page_pa f Hf) (seg_perms_range _)))) in Hb'.
  exists f. split_and!; [done|done|]. rewrite Hb' by (apply Z.mod_pos_bound; reflexivity). done.
Qed.

Lemma pages_cover (image : bytes) (sg : segment) (seg_end : Z) (p : fpool) (sh : shape) :
  0 <= sg_vaddr sg -> seg_end = sg_vaddr sg + sg_memsz sg ->
  (forall n, 0 <= n -> sg_vaddr sg - sg_vaddr sg mod 4096 + n * FRAME_SIZE < seg_end ->
     page_loaded image (sg_vaddr sg) (sg_offset sg) (sg_vaddr sg + sg_filesz sg)
       (seg_perms (sg_flags sg)) p sh (sg_vaddr sg - sg_vaddr sg mod 4096 + n * FRAME_SIZE)) ->
  segment_loaded image sg p sh.
Proof.
  intros Hv -> H va Hva. pose proof (Z.mod_pos_bound (sg_vaddr sg) 4096 ltac:(lia)) as Hm.
  set (page := sg_vaddr sg - sg_vaddr sg mod 4096) in *.
  assert (page mod 4096 = 0) as Hp0.
  { unfold page. pose proof (Z.div_mod (sg_vaddr sg) 4096 ltac:(lia)).
    replace (sg_vaddr sg - sg_vaddr sg mod 4096) with (sg_vaddr sg / 4096 * 4096) by lia.
    apply Z.mod_mul. lia. }
  set (n := (va - page) / 4096). pose proof (Z.div_mod (va - page) 4096 ltac:(lia)) as Hd. fold n in Hd.
  pose proof (Z.mod_pos_bound (va - page) 4096 ltac:(lia)) as Hr.
  assert (0 <= n) by (apply Z.div_pos; lia).
  assert (va mod 4096 = (va - page) mod 4096) as Hva4 by (rewrite <- Zminus_mod_idemp_r, Hp0, Z.sub_0_r; done).
  assert ((page + n * 4096) mod 4096 = 0) as Hpg by (rewrite Z.mod_add by lia; done).
  destruct (H n) as (f & He & Hf & Hb); [done|unfold FRAME_SIZE; lia|]. unfold FRAME_SIZE in *.
  exists f. rewrite <- !(vpn_same_page (page + n * 4096) ((va - page) mod 4096)) in He by lia.
  replace (page + n * 4096 + (va - page) mod 4096) with va in He by lia.
  split_and!; [done|done|]. rewrite Hva4, Hb by lia. f_equal. lia.
Qed.

(** One of the pages a segment is made of. *)
Definition segment_page (p : fpool) (sg : segment) (i2 i1 i0 e : Z) : Prop :=
  exists n, 0 <= n /\ sg_vaddr sg - sg_vaddr sg mod PAGE_SIZE + n * FRAME_SIZE < sg_vaddr sg + sg_memsz sg /\
    fresh_page p (seg_perms (sg_flags sg)) (sg_vaddr sg - sg_vaddr sg mod PAGE_SIZE + n * FRAME_SIZE) i2 i1 i0 e.

Lemma segment_page_before (p p1 : fpool) (sg : segment) (i2 i1 i0 e : Z) : (forall g, owned p g -> owned p1 g) ->
  segment_page p1 sg i2 i1 i0 e -> segment_page p sg i2 i1 i0 e.
Proof.
  intros Ho (n & Hn & Hlt & H2 & H1 & H0 & f & He & Hf & Hown). exists n. unfold fresh_page. split_and!; try done.
  exists f. split_and!; try done. by intros H%Ho.
Qed.

Lemma load_header_ok (image : bytes) (root ph : Z) (p p' : fpool) (sh : shape) :
  0 <= ph -> load_inv wx_page p sh root -> load_header false image root ph p = (EOk tt, p') ->
  exists sh', load_inv wx_page p' sh' root /\ keeps p sh p' sh' /\
    adds (fun i2 i1 i0 e => exists sg, segment_at image ph = Some sg /\ segment_page p sg i2 i1 i0 e) p sh p' sh' /\
    forall sg, segment_at image ph = Some sg -> segment_loaded image sg p' sh'.
Proof.
  intros Hph Hinv H. unfold load_header in H. unfold segment_at.
  destruct (u32_at image ph) as [ty|]; [|done]. destruct (ty =? PT_LOAD) eqn:Ety; cbn [negb] in H.
  2:{ injection H as <-. exists sh. split_and!; [done|apply keeps_refl|apply adds_refl|].
      intros sg Hsg. repeat case_match; done. }
  destruct (u32_at image (ph + 4)) as [fl|]; [|done].
  destruct (u64_at image (ph + 8)) as [off|] eqn:Eo; [|done].
  destruct (u64_at image (ph + 16)) as [va|] eqn:Eva; [|done].
  destruct (u64_at image (ph + 32)) as [fs|] eqn:Efs; [|done].
  destruct (u64_at image (ph + 40)) as [ms|] eqn:Ems; [|done].
  apply uint_at_range in Eo, Eva, Efs, Ems; try lia. cbn in Eo, Eva, Efs, Ems.
  destruct (ms <? fs) eqn:Em; [done|]. zbool.
  destruct (has (seg_perms fl) W && has (seg_perms fl) X) eqn:Ewx; [done|].
  unfold map_segment, checked_add in H.
  destruct (va + ms <? W64); [|done]. destruct (va + fs <? W64); [|done].
  apply (segment_loop_ok wx_page) with (sh := sh) in H as (sh' & Hinv' & Hk & Ha & Hl);
    [|lia|exact Eo|apply seg_perms_range|intros; by apply seg_perms_wx|done|unfold PAGE_SIZE; lia].
  exists sh'. split_and!; [done|done| |].
  { eapply adds_impl; [exact Ha|]. intros i2 i1 i0 e (n & Hn & Hlt & He).
    eexists. split; [reflexivity|]. by exists n. }
  intros sg [= <-].
  apply (pages_cover image _ (va + ms)); cbn; [lia|done|]. exact Hl.
Qed.

Lemma header_loop_ok (n : nat) (i : Z) (image : bytes) (root phoff phentsize : Z) (p p' : fpool) (sh : shape) :
  0 <= phoff -> 0 <= phentsize -> 0 <= i -> load_inv wx_page p sh root ->
  header_loop false n i image root phoff phentsize p = (EOk tt, p') ->
  exists sh', load_inv wx_page p' sh' root /\ keeps p sh p' sh' /\
    adds (fun i2 i1 i0 e => exists j sg, i <= j < i + Z.of_nat n /\ segment_at image (phoff + j * phentsize) = Some sg /\
            segment_page p sg i2 i1 i0 e) p sh p' sh' /\
    forall j sg, i <= j < i + Z.of_nat n -> segment_at image (phoff + j * phentsize) = Some sg ->
      segment_loaded image sg p' sh'.
Proof.
  intros Hpo Hpe. revert i p sh. induction n as [|n IH]; intros i p sh Hi Hinv H; cbn [header_loop] in H.
  { injection H as <-. exists sh. split_and!; [done|apply keeps_refl|apply adds_refl|lia]. }
  destruct (load_header _ _ _ _ _) as [[[]| | |] p1] eqn:El; try done.
  apply load_header_ok with (sh := sh) in El as (sh1 & Hinv1 & Hk1 & Ha1 & Hl1); [|nia|done].
  destruct (IH (i + 1) p1 sh1 ltac:(lia) Hinv1 H) as (sh' & Hinv' & Hk' & Ha' & Hl').
  exists sh'. split_and!; [done|by eapply keeps_trans| |].
  { eapply adds_trans; [| |exact Ha1|exact Ha'].
    - intros i2 i1 i0 e (sg & Hsg & He). exists i, sg. split_and!; [lia|lia|done|done].
    - intros i2 i1 i0 e (j & sg & Hj & Hsg & He). exists j, sg. split_and!; [lia|lia|done|].
      eapply segment_page_before; [apply (kp_own _ _ _ _ Hk1)|done]. }
  intros j sg Hj Hsg.
  destruct (decide (j = i)) as [-> |Hne].
  - eapply segment_loaded_keeps; [done|]. by apply Hl1.
  - apply (Hl' j sg); [lia|done].
Qed.

Lemma load_elf_inv (image : bytes) (root entry : Z) (p p' : fpool) :
  load_elf false image root p = (EOk entry, p') ->
  exists phoff phentsize phnum, header_table image = Some (phoff, phentsize, phnum) /\
    0 <= phoff /\ 0 <= phentsize /\ u64_at image 24 = Some entry /\
    header_loop false (Z.to_nat phnum) 0 image root phoff phentsize p = (EOk tt, p') /\
    is_Some (translate (pmem p') root entry).
Proof.
  intros H. unfold load_elf in H. unfold header_table.
  destruct (u64_at image 24) as [en|] eqn:E1; [|repeat case_match; done].
  destruct (u64_at image 32) as [phoff|] eqn:E2; [|repeat case_match; done].
  destruct (u16_at image 54) as [phe|] eqn:E3; [|repeat case_match; done].
  destruct (u16_at image 56) as [phn|] eqn:E4; [|repeat case_match; done].
  apply uint_at_range in E2, E3; [|lia..].
  exists phoff, phe, phn. repeat case_match; simplify_eq.
  split_and!; try done; try lia. match goal with v : unit |- _ => destruct v end. done.
Qed.

(** A leaf without a flag never grants an access that needs it. *)
Lemma need_refused (e flag : Z) : flag = W \/ flag = X -> has e flag = false ->
  has e PERM_MASK && ((Z.lor U flag =? 0) || has e U && (Z.land e (Z.lor U flag) =? Z.lor U flag)) = false.
Proof.
  intros Hf H. destruct (Z.land e (Z.lor U flag) =? Z.lor U flag) eqn:E.
  - exfalso. zbool. unfold has in H. apply negb_false_iff, Z.eqb_eq in H.
    apply (f_equal (fun z => Z.land z flag)) in E. rewrite <- Z.land_assoc in E.
    assert (Z.land (Z.lor U flag) flag = flag) as Ef by (destruct Hf as [-> | ->]; reflexivity).
    rewrite Ef, H in E. by destruct Hf as [-> | ->].
  - rewrite andb_false_r, orb_false_r. destruct Hf as [-> | ->]; apply andb_false_r.
Qed.

(** A load keeps the loader's invariant and what was mapped before. *)
Lemma load_elf_space (image : bytes) (root entry : Z) (p p' : fpool) (sh : shape) :
  load_inv wx_page p sh root -> load_elf false image root p = (EOk entry, p') ->
  exists sh', load_inv wx_page p' sh' root /\ keeps p sh p' sh'.
Proof.
  intros Hinv H. apply load_elf_inv in H as (phoff & phe & phn & _ & Hpo & Hpe & _ & Hl & _).
  apply header_loop_ok with (sh := sh) in Hl as (sh' & Hinv' & Hk & _ & _); [|lia|lia|lia|done]. by exists sh'.
Qed.

(** C15: a successful load puts the image in place and touches nothing else.
    Every loadable segment is there: each of its addresses has a user page with
    exactly the segment's permissions, over an owned frame that is not a page
    table and that holds the file byte the program header names, or zero past
    the file size. Every page that appeared is one of a segment's, on a frame
    nobody had. Pages mapped before, the kernel gigapage among them, keep their
    entry; every frame in use before, whoever's it is, stays in use and but for
    this space's tables keeps every byte. The entry point returned is the one
    of the header, and it is mapped. *)
Theorem load_elf_correct (image : bytes) (root entry : Z) (p p' : fpool) (sh : shape) :
  load_inv wx_page p sh root -> load_elf false image root p = (EOk entry, p') ->
  exists sh' phoff phentsize phnum,
    load_inv wx_page p' sh' root /\ keeps p sh p' sh' /\
    header_table image = Some (phoff, phentsize, phnum) /\
    (forall i sg, 0 <= i < phnum -> segment_at image (phoff + i * phentsize) = Some sg ->
       segment_loaded image sg p' sh') /\
    adds (fun i2 i1 i0 e => exists i sg, 0 <= i < phnum /\ segment_at image (phoff + i * phentsize) = Some sg /\
            segment_page p sg i2 i1 i0 e) p sh p' sh' /\
    u64_at image 24 = Some entry /\ is_Some (translate (pmem p') root entry).
Proof.
  intros Hinv H. apply load_elf_inv in H as (phoff & phe & phn & Ht & Hpo & Hpe & Hen & Hl & He).
  apply header_loop_ok with (sh := sh) in Hl as (sh' & Hinv' & Hk & Ha & Hs); [|lia|lia|lia|done].
  exists sh', phoff, phe, phn. split_and!; try done.
  - intros i sg Hi. apply Hs. lia.
  - eapply adds_impl; [exact Ha|]. intros i2 i1 i0 e (i & sg & Hi & Hsg & Hpg).
    exists i, sg. split_and!; [lia|lia|done|done].
Qed.

(** C14: W xor X. After a successful load no address of the payload can be
    both written and executed: none translates both for an access that needs W
    and for one that needs X. *)
Theorem load_elf_wx (image : bytes) (root entry va : Z) (p p' : fpool) (sh : shape) :
  load_inv wx_page p sh root -> load_elf false image root p = (EOk entry, p') ->
  translate_checked (pmem p') root va (Z.lor U W) = None \/
  translate_checked (pmem p') root va (Z.lor U X) = None.
Proof.
  intros Hinv H. apply load_elf_inv in H as (phoff & phe & phn & _ & Hpo & Hpe & _ & Hl & _).
  apply header_loop_ok with (sh := sh) in Hl as (sh' & Hinv' & _ & _ & _); [|lia|lia|lia|done].
  pose proof (li_wf _ _ _ _ Hinv') as Hwf. rewrite !(translate_lookup p' sh' root) by done.
  unfold lookup_pte, permits.
  destruct (giga_of p' sh' (vpn va 2)) as [e|] eqn:Eg.
  { apply (li_giga _ _ _ _ Hinv') in Eg as ->; [|apply vpn_range]. left. by rewrite andb_false_r. }
  rewrite (li_mega _ _ _ _ Hinv') by apply vpn_range.
  destruct (page_of p' sh' _ _ _) as [e|] eqn:Ep; [|by left].
  apply (li_page _ _ _ _ Hinv') in Ep as (_ & _ & _ & Hwx); [|apply vpn_range].
  destruct (has e W) eqn:EW; [right|left].
  - destruct (has e X) eqn:EX; [by exfalso; apply Hwx|]. by rewrite (need_refused e X) by tauto.
  - by rewrite (need_refused e W) by tauto.
Qed.

(** ** Totality *)

(** C19: the loader is total on hostile images. Whatever the bytes and whatever
    the state of the address space, in a release build it neither panics, on an
    index, a slice or a sum, nor runs out of the fuel of its loops: it returns
    an entry point or one of the structured errors, with the allocator's books
    in order. In a build with overflow checks the same holds for every image
    none of whose loadable segments has a file range that wraps around 2^64. *)
Theorem load_elf_total (checks : bool) (image : bytes) (root : Z) (p : fpool) : pool_ok p ->
  (checks = true -> forall phoff phentsize phnum i sg, header_table image = Some (phoff, phentsize, phnum) ->
     0 <= i < phnum -> segment_at image (phoff + i * phentsize) = Some sg -> sg_offset sg + sg_filesz sg < W64) ->
  (exists entry p', load_elf checks image root p = (EOk entry, p') /\ pool_ok p') \/
  (exists e p', load_elf checks image root p = (EErr e, p') /\ pool_ok p').
Proof.
  intros Hp Hs. destruct (load_elf_kept checks image root p Hp) as [Hk Ha].
  destruct (load_elf checks image root p) as [[entry|e| |] p']; [left; by do 2 eexists|right; by do 2 eexists|exfalso..];
    apply Ha; intros phoff phe phn i Ht Hi sg Hsg; (destruct checks; [right; by eapply Hs|by left]).
Qed.

(** ** Concrete images *)

Definition zeros (n : nat) : bytes := replicate n x00.

(** A minimal image: the 64-byte header, one program header, no code. *)
Definition demo_image (flags offset vaddr filesz memsz : Z) : bytes :=
  [x7f; x45; x4c; x46; x02; x01] ++ zeros 12 ++ le_bytes 2 243 ++ zeros 4 ++
  le_bytes 8 vaddr ++ le_bytes 8 64 ++ zeros 14 ++ le_bytes 2 56 ++ le_bytes 2 1 ++ zeros 6 ++
  le_bytes 4 PT_LOAD ++ le_bytes 4 flags ++ le_bytes 8 offset ++ le_bytes 8 vaddr ++
  le_bytes 8 0 ++ le_bytes 8 filesz ++ le_bytes 8 memsz ++ le_bytes 8 4096.

Lemma demo_space_inv (Q : Z -> Prop) : load_inv Q demo_space {[ [] := POOL_BASE ]} POOL_BASE.
Proof.
  destruct demo_space_wf as (Hwf & Hg & Hp & Hn).
  split; [done|intros i2 i1 i0 e Hi He; by rewrite Hp in He
         |intros; unfold mega_of; by rewrite lookup_singleton_ne|].
  intros i2 e Hi He. destruct (decide (i2 = 2)) as [-> |Hne]; [|by rewrite Hn in He].
  assert (e = kernel_leaf) as -> by congruence. reflexivity.
Qed.

(** A one-segment image: its 120 bytes at 0x10000, two pages, read-execute. *)
Definition text_image : bytes := demo_image 5 0 0x10000 120 8192.

Lemma text_image_loads : fst (load_elf false text_image POOL_BASE demo_space) = EOk 0x10000.
Proof. vm_compute. reflexivity. Qed.

Lemma text_image_segment :
  header_table text_image = Some (64, 56, 1) /\
  segment_at text_image 64 = Some (MkSeg 5 0 0x10000 120 8192).
Proof. split; vm_compute; reflexivity. Qed.

Lemma load_elf_correct_witness : u64_at text_image 24 = Some 0x10000 /\
  exists sh', segment_loaded text_image (MkSeg 5 0 0x10000 120 8192)
                (snd (load_elf false text_image POOL_BASE demo_space)) sh'.
Proof.
  pose proof text_image_loads as E. pose proof text_image_segment as [Et Es].
  destruct (load_elf false text_image POOL_BASE demo_space) as [r p'] eqn:El. cbn in E. subst r.
  destruct (load_elf_correct text_image POOL_BASE 0x10000 demo_space p' _ (demo_space_inv wx_page) El)
    as (sh' & phoff & phe & phn & _ & _ & Ht & Hs & _ & Hen & _).
  rewrite Et in Ht. injection Ht as <- <- <-. split; [exact Hen|]. exists sh'. apply (Hs 0); [lia|exact Es].
Defined.

Lemma load_elf_wx_witness :
  translate_checked (pmem (snd (load_elf false text_image POOL_BASE demo_space))) POOL_BASE 0x10004 (Z.lor U W) = None \/
  translate_checked (pmem (snd (load_elf false text_image POOL_BASE demo_space))) POOL_BASE 0x10004 (Z.lor U X) = None.
Proof.
  apply (load_elf_wx text_image POOL_BASE 0x10000 0x10004 demo_space _ {[ [] := POOL_BASE ]}); [apply demo_space_inv|].
  rewrite <- text_image_loads. apply surjective_pairing.
Defined.

(** The text image in a build with overflow checks. *)
Lemma load_elf_total_witness :
  (exists entry p', load_elf true text_image POOL_BASE demo_space = (EOk entry, p') /\ pool_ok p') \/
  (exists e p', load_elf true text_image POOL_BASE demo_space = (EErr e, p') /\ pool_ok p').
Proof.
  apply (load_elf_total true text_image POOL_BASE demo_space); [apply (proj1 (demo_space_wf))|].
  intros _ phoff phe phn i sg Ht Hi Hsg. rewrite (proj1 text_image_segment) in Ht. injection Ht as <- <- <-.
  assert (i = 0) as -> by lia. rewrite Z.mul_0_l, Z.add_0_r, (proj2 text_image_segment) in Hsg. injection Hsg as <-.
  reflexivity.
Defined.

(** ** What hostile images show *)

(** A segment whose file range lies outside the image is refused after its
    first frame was taken: the frame is in no page table, so destroying the
    address space does not return it. *)
Definition truncated_image : bytes := demo_image 5 1000 0x10000 120 8192.

Lemma load_elf_leaks_frame :
  fst (load_elf false truncated_image POOL_BASE demo_space) = EErr BadProgramHeaders /\
  allocated (destroy POOL_BASE (snd (load_elf false truncated_image POOL_BASE demo_space))) = 1 /\
  allocated (destroy POOL_BASE demo_space) = 0.
Proof. split_and!; vm_compute; reflexivity. Qed.

(** A segment with no R, W or X flag is mapped by entries that the walks take
    for page-table pointers: the frames under them are never freed. *)
Definition flagless_image : bytes := demo_image 0 0 0x10000 120 8192.

Lemma load_elf_flagless_leak :
  fst (load_elf false flagless_image POOL_BASE demo_space) = EErr EntryUnmapped /\
  allocated (destroy POOL_BASE (snd (load_elf false flagless_image POOL_BASE demo_space))) = 2.
Proof. split_and!; vm_compute; reflexivity. Qed.

(** The source offset of a page is added without a check: the dev profile
    panics where the release profile refuses the image. *)
Definition far_image : bytes := demo_image 5 (W64 - 1) 0x10000 120 8192.

Lemma load_elf_dev_panic :
  fst (load_elf true far_image POOL_BASE demo_space) = EPanic /\
  fst (load_elf false far_image POOL_BASE demo_space) = EErr BadProgramHeaders.
Proof. split_and!; vm_compute; reflexivity. Qed.
