(* ===== verification/CopySpec.v ===== *)
(** * Deep copy: the specification and the refinement proof (kernel/src/mm.rs)

    What [deep_copy] promises: on success a second address space with the same
    user pages, every pool page in a frame of its own that was free before and
    holds the same bytes, every window outside the pool aliased; on failure
    nothing is kept. Either way no frame that was live before is written. The
    loop invariant [copying] relates the pool as the copy found it ([p0]) to the
    pool now, with the set [D] of indices already visited and the set [X] of
    frames taken but not mapped yet. *)

From S2P Require Import Prelude Hal Frames Mm MmSpec MmWalk Elf PoolAcct ElfProofs.

(** ** Entries and addresses *)

Definition UMASK : Z := Z.lor (Z.lor (Z.lor R W) X) U.

Lemma pte_pa_page (e : Z) : page_pa (pte_pa e).
Proof.
  unfold page_pa, pte_pa. change 0xfffffffffff with (Z.ones 44). rewrite Z.land_ones by lia.
  rewrite Z.shiftl_mul_pow2 by lia. pose proof (Z.mod_pos_bound (Z.shiftr e 10) (2 ^ 44) ltac:(lia)).
  split; [lia|]. change (2 ^ 12) with 4096. apply Z.mod_mul. lia.
Qed.

(** The range check of [copy_user_pages] is the test for a pool frame. *)
Lemma pool_check (e : Z) :
  (POOL_BASE <=? pte_pa e) && (pte_pa e <? POOL_END) = bool_decide (frame_addr (pte_pa e)).
Proof.
  destruct (pte_pa_page e) as [_ Hm]. apply eq_bool_prop_intro. rewrite bool_decide_spec, Is_true_true, andb_true_iff.
  rewrite Z.leb_le, Z.ltb_lt. unfold frame_addr. split; [|by intros [[? ?] _]].
  intros [H1 H2]. split; [lia|]. unfold FRAME_SIZE, POOL_BASE in *.
  rewrite Zminus_mod, Hm. reflexivity.
Qed.

Lemma umask_range (e : Z) : 0 <= Z.land e UMASK < 1024.
Proof.
  change UMASK with 30. split; [apply Z.land_nonneg; lia|].
  assert (Z.land e 30 = Z.land (Z.land e 30) (Z.ones 10)) as -> by (by rewrite <- Z.land_assoc).
  rewrite Z.land_ones by lia. apply Z.mod_pos_bound. lia.
Qed.

Lemma leaf_perm (f e : Z) : page_pa f -> has (leaf f (Z.land e UMASK)) PERM_MASK = has e PERM_MASK.
Proof.
  intros Hf. unfold has. destruct (leaf_spec f (Z.land e UMASK) Hf (umask_range e)) as (_ & _ & ->); [|flag_lia].
  do 2 f_equal. unfold leaf_flags. rewrite !Z.land_lor_distr_l, <- Z.land_assoc.
  change (Z.land UMASK PERM_MASK) with PERM_MASK. change (Z.land V PERM_MASK) with 0.
  change (Z.land A PERM_MASK) with 0. change (Z.land D PERM_MASK) with 0. by rewrite !Z.lor_0_r.
Qed.

(** The address the loops build for the indices has those indices. *)
Lemma vpn_build (i2 i1 i0 : Z) : 0 <= i2 < 512 -> 0 <= i1 < 512 -> 0 <= i0 < 512 ->
  let va := 0 + Z.shiftl i2 (12 + 9 * Z.of_nat 2) + Z.shiftl i1 (12 + 9 * Z.of_nat 1) + Z.shiftl i0 (12 + 9 * Z.of_nat 0) in
  vpn va 2 = i2 /\ vpn va 1 = i1 /\ vpn va 0 = i0.
Proof.
  intros H2 H1 H0 va. unfold vpn. change 0x1ff with (Z.ones 9).
  rewrite !Z.land_ones, !Z.shiftr_div_pow2 by lia. subst va. rewrite !Z.shiftl_mul_pow2 by lia.
  change (2 ^ (12 + 9 * Z.of_nat 2)) with 1073741824. change (2 ^ (12 + 9 * Z.of_nat 1)) with 2097152.
  change (2 ^ (12 + 9 * Z.of_nat 0)) with 4096. change (2 ^ (12 + 9 * 2)) with 1073741824.
  change (2 ^ (12 + 9 * 1)) with 2097152. change (2 ^ (12 + 9 * 0)) with 4096. change (2 ^ 9) with 512.
  Z.to_euclidean_division_equations. lia.
Qed.

(** A byte of a page copied whole. *)
Lemma copy_byte (m : mem) (f src off : Z) : FRAME_SIZE = PAGE_SIZE -> 0 <= off < FRAME_SIZE ->
  store m f (load m src (Z.to_nat PAGE_SIZE)) (f + off) = m (src + off).
Proof.
  intros _ Hoff. unfold store. rewrite load_length. unfold FRAME_SIZE, PAGE_SIZE in *.
  destruct (_ && _) eqn:E; [|apply andb_false_iff in E as [E|E]; zbool; lia].
  rewrite nth_lookup, load_lookup by lia. cbn. f_equal. lia.
Qed.

(** ** Frames the tables do not touch *)

Section Untouched.
Context (p : fpool) (sh : shape) (p' : fpool) (sh' : shape) (root : Z).
Context (Hwf' : space_wf p' sh' root) (Hsub : sh ⊆ sh')
  (Hnew : forall k g, sh' !! k = Some g -> sh !! k = None -> ~ owned p g)
  (Hmem : forall a, (forall k t, sh' !! k = Some t -> ~ (t <= a < t + FRAME_SIZE)) -> pmem p' a = pmem p a).

Lemma untouched_table (g : Z) : owned p g -> (forall k, sh !! k <> Some g) -> forall k, sh' !! k <> Some g.
Proof.
  intros Ho Hn k E. destruct (sh !! k) as [g'|] eqn:Ek.
  - apply (Hn k). pose proof (lookup_weaken _ _ _ _ Ek Hsub). congruence.
  - by apply (Hnew k g).
Qed.

Lemma untouched_mem (g a : Z) : owned p g -> (forall k, sh !! k <> Some g) -> g <= a < g + FRAME_SIZE ->
  pmem p' a = pmem p a.
Proof.
  intros Ho Hn Ha. apply Hmem. intros k t Ht.
  apply (frames_disjoint g t a); [apply Ho|by eapply wf_frame| |done]. intros ->. by apply (untouched_table t Ho Hn k).
Qed.

End Untouched.

(** [map_kernel] writes only the root table. *)
Lemma map_kernel_mem (p p' : fpool) (root : Z) : frame_addr root -> map_kernel p root = (inr tt, p') ->
  forall a, ~ (root <= a < root + FRAME_SIZE) -> pmem p' a = pmem p a.
Proof.
  intros Hf Hm a Ha. unfold map_kernel, map_gigapage in Hm. destruct (_ || _) in Hm; [done|]. rewrite slot_unfold in Hm.
  destruct (has _ V); [done|]. injection Hm as <-. cbn [pmem with_mem].
  by apply write_slot_outside; [|apply vpn_range|].
Qed.

(** On a fresh root [map_kernel] succeeds. *)
Lemma map_kernel_fresh (p : fpool) (root : Z) (e : MmError) (p' : fpool) : space_wf p {[ [] := root ]} root ->
  (forall i2, 0 <= i2 < 512 -> giga_of p {[ [] := root ]} i2 = None) -> map_kernel p root <> (inl e, p').
Proof.
  intros _ Hg Hm. specialize (Hg 2 ltac:(lia)). unfold giga_of, valid in Hg. rewrite lookup_singleton_eq, lookup_singleton_ne in Hg by done.
  unfold map_kernel, map_gigapage in Hm. rewrite slot_unfold in Hm. change (vpn KERNEL_GIGAPAGE_VA 2) with 2 in Hm.
  by destruct (has (read_pte (pmem p) (slot root 2)) V).
Qed.

(** ** The invariant *)

(** What a copy may rely on about its source: the tables are well formed, only
    4 KiB pages are user-accessible, the kernel gigapage sits at index 2, and
    the pool frames user pages name are live. *)
Record source_ok (p0 : fpool) (sh0 : shape) (root : Z) : Prop := {
  so_wf : space_wf p0 sh0 root;
  so_mega : forall i2 i1, 0 <= i2 < 512 -> 0 <= i1 < 512 -> mega_of p0 sh0 i2 i1 = None;
  so_giga : forall i2 e, 0 <= i2 < 512 -> giga_of p0 sh0 i2 = Some e -> has e U = false;
  so_kernel : is_Some (giga_of p0 sh0 2);
  so_page : forall i2 i1 i0 e, 0 <= i0 < 512 -> page_of p0 sh0 i2 i1 i0 = Some e ->
    frame_addr (pte_pa e) -> owned p0 (pte_pa e)
}.

Section Copy.
Context (p0 : fpool) (sh0 : shape) (root dst : Z) (Hsrc : source_ok p0 sh0 root).

(** The pages a copy reproduces. *)
Definition user_page (i2 i1 i0 e : Z) : Prop :=
  page_of p0 sh0 i2 i1 i0 = Some e /\ has e PERM_MASK = true /\ has e U = true.

(** The entry [e'] of the copy for the entry [e] of the source: same
    permissions, a frame with the same bytes, or the same foreign page. *)
Definition copied (p : fpool) (e e' : Z) : Prop :=
  e' = leaf (pte_pa e') (Z.land e UMASK) /\
  if decide (frame_addr (pte_pa e)) then
    frame_addr (pte_pa e') /\
    forall off, 0 <= off < FRAME_SIZE -> pmem p (pte_pa e' + off) = pmem p0 (pte_pa e + off)
  else pte_pa e' = pte_pa e.

(** The frames of the space under construction: tables and pages. *)
Definition holds (p : fpool) (sh : shape) (g : Z) : Prop :=
  (exists k, sh !! k = Some g) \/
  (exists i2 i1 i0 e, 0 <= i0 < 512 /\ page_of p sh i2 i1 i0 = Some e /\ pte_pa e = g).

Record copying (D : Z * Z * Z -> Prop) (X : Z -> Prop) (p : fpool) (sh : shape) : Prop := {
  cp_wf : space_wf p sh dst;
  cp_own : forall g, owned p g <-> owned p0 g \/ (frame_addr g /\ holds p sh g) \/ X g;
  cp_fresh : forall g, holds p sh g \/ X g -> ~ owned p0 g;
  cp_extra : forall g, X g -> ~ holds p sh g;
  cp_mem : forall g a, owned p0 g -> g <= a < g + FRAME_SIZE -> pmem p a = pmem p0 a;
  cp_mega : forall i2 i1, 0 <= i2 < 512 -> 0 <= i1 < 512 -> mega_of p sh i2 i1 = None;
  cp_giga : forall i2, 0 <= i2 < 512 -> giga_of p sh i2 = if decide (i2 = 2) then Some kernel_leaf else None;
  cp_pages : forall i2 i1 i0, 0 <= i0 < 512 ->
    match page_of p sh i2 i1 i0 with
    | Some e' => D (i2, i1, i0) /\ exists e, user_page i2 i1 i0 e /\ copied p e e'
    | None => forall e, user_page i2 i1 i0 e -> ~ D (i2, i1, i0)
    end;
  cp_tabs : forall i2 i1 i0 e, 0 <= i0 < 512 -> page_of p sh i2 i1 i0 = Some e -> forall k, sh !! k <> Some (pte_pa e);
  cp_inj : forall i2 i1 i0 e j2 j1 j0 e', 0 <= i0 < 512 -> 0 <= j0 < 512 ->
    page_of p sh i2 i1 i0 = Some e -> page_of p sh j2 j1 j0 = Some e' ->
    frame_addr (pte_pa e) -> pte_pa e = pte_pa e' -> (i2, i1, i0) = (j2, j1, j0)
}.

(** Visiting more indices without finding a user page. *)
Lemma copying_visit (D D' : Z * Z * Z -> Prop) (X : Z -> Prop) (p : fpool) (sh : shape) :
  copying D X p sh -> (forall t, D t -> D' t) ->
  (forall i2 i1 i0 e, 0 <= i0 < 512 -> user_page i2 i1 i0 e -> D' (i2, i1, i0) -> D (i2, i1, i0)) -> copying D' X p sh.
Proof.
  intros [H1 H2 H3 H4 H5 H6 H7 H8 H9 H10] Hup Hdown. split; try done.
  intros i2 i1 i0 Hi. specialize (H8 i2 i1 i0 Hi). destruct (page_of p sh i2 i1 i0) as [e'|].
  - destruct H8 as [Hd He]. split; [by apply Hup|done].
  - intros e He Hd. apply (H8 e He). by eapply Hdown.
Qed.

(** A live frame that no table of the copy occupies keeps its bytes when tables
    are added. *)
Lemma live_not_table (D : Z * Z * Z -> Prop) (X : Z -> Prop) (p : fpool) (sh : shape) (g : Z) :
  copying D X p sh -> owned p0 g \/ X g -> owned p g /\ forall k, sh !! k <> Some g.
Proof.
  intros Hc Hg. split; [apply (cp_own _ _ _ _ Hc); tauto|]. intros k Hk.
  destruct Hg as [Hg|Hg].
  - apply (cp_fresh _ _ _ _ Hc g); [|done]. left. left. eauto.
  - apply (cp_extra _ _ _ _ Hc g); [done|]. left. eauto.
Qed.

Lemma page_live (D : Z * Z * Z -> Prop) (X : Z -> Prop) (p : fpool) (sh : shape) (i2 i1 i0 e : Z) :
  copying D X p sh -> 0 <= i0 < 512 -> page_of p sh i2 i1 i0 = Some e -> frame_addr (pte_pa e) ->
  owned p (pte_pa e) /\ forall k, sh !! k <> Some (pte_pa e).
Proof.
  intros Hc Hi He Hf. split; [|by eapply cp_tabs]. apply (cp_own _ _ _ _ Hc). right; left. split; [done|]. right. eauto 10.
Qed.

(** *** One change of the copy *)

(** The page a step adds, if it adds one. *)
Definition added (add : option (Z * Z * Z * Z)) (t : Z * Z * Z) : option Z :=
  match add with Some (t', e') => if decide (t = t') then Some e' else None | None => None end.

(** Tables may be added, and at most one page; both results of [map_page] that
    change the pool are of this form. *)
Record spreads (p : fpool) (sh : shape) (p' : fpool) (sh' : shape) (add : option (Z * Z * Z * Z)) : Prop := {
  sp_wf : space_wf p' sh' dst;
  sp_sub : sh ⊆ sh';
  sp_own : forall g, owned p' g <-> owned p g \/ (exists k, sh' !! k = Some g);
  sp_new : forall k g, sh' !! k = Some g -> sh !! k = None -> ~ owned p g;
  sp_mem : forall a, (forall k t, sh' !! k = Some t -> ~ (t <= a < t + FRAME_SIZE)) -> pmem p' a = pmem p a;
  sp_page : forall i2 i1 i0, 0 <= i0 < 512 -> page_of p' sh' i2 i1 i0 =
    match added add (i2, i1, i0) with Some e' => Some e' | None => page_of p sh i2 i1 i0 end;
  sp_mega : forall i2 i1, 0 <= i2 < 512 -> 0 <= i1 < 512 -> mega_of p' sh' i2 i1 = mega_of p sh i2 i1;
  sp_giga : forall i2, 0 <= i2 < 512 -> giga_of p' sh' i2 = giga_of p sh i2
}.

Lemma grows_spreads (p p' : fpool) (sh sh' : shape) : space_wf p' sh' dst -> grows p sh p' sh' -> spreads p sh p' sh' None.
Proof. intros Hwf [H1 H2 H3 H4 H5 H6 H7]. split; try done. intros i2 i1 _ Hi. by apply H6. Qed.

Lemma mapped_spreads (p p' : fpool) (sh sh' : shape) (va e' : Z) : space_wf p' sh' dst -> mapped p sh p' sh' va e' ->
  spreads p sh p' sh' (Some (vpn va 2, vpn va 1, vpn va 0, e')).
Proof.
  intros Hwf [H1 H2 H3 H4 H5 H6 H7 H8]. split; try done. intros i2 i1 i0 Hi. rewrite H6 by done.
  unfold added. by case_decide.
Qed.

Section Spread.
Context (D : Z * Z * Z -> Prop) (X : Z -> Prop) (p p' : fpool) (sh sh' : shape) (add : option (Z * Z * Z * Z)).
Context (Hc : copying D X p sh) (Hs : spreads p sh p' sh' add)
  (Hadd : forall i2 i1 i0 e', add = Some (i2, i1, i0, e') -> 0 <= i0 < 512 /\ page_of p sh i2 i1 i0 = None /\
    (frame_addr (pte_pa e') -> X (pte_pa e')) /\ exists e, user_page i2 i1 i0 e /\ copied p e e').

Let D' (t : Z * Z * Z) : Prop := D t \/ is_Some (added add t).
Let X' (g : Z) : Prop := X g /\ forall t e', add = Some (t, e') -> g <> pte_pa e'.

Lemma spread_untouched (g : Z) : owned p g -> (forall k, sh !! k <> Some g) ->
  (forall k, sh' !! k <> Some g) /\ forall a, g <= a < g + FRAME_SIZE -> pmem p' a = pmem p a.
Proof.
  intros Ho Hn. split; [exact (untouched_table p sh sh' (sp_sub _ _ _ _ _ Hs) (sp_new _ _ _ _ _ Hs) g Ho Hn)|].
  intros a Ha.
  exact (untouched_mem p sh p' sh' dst (sp_wf _ _ _ _ _ Hs) (sp_sub _ _ _ _ _ Hs) (sp_new _ _ _ _ _ Hs) (sp_mem _ _ _ _ _ Hs) g a Ho Hn Ha).
Qed.

Lemma added_inv (i2 i1 i0 e' : Z) : added add (i2, i1, i0) = Some e' -> add = Some (i2, i1, i0, e').
Proof. unfold added. destruct add as [[t e]|]; [|done]. case_decide; [|done]. by intros [= <-]; subst. Qed.

Lemma spread_holds (g : Z) : holds p' sh' g <->
  holds p sh g \/ (exists k, sh' !! k = Some g) \/ (exists t e', add = Some (t, e') /\ pte_pa e' = g).
Proof.
  unfold holds. split.
  - intros [?|(i2 & i1 & i0 & e & Hi & He & <-)]; [by right; left|]. rewrite (sp_page _ _ _ _ _ Hs) in He by done.
    destruct (added add _) as [e1|] eqn:Ea.
    + injection He as <-. apply added_inv in Ea. right; right. eauto.
    + left; right. eauto 10.
  - intros [[(k & Hk)|(i2 & i1 & i0 & e & Hi & He & <-)]|[?|([[i2 i1] i0] & e' & Ea & <-)]]; [| |by left|].
    + left. exists k. eapply lookup_weaken; [done|apply (sp_sub _ _ _ _ _ Hs)].
    + right. exists i2, i1, i0, e. rewrite (sp_page _ _ _ _ _ Hs) by done.
      destruct (added add _) as [e1|] eqn:Ea; [|done]. apply added_inv, Hadd in Ea as (_ & Hn & _). congruence.
    + destruct (Hadd _ _ _ _ Ea) as (Hi & _). right. exists i2, i1, i0, e'. rewrite (sp_page _ _ _ _ _ Hs) by done.
      rewrite Ea. cbn. by rewrite decide_True.
Qed.

(** A new page is in a frame taken for it, or outside the pool. *)
Lemma added_frame (t : Z * Z * Z) (e' : Z) : add = Some (t, e') -> frame_addr (pte_pa e') -> X (pte_pa e').
Proof. destruct t as [[i2 i1] i0]. intros Ea. by apply (Hadd _ _ _ _ Ea). Qed.

Lemma spread_own (g : Z) : owned p' g <-> owned p0 g \/ (frame_addr g /\ holds p' sh' g) \/ X' g.
Proof.
  rewrite (sp_own _ _ _ _ _ Hs), (cp_own _ _ _ _ Hc), spread_holds. split.
  - intros [[?|[[? ?]|Hx]]|[k Hk]]; [by left|right; left; tauto| |].
    + assert (Hf : frame_addr g) by (apply (proj2 (cp_own _ _ _ _ Hc g)); tauto).
      destruct add as [[t e']|] eqn:Ea; [destruct (decide (g = pte_pa e')) as [->|Hne]|].
      * right; left. split; [done|]. right; right. eauto.
      * right; right. split; [done|]. intros t1 e1 [= <- <-]. done.
      * right; right. split; [done|]. by intros t1 e1 [=].
    + right; left. split; [by eapply wf_frame; [apply (sp_wf _ _ _ _ _ Hs)|]|]. right; left. eauto.
  - intros [?|[[Hf [?|[?|(t & e' & Ea & <-)]]]|[Hx _]]]; [tauto..| |tauto].
    left. right; right. by apply (added_frame t).
Qed.

Lemma spread_fresh (g : Z) : holds p' sh' g \/ X' g -> ~ owned p0 g.
Proof.
  rewrite spread_holds. intros [[?|[[k Hk]|(t & e' & Ea & <-)]]|[Hx _]] Ho.
  - apply (cp_fresh _ _ _ _ Hc g); tauto.
  - destruct (live_not_table _ _ _ _ g Hc (or_introl Ho)) as [Hog Hnt]. by apply (proj1 (spread_untouched g Hog Hnt) k).
  - apply (cp_fresh _ _ _ _ Hc (pte_pa e')); [|done]. right. apply (added_frame t); [done|apply Ho].
  - apply (cp_fresh _ _ _ _ Hc g); tauto.
Qed.

Lemma spread_extra (g : Z) : X' g -> ~ holds p' sh' g.
Proof.
  intros [Hx Hne]. rewrite spread_holds. intros [?|[[k Hk]|(t & e' & Ea & <-)]].
  - by apply (cp_extra _ _ _ _ Hc g).
  - destruct (live_not_table _ _ _ _ g Hc (or_intror Hx)) as [Hog Hnt]. by apply (proj1 (spread_untouched g Hog Hnt) k).
  - by apply (Hne t e').
Qed.

(** A copy stays a copy. *)
Lemma copied_spread (e e' : Z) : copied p e e' -> (frame_addr (pte_pa e') -> owned p (pte_pa e') /\ forall k, sh !! k <> Some (pte_pa e')) ->
  copied p' e e'.
Proof.
  intros [He Hd] Hl. split; [done|]. case_decide; [|done]. destruct Hd as [Hf Hb]. split; [done|].
  intros off Ho. rewrite <- Hb by done. destruct (Hl Hf) as [Hog Hnt]. apply (proj2 (spread_untouched _ Hog Hnt)). lia.
Qed.

Lemma spread_pages (i2 i1 i0 : Z) : 0 <= i0 < 512 ->
  match page_of p' sh' i2 i1 i0 with
  | Some e' => D' (i2, i1, i0) /\ exists e, user_page i2 i1 i0 e /\ copied p' e e'
  | None => forall e, user_page i2 i1 i0 e -> ~ D' (i2, i1, i0)
  end.
Proof.
  intros Hi. rewrite (sp_page _ _ _ _ _ Hs) by done. destruct (added add (i2, i1, i0)) as [e'|] eqn:Ea.
  - split; [right; by rewrite Ea|]. apply added_inv in Ea. destruct (Hadd _ _ _ _ Ea) as (_ & _ & Hx & e & He & Hcp).
    exists e. split; [done|]. apply copied_spread; [done|]. intros Hf. by apply (live_not_table _ _ _ _ _ Hc), or_intror, Hx.
  - pose proof (cp_pages _ _ _ _ Hc i2 i1 i0 Hi) as Hp. destruct (page_of p sh i2 i1 i0) as [e'|] eqn:Ep.
    + destruct Hp as (Hd & e & He & Hcp). split; [by left|]. exists e. split; [done|].
      apply copied_spread; [done|]. intros Hf. by eapply page_live.
    + intros e He [Hd|Hd]; [by apply (Hp e)|]. rewrite Ea in Hd. by destruct Hd.
Qed.

Lemma spread_tabs (i2 i1 i0 e : Z) : 0 <= i0 < 512 -> page_of p' sh' i2 i1 i0 = Some e -> forall k, sh' !! k <> Some (pte_pa e).
Proof.
  intros Hi He k Hk. assert (Hf : frame_addr (pte_pa e)) by (eapply wf_frame; [apply (sp_wf _ _ _ _ _ Hs)|done]).
  rewrite (sp_page _ _ _ _ _ Hs) in He by done. destruct (added add (i2, i1, i0)) as [e1|] eqn:Ea.
  - injection He as <-. apply added_inv in Ea. pose proof (added_frame _ _ Ea Hf) as Hx.
    destruct (live_not_table _ _ _ _ _ Hc (or_intror Hx)) as [Hog Hnt]. by apply (proj1 (spread_untouched _ Hog Hnt) k).
  - destruct (page_live _ _ _ _ _ _ _ _ Hc Hi He Hf) as [Hog Hnt]. by apply (proj1 (spread_untouched _ Hog Hnt) k).
Qed.

Lemma spread_inj (i2 i1 i0 e j2 j1 j0 e' : Z) : 0 <= i0 < 512 -> 0 <= j0 < 512 ->
  page_of p' sh' i2 i1 i0 = Some e -> page_of p' sh' j2 j1 j0 = Some e' ->
  frame_addr (pte_pa e) -> pte_pa e = pte_pa e' -> (i2, i1, i0) = (j2, j1, j0).
Proof.
  intros Hi Hj He He' Hf Heq. rewrite (sp_page _ _ _ _ _ Hs) in He, He' by done.
  assert (Hno : forall k2 k1 k0 t e1 e2, 0 <= k0 < 512 -> add = Some (t, e1) -> page_of p sh k2 k1 k0 = Some e2 ->
    frame_addr (pte_pa e1) -> pte_pa e1 = pte_pa e2 -> False).
  { intros k2 k1 k0 t e1 e2 Hk Ea Ep Hf1 E12. apply (cp_extra _ _ _ _ Hc (pte_pa e1)); [by apply (added_frame t)|].
    right. rewrite E12. eauto 10. }
  destruct (added add (i2, i1, i0)) as [e1|] eqn:Ea, (added add (j2, j1, j0)) as [e2|] eqn:Eb;
    simplify_eq; try apply added_inv in Ea; try apply added_inv in Eb.
  - congruence.
  - exfalso. by eapply (Hno j2 j1 j0).
  - exfalso. rewrite Heq in Hf. by eapply (Hno i2 i1 i0).
  - by eapply (cp_inj _ _ _ _ Hc).
Qed.

Lemma copying_spread : copying D' X' p' sh'.
Proof.
  split; [apply (sp_wf _ _ _ _ _ Hs)|exact spread_own|exact spread_fresh|exact spread_extra| | | |exact spread_pages|exact spread_tabs|exact spread_inj].
  - intros g a Hg Ha. destruct (live_not_table _ _ _ _ g Hc (or_introl Hg)) as [Hog Hnt].
    rewrite (proj2 (spread_untouched g Hog Hnt) a Ha). by apply (cp_mem _ _ _ _ Hc g).
  - intros i2 i1 H2 H1. rewrite (sp_mega _ _ _ _ _ Hs) by done. by apply (cp_mega _ _ _ _ Hc).
  - intros i2 H2. rewrite (sp_giga _ _ _ _ _ Hs) by done. by apply (cp_giga _ _ _ _ Hc).
Qed.

End Spread.

(** *** Taking and returning a frame *)

Lemma copying_ext (D D' : Z * Z * Z -> Prop) (X X' : Z -> Prop) (p : fpool) (sh : shape) :
  copying D X p sh -> (forall t, D t <-> D' t) -> (forall g, X g <-> X' g) -> copying D' X' p sh.
Proof.
  intros Hc Hd Hx. apply (copying_visit D); [|intros t; apply Hd|intros i2 i1 i0 e _ _; apply Hd].
  destruct Hc as [H1 H2 H3 H4 H5 H6 H7 H8 H9 H10]. split; try done.
  - intros g. rewrite H2, Hx. done.
  - intros g. rewrite <- Hx. apply H3.
  - intros g. rewrite <- Hx. apply H4.
Qed.

(** The pool changed outside the copy and the live frames. *)
Lemma copying_transfer (D : Z * Z * Z -> Prop) (X X' : Z -> Prop) (p q : fpool) (sh : shape) :
  copying D X p sh -> pool_ok q ->
  (forall g, owned q g <-> owned p0 g \/ (frame_addr g /\ holds p sh g) \/ X' g) ->
  (forall g, X' g -> ~ owned p0 g /\ ~ holds p sh g) ->
  (forall g a, owned p0 g \/ holds p sh g -> frame_addr g -> g <= a < g + FRAME_SIZE -> pmem q a = pmem p a) ->
  copying D X' q sh.
Proof.
  intros Hc Hq Ho Hx Hm.
  destruct (wf_transfer p q sh dst (cp_wf _ _ _ _ Hc) Hq) as (Hwf & Hpg & Hmg & Hgg).
  { intros k t Ht. apply Ho. right; left. split; [eapply wf_frame; [apply (cp_wf _ _ _ _ Hc)|done]|]. left. eauto. }
  { intros k t a Ht Ha. apply (Hm t); [right; left; eauto|eapply wf_frame; [apply (cp_wf _ _ _ _ Hc)|done]|done]. }
  assert (Hh : forall g, holds q sh g <-> holds p sh g).
  { intros g. unfold holds. split; (intros [?|(i2 & i1 & i0 & e & Hi & He & <-)]; [by left|right]; exists i2, i1, i0, e).
    - rewrite Hpg in He by done. done.
    - rewrite Hpg by done. done. }
  split; [done|intros g; rewrite Hh; apply Ho| |intros g Hg; rewrite Hh; by apply Hx| | | | | |].
  - intros g. rewrite Hh. intros [Hg|Hg]; [apply (cp_fresh _ _ _ _ Hc); by left|by apply Hx].
  - intros g a Hg Ha. rewrite (Hm g a (or_introl Hg) (proj1 Hg) Ha). by apply (cp_mem _ _ _ _ Hc g).
  - intros i2 i1 H2 H1. rewrite Hmg by done. by apply (cp_mega _ _ _ _ Hc).
  - intros i2 H2. rewrite Hgg by done. by apply (cp_giga _ _ _ _ Hc).
  - intros i2 i1 i0 Hi. rewrite Hpg by done. pose proof (cp_pages _ _ _ _ Hc i2 i1 i0 Hi) as Hp.
    destruct (page_of p sh i2 i1 i0) as [e'|] eqn:Ep; [|done]. destruct Hp as (Hd & e & He & Hle & Hcp).
    split; [done|]. exists e. split; [done|]. split; [done|]. case_decide; [|done]. destruct Hcp as [Hf Hb]. split; [done|].
    intros off Hoff. assert (Hhe : holds p sh (pte_pa e')) by (right; eauto 10).
    rewrite (Hm (pte_pa e') _ (or_intror Hhe) Hf) by lia. by apply Hb.
  - intros i2 i1 i0 e Hi He. rewrite Hpg in He by done. by eapply cp_tabs.
  - intros i2 i1 i0 e j2 j1 j0 e' Hi Hj He He'. rewrite !Hpg in He, He' by done. by apply (cp_inj _ _ _ _ Hc).
Qed.

Definition nothing (_ : Z) : Prop := False.

Lemma copying_take (D : Z * Z * Z -> Prop) (p p1 : fpool) (sh : shape) (f : Z) (m : mem) :
  copying D nothing p sh -> alloc p = (Some f, p1) ->
  (forall a, ~ (f <= a < f + FRAME_SIZE) -> m a = pmem p1 a) -> copying D (eq f) (with_mem p1 m) sh.
Proof.
  intros Hc Ha Hm. destruct (alloc_gives p f p1 (wf_pool _ _ _ (cp_wf _ _ _ _ Hc)) Ha) as (Hf & Hn & Ho & Hz & _ & Hk).
  assert (Hlive : forall g, owned p0 g \/ holds p sh g -> frame_addr g -> owned p g).
  { intros g Hg Hfg. apply (cp_own _ _ _ _ Hc). tauto. }
  apply (copying_transfer D nothing (eq f) p); [done|exact Hk| | |].
  - intros g. change (owned (with_mem p1 m) g) with (owned p1 g). rewrite Ho, (cp_own _ _ _ _ Hc). unfold nothing.
    split; [intros [[?|[?|[]]]| ->]|intros [?|[?| <-]]]; tauto.
  - intros g <-. split; intros Hg; apply Hn; apply Hlive; tauto.
  - intros g a Hg Hfg Hag. cbn [pmem with_mem].
    assert (g <> f) by (intros ->; apply Hn, Hlive; tauto).
    rewrite Hm, Hz by (apply (frames_disjoint g f a); done). apply fill0_other. by apply (frames_disjoint g f a).
Qed.

Lemma copying_return (D : Z * Z * Z -> Prop) (p : fpool) (sh : shape) (f : Z) :
  copying D (eq f) p sh -> copying D nothing (free f p) sh.
Proof.
  intros Hc. assert (Hf : frame_addr f) by (apply (proj2 (cp_own _ _ _ _ Hc f)); tauto).
  destruct (free_releases p f (wf_pool _ _ _ (cp_wf _ _ _ _ Hc)) Hf) as (Ho & Hm & _ & _ & Hk).
  apply (copying_transfer D (eq f) nothing p); [done|done| |done|intros; by rewrite Hm].
  intros g. rewrite Ho, (cp_own _ _ _ _ Hc). unfold nothing. split; [intros [[?|[?| <-]] Hne]; tauto|].
  intros [Hg|[Hg|[]]].
  - split; [tauto|]. intros ->. apply (cp_fresh _ _ _ _ Hc f); tauto.
  - split; [tauto|]. intros ->. apply (cp_extra _ _ _ _ Hc f); tauto.
Qed.

(** *** One page *)

Definition with_index (D : Z * Z * Z -> Prop) (t0 t : Z * Z * Z) : Prop := D t \/ t = t0.

Lemma map_into (D : Z * Z * Z -> Prop) (X : Z -> Prop) (p : fpool) (sh : shape) (va f e : Z) :
  copying D X p sh -> page_pa f -> user_page (vpn va 2) (vpn va 1) (vpn va 0) e ->
  copied p e (leaf f (Z.land e UMASK)) -> ~ D (vpn va 2, vpn va 1, vpn va 0) ->
  (frame_addr f -> X f) -> (forall g, X g -> g = f) ->
  match map_page p dst va f (Z.land e UMASK) with
  | (inr _, p') => exists sh', copying (with_index D (vpn va 2, vpn va 1, vpn va 0)) nothing p' sh'
  | (inl _, p') => exists sh', copying D X p' sh'
  end.
Proof.
  intros Hc Hpa He Hcp Hd Hfx Hxf. destruct (leaf_spec f (Z.land e UMASK) Hpa (umask_range e)) as (_ & Epa & _).
  pose proof (vpn_range va 0) as H0. pose proof (cp_pages _ _ _ _ Hc (vpn va 2) (vpn va 1) (vpn va 0) H0) as Hvac.
  pose proof (map_page_cases p sh dst va f (Z.land e UMASK) (cp_wf _ _ _ _ Hc) Hpa (umask_range e)) as Hm.
  destruct (map_page _ _ _ _ _) as [[[]|[]] p']; [| |done|].
  - destruct Hm as [(sh' & Hwf & Hg) _]. exists sh'. pose proof (grows_spreads p p' sh sh' Hwf Hg) as Hs.
    eapply copying_ext; [apply (copying_spread D X p p' sh sh' None Hc Hs); done| |].
    + intros t. split; [intros [?|[? ?]]; done|by left].
    + intros g. split; [by intros [? _]|]. intros Hx. split; [done|]. by intros t e' [=].
  - destruct Hm as [-> _]. by exists sh.
  - destruct Hm as (sh' & Hwf & Hmp). exists sh'. pose proof (mapped_spreads p p' sh sh' va _ Hwf Hmp) as Hs.
    eapply copying_ext; [apply (copying_spread D X p p' sh sh' _ Hc Hs)| |].
    + intros i2 i1 i0 e' [= <- <- <- <-]. split; [done|]. rewrite Epa. split; [apply (mp_vacant _ _ _ _ _ _ Hmp)|].
      split; [done|]. by exists e.
    + intros t. unfold with_index, added. case_decide as Et; split; intros [?|Ht]; try (by left); try (by right).
    + intros g. split; [|done]. intros [Hx Hne]. apply (Hne _ _ eq_refl). rewrite Epa. by apply Hxf.
Qed.

Lemma copy_leaf_step (D : Z * Z * Z -> Prop) (p : fpool) (sh : shape) (va e : Z) :
  copying D nothing p sh -> user_page (vpn va 2) (vpn va 1) (vpn va 0) e -> ~ D (vpn va 2, vpn va 1, vpn va 0) ->
  match copy_leaf dst va e p with
  | (true, p') => exists sh', copying (with_index D (vpn va 2, vpn va 1, vpn va 0)) nothing p' sh'
  | (false, p') => exists sh', copying D nothing p' sh'
  end.
Proof.
  intros Hc He Hd. pose proof He as (Hpg & HP & HU). unfold copy_leaf. rewrite HU. cbn [negb].
  fold UMASK. rewrite pool_check. pose proof (pte_pa_page e) as Hpe. case_bool_decide as Hf; cbn [negb].
  - destruct (alloc p) as [[f|] p1] eqn:Ea; [|apply alloc_exhausted in Ea as [-> _]; by exists sh].
    destruct (alloc_gives p f p1 (wf_pool _ _ _ (cp_wf _ _ _ _ Hc)) Ea) as (Hff & Hn & Ho & Hz & _ & Hk).
    pose proof (so_page _ _ _ Hsrc _ _ _ _ (vpn_range va 0) Hpg Hf) as Hse.
    unfold phys_read. rewrite pool_ptr_in by (apply frame_addr_in_pool; exact Hf).
    set (buf := load (pmem p1) (pte_pa e) (Z.to_nat PAGE_SIZE)).
    assert (Hlen : length buf = Z.to_nat PAGE_SIZE) by apply load_length.
    unfold phys_write. rewrite Hlen, pool_ptr_in by (apply frame_addr_in_pool; exact Hff).
    set (m := store (pmem p1) f buf).
    assert (Hc2 : copying D (eq f) (with_mem p1 m) sh).
    { apply (copying_take D p); [done|done|]. intros a Ha. apply store_other. rewrite Hlen. exact Ha. }
    pose proof (frame_page_pa f Hff) as Hpf.
    destruct (leaf_spec f (Z.land e UMASK) Hpf (umask_range e)) as (_ & Epa & _).
    assert (Hcp : copied (with_mem p1 m) e (leaf f (Z.land e UMASK))).
    { split; [by rewrite Epa|]. rewrite decide_True, Epa by done. split; [done|]. intros off Hoff. cbn [pmem with_mem].
      assert (Hne : pte_pa e <> f) by (intros E; apply Hn; rewrite <- E; apply (cp_own _ _ _ _ Hc); by left).
      rewrite <- (cp_mem _ _ _ _ Hc (pte_pa e) _ Hse) by lia.
      rewrite <- (fill0_other (pmem p) f FRAME_SIZE) by (apply (frames_disjoint (pte_pa e) f); [done|done|done|lia]).
      rewrite <- Hz. apply copy_byte; [done|exact Hoff]. }
    pose proof (map_into D (eq f) (with_mem p1 m) sh va f e Hc2 Hpf He Hcp Hd ltac:(done) ltac:(done)) as Hmap.
    destruct (map_page _ _ _ _ _) as [[?|?] p3]; [|done]. destruct Hmap as (sh' & Hc3). exists sh'. by apply copying_return.
  - assert (Hcp : copied p e (leaf (pte_pa e) (Z.land e UMASK))).
    { destruct (leaf_spec (pte_pa e) (Z.land e UMASK) Hpe (umask_range e)) as (_ & Epa & _).
      split; [by rewrite Epa|]. by rewrite decide_False. }
    pose proof (map_into D nothing p sh va (pte_pa e) e Hc Hpe He Hcp Hd ltac:(done) ltac:(done)) as Hmap.
    by destruct (map_page _ _ _ _ _) as [[?|?] p1].
Qed.

(** *** The loops *)

Lemma source_read (D : Z * Z * Z -> Prop) (X : Z -> Prop) (p : fpool) (sh : shape) (k : list Z) (t i : Z) :
  copying D X p sh -> sh0 !! k = Some t -> 0 <= i < 512 -> read_pte (pmem p) (slot t i) = read_pte (pmem p0) (slot t i).
Proof.
  intros Hc Hk Hi. pose proof (wf_own _ _ _ (so_wf _ _ _ Hsrc) k t Hk) as Ho.
  apply read_slot_ext; [apply Ho|done|]. intros a Ha. by apply (cp_mem _ _ _ _ Hc t).
Qed.

(** A copying loop over slots: what every slot establishes holds at the end. *)
Lemma copy_fold (body : bool * fpool -> Z -> bool * fpool) (Inv : list Z -> fpool -> Prop) (Fail : fpool -> Prop)
    (l done : list Z) (p : fpool) :
  (forall q i, body (false, q) i = (false, q)) ->
  (forall dn i q, Inv dn q -> i ∉ dn -> i ∈ l ->
    match body (true, q) i with (true, q') => Inv (dn ++ [i]) q' | (false, q') => Fail q' end) ->
  NoDup (done ++ l) -> Inv done p ->
  match fold_left body l (true, p) with (true, q) => Inv (done ++ l) q | (false, q) => Fail q end.
Proof.
  intros Hff. revert done p. induction l as [|i l IH]; intros done p Hb Hnd Hi; cbn [fold_left]; [by rewrite app_nil_r|].
  assert (Hni : i ∉ done) by (apply NoDup_app in Hnd as (_ & H & _); intros Hin; apply (H i Hin); left).
  pose proof (Hb done i p Hi Hni ltac:(left)) as H1. destruct (body (true, p) i) as [[|] q] eqn:E.
  - replace (done ++ i :: l) with ((done ++ [i]) ++ l) in * by (by rewrite <- app_assoc). apply IH; [|done|done].
    intros dn j r Hr Hj Hl. apply Hb; [done|done|by right].
  - assert (Hst : forall q0, fold_left body l (false, q0) = (false, q0)).
    { clear -Hff. induction l as [|j l IH]; intros q0; [done|]. cbn. by rewrite Hff. }
    by rewrite Hst.
Qed.

Definition partial (p : fpool) : Prop := exists D sh, copying D nothing p sh.

(** The indices visited: [D] and everything under the slots [dn] of a table. *)
Definition under (D : Z * Z * Z -> Prop) (hit : Z -> Z * Z * Z -> Prop) (dn : list Z) (t : Z * Z * Z) : Prop :=
  D t \/ exists i, i ∈ dn /\ hit i t.

Definition page_hit (i2 i1 i0 : Z) (t : Z * Z * Z) : Prop := t = (i2, i1, i0).
Definition mid_hit (i2 i1 : Z) (t : Z * Z * Z) : Prop := exists i0, 0 <= i0 < 512 /\ t = (i2, i1, i0).
Definition root_hit (i2 : Z) (t : Z * Z * Z) : Prop := exists i1 i0, 0 <= i1 < 512 /\ 0 <= i0 < 512 /\ t = (i2, i1, i0).

(** A slot under which nothing is to be copied. *)
Lemma visit_slot (D : Z * Z * Z -> Prop) (hit : Z -> Z * Z * Z -> Prop) (dn : list Z) (i : Z) (p : fpool) (sh : shape) :
  copying (under D hit dn) nothing p sh -> (forall i2 i1 i0 e, user_page i2 i1 i0 e -> ~ hit i (i2, i1, i0)) ->
  copying (under D hit (dn ++ [i])) nothing p sh.
Proof.
  intros Hc Hn. apply (copying_visit _ _ _ _ _ Hc).
  - intros t [?|(j & Hj & Ht)]; [by left|right]. exists j. rewrite elem_of_app. eauto.
  - intros i2 i1 i0 e _ He [?|(j & Hj & Ht)]; [by left|]. apply elem_of_app in Hj as [Hj|Hj]; [right; eauto|].
    apply list_elem_of_singleton in Hj as ->. by destruct (Hn i2 i1 i0 e He).
Qed.

Lemma under_nil (D : Z * Z * Z -> Prop) (hit : Z -> Z * Z * Z -> Prop) (t : Z * Z * Z) : D t <-> under D hit [] t.
Proof. split; [by left|]. intros [?|(i & Hi & _)]; [done|]. by apply not_elem_of_nil in Hi. Qed.

Lemma under_snoc (D : Z * Z * Z -> Prop) (hit : Z -> Z * Z * Z -> Prop) (dn : list Z) (i : Z) (t : Z * Z * Z) :
  under D hit dn t \/ hit i t <-> under D hit (dn ++ [i]) t.
Proof.
  unfold under. split.
  - intros [[?|(j & Hj & Ht)]|Ht]; [by left|right; exists j; rewrite elem_of_app; tauto|].
    right. exists i. rewrite elem_of_app, list_elem_of_singleton. tauto.
  - intros [?|(j & Hj & Ht)]; [tauto|]. apply elem_of_app in Hj as [Hj|Hj%list_elem_of_singleton]; [left; right; eauto|].
    subst j. by right.
Qed.

Lemma slots_nodup : NoDup ([] ++ slots512).
Proof. apply NoDup_seqZ. Qed.

Definition va2 (i2 : Z) : Z := 0 + Z.shiftl i2 (12 + 9 * Z.of_nat 2).
Definition va1 (i2 i1 : Z) : Z := va2 i2 + Z.shiftl i1 (12 + 9 * Z.of_nat 1).

(** The result of copying one slot, or a whole table, with index sets [D]. *)
Definition copied_to (D : Z * Z * Z -> Prop) (r : bool * fpool) : Prop :=
  match r with (true, p') => exists sh', copying D nothing p' sh' | (false, p') => partial p' end.

Lemma slot0_step (D : Z * Z * Z -> Prop) (q : fpool) (sh : shape) (i2 i1 i0 t0 : Z) :
  copying D nothing q sh -> sh0 !! [i2; i1] = Some t0 -> 0 <= i2 < 512 -> 0 <= i1 < 512 -> 0 <= i0 < 512 ->
  ~ D (i2, i1, i0) ->
  copied_to (with_index D (i2, i1, i0)) (copy_slot None 0 dst t0 (va1 i2 i1) (true, q) i0).
Proof.
  intros Hq Ht H2 H1 H0 Hd. unfold copy_slot. cbn [negb]. rewrite slot_unfold, (source_read _ _ _ _ _ _ _ Hq Ht H0).
  set (e := read_pte (pmem p0) (slot t0 i0)).
  assert (Hpg : page_of p0 sh0 i2 i1 i0 = valid e) by (unfold page_of; by rewrite Ht).
  assert (Hskip : (forall e1, ~ user_page i2 i1 i0 e1) -> copied_to (with_index D (i2, i1, i0)) (true, q)).
  { intros Hn. exists sh. apply (copying_visit D); [done|by left|]. intros j2 j1 j0 e1 _ He1 [?|[= -> -> ->]]; [done|].
    by destruct (Hn e1). }
  unfold valid in Hpg. destruct (has e V) eqn:HV; cbn [negb]; [|apply Hskip; intros e1 (E & _); congruence].
  assert (Hve : forall e1, user_page i2 i1 i0 e1 -> e1 = e) by (intros e1 (E & _); congruence).
  destruct (has e PERM_MASK) eqn:HP;
    [|apply Hskip; intros e1 He1; rewrite (Hve e1 He1) in He1; destruct He1 as (_ & ? & _); congruence].
  destruct (vpn_build i2 i1 i0 H2 H1 H0) as (E2 & E1 & E0).
  change (va1 i2 i1 + Z.shiftl i0 (12 + 9 * Z.of_nat 0)) with
    (0 + Z.shiftl i2 (12 + 9 * Z.of_nat 2) + Z.shiftl i1 (12 + 9 * Z.of_nat 1) + Z.shiftl i0 (12 + 9 * Z.of_nat 0)).
  set (va := 0 + _ + _ + _) in *. destruct (has e U) eqn:HU.
  - pose proof (copy_leaf_step D q sh va e Hq) as Hstep. rewrite E2, E1, E0 in Hstep. specialize (Hstep (conj Hpg (conj HP HU)) Hd).
    destruct (copy_leaf dst va e q) as [[|] q']; [exact Hstep|]. destruct Hstep as [sh' ?]. by exists D, sh'.
  - unfold copy_leaf. rewrite HU. cbn [negb]. apply Hskip. intros e1 He1. rewrite (Hve e1 He1) in He1.
    destruct He1 as (_ & _ & ?). congruence.
Qed.

(** A table's loop from what its slots do. *)
Lemma table_loop (D : Z * Z * Z -> Prop) (hit : Z -> Z * Z * Z -> Prop) (body : bool * fpool -> Z -> bool * fpool) (p : fpool) (sh : shape) :
  (forall q i, body (false, q) i = (false, q)) ->
  (forall dn i q sh', copying (under D hit dn) nothing q sh' -> i ∉ dn -> 0 <= i < 512 ->
    copied_to (under D hit (dn ++ [i])) (body (true, q) i)) ->
  copying D nothing p sh -> copied_to (under D hit slots512) (fold_left body slots512 (true, p)).
Proof.
  intros Hff Hb Hc.
  apply (copy_fold body (fun dn q => exists sh', copying (under D hit dn) nothing q sh') partial slots512 []); [done| |apply slots_nodup|].
  - intros dn i q [sh1 Hq] Hi Hin%in_slots512. by apply (Hb dn i q sh1).
  - exists sh. eapply copying_ext; [exact Hc|apply under_nil|done].
Qed.

Lemma copied_to_ext (D D' : Z * Z * Z -> Prop) (r : bool * fpool) : (forall t, D t <-> D' t) -> copied_to D r -> copied_to D' r.
Proof.
  intros H. destruct r as [[|] q]; [|done]. intros [sh Hc]. exists sh. by eapply copying_ext.
Qed.

Lemma copy_level0 (D : Z * Z * Z -> Prop) (p : fpool) (sh : shape) (i2 i1 t0 vb : Z) : vb = va1 i2 i1 ->
  copying D nothing p sh -> sh0 !! [i2; i1] = Some t0 -> 0 <= i2 < 512 -> 0 <= i1 < 512 ->
  (forall i0, 0 <= i0 < 512 -> ~ D (i2, i1, i0)) ->
  copied_to (under D (page_hit i2 i1) slots512) (copy_user_pages 0 dst t0 vb p).
Proof.
  intros -> Hc Ht H2 H1 Hd. cbn [copy_user_pages]. eapply table_loop; [done| |exact Hc].
  intros dn i q sh' Hq Hi Hin. eapply copied_to_ext; [apply under_snoc|].
  apply (slot0_step _ q sh'); try done. intros [?|(j & Hj & [= ->])]; [by apply (Hd i)|done].
Qed.

Lemma copy_user_pages_S (l : nat) (table va : Z) (p : fpool) : copy_user_pages (S l) dst table va p =
  fold_left (copy_slot (Some (copy_user_pages l dst)) (S l) dst table va) slots512 (true, p).
Proof. reflexivity. Qed.

(** Nothing to copy under a slot with no table below it. *)
Lemma no_table_no_page (i2 i1 i0 e : Z) : user_page i2 i1 i0 e -> is_Some (sh0 !! [i2; i1]) /\ is_Some (sh0 !! [i2]) /\
  0 <= i2 < 512 /\ 0 <= i1 < 512.
Proof.
  intros (Hp & _). unfold page_of in Hp. destruct (sh0 !! [i2; i1]) as [t0|] eqn:E0; [|done].
  destruct (wf_path _ _ _ (so_wf _ _ _ Hsrc) [i2] i1) as (H1 & _ & Hi1); [exists t0; exact E0|].
  destruct (wf_path _ _ _ (so_wf _ _ _ Hsrc) [] i2) as (_ & _ & Hi2); done.
Qed.

Lemma copy_level1 (D : Z * Z * Z -> Prop) (p : fpool) (sh : shape) (i2 t1 vb : Z) : vb = va2 i2 ->
  copying D nothing p sh -> sh0 !! [i2] = Some t1 -> 0 <= i2 < 512 ->
  (forall i1 i0, 0 <= i1 < 512 -> 0 <= i0 < 512 -> ~ D (i2, i1, i0)) ->
  copied_to (under D (mid_hit i2) slots512) (copy_user_pages 1 dst t1 vb p).
Proof.
  intros -> Hc Ht H2 Hd. rewrite copy_user_pages_S. eapply table_loop; [done| |exact Hc].
  intros dn i q sh' Hq Hi Hin. unfold copy_slot. cbn [negb]. rewrite slot_unfold, (source_read _ _ _ _ _ _ _ Hq Ht Hin).
  destruct (sh0 !! [i2; i]) as [t0|] eqn:E0.
  - destruct (entry_table p0 sh0 root t1 t0 i [i2] (so_wf _ _ _ Hsrc) Ht E0) as (-> & -> & ->). cbn [negb]. cbv iota beta.
    eapply copied_to_ext; [|apply (copy_level0 _ q sh' i2 i t0 _ eq_refl Hq E0 H2 Hin)].
    + intros t. rewrite <- under_snoc. unfold under at 1. apply or_iff_compat_l. unfold mid_hit, page_hit.
      split; [intros (j & Hj%in_slots512 & ->); eauto|intros (j & Hj & ->); exists j; by rewrite in_slots512].
    + intros i0 Hi0 [?|(j & Hj & i0' & _ & [= ->])]; [by apply (Hd i i0)|done].
  - pose proof (so_mega _ _ _ Hsrc i2 i H2 Hin) as Hm. unfold mega_of, valid in Hm. rewrite Ht, E0 in Hm.
    destruct (has _ V); [done|]. cbn [negb]. exists sh'. apply visit_slot; [done|].
    intros j2 j1 j0 e He (k0 & _ & [= -> -> _]). apply no_table_no_page in He as ([? ?] & _). congruence.
Qed.

Lemma copy_level2 (p : fpool) (sh : shape) : copying (fun _ => False) nothing p sh ->
  copied_to (under (fun _ => False) root_hit slots512) (copy_user_pages 2 dst root 0 p).
Proof.
  intros Hc. pose proof (wf_root _ _ _ (so_wf _ _ _ Hsrc)) as Hr. rewrite copy_user_pages_S. eapply table_loop; [done| |exact Hc].
  intros dn i q sh' Hq Hi Hin. unfold copy_slot. cbn [negb]. rewrite slot_unfold, (source_read _ _ _ _ _ _ _ Hq Hr Hin).
  assert (Hskip : sh0 !! [i] = None -> copied_to (under (fun _ => False) root_hit (dn ++ [i])) (true, q)).
  { intros En. exists sh'. apply visit_slot; [done|].
    intros j2 j1 j0 e He (k1 & k0 & _ & _ & [= -> _ _]). apply no_table_no_page in He as (_ & [? ?] & _). congruence. }
  destruct (sh0 !! [i]) as [t1|] eqn:E1.
  - destruct (entry_table p0 sh0 root root t1 i [] (so_wf _ _ _ Hsrc) Hr E1) as (-> & -> & ->). cbn [negb]. cbv iota beta.
    eapply copied_to_ext; [|apply (copy_level1 _ q sh' i t1 _ eq_refl Hq E1 Hin)].
    + intros t. rewrite <- under_snoc. unfold under at 1. apply or_iff_compat_l. unfold mid_hit, root_hit.
      split; [intros (j & Hj%in_slots512 & i0 & Hi0 & ->); eauto 10|].
      intros (j & i0 & Hj & Hi0 & ->). exists j. rewrite in_slots512. eauto.
    + intros i1 i0 Hi1 Hi0 [[]|(j & Hj & k1 & k0 & _ & _ & [= ->])]; done.
  - pose proof (so_giga _ _ _ Hsrc i) as Hg. unfold giga_of, valid in Hg. rewrite Hr, E1 in Hg.
    destruct (has (read_pte (pmem p0) (slot root i)) V) eqn:HV; cbn [negb]; [|by apply Hskip].
    pose proof (entry_no_table p0 sh0 root root i [] (so_wf _ _ _ Hsrc) Hr ltac:(cbn; lia) Hin E1 HV) as HP.
    cbv zeta in HP. rewrite HP. unfold copy_leaf. rewrite (Hg _ Hin eq_refl). cbn [negb]. by apply Hskip.
Qed.

(** *** Before and after the loops *)

Lemma copying_start (p1 p2 : fpool) : space_new p0 = (Some dst, p1) -> map_kernel p1 dst = (inr tt, p2) ->
  copying (fun _ => False) nothing p2 {[ [] := dst ]}.
Proof.
  intros Ha Hm. destruct (space_new_wf p0 p1 dst (wf_pool _ _ _ (so_wf _ _ _ Hsrc)) Ha) as (Hwf & Hok & Hp & Hmg & Hg).
  destruct (map_kernel_spec p1 p2 _ dst Hwf Hm) as (Hwf2 & Hg2 & Hmg2 & Hp2 & Ho2). destruct Hok as (Hf & Hn & Ho & Hz & _).
  assert (Hpages : forall i2 i1 i0, 0 <= i0 < 512 -> page_of p2 {[ [] := dst ]} i2 i1 i0 = None)
    by (intros; rewrite Hp2 by done; apply Hp).
  assert (Hh : forall g, holds p2 {[ [] := dst ]} g <-> g = dst).
  { intros g. split; [|intros ->; left; by exists []]. intros [[k [_ Hk]%lookup_singleton_Some]|(i2 & i1 & i0 & e & Hi & He & _)]; [done|].
    by rewrite Hpages in He. }
  split; [done| | |done| | | | | |].
  - intros g. rewrite Ho2, Ho, Hh. unfold nothing. split; [intros [?| ->]; tauto|]. intros [?|[[_ ->]|[]]]; tauto.
  - intros g. rewrite Hh. by intros [-> |[]].
  - intros g a Hg0 Hag. assert (Hne : g <> dst) by (by intros ->). pose proof (frames_disjoint g dst a (proj1 Hg0) Hf Hne Hag) as Hd.
    rewrite (map_kernel_mem p1 p2 dst Hf Hm a Hd), Hz. by apply fill0_other.
  - intros i2 i1 H2 H1. rewrite Hmg2 by done. apply Hmg.
  - intros i2 H2. rewrite Hg2 by done. case_decide; [done|]. by apply Hg.
  - intros i2 i1 i0 Hi. rewrite Hpages by done. by intros e _ [].
  - intros i2 i1 i0 e Hi He. by rewrite Hpages in He.
  - intros i2 i1 i0 e j2 j1 j0 e' Hi _ He. by rewrite Hpages in He.
Qed.

(** What a copy under construction holds is what [destroy] releases. *)
Lemma copying_owns (D : Z * Z * Z -> Prop) (p : fpool) (sh : shape) (g : Z) :
  copying D nothing p sh -> space_gives p sh g <-> holds p sh g.
Proof.
  intros Hc. split.
  - intros [?|[(i2 & i1 & e & H2 & H1 & Hm & _)|(i2 & i1 & i0 & e & _ & _ & Hi & He & _ & Hg)]]; [by left| |right; eauto 10].
    by rewrite (cp_mega _ _ _ _ Hc) in Hm.
  - intros [?|(i2 & i1 & i0 & e & Hi & He & Hg)]; [by left|]. right; right. exists i2, i1, i0, e.
    pose proof (cp_pages _ _ _ _ Hc i2 i1 i0 Hi) as Hp. rewrite He in Hp. destruct Hp as (_ & e0 & Hu & Hle & _).
    pose proof (no_table_no_page _ _ _ _ Hu) as (_ & _ & H2 & H1). split_and!; try done; try lia.
    rewrite Hle, leaf_perm by apply pte_pa_page. apply Hu.
Qed.

Lemma copying_undone (D : Z * Z * Z -> Prop) (p : fpool) (sh : shape) : copying D nothing p sh ->
  pool_ok (destroy dst p) /\ (forall g, owned (destroy dst p) g <-> owned p0 g) /\
  (forall g a, owned p0 g -> g <= a < g + FRAME_SIZE -> pmem (destroy dst p) a = pmem p0 a).
Proof.
  intros Hc. destruct (destroy_owned p sh dst (cp_wf _ _ _ _ Hc)) as [Hk Ho]. split_and!; [done| |].
  - intros g. rewrite Ho, (cp_own _ _ _ _ Hc), (copying_owns D p sh g Hc). unfold nothing. split; [intros [[?|[[? ?]|[]]] ?]; tauto|].
    intros Hg. split; [tauto|]. intros Hh. by apply (cp_fresh _ _ _ _ Hc g (or_introl Hh)).
  - intros g a Hg Ha. rewrite destroy_frames, free_all_pmem. by apply (cp_mem _ _ _ _ Hc g).
Qed.

End Copy.

(** ** Reading through the copy *)

(** The flags the copy asks for are those of the source entry. *)
Lemma copied_flags (p0 p : fpool) (e e' need : Z) : copied p0 p e e' -> Z.land need UMASK = need -> Z.land e' need = Z.land e need.
Proof.
  intros [-> _] Hn. rewrite <- Hn.
  destruct (leaf_spec (pte_pa e') (Z.land e UMASK) (pte_pa_page e') (umask_range e)) as (_ & _ & ->); [|apply umask_range].
  unfold leaf_flags. rewrite (Z.land_comm need UMASK), !Z.land_assoc, !Z.land_lor_distr_l, <- (Z.land_assoc e).
  change (Z.land UMASK UMASK) with UMASK. change (Z.land V UMASK) with 0. change (Z.land A UMASK) with 0.
  change (Z.land D UMASK) with 0. by rewrite !Z.lor_0_r.
Qed.

(** The address space a successful copy yields: exactly the source's user
    pages, the kernel gigapage, frames of its own, and nothing else touched. *)
Record copy_of (p0 : fpool) (sh0 : shape) (p : fpool) (sh : shape) (dst : Z) : Prop := {
  co_wf : space_wf p sh dst;
  co_page : forall i2 i1 i0 e', 0 <= i0 < 512 -> page_of p sh i2 i1 i0 = Some e' ->
    exists e, user_page p0 sh0 i2 i1 i0 e /\ copied p0 p e e';
  co_all : forall i2 i1 i0 e, 0 <= i0 < 512 -> user_page p0 sh0 i2 i1 i0 e -> is_Some (page_of p sh i2 i1 i0);
  co_mega : forall i2 i1, 0 <= i2 < 512 -> 0 <= i1 < 512 -> mega_of p sh i2 i1 = None;
  co_giga : forall i2, 0 <= i2 < 512 -> giga_of p sh i2 = if decide (i2 = 2) then Some kernel_leaf else None;
  co_own : forall g, owned p g <-> owned p0 g \/ (frame_addr g /\ holds p sh g);
  co_fresh : forall g, holds p sh g -> ~ owned p0 g;
  co_tabs : forall i2 i1 i0 e, 0 <= i0 < 512 -> page_of p sh i2 i1 i0 = Some e -> forall k, sh !! k <> Some (pte_pa e);
  co_inj : forall i2 i1 i0 e j2 j1 j0 e', 0 <= i0 < 512 -> 0 <= j0 < 512 ->
    page_of p sh i2 i1 i0 = Some e -> page_of p sh j2 j1 j0 = Some e' ->
    frame_addr (pte_pa e) -> pte_pa e = pte_pa e' -> (i2, i1, i0) = (j2, j1, j0);
  co_mem : forall g a, owned p0 g -> g <= a < g + FRAME_SIZE -> pmem p a = pmem p0 a
}.

Lemma copying_done (p0 : fpool) (sh0 : shape) (root dst : Z) (p : fpool) (sh : shape) : source_ok p0 sh0 root ->
  copying p0 sh0 dst (under (fun _ => False) root_hit slots512) nothing p sh -> copy_of p0 sh0 p sh dst.
Proof.
  intros Hs [H1 H2 H3 H4 H5 H6 H7 H8 H9 H10]. split; try done.
  - intros i2 i1 i0 e' Hi He. specialize (H8 i2 i1 i0 Hi). rewrite He in H8. apply H8.
  - intros i2 i1 i0 e Hi He. specialize (H8 i2 i1 i0 Hi). destruct (page_of p sh i2 i1 i0); [by eexists|].
    destruct (H8 e He). right. destruct (no_table_no_page _ _ _ Hs _ _ _ _ He) as (_ & _ & Hi2 & Hi1).
    exists i2. rewrite in_slots512. split; [done|]. by exists i1, i0.
  - intros g. rewrite H2. unfold nothing. tauto.
  - intros g Hg. apply H3. by left.
Qed.

(** Translations agree: the same accesses are granted; a pool byte has a twin
    with the same content, a foreign address is the same. *)
Definition same_place (p0 p : fpool) (pa pa' : Z) : Prop :=
  (POOL_BASE <= pa < POOL_END -> POOL_BASE <= pa' < POOL_END /\ pmem p pa' = pmem p0 pa) /\
  (~ POOL_BASE <= pa < POOL_END -> pa' = pa).

Lemma copied_place (p0 p : fpool) (e e' off : Z) : copied p0 p e e' -> 0 <= off < FRAME_SIZE ->
  same_place p0 p (pte_pa e + off) (pte_pa e' + off).
Proof.
  intros [_ Hc] Hoff. pose proof (pool_check e) as Hpool. destruct (pte_pa_page e) as [_ Hm]. case_decide as Hf.
  - destruct Hc as [Hf' Hb]. apply frame_addr_in_pool in Hf', Hf. unfold in_pool in *. split; [|lia].
    intros _. split; [lia|]. by apply Hb.
  - split; [|congruence]. intros Hp. exfalso. apply Hf. unfold frame_addr, POOL_BASE, POOL_END, FRAME_SIZE in *.
    Z.to_euclidean_division_equations. lia.
Qed.

Lemma page_off_frame (va : Z) : 0 <= page_off va 0 < FRAME_SIZE.
Proof.
  unfold page_off. change (Z.shiftl 1 (12 + 9 * 0) - 1) with (Z.ones 12). rewrite Z.land_ones by lia.
  apply Z.mod_pos_bound. reflexivity.
Qed.

Lemma copy_translates (p0 p : fpool) (sh0 sh : shape) (root dst va need : Z) :
  source_ok p0 sh0 root -> copy_of p0 sh0 p sh dst -> need <> 0 -> Z.land need UMASK = need ->
  match translate_checked (pmem p0) root va need, translate_checked (pmem p) dst va need with
  | Some pa, Some pa' => same_place p0 p pa pa'
  | None, None => True
  | _, _ => False
  end.
Proof.
  intros Hs Hc Hn Hm. rewrite (translate_lookup p0 sh0 root va need (so_wf _ _ _ Hs)), (translate_lookup p sh dst va need (co_wf _ _ _ _ _ Hc)).
  pose proof (vpn_range va 2) as H2. pose proof (vpn_range va 1) as H1. pose proof (vpn_range va 0) as H0.
  assert (Hz : (need =? 0) = false) by (by apply Z.eqb_neq).
  assert (Hno : forall e, has e U = false -> permits need e = false) by (intros e He; unfold permits; rewrite Hz, He; apply andb_false_r).
  unfold lookup_pte. rewrite (co_giga _ _ _ _ _ Hc) by done. rewrite (so_mega _ _ _ Hs), (co_mega _ _ _ _ _ Hc) by done.
  destruct (giga_of p0 sh0 (vpn va 2)) as [eg|] eqn:Eg.
  { rewrite (Hno eg (so_giga _ _ _ Hs (vpn va 2) eg H2 Eg)). case_decide; [by rewrite (Hno kernel_leaf)|].
    destruct (page_of p sh _ _ _) as [e'|] eqn:Ep'; [|done].
    destruct (co_page _ _ _ _ _ Hc _ _ _ _ H0 Ep') as (e1 & He1 & _).
    destruct (no_table_no_page _ _ _ Hs _ _ _ _ He1) as (_ & [t Ht] & _). unfold giga_of in Eg. rewrite Ht in Eg.
    by destruct (sh0 !! []). }
  case_decide as E2; [pose proof (so_kernel _ _ _ Hs) as [k Hk]; congruence|].
  destruct (page_of p0 sh0 _ _ _) as [e|] eqn:Ep, (page_of p sh _ _ _) as [e'|] eqn:Ep'; [| | |done].
  - destruct (co_page _ _ _ _ _ Hc _ _ _ _ H0 Ep') as (e1 & (He1 & HP & HU) & Hcp). assert (e1 = e) as -> by congruence.
    assert (permits need e' = permits need e) as ->.
    { unfold permits. rewrite (copied_flags p0 p e e' need Hcp Hm). unfold has.
      by rewrite !(copied_flags p0 p e e' _ Hcp). }
    destruct (permits need e); [|done]. apply copied_place; [done|]. apply page_off_frame.
  - destruct (permits need e) eqn:Epm; [|done]. unfold permits in Epm. rewrite Hz in Epm.
    apply andb_true_iff in Epm as [HP [HU _]%andb_true_iff]. destruct (co_all _ _ _ _ _ Hc _ _ _ e H0 (conj Ep (conj HP HU))) as [? ?]. congruence.
  - destruct (co_page _ _ _ _ _ Hc _ _ _ _ H0 Ep') as (e1 & (He1 & _) & _). congruence.
Qed.

(** What [copy_from_user] returns is determined byte by byte. *)
Lemma user_bytes_copy (m m' : mem) (r r' va len : Z) : 0 <= len -> (forall j, walk_byte m r va j = walk_byte m' r' va j) ->
  copy_from_user m r va len = copy_from_user m' r' va len.
Proof.
  intros Hl Hub.
  assert (Hdir : forall m m' r r' bs, (forall j, walk_byte m r va j = walk_byte m' r' va j) ->
    copy_from_user m r va len = Some bs -> copy_from_user m' r' va len = Some bs).
  { clear - Hl. intros m m' r r' bs Hj Hm. unfold copy_from_user in *. apply copy_loop_sound in Hm as [H1 H2]; [|done].
    destruct (copy_loop_complete (Z.to_nat len) m' r' va 0 len) as [bs' Hm']; [lia| |].
    { intros j Hj'. rewrite <- Hj, H2 by done. apply lookup_lt_is_Some. lia. }
    rewrite Hm'. f_equal. apply copy_loop_sound in Hm' as [H1' H2']; [|done].
    apply list_eq. intros i. destruct (decide (Z.of_nat i < len)) as [Hi|Hi].
    - rewrite <- (Nat2Z.id i), <- H2, <- H2' by lia. done.
    - rewrite !lookup_ge_None_2 by lia. done. }
  apply option_eq. intros bs. split; by apply Hdir.
Qed.

(** A copy reads like its source. *)
Lemma copy_reads (p0 p : fpool) (sh0 sh : shape) (root dst va len : Z) :
  source_ok p0 sh0 root -> copy_of p0 sh0 p sh dst -> 0 <= len ->
  copy_from_user (pmem p) dst va len = copy_from_user (pmem p0) root va len.
Proof.
  intros Hs Hc Hl. apply user_bytes_copy; [done|]. intros j. unfold walk_byte.
  pose proof (copy_translates p0 p sh0 sh root dst (wrap64 (va + j)) (Z.lor U R) Hs Hc ltac:(done) ltac:(done)) as Ht.
  destruct (translate_checked (pmem p0) _ _ _) as [pa|], (translate_checked (pmem p) _ _ _) as [pa'|]; try done.
  destruct Ht as [Hin Hout]. destruct (decide (POOL_BASE <= pa < POOL_END)) as [Hp|Hp].
  - destruct (Hin Hp) as [Hp' ->]. destruct (_ && _) eqn:E1, ((_ <=? pa) && _) eqn:E2; zbool; try done; lia.
  - by rewrite (Hout Hp), !(proj2 (andb_false_iff _ _)) by (rewrite Z.leb_gt, Z.ltb_ge; lia).
Qed.

(** [deep_copy] on a well-formed source. *)
Lemma deep_copy_spec (p : fpool) (sh : shape) (root : Z) : source_ok p sh root ->
  match deep_copy p root with
  | (Some dst, p') => exists sh', copy_of p sh p' sh' dst /\
      forall va len, 0 <= len -> copy_from_user (pmem p') dst va len = copy_from_user (pmem p) root va len
  | (None, p') => pool_ok p' /\ (forall g, owned p' g <-> owned p g) /\
      forall g a, owned p g -> g <= a < g + FRAME_SIZE -> pmem p' a = pmem p a
  end.
Proof.
  intros Hs. unfold deep_copy. pose proof (wf_pool _ _ _ (so_wf _ _ _ Hs)) as Hp.
  destruct (space_new p) as [[dst|] p1] eqn:Ea; [|apply alloc_exhausted in Ea as [-> _]; done].
  destruct (space_new_wf p p1 dst Hp Ea) as (Hwf & _ & _ & _ & Hg).
  destruct (map_kernel p1 dst) as [[e|[]] p2] eqn:Em; [by destruct (map_kernel_fresh p1 dst e p2 Hwf Hg)|].
  pose proof (copying_start p sh root dst Hs p1 p2 Ea Em) as Hc0.
  pose proof (copy_level2 p sh root dst Hs p2 _ Hc0) as Hc. destruct (copy_user_pages 2 dst root 0 p2) as [[|] p3].
  - destruct Hc as [sh' Hc]. exists sh'. pose proof (copying_done p sh root dst p3 sh' Hs Hc) as Hco.
    split; [done|]. intros va len Hl. by apply (copy_reads p p3 sh sh').
  - destruct Hc as (D & sh' & Hc). by apply (copying_undone p sh root dst Hs D p3 sh').
Qed.

(** C13: [deep_copy], which snapshots and forks rest on, yields on success an
    address space with exactly the source's user pages at the same addresses and
    permissions: each pool page in a frame of its own that was free before and
    now holds the same bytes, each window outside the pool aliased. Every user
    read through the copy returns what it returns through the source. On
    failure the pool is as before: no frame is kept and none is lost. Either
    way no byte of a frame that was in use changes. *)
Theorem deep_copy_refines (p : fpool) (sh : shape) (root : Z) : source_ok p sh root ->
  match deep_copy p root with
  | (Some dst, p') => exists sh', copy_of p sh p' sh' dst /\
      forall va len, 0 <= len -> copy_from_user (pmem p') dst va len = copy_from_user (pmem p) root va len
  | (None, p') => pool_ok p' /\ (forall g, owned p' g <-> owned p g) /\
      forall g a, owned p g -> g <= a < g + FRAME_SIZE -> pmem p' a = pmem p a
  end.
Proof. apply deep_copy_spec. Qed.

(** Every loaded address space is a source. *)
Lemma load_inv_source (Q : Z -> Prop) (p : fpool) (sh : shape) (root : Z) :
  load_inv Q p sh root -> is_Some (giga_of p sh 2) -> source_ok p sh root.
Proof.
  intros [H1 H2 H3 H4] Hg. split; try done. intros i2 i1 i0 e Hi He _. by apply (H2 i2 i1 i0 e Hi He).
Qed.

Lemma loaded_source (image : bytes) (root entry : Z) (p p' : fpool) (sh : shape) :
  load_inv wx_page p sh root -> is_Some (giga_of p sh 2) -> load_elf false image root p = (EOk entry, p') ->
  exists sh', source_ok p' sh' root.
Proof.
  intros Hinv Hg H. destruct (load_elf_space _ _ _ _ _ _ Hinv H) as (sh' & Hinv' & Hk). exists sh'. apply (load_inv_source wx_page); [done|]. by rewrite (kp_giga _ _ _ _ Hk).
Qed.

(** A payload loaded into a fresh space, copied: the copy starts with the ELF
    magic, read through its own root. *)
Lemma deep_copy_refines_witness :
  exists p dst p' sh sh', load_elf false text_image POOL_BASE demo_space = (EOk 0x10000, p) /\
    deep_copy p POOL_BASE = (Some dst, p') /\ copy_of p sh p' sh' dst /\
    copy_from_user (pmem p') dst 0x10000 4 = Some [x7f; x45; x4c; x46].
Proof.
  assert (match load_elf false text_image POOL_BASE demo_space with (r, p) =>
    r = EOk 0x10000 /\ fst (deep_copy p POOL_BASE) = Some 0x80405000 /\
    copy_from_user (pmem p) POOL_BASE 0x10000 4 = Some [x7f; x45; x4c; x46] end) as E by (vm_compute; auto).
  destruct (load_elf false text_image POOL_BASE demo_space) as [r p] eqn:El. destruct E as (-> & Ec & Er).
  destruct (loaded_source _ _ _ _ _ _ (demo_space_inv wx_page)
    (mk_is_Some _ _ (proj1 (proj2 demo_space_wf))) El) as [sh Hs].
  pose proof (deep_copy_refines p sh POOL_BASE Hs) as H.
  destruct (deep_copy p POOL_BASE) as [o p'] eqn:Ed. cbn [fst] in Ec. subst o. destruct H as (sh' & Hc & Hr).
  exists p, 0x80405000, p', sh, sh'. split; [done|]. split; [done|]. split; [done|]. rewrite Hr by lia. exact Er.
Defined.
