(* ===== verification/Owner.v ===== *)
(** * Who owns which frame

    The frames of the pool belong to tenants: an address space, with its tables
    and the pool frames its pages name, or a single frame that holds a saved
    context. [sep p l] says that the tenants of [l] are well formed in the pool
    [p] and that no frame belongs to two of them. Every operation on the pool is
    a change of the list of tenants; what it does to one does not reach the
    others. *)

From S2P Require Import Prelude Hal Frames Mm MmSpec MmWalk Elf PoolAcct ElfProofs CopySpec.

Inductive tenant := TSpace (root : Z) (sh : shape) | TFrame (f : Z).

(** A well-formed space none of whose pages is one of its tables, and in which
    only pages of the pool are writable. *)
Record space_ok (p : fpool) (sh : shape) (root : Z) : Prop := {
  ok_src : source_ok p sh root;
  ok_tabs : forall i2 i1 i0 e, 0 <= i0 < 512 -> page_of p sh i2 i1 i0 = Some e -> forall k, sh !! k <> Some (pte_pa e);
  ok_win : forall i2 i1 i0 e, 0 <= i0 < 512 -> page_of p sh i2 i1 i0 = Some e -> has e W = true -> frame_addr (pte_pa e)
}.

Definition tenant_ok (p : fpool) (t : tenant) : Prop :=
  match t with TSpace root sh => space_ok p sh root | TFrame f => owned p f end.

(** The frames of a tenant. *)
Definition foot (p : fpool) (t : tenant) (g : Z) : Prop :=
  match t with TSpace _ sh => frame_addr g /\ holds p sh g | TFrame f => g = f end.

Definition apart (p : fpool) (t t' : tenant) : Prop := forall g, foot p t g -> ~ foot p t' g.

Fixpoint sep (p : fpool) (l : list tenant) : Prop :=
  match l with
  | [] => True
  | t :: r => tenant_ok p t /\ Forall (apart p t) r /\ sep p r
  end.

(** ** The list of tenants *)

Lemma apart_sym (p : fpool) (t t' : tenant) : apart p t t' -> apart p t' t.
Proof. intros H g Hg Hg'. by apply (H g). Qed.

#[export] Instance sep_perm (p : fpool) : Proper ((≡ₚ) ==> iff) (sep p).
Proof.
  assert (H : forall l l', l ≡ₚ l' -> sep p l -> sep p l').
  { intros l l' Hp. induction Hp as [|t l l' Hp IH|t t' l|l1 l2 l3 _ IH1 _ IH2]; cbn [sep]; [done| | |by eauto].
    - intros (H1 & H2 & H3). split; [done|]. split; [by rewrite <- Hp|by apply IH].
    - intros (H1 & H2 & H3 & H4 & H5). apply Forall_cons in H2 as [H2 H2']. split; [done|]. split; [|by split].
      constructor; [by apply apart_sym|done]. }
  intros l l' Hp. split; by apply H.
Qed.

Lemma sep_app_r (p : fpool) (l1 l2 : list tenant) : sep p (l1 ++ l2) -> sep p l2.
Proof. induction l1 as [|t l1 IH]; [done|]. cbn [app sep]. intros (_ & _ & H). by apply IH. Qed.

Lemma sep_in (p : fpool) (t : tenant) (l : list tenant) : sep p l -> t ∈ l -> tenant_ok p t.
Proof. intros H Hin. induction l as [|t' l IH]; [by apply not_elem_of_nil in Hin|]. destruct H as (H1 & _ & H3).
  apply elem_of_cons in Hin as [-> |Hin]; [done|by apply IH]. Qed.

Lemma foot_owned (p : fpool) (t : tenant) (g : Z) : tenant_ok p t -> foot p t g -> owned p g.
Proof.
  destruct t as [root sh|f]; cbn; [|by intros H ->]. intros Hok [Hf [[k Hk]|(i2 & i1 & i0 & e & Hi & He & <-)]].
  - eapply wf_own; [apply (so_wf _ _ _ (ok_src _ _ _ Hok))|done].
  - by eapply so_page; [apply (ok_src _ _ _ Hok)| | |].
Qed.

Lemma sep_foot_owned (p : fpool) (t : tenant) (l : list tenant) (g : Z) : sep p l -> t ∈ l -> foot p t g -> owned p g.
Proof. intros H Hin. apply foot_owned. by eapply sep_in. Qed.

(** ** Changes elsewhere *)

(** [p'] agrees with [p] on the frames of [t]. *)
Definition agrees (p p' : fpool) (t : tenant) : Prop := forall g, foot p t g ->
  owned p' g /\ forall a, g <= a < g + FRAME_SIZE -> pmem p' a = pmem p a.

(** Its tables kept, a space keeps its pages and its translations. *)
Lemma space_tables (p p' : fpool) (root : Z) (sh : shape) : pool_ok p' -> space_ok p sh root ->
  (forall k t, sh !! k = Some t -> owned p' t /\ forall a, t <= a < t + FRAME_SIZE -> pmem p' a = pmem p a) ->
  (forall i2 i1 i0 e, 0 <= i0 < 512 -> page_of p sh i2 i1 i0 = Some e -> frame_addr (pte_pa e) -> owned p' (pte_pa e)) ->
  space_ok p' sh root /\ (forall i2 i1 i0, 0 <= i0 < 512 -> page_of p' sh i2 i1 i0 = page_of p sh i2 i1 i0) /\
  forall va need, translate_checked (pmem p') root va need = translate_checked (pmem p) root va need.
Proof.
  intros Hp [[Hwf Hmg Hgg Hk Hpg] Htabs Hwin] Ht Hown.
  destruct (wf_transfer p p' sh root Hwf Hp) as (Hwf' & Hpg' & Hmg' & Hgg').
  { intros k t E. by apply (Ht k). }
  { intros k t a E Hr. by apply (Ht k t). }
  split; [split; [split| |]|split; [exact Hpg'|]].
  - done.
  - intros i2 i1 H2 H1. rewrite Hmg' by done. by apply Hmg.
  - intros i2 e H2. rewrite Hgg' by done. by apply Hgg.
  - by rewrite Hgg'.
  - intros i2 i1 i0 e Hi. rewrite Hpg' by done. by apply Hown.
  - intros i2 i1 i0 e Hi. rewrite Hpg' by done. by apply Htabs.
  - intros i2 i1 i0 e Hi. rewrite Hpg' by done. by apply Hwin.
  - intros va need. rewrite (translate_lookup p' sh root va need Hwf'), (translate_lookup p sh root va need Hwf).
    pose proof (vpn_range va 0). pose proof (vpn_range va 1). pose proof (vpn_range va 2).
    unfold lookup_pte. by rewrite Hgg', Hmg', Hpg'.
Qed.

Lemma space_transfer (p p' : fpool) (root : Z) (sh : shape) : pool_ok p' -> space_ok p sh root -> agrees p p' (TSpace root sh) ->
  space_ok p' sh root /\ (forall i2 i1 i0, 0 <= i0 < 512 -> page_of p' sh i2 i1 i0 = page_of p sh i2 i1 i0) /\
  forall va need, translate_checked (pmem p') root va need = translate_checked (pmem p) root va need.
Proof.
  intros Hp Hok Ha. cbn [agrees foot] in Ha. apply space_tables; [done|done| |].
  - intros k t E. apply Ha. split; [|left; by eauto]. eapply wf_frame; [apply (so_wf _ _ _ (ok_src _ _ _ Hok))|done].
  - intros i2 i1 i0 e Hi He Hf. apply Ha. split; [done|]. right. eauto 10.
Qed.

(** What a payload can reach with its own permissions is one of its pages. *)
Lemma user_access (p : fpool) (sh : shape) (root va need a : Z) : space_ok p sh root -> need <> 0 ->
  translate_checked (pmem p) root va need = Some a ->
  exists i2 i1 i0 e, 0 <= i0 < 512 /\ page_of p sh i2 i1 i0 = Some e /\ Z.land e need = need /\ pte_pa e <= a < pte_pa e + FRAME_SIZE.
Proof.
  intros Hok Hn. pose proof (ok_src _ _ _ Hok) as Hs. rewrite (translate_lookup p sh root va need (so_wf _ _ _ Hs)).
  pose proof (vpn_range va 2) as H2. pose proof (vpn_range va 1) as H1. pose proof (vpn_range va 0) as H0.
  assert (Hpm : forall e, permits need e = true -> has e U = true /\ Z.land e need = need).
  { intros e H. unfold permits in H. zbool. destruct (need =? 0) eqn:E; zbool; [done|]. cbn in *. by zbool. }
  unfold lookup_pte. rewrite (so_mega _ _ _ Hs) by done. destruct (giga_of p sh (vpn va 2)) as [e|] eqn:Eg.
  - destruct (permits need e) eqn:E; [|done]. apply Hpm in E as [E _]. by rewrite (so_giga _ _ _ Hs (vpn va 2) e H2 Eg) in E.
  - destruct (page_of p sh _ _ _) as [e|] eqn:Ep; [|done]. destruct (permits need e) eqn:E; [|done]. intros [= <-].
    exists (vpn va 2), (vpn va 1), (vpn va 0), e. pose proof (page_off_frame va).
    split; [done|]. split; [done|]. split; [by apply Hpm|lia].
Qed.

(** A pool address in a page is in a frame. *)
Lemma page_in_pool (e a : Z) : POOL_BASE <= a < POOL_END -> pte_pa e <= a < pte_pa e + FRAME_SIZE -> frame_addr (pte_pa e).
Proof.
  intros Ha He. destruct (pte_pa_page e) as [_ Hm]. unfold frame_addr, POOL_BASE, POOL_END, FRAME_SIZE in *.
  Z.to_euclidean_division_equations. lia.
Qed.

(** A space left alone reads as before. *)
Lemma space_reads (p p' : fpool) (root : Z) (sh : shape) (va len : Z) : pool_ok p' -> space_ok p sh root -> agrees p p' (TSpace root sh) ->
  0 <= len -> copy_from_user (pmem p') root va len = copy_from_user (pmem p) root va len.
Proof.
  intros Hp Hok Ha Hl. destruct (space_transfer p p' root sh Hp Hok Ha) as (_ & _ & Ht).
  apply user_bytes_copy; [done|]. intros j. unfold walk_byte. rewrite Ht.
  destruct (translate_checked (pmem p) _ _ _) as [a|] eqn:E; [|done]. destruct (_ && _) eqn:Ei; [|done]. zbool. f_equal.
  apply (user_access p sh) in E as (i2 & i1 & i0 & e & Hi & He & _ & Hr); [|done|done].
  assert (Hf : frame_addr (pte_pa e)) by (eapply page_in_pool; [|done]; lia).
  apply (Ha (pte_pa e)); [|done]. split; [done|]. right. eauto 10.
Qed.

Lemma tenant_transfer (p p' : fpool) (t : tenant) : pool_ok p' -> tenant_ok p t -> agrees p p' t ->
  tenant_ok p' t /\ forall g, foot p' t g <-> foot p t g.
Proof.
  intros Hp Hok Ha. destruct t as [root sh|f]; cbn [tenant_ok foot] in *.
  - destruct (space_transfer p p' root sh Hp Hok Ha) as (Hok' & Hpg & _). split; [done|]. intros g. apply and_iff_compat_l.
    unfold holds. apply or_iff_compat_l.
    split; intros (i2 & i1 & i0 & e & Hi & He & Hg); exists i2, i1, i0, e; rewrite Hpg in * by done; done.
  - split; [by apply (Ha f)|done].
Qed.

Lemma sep_transfer (p p' : fpool) (l : list tenant) : pool_ok p' -> sep p l -> Forall (agrees p p') l ->
  sep p' l /\ Forall (fun t => forall g, foot p' t g <-> foot p t g) l.
Proof.
  intros Hp Hs Ha. induction l as [|t l IH]; [done|]. destruct Hs as (Hok & Hap & Hs). apply Forall_cons in Ha as [Ha Hal].
  destruct (tenant_transfer p p' t Hp Hok Ha) as [Hok' Hf]. destruct (IH Hs Hal) as [Hs' Hfl].
  split; [|by constructor]. split; [done|]. split; [|done].
  rewrite Forall_forall in *. intros t' Hin g Hg Hg'. apply (Hap t' Hin g); [by apply Hf|by apply (Hfl t' Hin)].
Qed.

(** A change that keeps every owned frame agrees with all tenants. *)
Lemma agrees_owned (p p' : fpool) (l : list tenant) : sep p l ->
  (forall g, owned p g -> owned p' g /\ forall a, g <= a < g + FRAME_SIZE -> pmem p' a = pmem p a) -> Forall (agrees p p') l.
Proof. intros Hs H. apply Forall_forall. intros t Hin g Hg. apply H. by eapply sep_foot_owned. Qed.

(** A change of one tenant's frames agrees with the others. *)
Lemma agrees_rest (p p' : fpool) (t : tenant) (l : list tenant) : sep p (t :: l) ->
  (forall g, owned p g -> ~ foot p t g -> owned p' g /\ forall a, g <= a < g + FRAME_SIZE -> pmem p' a = pmem p a) -> Forall (agrees p p') l.
Proof.
  intros (Hok & Hap & Hs) Hrest. rewrite Forall_forall in *. intros u Hin g Hg. apply Hrest; [by eapply sep_foot_owned|].
  intros Ht. by apply (Hap u Hin g).
Qed.

(** A tenant apart from the rest may change its own frames and take fresh ones. *)
Lemma sep_change (p p' : fpool) (t t' : tenant) (l : list tenant) : sep p (t :: l) -> pool_ok p' -> tenant_ok p' t' ->
  (forall g, foot p' t' g -> foot p t g \/ ~ owned p g) ->
  (forall g, owned p g -> ~ foot p t g -> owned p' g /\ forall a, g <= a < g + FRAME_SIZE -> pmem p' a = pmem p a) ->
  sep p' (t' :: l) /\ Forall (agrees p p') l.
Proof.
  intros Hsep Hp Hok' Hfoot Hrest. pose proof (agrees_rest p p' t l Hsep Hrest) as Ha. destruct Hsep as (Hok & Hap & Hs).
  destruct (sep_transfer p p' l Hp Hs Ha) as [Hs' Hf]. split; [|done]. split; [done|]. split; [|done].
  rewrite Forall_forall in *. intros u Hin g Hg Hu. apply (Hf u Hin) in Hu.
  destruct (Hfoot g Hg) as [Ht|Hn]; [by apply (Hap u Hin g)|]. apply Hn. by eapply sep_foot_owned.
Qed.

(** ** The operations *)

Lemma sep_drop (p p' : fpool) (t : tenant) (l : list tenant) : sep p (t :: l) -> pool_ok p' ->
  (forall g, owned p g -> ~ foot p t g -> owned p' g /\ forall a, g <= a < g + FRAME_SIZE -> pmem p' a = pmem p a) ->
  sep p' l /\ Forall (agrees p p') l.
Proof.
  intros Hs Hp Hrest. pose proof (agrees_rest p p' t l Hs Hrest) as Ha. split; [|done]. by apply (sep_transfer p p' l Hp (proj2 (proj2 Hs))).
Qed.

Lemma sep_same (p p' : fpool) (l : list tenant) : sep p l -> pool_ok p' ->
  (forall g, owned p g -> owned p' g /\ forall a, g <= a < g + FRAME_SIZE -> pmem p' a = pmem p a) -> sep p' l /\ Forall (agrees p p') l.
Proof. intros Hs Hp H. pose proof (agrees_owned p p' l Hs H). split; [|done]. by apply (sep_transfer p p' l Hp Hs). Qed.

Lemma sep_new (p p' : fpool) (t : tenant) (l : list tenant) : sep p l -> pool_ok p' -> tenant_ok p' t ->
  (forall g, foot p' t g -> ~ owned p g) ->
  (forall g, owned p g -> owned p' g /\ forall a, g <= a < g + FRAME_SIZE -> pmem p' a = pmem p a) ->
  sep p' (t :: l) /\ Forall (agrees p p') l.
Proof.
  intros Hs Hp Hok Hf Ho. pose proof (agrees_owned p p' l Hs Ho) as Ha. destruct (sep_transfer p p' l Hp Hs Ha) as [Hs' Hff].
  split; [|done]. split; [done|]. split; [|done]. rewrite Forall_forall in *. intros u Hin g Hg Hu. apply (Hff u Hin) in Hu.
  apply (Hf g Hg). by eapply sep_foot_owned.
Qed.

(** A frame taken, and whatever was written to it since: the others keep theirs. *)
Lemma alloc_keeps (p p1 : fpool) (f : Z) (m : mem) : pool_ok p -> alloc p = (Some f, p1) ->
  (forall a, ~ (f <= a < f + FRAME_SIZE) -> m a = pmem p1 a) ->
  pool_ok (with_mem p1 m) /\ owned (with_mem p1 m) f /\ ~ owned p f /\
  forall g, owned p g -> owned (with_mem p1 m) g /\ forall a, g <= a < g + FRAME_SIZE -> m a = pmem p a.
Proof.
  intros Hp Ha Hm. destruct (alloc_gives p f p1 Hp Ha) as (Hf & Hn & Ho & Hz & _ & Hk). split; [exact Hk|].
  split; [apply Ho; by right|]. split; [done|]. intros g Hg. split; [apply Ho; by left|]. intros a Hag.
  assert (Hd : ~ (f <= a < f + FRAME_SIZE)) by (apply (frames_disjoint g f a); [apply Hg|done|by intros ->|done]).
  by rewrite Hm, Hz, fill0_other.
Qed.

Lemma sep_alloc (p p1 : fpool) (f : Z) (m : mem) (l : list tenant) : pool_ok p -> sep p l -> alloc p = (Some f, p1) ->
  (forall a, ~ (f <= a < f + FRAME_SIZE) -> m a = pmem p1 a) ->
  pool_ok (with_mem p1 m) /\ sep (with_mem p1 m) (TFrame f :: l) /\ Forall (agrees p (with_mem p1 m)) l.
Proof.
  intros Hp Hs Ha Hm. destruct (alloc_keeps p p1 f m Hp Ha Hm) as (Hk & Hf & Hn & Ho). split; [done|].
  apply (sep_new p); [done|done|done|by intros g ->|done].
Qed.

Lemma sep_free (p : fpool) (f : Z) (l : list tenant) : pool_ok p -> sep p (TFrame f :: l) ->
  pool_ok (free f p) /\ sep (free f p) l /\ Forall (agrees p (free f p)) l.
Proof.
  intros Hp Hs. assert (Hf : frame_addr f) by apply Hs. destruct (free_releases p f Hp Hf) as (Ho & Hm & _ & _ & Hk).
  split; [done|]. apply (sep_drop p _ (TFrame f)); [done|done|]. intros g Hg Hne. split; [by apply Ho|]. intros a _. by rewrite Hm.
Qed.

Lemma destroy_pmem (root : Z) (p : fpool) : pmem (destroy root p) = pmem p.
Proof. by rewrite destroy_frames, free_all_pmem. Qed.

(** What [destroy] gives back is held. *)
Lemma owns_holds (p : fpool) (sh : shape) (root g : Z) : space_ok p sh root -> space_gives p sh g -> holds p sh g.
Proof.
  intros Hok [?|[(i2 & i1 & e & H2 & H1 & Hm & _)|(i2 & i1 & i0 & e & _ & _ & Hi & He & _ & Hg)]]; [by left| |right; eauto 10].
  by rewrite (so_mega _ _ _ (ok_src _ _ _ Hok)) in Hm.
Qed.

Lemma sep_destroy (p : fpool) (root : Z) (sh : shape) (l : list tenant) : sep p (TSpace root sh :: l) ->
  pool_ok (destroy root p) /\ sep (destroy root p) l /\ Forall (agrees p (destroy root p)) l.
Proof.
  intros Hs. pose proof (proj1 Hs) as Hok. cbn in Hok.
  destruct (destroy_owned p sh root (so_wf _ _ _ (ok_src _ _ _ Hok))) as [Hk Ho]. split; [done|].
  apply (sep_drop p _ (TSpace root sh)); [done|done|]. intros g Hg Hn. rewrite destroy_pmem. split; [|done].
  apply Ho. split; [done|]. intros Hso. apply Hn. split; [apply Hg|]. by eapply owns_holds.
Qed.

Lemma copy_win (p p' : fpool) (sh sh' : shape) (root dst i2 i1 i0 e' : Z) : space_ok p sh root -> copy_of p sh p' sh' dst ->
  0 <= i0 < 512 -> page_of p' sh' i2 i1 i0 = Some e' -> has e' W = true -> frame_addr (pte_pa e').
Proof.
  intros Hok Hc Hi He Hw. destruct (co_page _ _ _ _ _ Hc i2 i1 i0 e' Hi He) as (e & (Hp & _) & Hcp).
  unfold has in Hw. rewrite (copied_flags _ _ _ _ W Hcp) in Hw by done. apply (ok_win _ _ _ Hok) in Hp; [|done..].
  destruct Hcp as [_ Hd]. rewrite decide_True in Hd by done. apply Hd.
Qed.

Lemma copy_space_ok (p p' : fpool) (sh sh' : shape) (root dst : Z) : space_ok p sh root -> copy_of p sh p' sh' dst -> space_ok p' sh' dst.
Proof.
  intros Hok Hc. split; [|apply (co_tabs _ _ _ _ _ Hc)|intros i2 i1 i0 e; by apply (copy_win p p' sh sh' root dst)]. split.
  - apply (co_wf _ _ _ _ _ Hc).
  - apply (co_mega _ _ _ _ _ Hc).
  - intros i2 e H2. rewrite (co_giga _ _ _ _ _ Hc) by done. case_decide; [by intros [= <-]|done].
  - rewrite (co_giga _ _ _ _ _ Hc) by lia. by eexists.
  - intros i2 i1 i0 e Hi He Hf. apply (co_own _ _ _ _ _ Hc). right. split; [done|]. right. eauto 10.
Qed.

Lemma sep_copy (p : fpool) (root : Z) (sh : shape) (l : list tenant) : sep p l -> TSpace root sh ∈ l ->
  match deep_copy p root with
  | (Some dst, p') => pool_ok p' /\ exists sh', sep p' (TSpace dst sh' :: l) /\ Forall (agrees p p') l
  | (None, p') => pool_ok p' /\ sep p' l /\ Forall (agrees p p') l
  end.
Proof.
  intros Hs Hin. pose proof (sep_in _ _ _ Hs Hin) as Hok. cbn in Hok. pose proof (deep_copy_spec p sh root (ok_src _ _ _ Hok)) as Hd.
  destruct (deep_copy p root) as [[dst|] p'].
  - destruct Hd as (sh' & Hc & _). pose proof (wf_pool _ _ _ (co_wf _ _ _ _ _ Hc)) as Hp'. split; [done|]. exists sh'.
    apply (sep_new p); [done|done| |intros g [_ Hg]; by apply (co_fresh _ _ _ _ _ Hc)|].
    + by apply (copy_space_ok p p' sh sh' root dst).
    + intros g Hg. split; [apply (co_own _ _ _ _ _ Hc); by left|]. intros a. by apply (co_mem _ _ _ _ _ Hc).
  - destruct Hd as (Hk & Ho & Hm). split; [done|]. apply (sep_same p); [done|done|]. intros g Hg. split; [by apply Ho|].
    intros a. by apply Hm.
Qed.
