(* ===== verification/UserView.v ===== *)
(** * What a payload can read

    The hart's own view of an address space, from the privileged architecture
    and not from the kernel's walk: an Sv39 load in U-mode, with the tables read
    from physical memory. [copy_from_user] is compared with it.

    Not looked at: the accessed bit and bits 54 to 63 of an entry; the kernel
    writes the former in every leaf it makes and zeros in the latter. *)

From S2P Require Import Prelude Hal Frames Mm MmSpec MmWalk Elf ElfProofs CopySpec Owner.

(** ** The hart *)

(** Bits 39 to 63 of an address must equal bit 38. *)
Definition canonical (va : Z) : bool := (Z.shiftr va 38 =? 0) || (Z.shiftr va 38 =? 2 ^ 26 - 1).

(** The walk of a load. An entry that is writable and not readable is reserved,
    an entry with R or X is a leaf, a leaf must be aligned to the page it maps. *)
Fixpoint hart_walk (m : mem) (table va : Z) (levels : list Z) : option Z :=
  match levels with
  | [] => None
  | level :: rest =>
      let e := le_word (load m (table + vpn va level * 8) 8) in
      if negb (has e V) || (has e W && negb (has e R)) then None
      else if has e R || has e X then
        if has e U && has e R && (pte_pa e mod 2 ^ (12 + 9 * level) =? 0)
        then Some (pte_pa e + page_off va level) else None
      else hart_walk m (pte_pa e) va rest
  end.

(** The physical address a payload's load of [va] reads, if it does not fault. *)
Definition hart_load (m : mem) (root va : Z) : option Z :=
  if canonical va then hart_walk m root va [2; 1; 0] else None.

(** The canonical address with the same translated bits. *)
Definition sext39 (va : Z) : Z :=
  if low39 va <? 2 ^ 38 then low39 va else low39 va + (W64 - 2 ^ 39).

Lemma sext39_canonical (va : Z) : canonical (sext39 va) = true.
Proof.
  unfold canonical, sext39. pose proof (Z.mod_pos_bound va (2 ^ 39) eq_refl) as H. fold (low39 va) in H.
  rewrite !Z.shiftr_div_pow2 by lia. change (2 ^ 38) with 274877906944 in *. change (2 ^ 39) with 549755813888 in *.
  change (2 ^ 26 - 1) with 67108863. unfold W64. destruct (_ <? _) eqn:E; zbool; apply orb_true_iff; rewrite !Z.eqb_eq; [left|right];
    Z.to_euclidean_division_equations; lia.
Qed.

Lemma sext39_id (va : Z) : u64_ok va -> canonical va = true -> sext39 va = va.
Proof.
  unfold canonical, sext39, low39, u64_ok. intros Hv H. rewrite !Z.shiftr_div_pow2 in H by lia.
  change (2 ^ 38) with 274877906944 in *. change (2 ^ 39) with 549755813888 in *. change (2 ^ 26 - 1) with 67108863 in H. unfold W64 in *.
  apply orb_true_iff in H as [H|H]; zbool; destruct (_ <? _) eqn:E; zbool; Z.to_euclidean_division_equations; lia.
Qed.

(** The walk looks at nothing but the low 39 bits. *)
Lemma low39_shift (a b n : Z) : 0 <= n <= 30 -> a mod 2 ^ 39 = b mod 2 ^ 39 -> Z.land (Z.shiftr a n) 0x1ff = Z.land (Z.shiftr b n) 0x1ff.
Proof.
  intros Hn H. change 0x1ff with (Z.ones 9). apply Z.bits_inj'. intros i Hi. rewrite !Z.land_spec, !Z.shiftr_spec by done.
  destruct (decide (i < 9)) as [Hl|Hl]; [|by rewrite Z.ones_spec_high, !andb_false_r by lia].
  f_equal. rewrite <- (Z.mod_pow2_bits_low a 39), <- (Z.mod_pow2_bits_low b 39), H by lia. done.
Qed.

Lemma low39_off (a b n : Z) : 0 <= n <= 39 -> a mod 2 ^ 39 = b mod 2 ^ 39 -> Z.land a (Z.ones n) = Z.land b (Z.ones n).
Proof.
  intros Hn H. apply Z.bits_inj'. intros i Hi. rewrite !Z.land_spec.
  destruct (decide (i < n)) as [Hl|Hl]; [|by rewrite Z.ones_spec_high, !andb_false_r by lia].
  f_equal. rewrite <- (Z.mod_pow2_bits_low a 39), <- (Z.mod_pow2_bits_low b 39), H by lia. done.
Qed.

Definition same39 (a b : Z) : Prop := low39 a = low39 b.

Lemma same39_vpn (a b level : Z) : 0 <= level <= 2 -> same39 a b -> vpn a level = vpn b level.
Proof. intros Hl H. apply low39_shift; [lia|exact H]. Qed.

Lemma same39_off (a b level : Z) : 0 <= level <= 2 -> same39 a b -> page_off a level = page_off b level.
Proof.
  intros Hl H. unfold page_off. rewrite Z.shiftl_1_l.
  replace (2 ^ (12 + 9 * level) - 1) with (Z.ones (12 + 9 * level)) by (rewrite Z.ones_equiv; lia). apply low39_off; [lia|exact H].
Qed.

Lemma same39_walk (m : mem) (a b : Z) (levels : list Z) : Forall (fun l => 0 <= l <= 2) levels -> same39 a b ->
  forall table, hart_walk m table a levels = hart_walk m table b levels.
Proof.
  intros Hl H. induction Hl as [|l ls Hl _ IH]; intros table; [done|]. cbn [hart_walk].
  rewrite (same39_vpn a b l Hl H), (same39_off a b l Hl H). by rewrite IH.
Qed.

Lemma sext39_same (va : Z) : same39 (sext39 va) va.
Proof.
  unfold same39, sext39, low39. destruct (_ <? _); [by rewrite Z.mod_mod|].
  change (W64 - 2 ^ 39) with (33554431 * 2 ^ 39). rewrite Z.mod_add by done. by rewrite Z.mod_mod.
Qed.

(** ** The kernel's walk is the hart's *)

Lemma no_perms (e : Z) : has e PERM_MASK = false -> has e R = false /\ has e W = false /\ has e X = false.
Proof.
  unfold has. intros H. apply negb_false_iff, Z.eqb_eq in H.
  assert (Hf : forall f, Z.land PERM_MASK f = f -> negb (Z.land e f =? 0) = false).
  { intros f Hf. apply negb_false_iff, Z.eqb_eq. by rewrite <- Hf, Z.land_assoc, H, Z.land_0_l. }
  split_and!; by apply Hf.
Qed.

Lemma has_both (e f g : Z) : f <> 0 -> g <> 0 -> Z.land (Z.lor f g) f = f -> Z.land (Z.lor f g) g = g ->
  (forall h, h = f \/ h = g -> has e h = true -> Z.land e h = h) ->
  (Z.land e (Z.lor f g) =? Z.lor f g) = has e f && has e g.
Proof.
  intros Hf Hg H1 H2 Hb. destruct (_ =? _) eqn:E; zbool.
  - assert (Z.land e f = f /\ Z.land e g = g) as [Ef Eg].
    { split; [rewrite <- H1 at 1|rewrite <- H2 at 1]; by rewrite Z.land_assoc, E. }
    unfold has. rewrite Ef, Eg. symmetry. apply andb_true_iff. rewrite !negb_true_iff, !Z.eqb_neq. done.
  - symmetry. apply andb_false_iff. destruct (has e f) eqn:Ef; [|by left]. destruct (has e g) eqn:Eg; [|by right]. exfalso. apply E.
    rewrite Z.land_lor_distr_r, (Hb f), (Hb g); auto.
Qed.

(** A single bit that is there is there whole. *)
Lemma bit_whole (e i : Z) : 0 <= i -> has e (2 ^ i) = true -> Z.land e (2 ^ i) = 2 ^ i.
Proof.
  intros Hi H. unfold has in H. apply negb_true_iff, Z.eqb_neq in H. apply Z.bits_inj'. intros n Hn. rewrite Z.land_spec, Z.pow2_bits_eqb by done.
  destruct (i =? n) eqn:E; [zbool; subst n|by rewrite andb_false_r]. rewrite andb_true_r. destruct (Z.testbit e i) eqn:Et; [done|]. exfalso. apply H.
  apply Z.bits_inj'. intros n Hn'. rewrite Z.land_spec, Z.pow2_bits_eqb, Z.bits_0 by done. destruct (i =? n) eqn:E2; [zbool; subst n; by rewrite Et|by rewrite andb_false_r].
Qed.

Lemma has_user_read (e : Z) : (Z.land e (Z.lor U R) =? Z.lor U R) = has e U && has e R.
Proof.
  apply has_both; try done. intros h [-> | ->]; [change U with (2 ^ 4)|change R with (2 ^ 1)]; by apply bit_whole.
Qed.

(** One entry: what the hart does with it, given what the kernel makes of it. *)
Lemma hart_entry (m : mem) (t va level : Z) (rest : list Z) : frame_addr t ->
  hart_walk m t va (level :: rest) =
  let e := read_pte m (slot t (vpn va level)) in
  if negb (has e V) || (has e W && negb (has e R)) then None
  else if has e R || has e X then
    if has e U && has e R && (pte_pa e mod 2 ^ (12 + 9 * level) =? 0) then Some (pte_pa e + page_off va level) else None
  else hart_walk m (pte_pa e) va rest.
Proof. intros Ht. cbn [hart_walk]. by rewrite slot_unfold, <- read_slot by (done || apply vpn_range). Qed.

Lemma hart_table (p : fpool) (sh : shape) (root t t' va level : Z) (k rest : list Z) : space_wf p sh root ->
  sh !! k = Some t -> sh !! (k ++ [vpn va level]) = Some t' ->
  hart_walk (pmem p) t va (level :: rest) = hart_walk (pmem p) t' va rest.
Proof.
  intros Hwf Hk Ht'. rewrite hart_entry by (by eapply wf_frame). cbv zeta.
  destruct (entry_table p sh root t t' (vpn va level) k Hwf Hk Ht') as (HV & HP & Epa). destruct (no_perms _ HP) as (-> & -> & ->).
  by rewrite HV, Epa.
Qed.

(** A 4 KiB entry: the hart's rule is the kernel's. *)
Lemma hart_leaf (e va : Z) (none : option Z) : none = None ->
  (if has e W && negb (has e R) then None
   else if has e R || has e X then
     if has e U && has e R && (pte_pa e mod 2 ^ (12 + 9 * 0) =? 0) then Some (pte_pa e + page_off va 0) else None
   else none) =
  if permits (Z.lor U R) e then Some (pte_pa e + page_off va 0) else None.
Proof.
  intros ->. unfold permits. change (Z.lor U R =? 0) with false. rewrite has_user_read. cbn [orb].
  change (2 ^ (12 + 9 * 0)) with 4096. destruct (pte_pa_page e) as [_ ->]. rewrite Z.eqb_refl.
  destruct (has e PERM_MASK) eqn:HP.
  - destruct (has e U), (has e R), (has e W), (has e X); done.
  - destruct (no_perms e HP) as (-> & -> & ->). done.
Qed.

Lemma hart_agrees (p : fpool) (sh : shape) (root va : Z) : space_ok p sh root ->
  hart_walk (pmem p) root va [2; 1; 0] = translate_checked (pmem p) root va (Z.lor U R).
Proof.
  intros Hok. pose proof (ok_src _ _ _ Hok) as Hs. pose proof (so_wf _ _ _ Hs) as Hwf. pose proof (wf_root _ _ _ Hwf) as Hr.
  pose proof (vpn_range va 2) as H2. pose proof (vpn_range va 1) as H1. rewrite (translate_lookup p sh root va _ Hwf). unfold lookup_pte.
  rewrite (so_mega _ _ _ Hs) by done. destruct (sh !! [vpn va 2]) as [t1|] eqn:E1.
  - unfold giga_of. rewrite Hr, E1. rewrite (hart_table p sh root root t1 va 2 []) by done.
    unfold page_of. destruct (sh !! [vpn va 2; vpn va 1]) as [t0|] eqn:E0.
    + rewrite (hart_table p sh root t1 t0 va 1 [vpn va 2]) by done. rewrite hart_entry by (by eapply wf_frame). cbv zeta.
      unfold valid. destruct (has _ V); cbn [negb orb]; [|done]. by apply hart_leaf.
    + rewrite hart_entry by (by eapply wf_frame). cbv zeta. pose proof (so_mega _ _ _ Hs _ _ H2 H1) as Hm.
      unfold mega_of, valid in Hm. rewrite E1, E0 in Hm. by destruct (has _ V).
  - rewrite hart_entry by (by eapply wf_frame). cbv zeta. unfold giga_of. rewrite Hr, E1. unfold valid.
    set (e := read_pte (pmem p) (slot root (vpn va 2))) in *. destruct (has e V) eqn:HV; cbn [negb orb].
    + assert (Hu : has e U = false) by (apply (so_giga _ _ _ Hs (vpn va 2)); [done|]; unfold giga_of, valid; rewrite Hr, E1; fold e; by rewrite HV).
      assert (HP : has e PERM_MASK = true) by (apply (entry_no_table p sh root root (vpn va 2) []); try done; cbn; lia).
      unfold permits. rewrite Hu, HP. cbn [andb orb]. change (Z.lor U R =? 0) with false.
      destruct (has e R) eqn:HR, (has e X) eqn:HX, (has e W) eqn:HW; try done. exfalso.
      unfold has, PERM_MASK in HR, HX, HW, HP. rewrite negb_false_iff, Z.eqb_eq in HR, HX, HW. by rewrite !Z.land_lor_distr_r, HR, HX, HW in HP.
    + unfold page_of. destruct (sh !! [vpn va 2; vpn va 1]) as [t0|] eqn:E0; [|done].
      destruct (wf_path _ _ _ Hwf [vpn va 2] (vpn va 1)) as ([? ?] & _); [eauto|congruence].
Qed.

(** ** The copy *)

Lemma hart_sext (p : fpool) (sh : shape) (root va : Z) : space_ok p sh root ->
  hart_load (pmem p) root (sext39 va) = translate_checked (pmem p) root va (Z.lor U R).
Proof.
  intros Hok. unfold hart_load. rewrite sext39_canonical, <- (hart_agrees p sh root va Hok).
  apply same39_walk; [by repeat constructor|apply sext39_same].
Qed.

(** C11: [copy_from_user] returns what the payload reads and nothing else. Of
    any address space the kernel keeps, it copies a buffer exactly when, at each
    of its addresses, a load by the payload itself would succeed and read the
    frame pool, and the bytes it returns are the ones those loads read. An
    address the hart would refuse because its upper bits are not a sign extension
    is taken by its low 39 bits, that is for the canonical address
    [sext39] of it; a page outside the pool (the window onto the game data) is
    refused though the payload can read it. *)
Theorem copy_from_user_exact (p : fpool) (sh : shape) (root va len : Z) : space_ok p sh root -> 0 <= len ->
  (is_Some (copy_from_user (pmem p) root va len) <->
   forall j, 0 <= j < len -> exists pa, hart_load (pmem p) root (sext39 (wrap64 (va + j))) = Some pa /\ POOL_BASE <= pa < POOL_END) /\
  (forall bs, copy_from_user (pmem p) root va len = Some bs -> Z.of_nat (length bs) = len /\
     forall j, 0 <= j < len -> exists pa,
       hart_load (pmem p) root (sext39 (wrap64 (va + j))) = Some pa /\ bs !! Z.to_nat j = Some (pmem p pa)) /\
  (forall a, u64_ok a -> canonical a = true -> sext39 a = a).
Proof.
  intros Hok Hl. destruct (copy_from_user_walk (pmem p) root va len Hl) as [[H1 H2] H3].
  assert (Hb : forall j b, walk_byte (pmem p) root va j = Some b <->
    exists pa, hart_load (pmem p) root (sext39 (wrap64 (va + j))) = Some pa /\ POOL_BASE <= pa < POOL_END /\ b = pmem p pa).
  { intros j b. rewrite (hart_sext p sh root _ Hok). unfold walk_byte. destruct (translate_checked _ _ _ _) as [pa|]; [|by split; [|intros (? & ? & _)]].
    destruct (_ && _) eqn:E; [|split; [done|intros (? & [= <-] & Hr & _); apply andb_false_iff in E as [?|?]; zbool; lia]].
    zbool. split; [intros [= <-]; by exists pa|intros (? & [= <-] & _ & ->); done]. }
  split; [|split; [|apply sext39_id]].
  - split; [intros Hc j Hj; destruct (H1 Hc j Hj) as [b Hj']; apply Hb in Hj' as (pa & ? & ? & _); by exists pa|].
    intros Hj. apply H2. intros j Hj'. destruct (Hj j Hj') as (pa & ? & ?). exists (pmem p pa). apply Hb. by exists pa.
  - intros bs E. destruct (H3 bs E) as [Hlen Hbs]. split; [done|]. intros j Hj. specialize (Hbs j Hj).
    destruct (lookup_lt_is_Some_2 bs (Z.to_nat j)) as [b Eb]; [lia|]. rewrite Eb in Hbs. apply Hb in Hbs as (pa & ? & _ & ->). by exists pa.
Qed.

(** ** Instances *)

Lemma demo_space_ok : space_ok demo_space {[ [] := POOL_BASE ]} POOL_BASE.
Proof.
  destruct demo_space_wf as (Hwf & Hg & Hp & Hn). split; [split| |].
  - done.
  - intros. unfold mega_of. by rewrite lookup_singleton_ne.
  - intros i2 e Hi He. destruct (decide (i2 = 2)) as [-> |Hne]; [|by rewrite Hn in He]. rewrite Hg in He. by injection He as <-.
  - by rewrite Hg.
  - intros i2 i1 i0 e Hi He. by rewrite Hp in He.
  - intros i2 i1 i0 e Hi He. by rewrite Hp in He.
  - intros i2 i1 i0 e Hi He. by rewrite Hp in He.
Qed.

(** The demo space with the text image. *)
Definition text_space : fpool := snd (load_elf false text_image POOL_BASE demo_space).

Lemma text_space_ok : exists sh, space_ok text_space sh POOL_BASE.
Proof.
  destruct (load_elf_space text_image POOL_BASE 0x10000 demo_space text_space _ (demo_space_inv wx_page)) as (sh & Hinv & Hk).
  { unfold text_space. rewrite <- text_image_loads. apply surjective_pairing. }
  exists sh. split; [split| |].
  - apply Hinv.
  - apply Hinv.
  - apply Hinv.
  - rewrite (kp_giga _ _ _ _ Hk) by lia. destruct demo_space_wf as (_ & -> & _). done.
  - intros i2 i1 i0 e Hi He _. by apply (li_page _ _ _ _ Hinv) in He as (Ho & _).
  - intros i2 i1 i0 e Hi He. by apply (li_page _ _ _ _ Hinv) in He as (_ & Ho & _).
  - intros i2 i1 i0 e Hi He _. apply (li_page _ _ _ _ Hinv) in He as (Ho & _); [|done]. apply Ho.
Qed.

Lemma text_copied : copy_from_user (pmem text_space) POOL_BASE 0x10000 4 = Some [x7f; x45; x4c; x46].
Proof. vm_compute. reflexivity. Qed.

(** The payload reads the first bytes of its text, and so does the kernel. *)
Lemma copy_from_user_exact_witness : exists pa, hart_load (pmem text_space) POOL_BASE 0x10001 = Some pa /\ pmem text_space pa = x45.
Proof.
  destruct text_space_ok as [sh Hok].
  destruct (copy_from_user_exact text_space sh POOL_BASE 0x10000 4 Hok ltac:(lia)) as (_ & H & _).
  destruct (H _ text_copied) as [_ Hb]. destruct (Hb 1 ltac:(lia)) as (pa & Hpa & Hx). exists pa.
  change (sext39 (wrap64 (0x10000 + 1))) with 0x10001 in Hpa. split; [exact Hpa|]. exact (eq_sym (f_equal (default x00) Hx)).
Defined.

(** What the hart refuses and the kernel copies: an address whose upper bits are
    not a sign extension. *)
Lemma noncanonical_copied :
  hart_load (pmem text_space) POOL_BASE (2 ^ 40 + 0x10000) = None /\
  copy_from_user (pmem text_space) POOL_BASE (2 ^ 40 + 0x10000) 4 = Some [x7f; x45; x4c; x46].
Proof. split; vm_compute; reflexivity. Qed.
