(* ===== verification/Console.v ===== *)
(** * Frame emission (kernel/src/console.rs)

    The fixed-capacity frame buffer, the two JSON escapers and [emit]. The code
    that fills a buffer is a sequence of [write_str] calls whose results are
    either propagated with [?] or dropped with [let _ =]; it is modelled as a
    writer program, run by [exec] against the buffer. [exec_text] relates a
    program to the text it means to write: the frame is sent whole exactly when
    that text fits, and not at all otherwise. *)

From S2P Require Import Prelude.

Definition MAGIC : bytes := [xaa; x99].

(** [buf[..len]] and the poison flag. *)
Record FrameBuf := mkBuf { data : bytes; overflow : bool }.

Definition CAPACITY : nat := 2048.

Definition fb_new : FrameBuf := {| data := []; overflow := false |}.

(** The result is [Ok] as [true]. *)
Definition write_str (s : bytes) (f : FrameBuf) : bool * FrameBuf :=
  if (CAPACITY <? length (data f) + length s)%nat
  then (false, {| data := data f; overflow := true |})
  else (true, {| data := data f ++ s; overflow := overflow f |}).

Definition overflowed (f : FrameBuf) : bool := overflow f.

(** ** Writer programs *)

Inductive wprog :=
  | Put (s : bytes)            (* f.write_str(s) *)
  | Try (a b : wprog)          (* a?; b *)
  | Then (a b : wprog).        (* let _ = a; b *)

Declare Scope wprog_scope.
Delimit Scope wprog_scope with W.
Bind Scope wprog_scope with wprog.
Notation "a +? b" := (Try a b) (at level 66, right associativity) : wprog_scope.
Notation "a +! b" := (Then a b) (at level 66, right associativity) : wprog_scope.

(** [Ok(())]. *)
Definition wok : wprog := Put [].

(** [write!]: the pieces of the format string and its arguments in order,
    stopping at the first that does not fit. *)
Fixpoint fmt (pieces : list bytes) : wprog :=
  match pieces with
  | [] => wok
  | [p] => Put p
  | p :: rest => Try (Put p) (fmt rest)
  end.

Fixpoint exec (w : wprog) (f : FrameBuf) : bool * FrameBuf :=
  match w with
  | Put s => write_str s f
  | Try a b =>
      match exec a f with
      | (true, f1) => exec b f1
      | (false, f1) => (false, f1)
      end
  | Then a b => exec b (snd (exec a f))
  end.

(** The buffer a program leaves behind. *)
Definition build (w : wprog) : FrameBuf := snd (exec w fb_new).

(** The bytes [emit] puts on the serial line. *)
Definition emit (f : FrameBuf) : bytes :=
  if overflow f then []
  else MAGIC ++ le_bytes 4 (wrap32 (Z.of_nat (length (data f)))) ++ data f.

(** ** JSON escaping *)

(** One byte of [write_json_escaped]: the bytes of a multi-byte character are
    above 0x7f and are copied. *)
Definition json_escape_byte (b : byte) : bytes :=
  if beq b x22 then [x5c; x22]
  else if beq b x5c then [x5c; x5c]
  else if beq b x0a then [x5c; x6e]
  else if beq b x0d then [x5c; x72]
  else if beq b x09 then [x5c; x74]
  else if bz b <? 32 then [x5c; x75] ++ hex04 (bz b)
  else [b].

Fixpoint write_json_escaped (s : bytes) : wprog :=
  match s with
  | [] => wok
  | b :: rest => Try (Put (json_escape_byte b)) (write_json_escaped rest)
  end.

Definition json_escape_raw (b : byte) : bytes :=
  if beq b x22 then [x5c; x22]
  else if beq b x5c then [x5c; x5c]
  else if (32 <=? bz b) && (bz b <=? 126) then [b]
  else [x5c; x75] ++ hex04 (bz b).

Fixpoint write_json_escaped_bytes (s : bytes) : wprog :=
  match s with
  | [] => wok
  | b :: rest => Try (Put (json_escape_raw b)) (write_json_escaped_bytes rest)
  end.

(** ** What a program means to write *)

Fixpoint text (w : wprog) : bytes :=
  match w with
  | Put s => s
  | Try a b | Then a b => text a ++ text b
  end.

(** An outbound frame: magic, little-endian length, body. *)
Definition frame_bytes (body : bytes) : bytes :=
  MAGIC ++ le_bytes 4 (Z.of_nat (length body)) ++ body.

(** The buffer either holds everything written so far or is poisoned. *)
Lemma exec_text (w : wprog) (f : FrameBuf) :
  let r := exec w f in
  (overflow f = true -> overflow (snd r) = true) /\
  (length (data (snd r)) <= length (data f) + length (text w))%nat /\
  (overflow f = false ->
     ((length (data f) + length (text w) <= CAPACITY)%nat ->
        r = (true, {| data := data f ++ text w; overflow := false |})) /\
     ((CAPACITY < length (data f) + length (text w))%nat -> overflow (snd r) = true)).
Proof.
  revert f. induction w as [s|a IHa b IHb|a IHa b IHb]; intros f; cbn [exec text].
  - unfold write_str. destruct (_ <? _)%nat eqn:E.
    + apply Nat.ltb_lt in E. cbn. split_and!; [done|lia|]. intros _. split; [lia|done].
    + apply Nat.ltb_ge in E. cbn. rewrite length_app. split_and!; [done|lia|].
      intros Hf. rewrite Hf. split; [done|lia].
  - specialize (IHa f). destruct (exec a f) as [ok f1]. cbn in IHa. destruct IHa as (A1 & A2 & A3).
    specialize (IHb f1). rewrite !length_app.
    destruct ok; [|cbn; split_and!; [done|lia|]; intros Hf; destruct (A3 Hf) as [A4 A5]; split].
    + destruct IHb as (B1 & B2 & B3). split_and!; [auto|lia|]. intros Hf. destruct (A3 Hf) as [A4 A5].
      split; intros Hl.
      * specialize (A4 ltac:(lia)). simplify_eq. cbn in *. rewrite length_app in B3.
        rewrite app_assoc. apply B3; [done|lia].
      * destruct (decide (CAPACITY < length (data f) + length (text a))%nat) as [Hc|Hc]; [auto|].
        specialize (A4 ltac:(lia)). simplify_eq. cbn in *. rewrite length_app in B3.
        apply B3; [done|lia].
    + intros Hl. specialize (A4 ltac:(lia)). done.
    + intros Hl. destruct (decide (CAPACITY < length (data f) + length (text a))%nat) as [Hc|Hc]; [auto|].
      specialize (A4 ltac:(lia)). done.
  - specialize (IHa f). destruct (exec a f) as [ok f1]. cbn in IHa. destruct IHa as (A1 & A2 & A3).
    specialize (IHb f1). rewrite !length_app. cbn.
    destruct IHb as (B1 & B2 & B3). split_and!; [auto|lia|]. intros Hf. destruct (A3 Hf) as [A4 A5].
    split; intros Hl.
    + specialize (A4 ltac:(lia)). simplify_eq. cbn in *. rewrite length_app in B3.
      rewrite app_assoc. apply B3; [done|lia].
    + destruct (decide (CAPACITY < length (data f) + length (text a))%nat) as [Hc|Hc]; [auto|].
      specialize (A4 ltac:(lia)). simplify_eq. cbn in *. rewrite length_app in B3.
      apply B3; [done|lia].
Qed.

Lemma build_fits (w : wprog) :
  (length (text w) <= CAPACITY)%nat -> build w = {| data := text w; overflow := false |}.
Proof.
  intros H. destruct (exec_text w fb_new) as (_ & _ & E). cbn in E.
  destruct (E eq_refl) as [E1 _]. unfold build. by rewrite E1.
Qed.

Lemma build_overflow (w : wprog) :
  overflow (build w) = true <-> (CAPACITY < length (text w))%nat.
Proof.
  destruct (exec_text w fb_new) as (_ & _ & E). cbn in E. destruct (E eq_refl) as [E1 E2].
  split; [|apply E2]. intros H. destruct (decide (CAPACITY < length (text w))%nat) as [Hc|Hc]; [done|].
  unfold build in H. by rewrite E1 in H by lia.
Qed.

Lemma emit_fits (w : wprog) :
  (length (text w) <= CAPACITY)%nat -> emit (build w) = frame_bytes (text w).
Proof.
  intros H. rewrite build_fits by done. unfold emit, frame_bytes, wrap32, W32. cbn [overflow data].
  rewrite Z.mod_small by (unfold CAPACITY in H; lia). done.
Qed.

(** A frame is sent whole or not at all. Whatever mix of propagated and
    dropped write results filled the buffer, [emit] sends the magic, the
    length and exactly the intended text when that text fits the buffer, and
    not a single byte when it does not. *)
Theorem emit_whole_or_nothing (w : wprog) :
  emit (build w) =
  if (length (text w) <=? CAPACITY)%nat then frame_bytes (text w) else [].
Proof.
  destruct (_ <=? _)%nat eqn:E.
  - apply emit_fits. by apply Nat.leb_le.
  - apply Nat.leb_gt in E. apply build_overflow in E. unfold emit. by rewrite E.
Qed.

(** ** Texts of the common writers *)

Lemma fmt_text (l : list bytes) : text (fmt l) = concat l.
Proof.
  induction l as [|p l IH]; [done|]. cbn [fmt]. destruct l as [|q l]; cbn [text concat] in *.
  - by rewrite app_nil_r.
  - by rewrite IH.
Qed.

Lemma escaped_text (s : bytes) : text (write_json_escaped s) = concat (map json_escape_byte s).
Proof. induction s as [|b s IH]; [done|]. cbn [write_json_escaped text map concat]. by rewrite IH. Qed.

Lemma escaped_bytes_text (s : bytes) :
  text (write_json_escaped_bytes s) = concat (map json_escape_raw s).
Proof. induction s as [|b s IH]; [done|]. cbn [write_json_escaped_bytes text map concat]. by rewrite IH. Qed.

(** ** A JSON string reader, to state what the escapers mean *)

Definition unhex (b : byte) : option Z :=
  if is_digit b then Some (bz b - 48)
  else if (97 <=? bz b) && (bz b <=? 102) then Some (bz b - 87) else None.

(** One character of a JSON string and what follows it. Escapes of a single
    byte only. *)
Definition json_char (s : bytes) : option (byte * bytes) :=
  match s with
  | x5c :: x22 :: r => Some (x22, r)
  | x5c :: x5c :: r => Some (x5c, r)
  | x5c :: x6e :: r => Some (x0a, r)
  | x5c :: x72 :: r => Some (x0d, r)
  | x5c :: x74 :: r => Some (x09, r)
  | x5c :: x75 :: h3 :: h2 :: h1 :: h0 :: r =>
      match unhex h3, unhex h2, unhex h1, unhex h0 with
      | Some d3, Some d2, Some d1, Some d0 =>
          let v := ((d3 * 16 + d2) * 16 + d1) * 16 + d0 in
          if v <? 256 then Some (byte.of_Z v, r) else None
      | _, _, _, _ => None
      end
  | x5c :: _ => None
  | b :: r => if bz b <? 32 then None else Some (b, r)
  | [] => None
  end.

(** The content of a JSON string up to its closing quote, and what follows. *)
Fixpoint json_string (fuel : nat) (s : bytes) : option (bytes * bytes) :=
  match fuel with
  | O => None
  | S f =>
      match s with
      | x22 :: r => Some ([], r)
      | _ =>
          match json_char s with
          | None => None
          | Some (b, r) =>
              match json_string f r with
              | Some (c, r') => Some (b :: c, r')
              | None => None
              end
          end
      end
  end.

(** One escaped byte reads back as itself, does not start like a closing
    quote, and is at most six bytes long. *)
Definition escapes_byte (esc : byte -> bytes) (b : byte) : Prop :=
  (length (esc b) <= 6)%nat /\ esc b <> [] /\
  forall r, json_char (esc b ++ r) = Some (b, r) /\ hd_error (esc b ++ r) <> Some x22.

Lemma escape_raw_ok (b : byte) : escapes_byte json_escape_raw b.
Proof.
  destruct b; (split_and!; [vm_compute; lia|discriminate|intros r; split; [reflexivity|discriminate]]).
Qed.

Lemma escape_byte_ok (b : byte) : escapes_byte json_escape_byte b.
Proof.
  destruct b; (split_and!; [vm_compute; lia|discriminate|intros r; split; [reflexivity|discriminate]]).
Qed.

Lemma json_string_unfold (f : nat) (s : bytes) : hd_error s <> Some x22 ->
  json_string (S f) s =
  match json_char s with
  | None => None
  | Some (b, r) => match json_string f r with Some (c, r') => Some (b :: c, r') | None => None end
  end.
Proof. intros H. destruct s as [|b s]; [done|]. cbn [json_string]. by destruct b. Qed.

Lemma json_string_escaped (esc : byte -> bytes) (s r : bytes) :
  (forall b, escapes_byte esc b) ->
  json_string (S (length s)) (concat (map esc s) ++ x22 :: r) = Some (s, r).
Proof.
  intros He. induction s as [|b s IH]; [done|].
  cbn [map concat length]. rewrite <- app_assoc.
  destruct (He b) as (_ & _ & Hb). destruct (Hb (concat (map esc s) ++ x22 :: r)) as [Hc Hq].
  rewrite json_string_unfold by done. by rewrite Hc, IH.
Qed.

Lemma escaped_length (esc : byte -> bytes) (s : bytes) :
  (forall b, escapes_byte esc b) -> (length (concat (map esc s)) <= 6 * length s)%nat.
Proof.
  intros He. induction s as [|b s IH]; [done|]. cbn [map concat length].
  rewrite length_app. destruct (He b) as (Hl & _). lia.
Qed.

Definition printable (b : byte) : Prop := 32 <= bz b <= 126.

Lemma escape_raw_printable (b : byte) : Forall printable (json_escape_raw b).
Proof.
  apply (Forall_impl (fun c => Is_true ((32 <=? bz c) && (bz c <=? 126)))).
  - apply forallb_True. destruct b; exact I.
  - intros c Hc. apply Is_true_true in Hc. unfold printable. lia.
Qed.

(** C34: payload bytes cannot break out of the JSON string they are confined
    to. Whatever the bytes, their escaped form is printable ASCII, a JSON
    reader that follows it stops exactly at the quote the kernel writes after
    it, and what it reads is the original bytes. *)
Theorem escaped_bytes_confined (s r : bytes) :
  Forall printable (text (write_json_escaped_bytes s)) /\
  json_string (S (length s)) (text (write_json_escaped_bytes s) ++ x22 :: r) = Some (s, r) /\
  json_string (S (length s)) (text (write_json_escaped s) ++ x22 :: r) = Some (s, r).
Proof.
  rewrite escaped_bytes_text, escaped_text. split_and!.
  - induction s as [|b s IH]; [constructor|]. cbn [map concat]. apply Forall_app.
    split; [apply escape_raw_printable|done].
  - apply json_string_escaped, escape_raw_ok.
  - apply json_string_escaped, escape_byte_ok.
Qed.
