(* ===== verification/Utf8.v ===== *)
(** * UTF-8 strings

    A [&str] as its bytes: well-formedness, slicing at character boundaries and
    trimming, as Rust's standard library has them. A well-formed text is a
    sequence of characters; cut where a character starts it gives two
    well-formed texts, so that slices and trimmed slices are well formed. *)

From S2P Require Import Prelude.

(** ** Strings *)

Definition in_range (lo hi : Z) (b : byte) : bool := (lo <=? bz b) && (bz b <=? hi).
Definition is_cont (b : byte) : bool := in_range 0x80 0xbf b.

(** [core::str::from_utf8(..).is_ok()]. *)
Fixpoint utf8_valid (s : bytes) : bool :=
  match s with
  | [] => true
  | b0 :: r0 =>
      if bz b0 <? 0x80 then utf8_valid r0 else
      match r0 with
      | [] => false
      | b1 :: r1 =>
          if in_range 0xc2 0xdf b0 then is_cont b1 && utf8_valid r1 else
          match r1 with
          | [] => false
          | b2 :: r2 =>
              if beq b0 xe0 then in_range 0xa0 0xbf b1 && is_cont b2 && utf8_valid r2
              else if beq b0 xed then in_range 0x80 0x9f b1 && is_cont b2 && utf8_valid r2
              else if in_range 0xe1 0xef b0 then is_cont b1 && is_cont b2 && utf8_valid r2
              else
              match r2 with
              | [] => false
              | b3 :: r3 =>
                  if beq b0 xf0 then in_range 0x90 0xbf b1 && is_cont b2 && is_cont b3 && utf8_valid r3
                  else if in_range 0xf1 0xf3 b0 then is_cont b1 && is_cont b2 && is_cont b3 && utf8_valid r3
                  else if beq b0 xf4 then in_range 0x80 0x8f b1 && is_cont b2 && is_cont b3 && utf8_valid r3
                  else false
              end
          end
      end
  end.

(** [str::is_char_boundary] and [str::get(a..b)]. *)
Definition is_char_boundary (s : bytes) (i : nat) : bool :=
  match i with
  | O => true
  | _ => match s !! i with Some b => negb (is_cont b) | None => Nat.eqb i (length s) end
  end.

Definition str_get (s : bytes) (a b : nat) : option bytes :=
  if (a <=? b)%nat && is_char_boundary s a && is_char_boundary s b
  then Some (take (b - a) (drop a s)) else None.

(** The UTF-8 encodings of the characters [char::is_whitespace] accepts. *)
Definition unicode_ws : list bytes :=
  [[x09]; [x0a]; [x0b]; [x0c]; [x0d]; [x20]; [xc2; x85]; [xc2; xa0]; [xe1; x9a; x80];
   [xe2; x80; x80]; [xe2; x80; x81]; [xe2; x80; x82]; [xe2; x80; x83]; [xe2; x80; x84];
   [xe2; x80; x85]; [xe2; x80; x86]; [xe2; x80; x87]; [xe2; x80; x88]; [xe2; x80; x89];
   [xe2; x80; x8a]; [xe2; x80; xa8]; [xe2; x80; xa9]; [xe2; x80; xaf]; [xe2; x81; x9f];
   [xe3; x80; x80]].

(** Drop [p] from the front of [s], if it is there. *)
Fixpoint strip_prefix (p s : bytes) : option bytes :=
  match p, s with
  | [], _ => Some s
  | a :: p', b :: s' => if beq a b then strip_prefix p' s' else None
  | _ :: _, [] => None
  end.

Fixpoint strip_any (ps : list bytes) (s : bytes) : option bytes :=
  match ps with
  | [] => None
  | p :: rest => match strip_prefix p s with Some s' => Some s' | None => strip_any rest s end
  end.

Fixpoint strip_all (fuel : nat) (ps : list bytes) (s : bytes) : bytes :=
  match fuel with
  | O => s
  | S f => match strip_any ps s with Some s' => strip_all f ps s' | None => s end
  end.

Definition trim_start (s : bytes) : bytes := strip_all (length s) unicode_ws s.
Definition trim_end (s : bytes) : bytes :=
  rev (strip_all (length s) (map (@rev byte) unicode_ws) (rev s)).
Definition trim (s : bytes) : bytes := trim_end (trim_start s).

(** ** Characters *)

(** What may follow the first byte of a character of more than one byte: the
    range of the second byte, and how many continuation bytes come behind it. *)
Definition wide_head (b : byte) : option (Z * Z * nat) :=
  if in_range 0xc2 0xdf b then Some (0x80, 0xbf, 0%nat)
  else if beq b xe0 then Some (0xa0, 0xbf, 1%nat)
  else if beq b xed then Some (0x80, 0x9f, 1%nat)
  else if in_range 0xe1 0xef b then Some (0x80, 0xbf, 1%nat)
  else if beq b xf0 then Some (0x90, 0xbf, 2%nat)
  else if in_range 0xf1 0xf3 b then Some (0x80, 0xbf, 2%nat)
  else if beq b xf4 then Some (0x80, 0x8f, 2%nat)
  else None.

(** A character of two to four bytes. *)
Definition is_wide (m : bytes) : bool :=
  match m with
  | b0 :: b1 :: r =>
      match wide_head b0 with
      | Some (lo, hi, n) => in_range lo hi b1 && Nat.eqb (length r) n && forallb is_cont r
      | None => false
      end
  | _ => false
  end.

(** A character. *)
Definition is_char (m : bytes) : bool := match m with [b] => bz b <? 0x80 | _ => is_wide m end.

Lemma ascii_cons (b : byte) (s : bytes) : bz b < 0x80 -> utf8_valid (b :: s) = utf8_valid s.
Proof. intros H. cbn [utf8_valid]. by rewrite (proj2 (Z.ltb_lt _ _) H). Qed.

(** The first byte decides how many belong to it. *)
Lemma wide_cons (b0 : byte) (s : bytes) : 0x80 <= bz b0 ->
  utf8_valid (b0 :: s) =
  match wide_head b0, s with
  | Some (lo, hi, n), b1 :: r => in_range lo hi b1 && Nat.leb n (length r) && forallb is_cont (take n r) && utf8_valid (drop n r)
  | _, _ => false
  end.
Proof.
  intros H. cbn [utf8_valid]. rewrite (proj2 (Z.ltb_ge _ _) H). unfold wide_head.
  destruct s as [|b1 s]; [by repeat case_match|].
  destruct (in_range 0xc2 0xdf b0); [cbn; by rewrite !andb_true_r|].
  assert (Hc : forall b, in_range 0x80 0xbf b = is_cont b) by done.
  destruct s as [|b2 s].
  { repeat case_match; simplify_eq; cbn [length Nat.leb]; rewrite ?andb_false_r; try done. }
  destruct (beq b0 xe0); [cbn; by rewrite !andb_true_r, ?andb_assoc|].
  destruct (beq b0 xed); [cbn; by rewrite !andb_true_r, ?andb_assoc|].
  destruct (in_range 0xe1 0xef b0); [cbn; by rewrite !andb_true_r, ?andb_assoc|].
  destruct s as [|b3 s].
  { repeat case_match; simplify_eq; cbn [length Nat.leb]; rewrite ?andb_false_r; try done. }
  destruct (beq b0 xf0); [cbn; by rewrite !andb_true_r, ?andb_assoc|].
  destruct (in_range 0xf1 0xf3 b0); [cbn; by rewrite !andb_true_r, ?andb_assoc|].
  destruct (beq b0 xf4); [cbn; by rewrite !andb_true_r, ?andb_assoc|done].
Qed.

(** A well-formed text is empty or a character and a well-formed text. *)
Lemma utf8_char (s : bytes) : utf8_valid s = true ->
  s = [] \/ exists m r, s = m ++ r /\ is_char m = true /\ utf8_valid r = true.
Proof.
  destruct s as [|b s]; [by left|]. intros H. right. destruct (decide (bz b < 0x80)) as [Hb|Hb].
  - rewrite ascii_cons in H by done. exists [b], s. split; [done|]. split; [by apply Z.ltb_lt|done].
  - rewrite wide_cons in H by lia. destruct (wide_head b) as [[[lo hi] n]|] eqn:Ew; [|done]. destruct s as [|b1 r]; [done|].
    apply andb_prop in H as [[[H1 H2]%andb_prop H3]%andb_prop H4]. apply Nat.leb_le in H2. exists (b :: b1 :: take n r), (drop n r).
    split; [cbn [app]; by rewrite take_drop|]. split; [|done]. unfold is_char, is_wide. rewrite Ew, H1, length_take, H3.
    by rewrite Nat.min_l, Nat.eqb_refl by done.
Qed.

Lemma char_app (m s : bytes) : is_char m = true -> utf8_valid (m ++ s) = utf8_valid s.
Proof.
  intros H. destruct m as [|b0 [|b1 r]]; [done| |].
  - cbn [is_char] in H. zbool. by apply ascii_cons.
  - cbn [is_char is_wide] in H. destruct (wide_head b0) as [[[lo hi] n]|] eqn:Ew; [|done].
    apply andb_prop in H as [[H1 H2]%andb_prop H3]. apply Nat.eqb_eq in H2. cbn [app]. rewrite wide_cons, Ew, H1.
    + subst n. rewrite take_app_length, H3, drop_app_length. cbn [andb].
      by rewrite (proj2 (Nat.leb_le _ _)) by (rewrite length_app; lia).
    + unfold wide_head, in_range in Ew. repeat case_match; zbool; try lia;
        repeat match goal with H : beq b0 _ = true |- _ => apply beq_eq in H as -> end; done.
Qed.

Lemma char_nonempty (m : bytes) : is_char m = true -> (0 < length m)%nat.
Proof. destruct m; [done|cbn; lia]. Qed.

(** Induction on the characters of a text. *)
Lemma utf8_ind (P : bytes -> Prop) : P [] ->
  (forall m r, is_char m = true -> utf8_valid r = true -> P r -> P (m ++ r)) -> forall s, utf8_valid s = true -> P s.
Proof.
  intros H0 Hs s. remember (length s) as n eqn:En. revert s En. induction n as [n IH] using lt_wf_ind. intros s -> H.
  apply utf8_char in H as [-> |(m & r & -> & Hm & Hr)]; [done|]. apply Hs; [done|done|].
  apply (IH (length r)); [|done|done]. apply char_nonempty in Hm. rewrite length_app. lia.
Qed.

Lemma utf8_app (a b : bytes) : utf8_valid a = true -> utf8_valid b = true -> utf8_valid (a ++ b) = true.
Proof.
  intros Ha Hb. revert a Ha. apply utf8_ind; [done|]. intros m r Hm _ IH. rewrite <- app_assoc. by rewrite char_app.
Qed.

(** ** Cutting *)

(** No character starts at the byte. *)
Definition inside (s : bytes) : bool := match s with b :: _ => is_cont b | [] => false end.

Lemma char_first (b : byte) (m : bytes) : is_char (b :: m) = true -> is_cont b = false.
Proof.
  unfold is_cont, in_range. destruct m as [|b1 m]; cbn [is_char is_wide].
  - intros H. zbool. apply andb_false_iff. left. apply Z.leb_gt. lia.
  - unfold wide_head, in_range. intros H. repeat case_match; zbool; try done; apply andb_false_iff; right; apply Z.leb_gt; try lia;
      repeat match goal with H : beq b _ = true |- _ => apply beq_eq in H as -> end; done.
Qed.

Lemma char_rest (b : byte) (m : bytes) : is_char (b :: m) = true -> Forall (fun c => is_cont c = true) m.
Proof.
  destruct m as [|b1 m]; [constructor|]. cbn [is_char is_wide]. destruct (wide_head b) as [[[lo hi] n]|] eqn:Ew; [|done].
  intros H. apply andb_prop in H as [[H1 _]%andb_prop H3]. constructor.
  - unfold wide_head in Ew. unfold is_cont, in_range in *. repeat case_match; simplify_eq; zbool; apply andb_true_iff; split; apply Z.leb_le; lia.
  - apply Forall_forall. intros c Hc. rewrite forallb_forall in H3. by apply H3, list_elem_of_In.
Qed.

(** Cut where a character starts, both halves are well formed. *)
Lemma utf8_cut (a b : bytes) : utf8_valid (a ++ b) = true -> inside b = false -> utf8_valid a = true /\ utf8_valid b = true.
Proof.
  remember (length a) as n eqn:En. revert a En. induction n as [n IH] using lt_wf_ind. intros a -> H Hb.
  destruct a as [|x a]; [done|]. destruct (utf8_char _ H) as [E|(m & r & E & Hm & Hr)]; [done|].
  destruct m as [|y m]; [done|]. cbn [app] in E. injection E as <- E. apply app_eq_inv in E as [(k & Ea & Er)|(k & Em & Eb)].
  - subst a r. destruct (IH (length k)) with (a := k) as [Hk Hb']; [cbn [length]; rewrite length_app; lia|done|done|done|].
    split; [|done]. change (x :: m ++ k) with ((x :: m) ++ k). by rewrite char_app.
  - subst m b. destruct k as [|c k].
    + rewrite app_nil_r in Hm. split; [|done]. rewrite <- (app_nil_r (x :: a)). by rewrite char_app.
    + apply char_rest in Hm. apply Forall_app in Hm as [_ Hk]. inversion Hk as [|? ? Hc]; subst. cbn in Hb. congruence.
Qed.

Lemma boundary_cut (s : bytes) (i : nat) : utf8_valid s = true -> is_char_boundary s i = true ->
  utf8_valid (take i s) = true /\ utf8_valid (drop i s) = true.
Proof.
  intros Hs Hi. apply utf8_cut; [by rewrite take_drop|]. unfold is_char_boundary in Hi. destruct i as [|i].
  - rewrite drop_0. destruct s as [|b s]; [done|]. cbn [inside]. apply utf8_char in Hs as [?|(m & r & E & Hm & _)]; [done|].
    destruct m as [|c m]; [done|]. injection E as -> _. by apply char_first in Hm.
  - destruct (s !! S i) as [b|] eqn:Eb.
    + rewrite (drop_S _ _ _ Eb). cbn [inside]. by apply negb_true_iff.
    + by rewrite drop_ge by (by apply lookup_ge_None).
Qed.

Lemma str_get_valid (s t : bytes) (a b : nat) : utf8_valid s = true -> str_get s a b = Some t -> utf8_valid t = true.
Proof.
  intros Hs. unfold str_get. destruct (_ && _) eqn:E; [|done]. apply andb_prop in E as [[Hab Ha]%andb_prop Hb]. apply Nat.leb_le in Hab.
  intros [= <-]. rewrite take_drop_commute. replace (a + (b - a))%nat with b by lia.
  destruct (boundary_cut s b Hs Hb) as [Ht _]. apply boundary_cut; [done|]. unfold is_char_boundary in *.
  destruct a as [|a]; [done|]. destruct (decide (S a < b)%nat) as [Hl|Hl].
  - rewrite lookup_take_lt by done. destruct (s !! S a) as [c|] eqn:Ec; [done|].
    rewrite take_ge; [done|]. apply lookup_ge_None in Ec. lia.
  - replace b with (S a) in * by lia. destruct (s !! S a) as [c|] eqn:Ec.
    + rewrite lookup_take_ge by lia. apply Nat.eqb_eq. rewrite length_take. apply lookup_lt_Some in Ec. lia.
    + rewrite lookup_take_ge by lia. apply Nat.eqb_eq in Ha. rewrite length_take, <- Ha. apply Nat.eqb_eq. lia.
Qed.

(** ** Trimming *)

Lemma strip_prefix_app (p s r : bytes) : strip_prefix p s = Some r -> s = p ++ r.
Proof.
  revert s. induction p as [|a p IH]; intros s H; cbn [strip_prefix] in H; [by injection H as ->|].
  destruct s as [|b s]; [done|]. destruct (beq a b) eqn:E; [|done]. apply beq_eq in E as ->. cbn. by rewrite (IH s H).
Qed.

Lemma strip_any_app (ps : list bytes) (s r : bytes) : strip_any ps s = Some r -> exists p, p ∈ ps /\ s = p ++ r.
Proof.
  induction ps as [|p ps IH]; cbn [strip_any]; [done|]. destruct (strip_prefix p s) as [r'|] eqn:E.
  - intros [= ->]. exists p. split; [apply list_elem_of_here|by apply strip_prefix_app].
  - intros H. destruct (IH H) as (q & Hq & Es). exists q. split; [by apply list_elem_of_further|done].
Qed.

Lemma ws_char (p : bytes) : p ∈ unicode_ws -> is_char p = true.
Proof. intros H. assert (HF : Forall (fun p => is_char p = true) unicode_ws) by (by repeat constructor). rewrite Forall_forall in HF. by apply HF. Qed.

Lemma trim_start_valid (s : bytes) : utf8_valid s = true -> utf8_valid (trim_start s) = true.
Proof.
  unfold trim_start. generalize (length s) at 1. intros n. revert s. induction n as [|n IH]; intros s H; cbn [strip_all]; [done|].
  destruct (strip_any unicode_ws s) as [r|] eqn:E; [|done]. apply IH. apply strip_any_app in E as (p & Hp & ->).
  by rewrite char_app in H by (by apply ws_char).
Qed.

Lemma trim_end_valid (s : bytes) : utf8_valid s = true -> utf8_valid (trim_end s) = true.
Proof.
  unfold trim_end. generalize (length s) at 1. intros n. rewrite <- (rev_involutive s) at 1. generalize (rev s). clear s. revert n.
  induction n as [|n IH]; intros s H; cbn [strip_all]; [done|].
  destruct (strip_any _ s) as [r|] eqn:E; [|done]. apply IH. apply strip_any_app in E as (p & Hp & ->).
  apply list_elem_of_fmap in Hp as (q & -> & Hq). rewrite rev_app_distr, rev_involutive in H.
  apply utf8_cut in H as [H _]; [done|]. destruct q as [|b q]; [done|]. cbn [inside]. apply ws_char in Hq. by apply char_first in Hq.
Qed.

Lemma trim_valid (s : bytes) : utf8_valid s = true -> utf8_valid (trim s) = true.
Proof. intros H. by apply trim_end_valid, trim_start_valid. Qed.
