(* ===== verification/Framing.v ===== *)
(** * The host's end of the serial line (harness/framing.py)

    [FrameDecoder], the incremental decoder the host feeds with whatever the
    serial line delivers. Theorems: how the stream is cut into chunks does not
    matter, and a stream of frames with other bytes between them decodes to
    exactly the payloads of the frames. *)

From S2P Require Import Prelude Console.

Definition LEN_BYTES : nat := 4.
Definition MAX_FRAME_LEN : Z := Z.shiftl 1 20.

(** [ValueError] is [None]. *)
Definition encode_frame (payload : bytes) : option bytes :=
  if MAX_FRAME_LEN <? Z.of_nat (length payload) then None
  else Some (MAGIC ++ le_bytes LEN_BYTES (Z.of_nat (length payload)) ++ payload).

Record FrameDecoder := mkDecoder { d_buf : bytes; d_noise : bytes }.
Definition decoder_new : FrameDecoder := mkDecoder [] [].

(** [buf.find(MAGIC)]. *)
Fixpoint find_magic (s : bytes) : option nat :=
  match s with
  | [] => None
  | b :: r =>
      if beq b xaa && bool_decide (hd_error r = Some x99) then Some 0%nat
      else option_map S (find_magic r)
  end.

(** [buf[-1:] == MAGIC[:1]]. *)
Definition ends_half (s : bytes) : bool := bool_decide (last s = Some xaa).

(** One round of [feed]'s loop: go on with another state and the payloads found,
    or return. *)
Inductive round := Again (d : FrameDecoder) (found : list bytes) | Return (d : FrameDecoder).

Definition feed_round (d : FrameDecoder) : round :=
  let buf := d_buf d in
  match find_magic buf with
  | None =>
      let keep := if ends_half buf then 1%nat else 0%nat in
      let cut := (length buf - keep)%nat in
      Return (if (keep <? length buf)%nat then mkDecoder (drop cut buf) (d_noise d ++ take cut buf) else d)
  | Some start =>
      let noise := d_noise d ++ take start buf in
      let buf := drop start buf in
      let header_end := (length MAGIC + LEN_BYTES)%nat in
      if (length buf <? header_end)%nat then Return (mkDecoder buf noise) else
      let len := le_word (take LEN_BYTES (drop (length MAGIC) buf)) in
      if MAX_FRAME_LEN <? len then Again (mkDecoder (drop 1 buf) (noise ++ take 1 buf)) [] else
      let frame_end := (header_end + Z.to_nat len)%nat in
      if (length buf <? frame_end)%nat then Return (mkDecoder buf noise) else
      Again (mkDecoder (drop frame_end buf) noise) [take (Z.to_nat len) (drop header_end buf)]
  end.

(** A round that goes on has consumed a byte, which bounds the rounds. *)
Fixpoint feed_loop (fuel : nat) (d : FrameDecoder) : FrameDecoder * list bytes :=
  match fuel with
  | O => (d, [])
  | S f =>
      match feed_round d with
      | Return d' => (d', [])
      | Again d' found => let '(d2, l) := feed_loop f d' in (d2, found ++ l)
      end
  end.

Definition feed (data : bytes) (d : FrameDecoder) : FrameDecoder * list bytes :=
  let buf := d_buf d ++ data in
  feed_loop (S (length buf)) (mkDecoder buf (d_noise d)).

(** A stream that arrives in chunks. *)
Fixpoint feed_all (chunks : list bytes) (d : FrameDecoder) : FrameDecoder * list bytes :=
  match chunks with
  | [] => (d, [])
  | c :: r => let '(d1, l1) := feed c d in let '(d2, l2) := feed_all r d1 in (d2, l1 ++ l2)
  end.

(** ** Finding the magic *)

Lemma find_magic_app (s r : bytes) (i : nat) : find_magic s = Some i -> find_magic (s ++ r) = Some i.
Proof.
  revert i. induction s as [|b s IH]; intros i H; [done|]. cbn [find_magic app] in *.
  destruct (beq b xaa && bool_decide (hd_error s = Some x99)) eqn:E.
  - apply andb_prop in E as [E1 E2]. apply bool_decide_eq_true in E2. destruct s as [|c s]; [done|]. cbn in E2. cbn [app hd_error].
    by rewrite E1, bool_decide_true.
  - destruct (find_magic s) as [j|] eqn:Ej; [|done]. destruct s as [|c s]; [done|]. cbn [app hd_error] in *. rewrite E.
    by rewrite (IH j eq_refl).
Qed.

Lemma find_magic_bound (s : bytes) (i : nat) : find_magic s = Some i -> (i + 2 <= length s)%nat.
Proof.
  revert i. induction s as [|b s IH]; intros i H; [done|]. cbn [find_magic length] in *.
  destruct (beq b xaa && bool_decide (hd_error s = Some x99)) eqn:E.
  - injection H as <-. apply andb_prop in E as [_ E]. apply bool_decide_eq_true in E. destruct s; [done|]. cbn. lia.
  - destruct (find_magic s) as [j|]; [|done]. injection H as <-. specialize (IH j eq_refl). lia.
Qed.

Lemma find_magic_at (s : bytes) (i : nat) : find_magic s = Some i -> find_magic (drop i s) = Some 0%nat.
Proof.
  revert i. induction s as [|b s IH]; intros i H; [done|]. cbn [find_magic] in H.
  destruct (beq b xaa && bool_decide (hd_error s = Some x99)) eqn:E.
  - injection H as <-. cbn [drop find_magic]. by rewrite E.
  - destruct (find_magic s) as [j|]; [|done]. injection H as <-. by apply IH.
Qed.

(** Behind text without a magic, and none across the border. *)
Lemma find_magic_behind (s r : bytes) : find_magic s = None -> ~ (last s = Some xaa /\ hd_error r = Some x99) ->
  find_magic (s ++ r) = option_map (Nat.add (length s)) (find_magic r).
Proof.
  induction s as [|b s IH]; intros Hn Hh; [cbn; by destruct (find_magic r)|]. cbn [find_magic app length] in *.
  destruct (beq b xaa && bool_decide (hd_error s = Some x99)) eqn:E; [done|]. destruct (find_magic s) eqn:Es; [done|].
  destruct s as [|c s].
  - cbn [app length]. destruct (beq b xaa && bool_decide (hd_error r = Some x99)) eqn:E2; [|by destruct (find_magic r)].
    apply andb_prop in E2 as [E2 E3]. apply beq_eq in E2 as ->. apply bool_decide_eq_true in E3. by destruct Hh.
  - cbn [app hd_error] in *. rewrite E. specialize (IH eq_refl Hh). cbn [app] in IH. rewrite IH. by destruct (find_magic r).
Qed.

Lemma find_magic_none_app (s r : bytes) : find_magic (s ++ r) = None -> find_magic s = None.
Proof. intros H. destruct (find_magic s) as [i|] eqn:E; [|done]. by rewrite (find_magic_app _ r _ E) in H. Qed.

(** ** Chunks do not matter *)

Definition push (r : bytes) (d : FrameDecoder) : FrameDecoder := mkDecoder (d_buf d ++ r) (d_noise d).

(** The half magic at the end, and what is before it. *)
Definition held (s : bytes) : bytes := if ends_half s then [xaa] else [].

Lemma held_split (s : bytes) : exists p, s = p ++ held s /\ (held s = [] -> last s <> Some xaa).
Proof.
  unfold held, ends_half. case_bool_decide as H; [|exists s; by rewrite app_nil_r].
  apply last_Some in H as [p ->]. by exists p.
Qed.

Lemma held_app (p r : bytes) : r <> [] -> held (p ++ r) = held r.
Proof. intros Hr. unfold held, ends_half. rewrite last_app. by destruct (last r) eqn:E; [|apply last_None in E]. Qed.

(** A round that finds no magic keeps only half a one. *)
Lemma round_none (d : FrameDecoder) (p : bytes) : find_magic (d_buf d) = None -> d_buf d = p ++ held (d_buf d) ->
  feed_round d = Return (mkDecoder (held (d_buf d)) (d_noise d ++ p)).
Proof.
  intros Hn Hs. unfold feed_round. rewrite Hn. destruct d as [buf noise]. cbn [d_buf d_noise] in *.
  assert (Hk : length (held buf) = if ends_half buf then 1%nat else 0%nat) by (unfold held; by destruct (ends_half buf)).
  rewrite <- Hk. assert (Hl : length buf = (length p + length (held buf))%nat) by (rewrite Hs at 1; apply length_app).
  assert (Hc : (length buf - length (held buf))%nat = length p) by lia. rewrite Hc. f_equal.
  destruct (_ <? _)%nat eqn:E.
  - rewrite Hs at 1 2. by rewrite drop_app_length, take_app_length.
  - apply Nat.ltb_ge in E. assert (p = []) as -> by (destruct p; [done|cbn in Hl; lia]). cbn in Hs. by rewrite <- Hs, app_nil_r.
Qed.

Lemma round_again_app (r : bytes) (d d' : FrameDecoder) (l : list bytes) : feed_round d = Again d' l -> feed_round (push r d) = Again (push r d') l.
Proof.
  unfold feed_round. cbn [d_buf d_noise push]. destruct (find_magic (d_buf d)) as [i|] eqn:Ei; [|done]. rewrite (find_magic_app _ r _ Ei).
  pose proof (find_magic_bound _ _ Ei) as Hi. rewrite drop_app_le, take_app_le by lia. set (buf := drop i (d_buf d)).
  assert (Hb : (2 <= length buf)%nat) by (unfold buf; rewrite length_drop; lia). cbv zeta.
  destruct (length buf <? _)%nat eqn:E1; [done|]. apply Nat.ltb_ge in E1. change (length MAGIC + LEN_BYTES)%nat with 6%nat in *.
  rewrite (proj2 (Nat.ltb_ge (length (buf ++ r)) 6)) by (rewrite length_app; lia).
  rewrite drop_app_le, take_app_le by (rewrite ?length_drop; unfold LEN_BYTES; cbn; lia).
  destruct (MAX_FRAME_LEN <? _).
  - intros [= <- <-]. unfold push. cbn [d_buf d_noise]. by rewrite drop_app_le, take_app_le by lia.
  - destruct (length buf <? _)%nat eqn:E2; [done|]. apply Nat.ltb_ge in E2. intros [= <- <-].
    rewrite (proj2 (Nat.ltb_ge (length (buf ++ r)) _)) by (rewrite length_app; lia). unfold push. cbn [d_buf d_noise].
    rewrite !drop_app_le, take_app_le by (rewrite ?length_drop; lia). done.
Qed.

(** A round from the state an earlier one returned is the round from before it. *)
Lemma round_found (d : FrameDecoder) (i : nat) : find_magic (d_buf d) = Some i ->
  feed_round d = feed_round (mkDecoder (drop i (d_buf d)) (d_noise d ++ take i (d_buf d))).
Proof.
  intros Hi. unfold feed_round. cbn [d_buf d_noise]. rewrite Hi, (find_magic_at _ _ Hi). cbn [take drop]. by rewrite app_nil_r.
Qed.

Lemma round_behind (noise p r : bytes) : find_magic p = None -> ~ (last p = Some xaa /\ hd_error r = Some x99) ->
  (r = [] -> last p <> Some xaa) -> feed_round (mkDecoder (p ++ r) noise) = feed_round (mkDecoder r (noise ++ p)).
Proof.
  intros Hp Hb Hl. pose proof (find_magic_behind p r Hp Hb) as Hf. destruct (find_magic r) as [j|] eqn:Ej; cbn [option_map] in Hf.
  - rewrite (round_found (mkDecoder (p ++ r) noise) _ Hf), (round_found (mkDecoder r (noise ++ p)) _ Ej). cbn [d_buf d_noise].
    rewrite drop_app_add, take_app_add. by rewrite app_assoc.
  - destruct (held_split r) as (q & Hq & _). rewrite (round_none (mkDecoder r (noise ++ p)) q) by done. cbn [d_buf d_noise].
    destruct r as [|b r].
    + destruct q; [|done]. rewrite (round_none (mkDecoder (p ++ []) noise) p); cbn [d_buf d_noise]; rewrite app_nil_r in *; try done.
      * unfold held, ends_half. rewrite !bool_decide_false by (done || by apply Hl). by rewrite app_nil_r.
      * unfold held, ends_half. rewrite bool_decide_false by (by apply Hl). by rewrite app_nil_r.
    + assert (Hh : held (p ++ b :: r) = held (b :: r)) by (by apply held_app).
      rewrite (round_none (mkDecoder (p ++ b :: r) noise) (p ++ q)); cbn [d_buf d_noise]; rewrite ?Hh; [by rewrite app_assoc|done|].
      rewrite Hq at 1. by rewrite app_assoc.
Qed.

Lemma round_return_app (r : bytes) (d d' : FrameDecoder) : feed_round d = Return d' -> feed_round (push r d) = feed_round (push r d').
Proof.
  intros H. destruct (find_magic (d_buf d)) as [i|] eqn:Ei.
  - assert (Hd : d' = mkDecoder (drop i (d_buf d)) (d_noise d ++ take i (d_buf d))).
    { unfold feed_round in H. rewrite Ei in H. repeat (destruct (_ <? _)%nat in H || destruct (_ <? _) in H); congruence. }
    subst d'. pose proof (find_magic_bound _ _ Ei) as Hi. rewrite (round_found (push r d) i) by (by apply find_magic_app).
    cbn [push d_buf d_noise]. by rewrite drop_app_le, take_app_le by lia.
  - destruct (held_split (d_buf d)) as (p & Hp & Hl). rewrite (round_none d p Ei Hp) in H. injection H as <-. unfold push. cbn [d_buf d_noise].
    assert (Hn : find_magic p = None) by (rewrite Hp in Ei; by apply find_magic_none_app in Ei).
    rewrite Hp at 1. rewrite <- app_assoc. unfold held in *. destruct (ends_half (d_buf d)).
    + apply round_behind; [done|by intros [_ ?]|done].
    + rewrite app_nil_r in Hp. subst p. specialize (Hl eq_refl). apply round_behind; [done|by intros [? _]|done].
Qed.

Lemma round_progress (d d' : FrameDecoder) (l : list bytes) : feed_round d = Again d' l -> (length (d_buf d') < length (d_buf d))%nat.
Proof.
  unfold feed_round. destruct (find_magic (d_buf d)) as [i|] eqn:Ei; [|done]. pose proof (find_magic_bound _ _ Ei) as Hi.
  repeat (destruct (_ <? _)%nat || destruct (_ <? _)); intros [= <- _]; cbn [d_buf]; rewrite !length_drop; cbn; lia.
Qed.

(** The loop with all the fuel it can use. *)
Definition drain (d : FrameDecoder) : FrameDecoder * list bytes := feed_loop (S (length (d_buf d))) d.

Lemma feed_loop_enough (f : nat) (d : FrameDecoder) : (length (d_buf d) < f)%nat -> feed_loop f d = drain d.
Proof.
  unfold drain. remember (length (d_buf d)) as n eqn:Hn. revert f d Hn. induction n as [n IH] using lt_wf_ind. intros f d Hn Hf.
  destruct f as [|f]; [lia|]. cbn [feed_loop]. destruct (feed_round d) as [d' l|d'] eqn:E; [|done].
  apply round_progress in E. rewrite (IH (length (d_buf d')) ltac:(lia) f d' eq_refl ltac:(lia)).
  by rewrite (IH (length (d_buf d')) ltac:(lia) n d' eq_refl ltac:(lia)).
Qed.

Lemma drain_eq (d : FrameDecoder) : drain d =
  match feed_round d with Return d' => (d', []) | Again d' found => let '(d2, l) := drain d' in (d2, found ++ l) end.
Proof.
  unfold drain at 1. cbn [feed_loop]. destruct (feed_round d) as [d' l|d'] eqn:E; [|done]. apply round_progress in E.
  by rewrite feed_loop_enough.
Qed.

Lemma feed_drain (data : bytes) (d : FrameDecoder) : feed data d = drain (push data d).
Proof. done. Qed.

Lemma drain_push (r : bytes) (d : FrameDecoder) :
  drain (push r d) = let '(d1, l1) := drain d in let '(d2, l2) := drain (push r d1) in (d2, l1 ++ l2).
Proof.
  remember (length (d_buf d)) as n eqn:Hn. revert d Hn. induction n as [n IH] using lt_wf_ind. intros d Hn.
  rewrite (drain_eq d). destruct (feed_round d) as [d' l|d'] eqn:E.
  - rewrite (drain_eq (push r d)), (round_again_app r _ _ _ E). apply round_progress in E. rewrite (IH (length (d_buf d')) ltac:(lia) d' eq_refl).
    destruct (drain d') as [d1 l1]. destruct (drain (push r d1)) as [d2 l2]. by rewrite app_assoc.
  - rewrite (drain_eq (push r d)), (round_return_app r _ _ E), <- drain_eq. by destruct (drain (push r d')).
Qed.

Lemma feed_app (a b : bytes) (d : FrameDecoder) :
  feed (a ++ b) d = let '(d1, l1) := feed a d in let '(d2, l2) := feed b d1 in (d2, l1 ++ l2).
Proof.
  rewrite !feed_drain. replace (push (a ++ b) d) with (push b (push a d)) by (unfold push; cbn; by rewrite app_assoc).
  rewrite drain_push. destruct (drain (push a d)) as [d1 l1]. by rewrite feed_drain.
Qed.

(** A decoder with nothing more to find in its buffer. *)
Definition settled (d : FrameDecoder) : Prop := drain d = (d, []).

Lemma drain_settled (d d' : FrameDecoder) (l : list bytes) : drain d = (d', l) -> settled d'.
Proof.
  intros E. pose proof (drain_push [] d) as H. replace (push [] d) with d in H by (destruct d; unfold push; cbn; by rewrite app_nil_r).
  rewrite E in H. replace (push [] d') with d' in H by (destruct d'; unfold push; cbn; by rewrite app_nil_r).
  unfold settled. destruct (drain d') as [d2 l2]. injection H as <- H. f_equal. rewrite <- (app_nil_r l) in H at 1. by apply app_inv_head in H.
Qed.

(** However the stream is cut. *)
Lemma feed_all_concat (chunks : list bytes) (d : FrameDecoder) : settled d -> feed_all chunks d = feed (concat chunks) d.
Proof.
  revert d. induction chunks as [|c chunks IH]; intros d Hd; cbn [feed_all concat].
  - rewrite feed_drain. replace (push [] d) with d by (destruct d; unfold push; cbn; by rewrite app_nil_r). by rewrite Hd.
  - rewrite feed_app. destruct (feed c d) as [d1 l1] eqn:E. rewrite IH; [done|]. rewrite feed_drain in E. by apply drain_settled in E.
Qed.

Lemma settled_new : settled decoder_new.
Proof. reflexivity. Qed.

(** ** A stream of frames and noise *)

Lemma find_magic_quiet (b : bytes) : Forall (fun c => c <> xaa) b -> find_magic b = None.
Proof. induction 1 as [|c b Hc _ IH]; [done|]. cbn [find_magic]. rewrite (proj2 (beq_neq c xaa) Hc), IH. done. Qed.

Lemma feed_noise (b n : bytes) : Forall (fun c => c <> xaa) b -> feed b (mkDecoder [] n) = (mkDecoder [] (n ++ b), []).
Proof.
  intros Hb. rewrite feed_drain, drain_eq. assert (Hh : held b = []).
  { unfold held, ends_half. rewrite bool_decide_false; [done|]. intros Hl. apply last_Some in Hl as [p ->]. apply Forall_app in Hb as [_ Hb].
    by inversion Hb. }
  rewrite (round_none (push b (mkDecoder [] n)) b); cbn [push d_buf d_noise app]; rewrite ?Hh, ?app_nil_r; [done|by apply find_magic_quiet|done].
Qed.

Lemma frame_body (s : bytes) : drop 6 (frame_bytes s) = s.
Proof. unfold frame_bytes. apply (drop_app_length' (MAGIC ++ le_bytes 4 _)). by rewrite length_app, le_bytes_length. Qed.

Lemma frame_length (s : bytes) : length (frame_bytes s) = (6 + length s)%nat.
Proof. unfold frame_bytes. by rewrite !length_app, le_bytes_length. Qed.

Lemma frame_len_field (s : bytes) : Z.of_nat (length s) <= MAX_FRAME_LEN ->
  le_word (take LEN_BYTES (drop (length MAGIC) (frame_bytes s))) = Z.of_nat (length s).
Proof.
  intros Hs. unfold frame_bytes. rewrite drop_app_length, (take_app_length' (le_bytes 4 _)) by (by rewrite le_bytes_length).
  apply le_word_bytes. unfold MAX_FRAME_LEN in Hs. change (Z.shiftl 1 20) with 1048576 in Hs. cbn. lia.
Qed.

Lemma feed_frame (s n : bytes) : Z.of_nat (length s) <= MAX_FRAME_LEN -> feed (frame_bytes s) (mkDecoder [] n) = (mkDecoder [] n, [s]).
Proof.
  intros Hs. rewrite feed_drain, drain_eq. unfold feed_round. cbn [push d_buf d_noise app].
  replace (find_magic (frame_bytes s)) with (Some 0%nat) by reflexivity. change (drop 0 (frame_bytes s)) with (frame_bytes s). change (take 0 (frame_bytes s)) with (@nil byte). rewrite app_nil_r.
  rewrite (frame_len_field s Hs), (frame_length s), Nat2Z.id. change (length MAGIC + LEN_BYTES)%nat with 6%nat.
  rewrite (proj2 (Nat.ltb_ge (6 + length s) 6)), (proj2 (Z.ltb_ge MAX_FRAME_LEN _) Hs), Nat.ltb_irrefl by lia.
  rewrite frame_body, firstn_all, drop_ge by (rewrite frame_length; lia). by rewrite (drain_eq (mkDecoder [] n)).
Qed.

(** The host's encoder writes the kernel's frames, and its decoder reads them. *)
Lemma encode_decode (payload w n : bytes) : encode_frame payload = Some w ->
  w = frame_bytes payload /\ feed w (mkDecoder [] n) = (mkDecoder [] n, [payload]).
Proof.
  unfold encode_frame. destruct (MAX_FRAME_LEN <? _) eqn:E; [done|]. intros [= <-]. zbool. split; [done|]. by apply feed_frame.
Qed.

(** What is sent is a frame if it starts like one. *)
Definition framed (b : bytes) : bool := bool_decide (hd_error b = Some xaa).
Definition frames_of (out : list bytes) : list bytes := map (drop 6) (List.filter framed out).
Definition noise_of (out : list bytes) : bytes := concat (List.filter (fun b => negb (framed b)) out).

Lemma feed_bursts (out : list bytes) (n : bytes) :
  Forall (fun b => Forall (fun c => c <> xaa) b \/ exists s, b = frame_bytes s /\ Z.of_nat (length s) <= MAX_FRAME_LEN) out ->
  feed (concat out) (mkDecoder [] n) = (mkDecoder [] (n ++ noise_of out), frames_of out).
Proof.
  intros H. revert n. induction H as [|b out Hb _ IH]; intros n; cbn [concat].
  - unfold noise_of. cbn. by rewrite app_nil_r.
  - rewrite feed_app. destruct Hb as [Hb|(s & -> & Hs)].
    + assert (Hf : framed b = false).
      { unfold framed. apply bool_decide_eq_false. destruct Hb; [done|]. cbn. congruence. }
      rewrite feed_noise by done. rewrite IH. unfold noise_of, frames_of. cbn [List.filter]. rewrite Hf. cbn [negb concat map app].
      by rewrite app_assoc.
    + rewrite feed_frame by done. rewrite IH. unfold noise_of, frames_of. cbn [List.filter]. replace (framed (frame_bytes s)) with true by done.
      cbn [negb map app]. by rewrite frame_body.
Qed.
