(* ===== verification/JsonDoc.v ===== *)
(** * JSON documents

    The grammar of the frames' bodies, and a recogniser that reads a document
    byte by byte: a pushdown automaton, so that the pieces a frame is written in
    can be checked one after the other. [feeds_document] is its soundness: what
    it accepts is a document of the grammar.

    The grammar is that of RFC 8259 on UTF-8 text, without white space between
    tokens and without fractions and exponents: what it admits is JSON. *)

From S2P Require Import Prelude Utf8.

(** ** The grammar *)

Definition is_hex (b : byte) : bool := is_digit b || ((97 <=? bz b) && (bz b <=? 102)) || ((65 <=? bz b) && (bz b <=? 70)).

(** The byte after a backslash, but for the [u] of a code point. *)
Definition is_escape (b : byte) : bool :=
  existsb (beq b) [x22; x5c; x2f; x62; x66; x6e; x72; x74].

(** A byte that stands for itself in a string. *)
Definition is_plain (b : byte) : bool := in_range 0x20 0x7f b && negb (beq b x22) && negb (beq b x5c).

(** The content of a string. *)
Inductive chars : bytes -> Prop :=
  | chars_nil : chars []
  | chars_plain c b : chars c -> is_plain b = true -> chars (c ++ [b])
  | chars_wide c m : chars c -> is_wide m = true -> chars (c ++ m)
  | chars_escape c b : chars c -> is_escape b = true -> chars (c ++ [x5c; b])
  | chars_point c h : chars c -> length h = 4%nat -> forallb is_hex h = true -> chars (c ++ x5c :: x75 :: h).

Definition words : list bytes := [lit "null"; lit "true"; lit "false"].

(** A natural number: zero, or digits that do not start with one. *)
Definition is_nat (d : bytes) : bool :=
  match d with
  | [] => false
  | b :: r => beq b x30 && bool_decide (r = []) || negb (beq b x30) && forallb is_digit d
  end.

(** A value; the elements of an array and the members of an object so far, each
    with its comma. *)
Inductive value : bytes -> Prop :=
  | value_word w : w ∈ words -> value w
  | value_number d : is_nat d = true -> value d
  | value_negative d : is_nat d = true -> value (x2d :: d)
  | value_string c : chars c -> value (x22 :: c ++ [x22])
  | value_empty_array : value [x5b; x5d]
  | value_array l v : elements l -> value v -> value (x5b :: l ++ v ++ [x5d])
  | value_empty_object : value [x7b; x7d]
  | value_object l k v : members l -> chars k -> value v ->
      value (x7b :: l ++ x22 :: k ++ x22 :: x3a :: v ++ [x7d])
with elements : bytes -> Prop :=
  | elements_nil : elements []
  | elements_more l v : elements l -> value v -> elements (l ++ v ++ [x2c])
with members : bytes -> Prop :=
  | members_nil : members []
  | members_more l k v : members l -> chars k -> value v ->
      members (l ++ x22 :: k ++ x22 :: x3a :: v ++ [x2c]).

(** ** The recogniser *)

Inductive nest := InArr | InObj.

Inductive jstate :=
  | AtValue                        (* a value follows *)
  | AtFirst                        (* the array's first element or its end *)
  | AtMember                       (* the object's first key or its end *)
  | AtKey                          (* a key *)
  | AtColon
  | InString (key : bool)
  | InWide (key : bool) (lo hi : Z) (n : nat) (* a byte of the range, then [n] continuation bytes *)
  | InEscape (key : bool)
  | InPoint (key : bool) (n : nat) (* [n] hexadecimal digits to come *)
  | AtMinus
  | InNumber
  | InWord (rest : bytes)
  | AtEnd.                         (* behind a value *)

Definition config : Type := jstate * list nest.

Definition begin_value (st : list nest) (b : byte) : option config :=
  if beq b x22 then Some (InString false, st)
  else if beq b x5b then Some (AtFirst, InArr :: st)
  else if beq b x7b then Some (AtMember, InObj :: st)
  else if beq b x2d then Some (AtMinus, st)
  else if beq b x30 then Some (AtEnd, st)
  else if is_digit b then Some (InNumber, st)
  else if beq b x6e then Some (InWord (lit "ull"), st)
  else if beq b x74 then Some (InWord (lit "rue"), st)
  else if beq b x66 then Some (InWord (lit "alse"), st)
  else None.

Definition end_value (st : list nest) (b : byte) : option config :=
  match st with
  | InArr :: st' =>
      if beq b x2c then Some (AtValue, st) else if beq b x5d then Some (AtEnd, st') else None
  | InObj :: st' =>
      if beq b x2c then Some (AtKey, st) else if beq b x7d then Some (AtEnd, st') else None
  | [] => None
  end.

Definition jstep (c : config) (b : byte) : option config :=
  let '(q, st) := c in
  match q with
  | AtValue => begin_value st b
  | AtFirst => if beq b x5d then match st with InArr :: st' => Some (AtEnd, st') | _ => None end else begin_value st b
  | AtMember =>
      if beq b x7d then match st with InObj :: st' => Some (AtEnd, st') | _ => None end
      else if beq b x22 then Some (InString true, st) else None
  | AtKey => if beq b x22 then Some (InString true, st) else None
  | AtColon => if beq b x3a then Some (AtValue, st) else None
  | InString key =>
      if beq b x22 then Some (if key then AtColon else AtEnd, st)
      else if beq b x5c then Some (InEscape key, st)
      else if is_plain b then Some (q, st)
      else match wide_head b with Some (lo, hi, n) => Some (InWide key lo hi n, st) | None => None end
  | InWide key lo hi n =>
      if in_range lo hi b then Some (match n with S n' => InWide key 0x80 0xbf n' | O => InString key end, st) else None
  | InEscape key =>
      if beq b x75 then Some (InPoint key 4, st)
      else if is_escape b then Some (InString key, st) else None
  | InPoint key n =>
      if is_hex b then
        match n with
        | S (S n') => Some (InPoint key (S n'), st)
        | S O => Some (InString key, st)
        | O => None
        end
      else None
  | AtMinus => if beq b x30 then Some (AtEnd, st) else if is_digit b then Some (InNumber, st) else None
  | InNumber => if is_digit b then Some (InNumber, st) else end_value st b
  | InWord rest =>
      match rest with
      | [r] => if beq b r then Some (AtEnd, st) else None
      | r :: rest' => if beq b r then Some (InWord rest', st) else None
      | [] => None
      end
  | AtEnd => end_value st b
  end.

Fixpoint scan (c : config) (s : bytes) : option config :=
  match s with
  | [] => Some c
  | b :: r => match jstep c b with Some c' => scan c' r | None => None end
  end.

Definition document (s : bytes) : bool :=
  match scan (AtValue, []) s with Some (AtEnd, []) | Some (InNumber, []) => true | _ => false end.

(** ** Soundness *)

(** A text that ends where a value is due, inside the containers [st]. *)
Inductive opened : list nest -> bytes -> Prop :=
  | opened_top : opened [] []
  | opened_array st p l : opened st p -> elements l -> opened (InArr :: st) (p ++ x5b :: l)
  | opened_object st p l k : opened st p -> members l -> chars k ->
      opened (InObj :: st) (p ++ x7b :: l ++ x22 :: k ++ [x22; x3a]).

(** One that ends where a key is due. *)
Definition at_key (st : list nest) (s : bytes) : Prop :=
  exists st' p l, st = InObj :: st' /\ opened st' p /\ members l /\ s = p ++ x7b :: l.

Definition before (key : bool) : list nest -> bytes -> Prop := if key then at_key else opened.

(** A number that is not zero, and digits behind it. *)
Definition number (v : bytes) : Prop :=
  exists b d, beq b x30 = false /\ forallb is_digit (b :: d) = true /\ (v = b :: d \/ v = x2d :: b :: d).

(** What completes the bytes [h] of a character. *)
Definition completes (h : bytes) (lo hi : Z) (n : nat) : Prop :=
  forall b r, in_range lo hi b = true -> length r = n -> forallb is_cont r = true -> is_wide (h ++ b :: r) = true.

(** What has been read when the recogniser is in a configuration. *)
Definition read (c : config) (s : bytes) : Prop :=
  let '(q, st) := c in
  match q with
  | AtValue => opened st s
  | AtFirst => exists st' p, st = InArr :: st' /\ opened st' p /\ s = p ++ [x5b]
  | AtMember => exists st' p, st = InObj :: st' /\ opened st' p /\ s = p ++ [x7b]
  | AtKey => at_key st s
  | AtColon => exists p k, at_key st p /\ chars k /\ s = p ++ x22 :: k ++ [x22]
  | InString key => exists p c, before key st p /\ chars c /\ s = p ++ x22 :: c
  | InWide key lo hi n => exists p c h, before key st p /\ chars c /\ completes h lo hi n /\ s = p ++ x22 :: c ++ h
  | InEscape key => exists p c, before key st p /\ chars c /\ s = p ++ x22 :: c ++ [x5c]
  | InPoint key n => exists p c h, before key st p /\ chars c /\ (length h + n = 4)%nat /\ forallb is_hex h = true /\
      s = p ++ x22 :: c ++ x5c :: x75 :: h
  | AtMinus => exists p, opened st p /\ s = p ++ [x2d]
  | InNumber => exists p v, opened st p /\ number v /\ s = p ++ v
  | InWord rest => exists p w, opened st p /\ w ++ rest ∈ words /\ s = p ++ w
  | AtEnd => exists p v, opened st p /\ value v /\ s = p ++ v
  end.

(** Split the tests of a step into cases. *)
Ltac jcases H :=
  repeat match type of H with
  | context [if ?x then _ else _] => destruct x eqn:?
  | context [match ?x with _ => _ end] => destruct x eqn:?
  end; simplify_eq.

(** Close an equality of texts. *)
Ltac texts := repeat first [rewrite <- app_assoc | progress cbn [app]]; reflexivity.

Lemma number_value (v : bytes) : number v -> value v.
Proof.
  intros (b & d & H1 & H2 & [-> | ->]); [apply value_number|apply value_negative]; unfold is_nat; by rewrite H1, H2.
Qed.

Lemma head_completes (b : byte) (lo hi : Z) (n : nat) : wide_head b = Some (lo, hi, n) -> completes [b] lo hi n.
Proof. intros H c r Hc Hr Hf. cbn [app is_wide]. by rewrite H, Hc, Hr, Nat.eqb_refl, Hf. Qed.

Lemma completes_more (h : bytes) (lo hi : Z) (n : nat) (b : byte) : completes h lo hi (S n) -> in_range lo hi b = true ->
  completes (h ++ [b]) 0x80 0xbf n.
Proof.
  intros H Hb c r Hc Hr Hf. rewrite <- app_assoc. apply H; [done|by cbn; rewrite Hr|]. cbn [forallb]. by rewrite Hf, andb_true_r.
Qed.

Lemma begin_read (st : list nest) (s : bytes) (b : byte) (c : config) :
  opened st s -> begin_value st b = Some c -> read c (s ++ [b]).
Proof.
  intros Ho E. unfold begin_value in E. jcases E; try match goal with H : beq b _ = true |- _ => apply beq_eq in H as -> end.
  - exists s, []. split_and!; [done|constructor|done].
  - by exists st, s.
  - by exists st, s.
  - by exists s.
  - exists s, [x30]. split_and!; [done|by apply value_number|done].
  - exists s, [b]. split_and!; [done| |done]. exists b, []. split_and!; [done| |by left]. cbn. by rewrite andb_true_r.
  - exists s, [x6e]. split_and!; [done| |done]. apply list_elem_of_here.
  - exists s, [x74]. split_and!; [done| |done]. apply list_elem_of_further, list_elem_of_here.
  - exists s, [x66]. split_and!; [done| |done]. apply list_elem_of_further, list_elem_of_further, list_elem_of_here.
Qed.

Lemma end_read (st : list nest) (p v : bytes) (b : byte) (c : config) :
  opened st p -> value v -> end_value st b = Some c -> read c ((p ++ v) ++ [b]).
Proof.
  intros Ho Hv E. unfold end_value in E. destruct Ho as [|st p l Ho Hl|st p l k Ho Hl Hk]; [done| |];
    jcases E; match goal with H : beq b _ = true |- _ => apply beq_eq in H as -> end; cbn [read].
  - replace (((p ++ x5b :: l) ++ v) ++ [x2c]) with (p ++ x5b :: (l ++ v ++ [x2c])) by texts.
    apply opened_array; [done|]. by apply elements_more.
  - exists p, (x5b :: l ++ v ++ [x5d]). split_and!; [done|by apply value_array|texts].
  - exists st, p, (l ++ x22 :: k ++ x22 :: x3a :: v ++ [x2c]). split_and!; [done|done|by apply members_more|texts].
  - exists p, (x7b :: l ++ x22 :: k ++ x22 :: x3a :: v ++ [x7d]). split_and!; [done|by apply value_object|texts].
Qed.

Lemma string_end_read (key : bool) (st : list nest) (p c : bytes) : before key st p -> chars c ->
  read (if key then AtColon else AtEnd, st) (p ++ x22 :: c ++ [x22]).
Proof.
  intros Hp Hc. destruct key; cbn.
  - by exists p, c.
  - exists p, (x22 :: c ++ [x22]). split_and!; [done|by apply value_string|done].
Qed.

Lemma jstep_read (c c' : config) (s : bytes) (b : byte) : read c s -> jstep c b = Some c' -> read c' (s ++ [b]).
Proof.
  destruct c as [q st]. intros Hr E. destruct q as [| | | | |key|key lo hi n|key|key n| | |rest|]; cbn [read jstep] in Hr, E.
  - by apply begin_read with st.
  - destruct Hr as (st' & p & -> & Ho & ->). destruct (beq b x5d) eqn:Eb.
    + apply beq_eq in Eb as ->. simplify_eq. exists p, [x5b; x5d]. split_and!; [done|apply value_empty_array|texts].
    + apply begin_read with (InArr :: st'); [|done]. apply opened_array; [done|constructor].
  - destruct Hr as (st' & p & -> & Ho & ->). jcases E; match goal with H : beq b _ = true |- _ => apply beq_eq in H as -> end.
    + exists p, [x7b; x7d]. split_and!; [done|apply value_empty_object|texts].
    + exists (p ++ [x7b]), []. split_and!; [|constructor|done]. exists st', p, []. split_and!; [done|done|constructor|done].
  - jcases E. match goal with H : beq b _ = true |- _ => apply beq_eq in H as -> end. exists s, []. split_and!; [done|constructor|done].
  - destruct Hr as (p & k & (st' & p' & l & -> & Ho & Hl & ->) & Hk & ->). jcases E.
    match goal with H : beq b _ = true |- _ => apply beq_eq in H as -> end. cbn [read].
    replace (_ ++ [x3a]) with (p' ++ x7b :: l ++ x22 :: k ++ [x22; x3a]) by texts. by apply opened_object.
  - destruct Hr as (p & c & Hp & Hc & ->). rewrite <- app_assoc. cbn [app]. destruct (beq b x22) eqn:E1; [|destruct (beq b x5c) eqn:E2; [|destruct (is_plain b) eqn:E3; [|destruct (wide_head b) as [[[lo hi] n]|] eqn:E4; [|done]]]]; simplify_eq.
    + apply beq_eq in E1 as ->. by apply string_end_read.
    + apply beq_eq in E2 as ->. by exists p, c.
    + exists p, (c ++ [b]). split_and!; [done|by apply chars_plain|done].
    + exists p, c, [b]. split_and!; [done|done|by apply head_completes|done].
  - destruct Hr as (p & c & h & Hp & Hc & Hh & ->). destruct (in_range lo hi b) eqn:Eb; [|done]. simplify_eq. destruct n as [|n]; cbn [read].
    + exists p, (c ++ h ++ [b]). split_and!; [done| |texts]. apply chars_wide; [done|]. by apply Hh.
    + exists p, c, (h ++ [b]). split_and!; [done|done|by eapply completes_more|texts].
  - destruct Hr as (p & c & Hp & Hc & ->). jcases E; cbn [read].
    + apply beq_eq in Heqb0 as ->. exists p, c, []. split_and!; try done. texts.
    + exists p, (c ++ [x5c; b]). split_and!; [done|by apply chars_escape|texts].
  - destruct Hr as (p & c & h & Hp & Hc & Hl & Hh & ->). jcases E; cbn [read].
    + exists p, (c ++ x5c :: x75 :: h ++ [b]). split_and!; [done| |texts]. apply chars_point; [done|rewrite length_app; cbn; lia|].
      rewrite forallb_app, Hh. cbn. by rewrite Heqb0.
    + exists p, c, (h ++ [b]). split_and!; [done|done|rewrite length_app; cbn; lia| |texts].
      rewrite forallb_app, Hh. cbn. by rewrite Heqb0.
  - destruct Hr as (p & Ho & ->). jcases E.
    + apply beq_eq in Heqb0 as ->. exists p, [x2d; x30]. split_and!; [done|by apply value_negative|texts].
    + exists p, [x2d; b]. split_and!; [done| |texts]. exists b, []. split_and!; [done| |by right]. cbn. by rewrite andb_true_r.
  - destruct Hr as (p & v & Ho & (x & d & Hd & Hf & Hv) & ->). destruct (is_digit b) eqn:Eb.
    + simplify_eq. exists p, (v ++ [b]). split_and!; [done| |texts]. exists x, (d ++ [b]). split_and!; [done| |].
      * rewrite app_comm_cons, forallb_app, Hf. cbn. by rewrite Eb.
      * destruct Hv as [-> | ->]; [by left|by right].
    + apply end_read with st; [done| |done]. apply number_value. by exists x, d.
  - destruct Hr as (p & w & Ho & Hw & ->). destruct rest as [|r [|r' rest]]; [done| |]; destruct (beq b r) eqn:Eb; try done;
      apply beq_eq in Eb as ->; simplify_eq; exists p, (w ++ [r]).
    + split_and!; [done|by apply value_word|texts].
    + split_and!; [done| |texts]. by rewrite <- app_assoc.
  - destruct Hr as (p & v & Ho & Hv & ->). by apply end_read with st.
Qed.

Lemma scan_read (s r : bytes) (c c' : config) : read c s -> scan c r = Some c' -> read c' (s ++ r).
Proof.
  revert s c. induction r as [|b r IH]; intros s c Hc E; cbn [scan] in E.
  - injection E as <-. by rewrite app_nil_r.
  - destruct (jstep c b) as [c1|] eqn:Eb; [|done]. replace (s ++ b :: r) with ((s ++ [b]) ++ r) by texts.
    apply IH with c1; [|done]. by apply jstep_read with c.
Qed.

Lemma feeds_document (s : bytes) : document s = true -> value s.
Proof.
  unfold document. destruct (scan (AtValue, []) s) as [[q st]|] eqn:E; [|done].
  apply (scan_read []) in E; [|constructor]. cbn [app] in E.
  destruct q; try done; destruct st; try done; intros _; destruct E as (p & v & Ho & Hv & ->); inversion Ho; cbn [app];
    [by apply number_value|done].
Qed.

(** A document is UTF-8 text. *)
Scheme value_wf := Minimality for value Sort Prop
  with elements_wf := Minimality for elements Sort Prop
  with members_wf := Minimality for members Sort Prop.
Combined Scheme value_all from value_wf, elements_wf, members_wf.

Lemma utf8_ascii (s : bytes) : forallb (fun b => bz b <? 0x80) s = true -> utf8_valid s = true.
Proof. induction s as [|b s IH]; [done|]. cbn [forallb]. intros [Hb H]%andb_prop. zbool. rewrite ascii_cons by done. by apply IH. Qed.

Lemma chars_utf8 (c : bytes) : chars c -> utf8_valid c = true.
Proof.
  induction 1 as [|c b _ IH Hb|c m _ IH Hm|c b _ IH Hb|c h _ IH Hl Hh]; [done|..]; apply utf8_app; try done.
  - apply utf8_ascii. unfold is_plain, in_range in Hb. cbn. lia.
  - rewrite <- (app_nil_r m), char_app; [done|]. destruct m as [|b0 [|b1 m]]; done.
  - destruct b; done.
  - apply utf8_ascii. cbn [forallb]. eapply forallb_impl; [|exact Hh]. intros b Hb. unfold is_hex, is_digit in Hb. lia.
Qed.

Lemma nat_utf8 (d : bytes) : is_nat d = true -> utf8_valid d = true.
Proof.
  destruct d as [|b d]; [done|]. cbn [is_nat]. intros H. apply orb_prop in H as [[Hb Hd]%andb_prop|[_ Hd]%andb_prop].
  - apply beq_eq in Hb as ->. by apply bool_decide_eq_true in Hd as ->.
  - apply utf8_ascii. eapply forallb_impl; [|exact Hd]. intros c Hc. unfold is_digit in Hc. lia.
Qed.

Lemma value_utf8 (s : bytes) : value s -> utf8_valid s = true.
Proof.
  revert s. pose (P := fun s => utf8_valid s = true). refine (proj1 (value_all P P P _ _ _ _ _ _ _ _ _ _ _ _)); unfold P; clear P.
  - intros w Hw. assert (HF : Forall (fun w => utf8_valid w = true) words) by (by repeat constructor). rewrite Forall_forall in HF. by apply HF.
  - apply nat_utf8.
  - apply nat_utf8.
  - intros c Hc. rewrite ascii_cons by done. apply utf8_app; [by apply chars_utf8|done].
  - done.
  - intros l v _ Hl _ Hv. rewrite ascii_cons by done. apply utf8_app; [done|]. by apply utf8_app.
  - done.
  - intros l k v _ Hl Hk _ Hv. rewrite ascii_cons by done. apply utf8_app; [done|]. rewrite ascii_cons by done.
    apply utf8_app; [by apply chars_utf8|]. rewrite !ascii_cons by done. by apply utf8_app.
  - done.
  - intros l v _ Hl _ Hv. apply utf8_app; [done|]. by apply utf8_app.
  - done.
  - intros l k v _ Hl Hk _ Hv. apply utf8_app; [done|]. rewrite ascii_cons by done. apply utf8_app; [by apply chars_utf8|].
    rewrite !ascii_cons by done. by apply utf8_app.
Qed.
