(* ===== verification/JsonText.v ===== *)
(** * The pieces of a document

    What the kernel's formatting primitives (numbers, hexadecimal, escaped
    bytes, literals) do to the recogniser of [JsonDoc], and the tactic that
    checks a writer program piece by piece. *)

From S2P Require Import Prelude Utf8 Console JsonDoc.

(** A number has no end of its own: read behind one, the recogniser takes
    whatever it takes behind a value. *)
Inductive closes : config -> config -> Prop :=
  | closes_same c : closes c c
  | closes_number st : closes (InNumber, st) (AtEnd, st).

(** The text [s] leads from [c] to [c']. *)
Definition feeds (c : config) (s : bytes) (c' : config) : Prop := exists c1, scan c s = Some c1 /\ closes c1 c'.

(** A writer program whose text is a document. *)
Definition doc (w : wprog) : Prop := feeds (AtValue, []) (text w) (AtEnd, []).

Lemma doc_value (w : wprog) : doc w -> value (text w).
Proof. intros (c & Hs & Hc). apply feeds_document. unfold document. rewrite Hs. by inversion Hc. Qed.

(** ** Composition *)

Lemma feeds_scan (c c' : config) (s : bytes) : scan c s = Some c' -> feeds c s c'.
Proof. intros H. exists c'. split; [done|constructor]. Qed.

Lemma feeds_number (c : config) (st : list nest) (s : bytes) : scan c s = Some (InNumber, st) -> feeds c s (AtEnd, st).
Proof. intros H. exists (InNumber, st). split; [done|constructor]. Qed.

Lemma feeds_nil (c : config) : feeds c [] c.
Proof. by apply feeds_scan. Qed.

Lemma feeds_wok (c : config) : feeds c (text wok) c.
Proof. by apply feeds_scan. Qed.

Lemma feeds_cons (c c1 c2 : config) (b : byte) (s : bytes) : jstep c b = Some c1 -> feeds c1 s c2 -> feeds c (b :: s) c2.
Proof. intros E (c' & H & Hc). exists c'. split; [|done]. cbn [scan]. by rewrite E. Qed.

Lemma scan_app (c : config) (a b : bytes) : scan c (a ++ b) = scan c a ≫= fun c1 => scan c1 b.
Proof. revert c. induction a as [|x a IH]; intros c; cbn [app scan]; [done|]. destruct (jstep c x); [apply IH|done]. Qed.

(** The end of a value is no digit. *)
Lemma closes_step (c c1 c2 : config) (b : byte) : closes c c1 -> jstep c1 b = Some c2 -> jstep c b = Some c2.
Proof.
  intros [c0|st] H; [done|]. cbn [jstep] in H |- *. destruct (is_digit b) eqn:Eb; [|done]. exfalso. unfold end_value in H.
  destruct st as [|[] st]; [done| |]; destruct b; done.
Qed.

Lemma closes_scan (c c1 c2 : config) (s : bytes) : closes c c1 -> scan c1 s = Some c2 -> exists c3, scan c s = Some c3 /\ closes c3 c2.
Proof.
  intros Hc H. destruct s as [|b s]; cbn [scan] in *; [simplify_eq; by exists c|].
  destruct (jstep c1 b) as [c'|] eqn:E; [|done]. rewrite (closes_step _ _ _ _ Hc E). exists c2. split; [done|constructor].
Qed.

Lemma closes_trans (c1 c2 c3 : config) : closes c1 c2 -> closes c2 c3 -> closes c1 c3.
Proof. intros H1 H2. inversion H2; subst; [done|]. inversion H1; subst. constructor. Qed.

Lemma feeds_app (c c1 c2 : config) (a b : bytes) : feeds c a c1 -> feeds c1 b c2 -> feeds c (a ++ b) c2.
Proof.
  intros (c' & Ha & Hc) (c'' & Hb & Hc'). destruct (closes_scan _ _ _ _ Hc Hb) as (c3 & H3 & Hc3). exists c3.
  split; [by rewrite scan_app, Ha|by apply closes_trans with c''].
Qed.

(** Text that leaves the recogniser where it is. *)
Lemma feeds_stay (c : config) (s : bytes) : Forall (fun b => jstep c b = Some c) s -> feeds c s c.
Proof. induction 1 as [|b s Hb _ IH]; [apply feeds_nil|]. by apply feeds_cons with c. Qed.

(** ** Numbers *)

Definition starting (q : jstate) : Prop := q = AtValue \/ q = AtFirst.

Lemma starting_value : starting AtValue.
Proof. by left. Qed.
Lemma starting_first : starting AtFirst.
Proof. by right. Qed.

Lemma scan_digits (st : list nest) (d : bytes) : forallb is_digit d = true -> scan (InNumber, st) d = Some (InNumber, st).
Proof. induction d as [|b d IH]; [done|]. cbn [forallb scan jstep]. intros [-> H]%andb_prop. by apply IH. Qed.

Lemma feeds_nat (q : jstate) (st : list nest) (d : bytes) : starting q \/ q = AtMinus -> is_nat d = true -> feeds (q, st) d (AtEnd, st).
Proof.
  intros Hq Hd. destruct d as [|b d]; [done|]. cbn [is_nat] in Hd. apply orb_prop in Hd as [[Hb Hd]%andb_prop|[Hb Hd]%andb_prop].
  - apply beq_eq in Hb as ->. apply bool_decide_eq_true in Hd as ->. apply feeds_scan. by destruct Hq as [[-> | ->]| ->].
  - apply negb_true_iff in Hb. cbn [forallb] in Hd. apply andb_prop in Hd as [Hb' Hd]. apply feeds_number. cbn [scan].
    replace (jstep (q, st) b) with (Some (InNumber, st)); [by apply scan_digits|].
    destruct Hq as [[-> | ->]| ->]; destruct b; done.
Qed.

Lemma feeds_negative (q : jstate) (st : list nest) (d : bytes) : starting q -> is_nat d = true -> feeds (q, st) (x2d :: d) (AtEnd, st).
Proof. intros [-> | ->] Hd; (eapply feeds_cons; [reflexivity|]); apply feeds_nat; [by right|done|by right|done]. Qed.

(** The kernel's numbers have no leading zero. *)
Lemma digits_nat (f : nat) (n : Z) (acc : bytes) : 0 < n -> forallb is_digit acc = true -> f <> O ->
  n < 10 ^ Z.of_nat f -> is_nat (digits f 10 n acc) = true.
Proof.
  revert n acc. induction f as [|f IH]; intros n acc Hn Ha Hf Hb; [done|]. cbn [digits]. rewrite Nat2Z.inj_succ, Z.pow_succ_r in Hb by lia.
  assert (Hr : 0 <= n mod 10 < 10) by (apply Z.mod_pos_bound; lia).
  assert (Hd : forallb is_digit (digit (n mod 10) :: acc) = true).
  { cbn [forallb]. rewrite Ha. unfold is_digit. rewrite bz_digit by lia. lia. }
  destruct (n / 10 =? 0) eqn:E.
  - zbool. cbn [is_nat]. rewrite Hd, andb_true_r. apply orb_true_iff. right. apply negb_true_iff.
    destruct (beq (digit (n mod 10)) x30) eqn:Eb; [|done]. apply beq_eq in Eb.
    assert (H0 : bz (digit (n mod 10)) = 48) by (by rewrite Eb). rewrite bz_digit in H0 by lia. pose proof (Z.div_mod n 10 ltac:(lia)). lia.
  - zbool. assert (0 <= n / 10) by (apply Z.div_pos; lia). assert (n / 10 < 10 ^ Z.of_nat f) by (apply Z.div_lt_upper_bound; lia).
    apply IH; [lia|done| |done]. intros ->. cbn in *. lia.
Qed.

Lemma dec_nat (n : Z) : is_nat (dec n) = true.
Proof.
  unfold dec. pose proof (wrap64_range n) as [H0 Hn]. generalize dependent (wrap64 n). clear n. intros n H0 Hn.
  destruct (decide (n = 0)) as [->|]; [reflexivity|]. apply digits_nat; [lia|reflexivity|discriminate|]. unfold W64 in Hn. lia.
Qed.

Lemma feeds_dec (q : jstate) (st : list nest) (n : Z) : starting q -> feeds (q, st) (dec n) (AtEnd, st).
Proof. intros Hq. apply feeds_nat; [by left|apply dec_nat]. Qed.

Lemma feeds_dec_i (q : jstate) (st : list nest) (n : Z) : starting q -> feeds (q, st) (dec_i n) (AtEnd, st).
Proof.
  intros Hq. unfold dec_i. destruct (n <? 0); [|by apply feeds_dec]. apply (feeds_negative _ _ (dec (- n))); [done|apply dec_nat].
Qed.

Lemma feeds_bool (st : list nest) (b : bool) : feeds (AtValue, st) (dec_bool b) (AtEnd, st).
Proof. by apply feeds_scan; destruct b. Qed.

(** ** Inside strings *)

Lemma jstep_plain (k : bool) (st : list nest) (b : byte) : is_plain b = true -> jstep (InString k, st) b = Some (InString k, st).
Proof.
  intros H. cbn [jstep]. rewrite H. unfold is_plain in H. apply andb_prop in H as [[_ H1]%andb_prop H2].
  apply negb_true_iff in H1, H2. by rewrite H1, H2.
Qed.

Definition all_plain (s : bytes) : bool := forallb is_plain s.

Lemma feeds_plain (k : bool) (st : list nest) (s : bytes) : all_plain s = true -> feeds (InString k, st) s (InString k, st).
Proof.
  intros H. apply feeds_stay, Forall_forall. intros b Hb. apply jstep_plain. unfold all_plain in H. rewrite forallb_forall in H.
  apply H. by apply list_elem_of_In.
Qed.

Lemma hex_plain (n : Z) : all_plain (hex n) = true.
Proof.
  apply forallb_forall. intros b Hb. revert b Hb. apply List.Forall_forall. apply digits_forall; [lia| |constructor].
  intros d Hd. assert (d ∈ seqZ 0 16) as H by (apply elem_of_seqZ; lia). clear Hd. revert d H. apply Forall_forall. by repeat constructor.
Qed.

Lemma feeds_hex (k : bool) (st : list nest) (n : Z) : feeds (InString k, st) (hex n) (InString k, st).
Proof. apply feeds_plain, hex_plain. Qed.

Lemma feeds_concat (c : config) (f : byte -> bytes) (s : bytes) : (forall b, feeds c (f b) c) -> feeds c (concat (map f s)) c.
Proof. intros H. induction s as [|b s IH]; [apply feeds_nil|]. cbn [map concat]. by apply feeds_app with c. Qed.

Lemma feeds_escaped_bytes (k : bool) (st : list nest) (s : bytes) :
  feeds (InString k, st) (text (write_json_escaped_bytes s)) (InString k, st).
Proof. rewrite escaped_bytes_text. apply feeds_concat. intros b. apply feeds_scan. destruct b, k; reflexivity. Qed.

(** A byte that is not ASCII is written as it is. *)
Lemma escape_high (b : byte) : 0x80 <= bz b -> json_escape_byte b = [b].
Proof. destruct b; done. Qed.

Lemma scan_conts (k : bool) (st : list nest) (r : bytes) (n : nat) (lo hi : Z) (b : byte) :
  in_range lo hi b = true -> length r = n -> forallb is_cont r = true ->
  scan (InWide k lo hi n, st) (b :: r) = Some (InString k, st).
Proof.
  revert n lo hi b. induction r as [|c r IH]; intros n lo hi b Hb <- Hr; cbn [scan jstep length]; rewrite Hb; [done|].
  cbn [forallb] in Hr. apply andb_prop in Hr as [Hc Hr]. by apply (IH _ 0x80 0xbf c).
Qed.

Lemma wide_high (b : byte) : wide_head b <> None -> 0x80 <= bz b /\ beq b x22 = false /\ beq b x5c = false /\ is_plain b = false.
Proof. destruct b; done. Qed.

Lemma scan_wide (k : bool) (st : list nest) (m : bytes) : is_wide m = true -> scan (InString k, st) m = Some (InString k, st).
Proof.
  destruct m as [|b0 [|b1 r]]; [done|done|]. cbn [is_wide]. destruct (wide_head b0) as [[[lo hi] n]|] eqn:Ew; [|done].
  intros [[H1 H2]%andb_prop H3]%andb_prop. apply Nat.eqb_eq in H2. destruct (wide_high b0) as (_ & E1 & E2 & E3); [by rewrite Ew|].
  cbn [scan jstep]. rewrite E1, E2, E3, Ew. by apply (scan_conts k st r n lo hi b1).
Qed.

Lemma wide_escaped (m : bytes) : is_wide m = true -> concat (map json_escape_byte m) = m.
Proof.
  intros H. assert (Hm : Forall (fun b => 0x80 <= bz b) m).
  { destruct m as [|b m]; [done|]. constructor.
    - destruct m as [|b1 r]; [done|]. cbn [is_wide] in H. destruct (wide_head b) eqn:Ew; [|done]. apply wide_high. by rewrite Ew.
    - assert (Hc : is_char (b :: m) = true) by (by destruct m). apply char_rest in Hc. eapply Forall_impl; [exact Hc|].
      intros c H1. unfold is_cont, in_range in H1. cbn beta in H1. zbool. lia. }
  clear H. induction Hm as [|b m Hb _ IH]; [done|]. cbn [map concat]. by rewrite IH, escape_high.
Qed.

(** A Rust string behind the escaper is the content of a JSON string. *)
Lemma feeds_escaped (k : bool) (st : list nest) (s : bytes) : utf8_valid s = true ->
  feeds (InString k, st) (text (write_json_escaped s)) (InString k, st).
Proof.
  rewrite escaped_text. revert s. apply utf8_ind; [apply feeds_nil|]. intros m r Hm _ IH. rewrite map_app, concat_app.
  apply feeds_app with (InString k, st); [|done]. destruct m as [|b [|b1 m]]; [done| |].
  - cbn [map concat]. rewrite app_nil_r. apply feeds_scan. destruct b; try done; destruct k; reflexivity.
  - rewrite wide_escaped by done. by apply feeds_scan, scan_wide.
Qed.

(** ** Lists *)

(** An item of a list is a value behind its comma, if it is not the first. *)
Definition item (first : bool) (v : bytes) : bytes := if first then v else x2c :: v.

(** The first of a list of items, and those behind it. *)
Fixpoint items (first : bool) (l : list bytes) : bytes :=
  match l with [] => [] | v :: r => item first v ++ items false r end.

Definition element (v : bytes) : Prop := forall q st, starting q -> feeds (q, st) v (AtEnd, st).

Lemma feeds_items_more (st : list nest) (l : list bytes) : Forall element l ->
  feeds (AtEnd, InArr :: st) (items false l) (AtEnd, InArr :: st).
Proof.
  induction 1 as [|v l Hv Hl IH]; [apply feeds_nil|]. cbn [items item app]. apply feeds_cons with (AtValue, InArr :: st); [done|].
  apply feeds_app with (AtEnd, InArr :: st); [by apply Hv, starting_value|done].
Qed.

(** A list behind its bracket, and whatever follows an end of it. *)
Lemma feeds_items (st : list nest) (l : list bytes) (r : bytes) (c : config) : Forall element l ->
  (forall q, q = AtFirst \/ q = AtEnd -> feeds (q, InArr :: st) r c) -> feeds (AtFirst, InArr :: st) (items true l ++ r) c.
Proof.
  intros Hl Hr. destruct Hl as [|v l Hv Hl]; [apply Hr; by left|]. cbn [items item]. rewrite <- app_assoc.
  eapply feeds_app; [apply Hv, starting_first|]. eapply feeds_app; [by apply feeds_items_more|]. apply Hr. by right.
Qed.

(** ** Automation *)

Create HintDb json discriminated.
#[export] Hint Constants Opaque : json.
#[export] Hint Variables Opaque : json.
#[export] Hint Resolve feeds_nil feeds_wok feeds_dec feeds_dec_i feeds_bool feeds_hex feeds_escaped feeds_escaped_bytes starting_value starting_first : json.

(** One piece: a literal, a primitive, a writer already proved, a plain string. *)
Ltac literal := vm_compute; reflexivity.
Ltac plain :=
  lazymatch goal with
  | |- all_plain (lit _) = true => literal
  | _ => first [assumption | solve [eauto with json]]
  end.
Ltac piece :=
  lazymatch goal with
  | |- feeds _ (js _) _ => apply feeds_scan; literal
  | |- feeds (InString _, _) (lit _) _ => apply feeds_plain; literal
  | |- feeds _ (lit _) _ => apply feeds_scan; literal
  | _ => first [solve [eauto with json] | apply feeds_plain; plain]
  end.

(** The text of a program as its pieces. *)
Ltac pieces := cbn [text]; rewrite ?fmt_text; cbn [concat]; rewrite <- ?app_assoc.

Ltac feed_go :=
  repeat first
    [ apply feeds_nil
    | match goal with |- feeds _ (_ ++ _) _ => eapply feeds_app; [solve [piece]|] end
    | piece ].

Ltac doc_go := unfold doc; pieces; feed_go.
