(* ===== verification/RpcJson.v ===== *)
(** * The structural JSON reader and the opId window (kernel/src/rpc.rs)

    The byte-index walkers of the control plane's request reader, the slices
    they cut out of the request string, and the eight-slot memory of client
    operation ids. A [&str] is its UTF-8 bytes; slicing fails off a character
    boundary, as [str::get] does. The loops carry the length of the text as
    fuel: every round advances the index. *)

From S2P Require Import Prelude Utf8 Console.

(** ** The walkers *)

Definition is_ws (b : byte) : bool := beq b x20 || beq b x09 || beq b x0a || beq b x0d.

Fixpoint skip_ws_loop (fuel : nat) (s : bytes) (i : nat) : nat :=
  match fuel with
  | O => i
  | S f =>
      match s !! i with
      | Some b => if is_ws b then skip_ws_loop f s (i + 1) else i
      | None => i
      end
  end.
Definition skip_ws (s : bytes) (i : nat) : nat := skip_ws_loop (length s) s i.

Fixpoint skip_string_loop (fuel : nat) (s : bytes) (j : nat) : nat :=
  match fuel with
  | O => length s
  | S f =>
      match s !! j with
      | None => length s
      | Some b =>
          if beq b x5c then skip_string_loop f s (j + 2)
          else if beq b x22 then (j + 1)%nat
          else skip_string_loop f s (j + 1)
      end
  end.
Definition skip_string (s : bytes) (i : nat) : nat := skip_string_loop (length s) s (i + 1).

Definition is_open (b : byte) : bool := beq b x7b || beq b x5b.
Definition is_close (b : byte) : bool := beq b x7d || beq b x5d.

(** [depth] is an [i32]; a request has at most 512 bytes, so it cannot wrap. *)
Fixpoint skip_container_loop (fuel : nat) (s : bytes) (depth : Z) (j : nat) : nat :=
  match fuel with
  | O => length s
  | S f =>
      match s !! j with
      | None => length s
      | Some b =>
          if beq b x22 then skip_container_loop f s depth (skip_string s j)
          else if is_open b then skip_container_loop f s (depth + 1) (j + 1)
          else if is_close b then
            if depth - 1 =? 0 then (j + 1)%nat else skip_container_loop f s (depth - 1) (j + 1)
          else skip_container_loop f s depth (j + 1)
      end
  end.
Definition skip_container (s : bytes) (i : nat) : nat := skip_container_loop (length s) s 0 i.

Definition is_structural (b : byte) : bool := beq b x2c || beq b x7d || beq b x5d.

(** The scalar branch: to the next structural byte. *)
Fixpoint skip_scalar (fuel : nat) (s : bytes) (j : nat) : nat :=
  match fuel with
  | O => j
  | S f =>
      match s !! j with
      | Some b => if is_structural b then j else skip_scalar f s (j + 1)
      | None => j
      end
  end.

Definition skip_value (s : bytes) (i0 : nat) : nat :=
  let i := skip_ws s i0 in
  match s !! i with
  | None => length s
  | Some b =>
      if beq b x22 then skip_string s i
      else if is_open b then skip_container s i
      else skip_scalar (length s) s i
  end.

(** The loop of [object_get] over the members, from index [i]. *)
Fixpoint member_loop (fuel : nat) (obj key : bytes) (i0 : nat) : option bytes :=
  match fuel with
  | O => None
  | S f =>
      let i := skip_ws obj i0 in
      if negb (bool_decide (obj !! i = Some x22)) then None else
      let key_end := skip_string obj i in
      match str_get obj (i + 1) (key_end - 1) with
      | None => None
      | Some this_key =>
          let i := skip_ws obj key_end in
          if negb (bool_decide (obj !! i = Some x3a)) then None else
          let val_start := skip_ws obj (i + 1) in
          let val_end := skip_value obj val_start in
          if bool_decide (this_key = key) then option_map trim (str_get obj val_start val_end)
          else
            let i := skip_ws obj val_end in
            if bool_decide (obj !! i = Some x2c) then member_loop f obj key (i + 1) else None
      end
  end.

Definition object_get (obj key : bytes) : option bytes :=
  let i := skip_ws obj 0 in
  if bool_decide (obj !! i = Some x7b) then member_loop (length obj) obj key (i + 1) else None.

Definition as_string (raw : bytes) : option bytes :=
  if (2 <=? length raw)%nat && bool_decide (raw !! 0%nat = Some x22)
     && bool_decide (raw !! (length raw - 1)%nat = Some x22)
  then str_get raw 1 (length raw - 1) else None.

Definition saturating_add32 (a b : Z) : Z := Z.min (a + b) (W32 - 1).
Definition saturating_mul32 (a b : Z) : Z := Z.min (a * b) (W32 - 1).

Definition parse_u32 (raw : bytes) : option Z :=
  let s := trim (default raw (as_string raw)) in
  if bool_decide (s = []) || negb (forallb is_digit s) then None
  else Some (fold_left (fun n b => saturating_add32 (saturating_mul32 n 10) (bz b - 48)) s 0).

(** ** The request id echoed in a response *)

Definition MAX_ID : nat := 64.

(** The byte offset of character [n] of a string, or its length. *)
Fixpoint nth_char (n : nat) (s : bytes) (off : nat) : nat :=
  match s with
  | [] => off
  | b :: r =>
      if is_cont b then nth_char n r (off + 1)
      else match n with O => off | S n' => nth_char n' r (off + 1) end
  end.

Definition write_id (raw0 : bytes) : wprog :=
  let raw := trim raw0 in
  match as_string raw with
  | Some inner =>
      (Put (js "'") +? write_json_escaped (take (nth_char MAX_ID inner 0) inner) +? Put (js "'"))%W
  | None =>
      let digits := default raw (strip_prefix [x2d] raw) in
      if negb (bool_decide (digits = [])) && forallb is_digit digits then Put raw
      else Put (lit "null")
  end.

(** ** Idempotency: the window of recent operation ids *)

Definition OP_SLOTS : nat := 8.

Record opring := mkOps { op_ids : list Z; op_head : Z }.
Definition ops_init : opring := {| op_ids := replicate OP_SLOTS 0; op_head := 0 |}.

Definition fnv_step (h : Z) (b : byte) : Z := wrap64 (Z.lxor h (bz b) * 0x100000001b3).
Definition FNV_BASIS : Z := 0xcbf29ce484222325.
Definition fnv1a (s : bytes) : Z := Z.lor (fold_left fnv_step s FNV_BASIS) 1.

Definition op_seen (h : Z) (o : opring) : bool := existsb (fun v => v =? h) (op_ids o).
Definition op_record (h : Z) (o : opring) : opring :=
  {| op_ids := <[Z.to_nat (op_head o mod Z.of_nat OP_SLOTS) := h]> (op_ids o);
     op_head := wrap64 (op_head o + 1) |}.
