(* ===== verification/Walkers.v ===== *)
(** * The request walkers with their bounds checks (kernel/src/rpc.rs)

    The walkers of [RpcJson] once more, with every index of the source written
    out: the test against the length, then [s[i]], where an index out of range
    is [None], a panic; and the subtractions of lengths, where one below zero
    is. Each walker returns what its counterpart in [RpcJson] returns, so none of
    the checks ever fails, whatever the text. *)

From S2P Require Import Prelude Utf8 RpcJson.

(** ** The checks *)

(** [if i < s.len() { .. s[i] .. } else { stop }]. *)
Definition guarded {T} (s : bytes) (i : nat) (stop : T) (f : byte -> option T) : option T :=
  if (i <? length s)%nat then s !! i ≫= f else Some stop.

(** [a - b] of a [usize]. *)
Definition checked_sub (a b : nat) : option nat := if (b <=? a)%nat then Some (a - b)%nat else None.

(** ** The walkers *)

Fixpoint skip_ws_loop_at (fuel : nat) (s : bytes) (i : nat) : option nat :=
  match fuel with
  | O => Some i
  | S f => guarded s i i (fun b => if is_ws b then skip_ws_loop_at f s (i + 1) else Some i)
  end.
Definition skip_ws_at (s : bytes) (i : nat) : option nat := skip_ws_loop_at (length s) s i.

Fixpoint skip_string_loop_at (fuel : nat) (s : bytes) (j : nat) : option nat :=
  match fuel with
  | O => Some (length s)
  | S f => guarded s j (length s) (fun b =>
      if beq b x5c then skip_string_loop_at f s (j + 2)
      else if beq b x22 then Some (j + 1)%nat
      else skip_string_loop_at f s (j + 1))
  end.
Definition skip_string_at (s : bytes) (i : nat) : option nat := skip_string_loop_at (length s) s (i + 1).

Fixpoint skip_container_loop_at (fuel : nat) (s : bytes) (depth : Z) (j : nat) : option nat :=
  match fuel with
  | O => Some (length s)
  | S f => guarded s j (length s) (fun b =>
      if beq b x22 then skip_string_at s j ≫= skip_container_loop_at f s depth
      else if is_open b then skip_container_loop_at f s (depth + 1) (j + 1)
      else if is_close b then
        if depth - 1 =? 0 then Some (j + 1)%nat else skip_container_loop_at f s (depth - 1) (j + 1)
      else skip_container_loop_at f s depth (j + 1))
  end.
Definition skip_container_at (s : bytes) (i : nat) : option nat := skip_container_loop_at (length s) s 0 i.

Fixpoint skip_scalar_at (fuel : nat) (s : bytes) (j : nat) : option nat :=
  match fuel with
  | O => Some j
  | S f => guarded s j j (fun b => if is_structural b then Some j else skip_scalar_at f s (j + 1))
  end.

Definition skip_value_at (s : bytes) (i0 : nat) : option nat :=
  i ← skip_ws_at s i0;
  guarded s i (length s) (fun b =>
    if beq b x22 then skip_string_at s i
    else if is_open b then skip_container_at s i
    else skip_scalar_at (length s) s i).

(** What is found; the outer [None] is the panic. *)
Fixpoint member_loop_at (fuel : nat) (obj key : bytes) (i0 : nat) : option (option bytes) :=
  match fuel with
  | O => Some None
  | S f =>
      i ← skip_ws_at obj i0;
      guarded obj i None (fun b =>
        if negb (beq b x22) then Some None else
        key_end ← skip_string_at obj i;
        last ← checked_sub key_end 1;
        match str_get obj (i + 1) last with
        | None => Some None
        | Some this_key =>
            i ← skip_ws_at obj key_end;
            guarded obj i None (fun b =>
              if negb (beq b x3a) then Some None else
              val_start ← skip_ws_at obj (i + 1);
              val_end ← skip_value_at obj val_start;
              if bool_decide (this_key = key) then Some (option_map trim (str_get obj val_start val_end))
              else
                i ← skip_ws_at obj val_end;
                guarded obj i None (fun b => if beq b x2c then member_loop_at f obj key (i + 1) else Some None))
        end)
  end.

Definition object_get_at (obj key : bytes) : option (option bytes) :=
  i ← skip_ws_at obj 0;
  guarded obj i None (fun b => if beq b x7b then member_loop_at (length obj) obj key (i + 1) else Some None).

Definition as_string_at (raw : bytes) : option (option bytes) :=
  if negb (2 <=? length raw)%nat then Some None else
  first ← raw !! 0%nat;
  if negb (beq first x22) then Some None else
  n ← checked_sub (length raw) 1;
  last ← raw !! n;
  if beq last x22 then Some (str_get raw 1 n) else Some None.

(** ** No check fails *)

Lemma guarded_lookup {T} (s : bytes) (i : nat) (stop : T) (f : byte -> option T) :
  guarded s i stop f = match s !! i with Some b => f b | None => Some stop end.
Proof.
  unfold guarded. destruct (i <? length s)%nat eqn:E.
  - apply Nat.ltb_lt, lookup_lt_is_Some_2 in E as [b Hb]. by rewrite Hb.
  - apply Nat.ltb_ge, lookup_ge_None_2 in E. by rewrite E.
Qed.

Lemma skip_ws_checked (s : bytes) (i : nat) : skip_ws_at s i = Some (skip_ws s i).
Proof.
  unfold skip_ws_at, skip_ws. generalize (length s) as n. intros n. revert i. induction n as [|n IH]; intros i; [done|].
  cbn [skip_ws_loop_at skip_ws_loop]. rewrite guarded_lookup. destruct (s !! i) as [b|]; [|done]. by destruct (is_ws b).
Qed.

Lemma skip_string_checked (s : bytes) (i : nat) : skip_string_at s i = Some (skip_string s i).
Proof.
  unfold skip_string_at, skip_string. generalize (length s) at 1 2 as n. generalize (i + 1)%nat as j. intros j n. revert j.
  induction n as [|n IH]; intros j; [done|]. cbn [skip_string_loop_at skip_string_loop]. rewrite guarded_lookup.
  destruct (s !! j) as [b|]; [|done]. destruct (beq b x5c); [done|]. by destruct (beq b x22).
Qed.

Lemma skip_container_checked (s : bytes) (i : nat) : skip_container_at s i = Some (skip_container s i).
Proof.
  unfold skip_container_at, skip_container. generalize (length s) at 1 2 as n. generalize 0 as d. intros d n. revert d i.
  induction n as [|n IH]; intros d i; [done|]. cbn [skip_container_loop_at skip_container_loop]. rewrite guarded_lookup.
  destruct (s !! i) as [b|]; [|done]. rewrite skip_string_checked. cbn [mbind option_bind].
  destruct (beq b x22); [done|]. destruct (is_open b); [done|]. destruct (is_close b); [|done]. by destruct (d - 1 =? 0).
Qed.

Lemma skip_scalar_checked (n : nat) (s : bytes) (j : nat) : skip_scalar_at n s j = Some (skip_scalar n s j).
Proof.
  revert j. induction n as [|n IH]; intros j; [done|]. cbn [skip_scalar_at skip_scalar]. rewrite guarded_lookup.
  destruct (s !! j) as [b|]; [|done]. by destruct (is_structural b).
Qed.

Lemma skip_value_checked (s : bytes) (i : nat) : skip_value_at s i = Some (skip_value s i).
Proof.
  unfold skip_value_at, skip_value. rewrite skip_ws_checked. cbn [mbind option_bind]. rewrite guarded_lookup.
  destruct (s !! _) as [b|]; [|done]. rewrite skip_string_checked, skip_container_checked, skip_scalar_checked.
  destruct (beq b x22); [done|]. by destruct (is_open b).
Qed.

(** A string ends behind its quote. *)
Lemma skip_string_positive (s : bytes) (i : nat) (b : byte) : s !! i = Some b -> (1 <= skip_string s i)%nat.
Proof.
  intros Hb. apply lookup_lt_Some in Hb. unfold skip_string. generalize (length s) at 1 as n. generalize (i + 1)%nat as j. intros j n. revert j.
  induction n as [|n IH]; intros j; cbn [skip_string_loop]; [lia|]. destruct (s !! j) as [c|]; [|lia].
  destruct (beq c x5c); [done|]. destruct (beq c x22); [lia|done].
Qed.

Lemma lookup_is (s : bytes) (i : nat) (b c : byte) : s !! i = Some b -> bool_decide (s !! i = Some c) = beq b c.
Proof.
  intros ->. destruct (beq b c) eqn:E; [apply beq_eq in E as ->; by apply bool_decide_eq_true|].
  apply bool_decide_eq_false. intros [= ->]. by apply beq_neq in E.
Qed.

Lemma member_loop_checked (n : nat) (obj key : bytes) (i : nat) : member_loop_at n obj key i = Some (member_loop n obj key i).
Proof.
  revert i. induction n as [|n IH]; intros i; [done|]. cbn [member_loop_at member_loop]. rewrite skip_ws_checked. cbn [mbind option_bind].
  rewrite guarded_lookup. destruct (obj !! skip_ws obj i) as [b|] eqn:E1; [|done]. rewrite <- E1, (lookup_is _ _ _ x22 E1).
  destruct (negb (beq b x22)); [done|]. rewrite skip_string_checked. cbn [mbind option_bind]. unfold checked_sub.
  rewrite (proj2 (Nat.leb_le _ _) (skip_string_positive _ _ _ E1)). cbn [mbind option_bind]. destruct (str_get obj _ _) as [this|]; [|done].
  rewrite skip_ws_checked. cbn [mbind option_bind]. rewrite guarded_lookup.
  destruct (obj !! skip_ws obj (skip_string obj _)) as [c|] eqn:E2; [|done]. rewrite <- E2, (lookup_is _ _ _ x3a E2).
  destruct (negb (beq c x3a)); [done|]. rewrite skip_ws_checked. cbn [mbind option_bind]. rewrite skip_value_checked. cbn [mbind option_bind].
  destruct (bool_decide (this = key)); [done|]. rewrite skip_ws_checked. cbn [mbind option_bind]. rewrite guarded_lookup.
  destruct (obj !! skip_ws obj (skip_value obj _)) as [d|] eqn:E3; [|done]. rewrite <- E3, (lookup_is _ _ _ x2c E3). by destruct (beq d x2c).
Qed.

Lemma object_get_checked (obj key : bytes) : object_get_at obj key = Some (object_get obj key).
Proof.
  unfold object_get_at, object_get. rewrite skip_ws_checked. cbn [mbind option_bind]. rewrite guarded_lookup.
  destruct (obj !! skip_ws obj 0) as [b|] eqn:E; [|done]. rewrite <- E, (lookup_is _ _ _ x7b E), member_loop_checked. by destruct (beq b x7b).
Qed.

Lemma as_string_checked (raw : bytes) : as_string_at raw = Some (as_string raw).
Proof.
  unfold as_string_at, as_string. destruct (2 <=? length raw)%nat eqn:El; [|done]. apply Nat.leb_le in El. cbn [negb andb].
  destruct (lookup_lt_is_Some_2 raw 0) as [a Ha]; [lia|]. destruct (lookup_lt_is_Some_2 raw (length raw - 1)) as [b Hb]; [lia|].
  rewrite (lookup_is _ _ _ x22 Ha), (lookup_is _ _ _ x22 Hb), Ha. cbn [mbind option_bind]. destruct (beq a x22); [|done].
  unfold checked_sub. rewrite (proj2 (Nat.leb_le 1 _)) by lia. cbn [negb mbind option_bind andb]. rewrite Hb. cbn [mbind option_bind]. by destruct (beq b x22).
Qed.
