(* ===== verification/RpcJsonProofs.v ===== *)
(** * The request reader finds what a client wrote (theorems about [RpcJson])

    A small JSON syntax with its printer, the walkers on printed text, and the
    contract of [object_get], [parse_u32] and the operation-id window. *)

From S2P Require Import Prelude Console Utf8 RpcJson.

(** ** Lookups through a suffix of the text *)

Lemma drop_lookup (s r : bytes) (j : nat) (b : byte) : drop j s = b :: r -> s !! j = Some b.
Proof.
  intros H. replace j with (j + 0)%nat by lia. rewrite <- lookup_drop, H. done.
Qed.

Lemma drop_length (s r : bytes) (j : nat) : drop j s = r -> r <> [] ->
  (j + length r = length s)%nat.
Proof.
  intros H Hr. subst r. rewrite length_drop.
  destruct (decide (length s <= j)%nat) as [Hl|Hl]; [|lia].
  by rewrite drop_ge in Hr.
Qed.

Lemma drop_more (s p r : bytes) (j : nat) : drop j s = p ++ r -> drop (j + length p) s = r.
Proof.
  intros H. rewrite <- drop_drop, H. apply drop_app_length.
Qed.

Lemma drop_none (s : bytes) (j : nat) : drop j s = [] -> s !! j = None.
Proof.
  intros H. replace j with (j + 0)%nat by lia. rewrite <- lookup_drop, H. done.
Qed.

(** ** Whitespace and strings *)

Lemma skip_ws_loop_spec (w r s : bytes) (fuel i : nat) :
  drop i s = w ++ r -> Forall (fun b => is_ws b = true) w ->
  (forall b, hd_error r = Some b -> is_ws b = false) ->
  (length w <= fuel)%nat -> skip_ws_loop fuel s i = (i + length w)%nat.
Proof.
  intros Hd Hw Hr. revert i Hd fuel. induction Hw as [|b w Hb Hw IH]; intros i Hd fuel Hf.
  - cbn. destruct fuel as [|f]; cbn [skip_ws_loop]; [lia|].
    destruct r as [|c r]; cbn in Hd; [by rewrite drop_none|].
    rewrite (drop_lookup _ _ _ _ Hd), (Hr c) by done. lia.
  - destruct fuel as [|f]; cbn [length] in *; [lia|]. cbn [skip_ws_loop].
    rewrite (drop_lookup _ _ _ _ Hd), Hb.
    rewrite (IH (i + 1)%nat); [lia| |lia]. rewrite <- drop_drop, Hd. done.
Qed.

Lemma skip_ws_spec (w r s : bytes) (i : nat) :
  drop i s = w ++ r -> Forall (fun b => is_ws b = true) w ->
  (forall b, hd_error r = Some b -> is_ws b = false) -> skip_ws s i = (i + length w)%nat.
Proof.
  intros Hd Hw Hr. apply skip_ws_loop_spec with r; [done..|].
  apply (f_equal length) in Hd. rewrite length_drop, length_app in Hd. lia.
Qed.

Lemma skip_ws_none (b : byte) (r s : bytes) (i : nat) :
  drop i s = b :: r -> is_ws b = false -> skip_ws s i = i.
Proof.
  intros Hd Hb. rewrite (skip_ws_spec [] (b :: r)); [cbn; lia|done|done|].
  intros c. cbn. congruence.
Qed.

(** The content of a JSON string: no bare quote, no dangling backslash. *)
Fixpoint str_ok (c : bytes) : bool :=
  match c with
  | [] => true
  | b :: r =>
      if beq b x5c then match r with _ :: r' => str_ok r' | [] => false end
      else if beq b x22 then false else str_ok r
  end.

Lemma skip_string_loop_spec (n : nat) (c r s : bytes) (fuel j : nat) :
  (length c <= n)%nat -> str_ok c = true -> drop j s = c ++ x22 :: r ->
  (length c < fuel)%nat -> skip_string_loop fuel s j = (j + length c + 1)%nat.
Proof.
  revert c fuel j. induction n as [|n IH]; intros c fuel j Hn Hc Hd Hf.
  - destruct c; [|cbn in Hn; lia]. destruct fuel as [|f]; [lia|]. cbn [skip_string_loop app length] in *.
    rewrite (drop_lookup _ _ _ _ Hd). cbn. lia.
  - destruct fuel as [|f]; [lia|]. cbn [skip_string_loop].
    destruct c as [|b c]; [rewrite (drop_lookup _ _ _ _ Hd); cbn; lia|]. cbn [str_ok length app] in *.
    rewrite (drop_lookup _ _ _ _ Hd). destruct (beq b x5c) eqn:E1.
    + destruct c as [|b' c]; [done|]. cbn [length] in *.
      rewrite (IH c); [lia|lia|done| |lia].
      rewrite <- drop_drop, Hd. done.
    + destruct (beq b x22) eqn:E2; [done|]. rewrite (IH c); [lia|lia|done| |lia].
      rewrite <- drop_drop, Hd. done.
Qed.

Lemma skip_string_spec (c r s : bytes) (i : nat) :
  str_ok c = true -> drop i s = x22 :: c ++ x22 :: r -> skip_string s i = (i + length c + 2)%nat.
Proof.
  intros Hc Hd. unfold skip_string.
  pose proof (drop_length _ _ _ Hd ltac:(done)) as Hl. cbn in Hl. rewrite length_app in Hl. cbn in Hl.
  rewrite (skip_string_loop_spec (length c) c r); [lia|lia|done| |lia].
  rewrite <- drop_drop, Hd. done.
Qed.

(** ** Containers *)

(** The loop of [skip_container] moves from one point to another, with enough
    fuel left for the rest of the text. *)
Definition adv (s : bytes) (d : Z) (j : nat) (d' : Z) (j' : nat) : Prop :=
  forall fuel, (length s - j <= fuel)%nat -> exists fuel', (length s - j' <= fuel')%nat /\
    skip_container_loop fuel s d j = skip_container_loop fuel' s d' j'.

Lemma adv_refl (s : bytes) (d : Z) (j : nat) : adv s d j d j.
Proof. intros f Hf. eauto. Qed.

Lemma adv_trans (s : bytes) (d1 d2 d3 : Z) (j1 j2 j3 : nat) :
  adv s d1 j1 d2 j2 -> adv s d2 j2 d3 j3 -> adv s d1 j1 d3 j3.
Proof.
  intros H1 H2 f Hf. destruct (H1 f Hf) as (f1 & Hf1 & ->).
  destruct (H2 f1 Hf1) as (f2 & Hf2 & ->). eauto.
Qed.

Ltac adv_step Hd :=
  let f := fresh "f" in
  let Hf := fresh "Hf" in
  intros f Hf;
  pose proof (drop_length _ _ _ Hd ltac:(done)); cbn [length] in *;
  destruct f as [|f]; [lia|]; cbn [skip_container_loop];
  rewrite (drop_lookup _ _ _ _ Hd).

Lemma adv_plain (s r : bytes) (d : Z) (j : nat) (b : byte) :
  drop j s = b :: r -> beq b x22 = false -> is_open b = false -> is_close b = false ->
  adv s d j d (j + 1).
Proof.
  intros Hd H1 H2 H3. adv_step Hd. rewrite H1, H2, H3. exists f. split; [lia|done].
Qed.

Lemma adv_open (s r : bytes) (d : Z) (j : nat) (b : byte) :
  drop j s = b :: r -> is_open b = true -> adv s d j (d + 1) (j + 1).
Proof.
  intros Hd H. assert (beq b x22 = false) as Hq by (unfold is_open in H; destruct b; done).
  adv_step Hd. rewrite Hq, H. exists f. split; [lia|done].
Qed.

Lemma adv_close (s r : bytes) (d : Z) (j : nat) (b : byte) :
  drop j s = b :: r -> is_close b = true -> d <> 1 -> adv s d j (d - 1) (j + 1).
Proof.
  intros Hd H Hne. assert (beq b x22 = false /\ is_open b = false) as [Hq Ho]
    by (unfold is_close in H; destruct b; done).
  adv_step Hd. rewrite Hq, Ho, H. destruct (d - 1 =? 0) eqn:E; zbool; [lia|].
  exists f. split; [lia|done].
Qed.

Lemma adv_string (s c r : bytes) (d : Z) (j : nat) :
  str_ok c = true -> drop j s = x22 :: c ++ x22 :: r -> adv s d j d (j + length c + 2).
Proof.
  intros Hc Hd. adv_step Hd. cbn [beq Byte.eqb]. rewrite (skip_string_spec c r) by done.
  exists f. split; [lia|done].
Qed.

(** ** A JSON syntax and its printer *)

Inductive json :=
  | JAtom (a : bytes)              (* a number, true, false or null *)
  | JStr (c : bytes)               (* a string, by its raw content *)
  | JArr (l : jlist)
  | JObj (m : jmembers)
with jlist := LNil | LCons (v : json) (l : jlist)
with jmembers := MNil | MCons (k : bytes) (v : json) (m : jmembers).

Scheme json_mut := Induction for json Sort Prop
  with jlist_mut := Induction for jlist Sort Prop
  with jmembers_mut := Induction for jmembers Sort Prop.
Combined Scheme json_ind3 from json_mut, jlist_mut, jmembers_mut.

Definition atom_byte (b : byte) : bool :=
  is_digit b || in_range 97 122 b || in_range 65 90 b || beq b x2d || beq b x2b || beq b x2e.
Definition key_byte (b : byte) : bool := (bz b <? 128) && negb (beq b x22) && negb (beq b x5c).

Section Printed.

(** White space the client writes after a comma and after a colon. *)
Context (wc wv : bytes).
Context (Hwc : Forall (fun b => is_ws b = true) wc) (Hwv : Forall (fun b => is_ws b = true) wv).

Fixpoint print (v : json) : bytes :=
  match v with
  | JAtom a => a
  | JStr c => x22 :: c ++ [x22]
  | JArr l => x5b :: print_list l ++ [x5d]
  | JObj m => x7b :: print_members m ++ [x7d]
  end
with print_list (l : jlist) : bytes :=
  match l with
  | LNil => []
  | LCons v LNil => print v
  | LCons v l => print v ++ x2c :: wc ++ print_list l
  end
with print_members (m : jmembers) : bytes :=
  match m with
  | MNil => []
  | MCons k v MNil => x22 :: k ++ x22 :: x3a :: wv ++ print v
  | MCons k v m => x22 :: k ++ x22 :: x3a :: wv ++ print v ++ x2c :: wc ++ print_members m
  end.

Fixpoint json_wf (v : json) : bool :=
  match v with
  | JAtom a => negb (bool_decide (a = [])) && forallb atom_byte a
  | JStr c => str_ok c
  | JArr l => list_wf l
  | JObj m => members_wf m
  end
with list_wf (l : jlist) : bool :=
  match l with LNil => true | LCons v l => json_wf v && list_wf l end
with members_wf (m : jmembers) : bool :=
  match m with MNil => true | MCons k v m => forallb key_byte k && json_wf v && members_wf m end.

(** Member lookup in the syntax: the first one with the key. *)
Fixpoint get_member (k : bytes) (m : jmembers) : option json :=
  match m with
  | MNil => None
  | MCons k' v m => if bool_decide (k' = k) then Some v else get_member k m
  end.

(** Runs of bytes that mean nothing to the container walker. *)
Definition plain (b : byte) : bool := negb (beq b x22) && negb (is_open b) && negb (is_close b).

Lemma adv_plains (s p r : bytes) (d : Z) (j : nat) :
  drop j s = p ++ r -> forallb plain p = true -> adv s d j d (j + length p).
Proof.
  revert j. induction p as [|b p IH]; intros j Hd Hp; cbn [forallb length app] in *.
  { replace (j + 0)%nat with j by lia. apply adv_refl. }
  apply andb_prop in Hp as [Hb Hp]. unfold plain in Hb.
  apply andb_prop in Hb as [Hb H3]. apply andb_prop in Hb as [H1 H2].
  apply negb_true_iff in H1, H2, H3.
  apply adv_trans with (d2 := d) (j2 := (j + 1)%nat); [by apply adv_plain with (p ++ r) b|].
  replace (j + S (length p))%nat with (j + 1 + length p)%nat by lia. apply IH; [|done].
  rewrite <- drop_drop, Hd. done.
Qed.

Lemma atom_plain (a : bytes) : forallb atom_byte a = true -> forallb plain a = true.
Proof. apply forallb_impl. intros b. by destruct b. Qed.

Lemma ws_plain (w : bytes) : Forall (fun b => is_ws b = true) w -> forallb plain w = true.
Proof. induction 1 as [|b w Hb _ IH]; [done|]. cbn. rewrite IH, andb_true_r. by destruct b. Qed.

Lemma key_str_ok (k : bytes) : forallb key_byte k = true -> str_ok k = true.
Proof.
  induction k as [|b k IH]; [done|]. cbn [forallb str_ok]. intros H.
  apply andb_prop in H as [Hb Hk]. unfold key_byte in Hb. apply andb_prop in Hb as [Hb H2].
  apply andb_prop in Hb as [_ H1]. apply negb_true_iff in H1, H2. rewrite H1, H2. auto.
Qed.

Definition adv_over (t : bytes) : Prop := forall s r d j,
  1 <= d -> drop j s = t ++ r -> adv s d j d (j + length t).

Lemma adv_over_nil : adv_over [].
Proof. intros s r d j _ _. cbn. replace (j + 0)%nat with j by lia. apply adv_refl. Qed.

Lemma adv_over_app (t1 t2 : bytes) : adv_over t1 -> adv_over t2 -> adv_over (t1 ++ t2).
Proof.
  intros H1 H2 s r d j Hd E. rewrite <- app_assoc in E.
  apply adv_trans with (d2 := d) (j2 := (j + length t1)%nat); [by apply H1 with (t2 ++ r)|].
  rewrite length_app, Nat.add_assoc. apply H2 with r; [done|]. by apply drop_more.
Qed.

Lemma adv_over_plain (p : bytes) : forallb plain p = true -> adv_over p.
Proof. intros Hp s r d j Hd E. by apply adv_plains with r. Qed.

Lemma adv_over_string (c : bytes) : str_ok c = true -> adv_over (x22 :: c ++ [x22]).
Proof.
  intros Hc s r d j Hd E. cbn [length app] in *. rewrite <- app_assoc in E.
  rewrite length_app. cbn [length]. replace (j + S (length c + 1))%nat with (j + length c + 2)%nat by lia.
  by apply adv_string with r.
Qed.

Lemma adv_over_bracket (o c : byte) (t : bytes) :
  is_open o = true -> is_close c = true -> adv_over t -> adv_over (o :: t ++ [c]).
Proof.
  intros Ho Hc Ht s r d j Hd E. cbn [length app] in *. rewrite <- app_assoc in E.
  apply adv_trans with (d2 := d + 1) (j2 := (j + 1)%nat); [by apply adv_open with (t ++ [c] ++ r) o|].
  assert (drop (j + 1) s = t ++ [c] ++ r) as E1 by (rewrite <- drop_drop, E; done).
  apply adv_trans with (d2 := d + 1) (j2 := (j + 1 + length t)%nat); [apply Ht with ([c] ++ r); [lia|done]|].
  rewrite length_app. cbn [length]. replace (j + S (length t + 1))%nat with (j + 1 + length t + 1)%nat by lia.
  replace d with (d + 1 - 1) at 2 by lia. apply adv_close with r c; [|done|lia].
  by apply drop_more.
Qed.

Lemma key_text (k t : bytes) : x22 :: k ++ x22 :: x3a :: t = (x22 :: k ++ [x22]) ++ [x3a] ++ t.
Proof. cbn. by rewrite <- app_assoc. Qed.

Lemma print_adv :
  (forall v, json_wf v = true -> adv_over (print v)) /\
  (forall l, list_wf l = true -> adv_over (print_list l)) /\
  (forall m, members_wf m = true -> adv_over (print_members m)).
Proof.
  apply json_ind3; cbn [json_wf list_wf members_wf print print_list print_members].
  - intros a Ha. apply adv_over_plain, atom_plain. by destruct (andb_prop _ _ Ha).
  - intros c Hc. by apply adv_over_string.
  - intros l IH Hl. apply adv_over_bracket; auto.
  - intros m IH Hm. apply adv_over_bracket; auto.
  - intros _. apply adv_over_nil.
  - intros v IHv l IHl H. apply andb_prop in H as [Hv Hl]. specialize (IHv Hv). specialize (IHl Hl).
    destruct l; [done|]. apply adv_over_app; [done|].
    change (x2c :: wc ++ ?t) with ([x2c] ++ wc ++ t). (apply adv_over_app; [by apply adv_over_plain|]); (apply adv_over_app; [by apply adv_over_plain, ws_plain|]).
    done.
  - intros _. apply adv_over_nil.
  - intros k v IHv m IHm H. apply andb_prop in H as [H Hm]. apply andb_prop in H as [Hk Hv].
    specialize (IHv Hv). specialize (IHm Hm). apply key_str_ok in Hk.
    destruct m; rewrite key_text; (apply adv_over_app; [by apply adv_over_string|]);
      (apply adv_over_app; [by apply adv_over_plain|]);
      (apply adv_over_app; [by apply adv_over_plain, ws_plain|]); [done|].
    apply adv_over_app; [done|]. change (x2c :: wc ++ ?t) with ([x2c] ++ wc ++ t).
    (apply adv_over_app; [by apply adv_over_plain|]); (apply adv_over_app; [by apply adv_over_plain, ws_plain|]). done.
Qed.

(** ** Values, trimming and members *)

Definition solid (b : byte) : bool := in_range 33 126 b.

Lemma strip_any_solid (b : byte) (r : bytes) : solid b = true ->
  strip_any unicode_ws (b :: r) = None /\ strip_any (map (@rev byte) unicode_ws) (b :: r) = None.
Proof. by destruct b. Qed.

Lemma strip_all_solid (b : byte) (r : bytes) (fuel : nat) : solid b = true ->
  strip_all fuel unicode_ws (b :: r) = b :: r /\
  strip_all fuel (map (@rev byte) unicode_ws) (b :: r) = b :: r.
Proof. intros H. destruct (strip_any_solid b r H) as [E1 E2]. destruct fuel; cbn [strip_all]; rewrite ?E1, ?E2; done. Qed.

(** A text that starts and ends with visible ASCII is not trimmed. *)
Lemma trim_solid (t : bytes) (b c : byte) (r r' : bytes) :
  t = b :: r -> rev t = c :: r' -> solid b = true -> solid c = true -> trim t = t.
Proof.
  intros E1 E2 Hb Hc. unfold trim, trim_start, trim_end.
  assert (strip_all (length t) unicode_ws t = t) as -> by (rewrite E1; by apply strip_all_solid).
  assert (strip_all (length t) (map (@rev byte) unicode_ws) (rev t) = rev t) as ->
    by (rewrite E2; by apply strip_all_solid).
  apply rev_involutive.
Qed.

Lemma rev_last (t : bytes) (c : byte) : rev (t ++ [c]) = c :: rev t.
Proof. by rewrite rev_app_distr. Qed.

(** A printed value begins with a visible byte that is not white space, and is
    not trimmed. *)
Lemma print_head (v : json) : json_wf v = true ->
  exists b r, print v = b :: r /\ solid b = true /\ is_ws b = false.
Proof.
  destruct v as [a|c|l|m]; cbn [json_wf print]; intros H; [|by eexists _, _..].
  apply andb_prop in H as [Hn Ha]. destruct a as [|b a]; [done|]. cbn in Ha.
  apply andb_prop in Ha as [Hb _]. exists b, a. split; [done|]. by destruct b.
Qed.

Lemma print_trim (v : json) : json_wf v = true -> trim (print v) = print v.
Proof.
  intros H. destruct (print_head v H) as (b & r & E & Hb & _).
  assert (exists c r', rev (print v) = c :: r' /\ solid c = true) as (c & r' & E2 & Hc).
  { destruct v as [a|c|l|m]; cbn [print json_wf] in *;
      [|rewrite app_comm_cons, rev_last; by eexists _, _..].
    apply andb_prop in H as [_ Ha]. destruct (rev a) as [|c r'] eqn:Er.
    - apply (f_equal (@rev byte)) in Er. rewrite rev_involutive in Er. cbn in Er. subst a. done.
    - exists c, r'. split; [done|]. assert (In c a) as Hin by (apply in_rev; rewrite Er; by left).
      rewrite forallb_forall in Ha. apply Ha in Hin. by destruct c. }
  by apply trim_solid with b c r r'.
Qed.

Lemma skip_scalar_spec (a r s : bytes) (fuel i : nat) :
  drop i s = a ++ r -> forallb (fun b => negb (is_structural b)) a = true ->
  (exists b, hd_error r = Some b /\ is_structural b = true) ->
  (length a <= fuel)%nat -> (1 <= fuel)%nat -> skip_scalar fuel s i = (i + length a)%nat.
Proof.
  intros Hd Ha (b & Hb & Hs). destruct r as [|b' r]; [done|]. cbn in Hb. simplify_eq.
  revert i Hd fuel. induction a as [|c a IH]; intros i Hd fuel Hf H1; (destruct fuel as [|f]; [lia|]);
    cbn [skip_scalar length forallb app] in *; rewrite (drop_lookup _ _ _ _ Hd).
  - rewrite Hs. lia.
  - apply andb_prop in Ha as [Hc Ha]. apply negb_true_iff in Hc. rewrite Hc.
    destruct f as [|f].
    + destruct a; [cbn in *|cbn in Hf; lia]. lia.
    + rewrite (IH Ha (i + 1)%nat); [lia| |lia|lia]. rewrite <- drop_drop, Hd. done.
Qed.

Lemma skip_container_spec (o c : byte) (t r s : bytes) (i : nat) :
  is_open o = true -> is_close c = true -> adv_over t -> drop i s = o :: t ++ c :: r ->
  skip_container s i = (i + length t + 2)%nat.
Proof.
  intros Ho Hc Ht Hd. unfold skip_container.
  assert (drop (i + 1) s = t ++ c :: r) as E1 by (rewrite <- drop_drop, Hd; done).
  pose proof (adv_trans s 0 1 1 i (i + 1) (i + 1 + length t)
    (adv_open s _ 0 i o Hd Ho) (Ht s (c :: r) 1 _ ltac:(lia) E1)) as Ha.
  destruct (Ha (length s) ltac:(lia)) as (f & Hf & ->).
  apply drop_more in E1. pose proof (drop_length _ _ _ E1 ltac:(done)) as Hl. cbn in Hl.
  destruct f as [|f]; [lia|]. cbn [skip_container_loop]. rewrite (drop_lookup _ _ _ _ E1).
  assert (beq c x22 = false /\ is_open c = false) as [-> ->] by (unfold is_close in Hc; destruct c; done).
  rewrite Hc. change (1 - 1 =? 0) with true. cbv iota. lia.
Qed.

Lemma skip_value_spec (v : json) (r s : bytes) (i : nat) :
  json_wf v = true -> drop i s = print v ++ r ->
  (exists b, hd_error r = Some b /\ is_structural b = true) ->
  skip_value s i = (i + length (print v))%nat.
Proof.
  intros Hv Hd Hr. destruct (print_head v Hv) as (b & r1 & E & Hb & Hw). unfold skip_value.
  rewrite E in Hd. cbn [app] in Hd. rewrite (skip_ws_none b (r1 ++ r)) by done.
  rewrite (drop_lookup _ _ _ _ Hd). change (b :: r1 ++ r) with ((b :: r1) ++ r) in Hd. rewrite <- E in Hd.
  destruct v as [a|c|l|m]; cbn [print json_wf] in *.
  - apply andb_prop in Hv as [_ Ha]. subst a. cbn [forallb] in Ha.
    apply andb_prop in Ha as [Hab Ha].
    assert (beq b x22 = false /\ is_open b = false) as [-> ->] by (destruct b; done).
    pose proof (drop_length _ _ _ Hd ltac:(done)) as Hl. rewrite length_app in Hl.
    apply skip_scalar_spec with r; [done| |done|lia|cbn in Hl; lia].
    apply forallb_impl with atom_byte; [intros x; by destruct x|]. cbn. by rewrite Hab.
  - simplify_eq. cbn [app] in Hd. rewrite <- app_assoc in Hd. cbn [beq Byte.eqb].
    rewrite (skip_string_spec c r) by done. cbn. rewrite length_app. cbn. lia.
  - simplify_eq. cbn [app] in Hd. rewrite <- app_assoc in Hd. cbn.
    rewrite (skip_container_spec x5b x5d (print_list l) r) by (try done; by apply print_adv).
    rewrite length_app. cbn. lia.
  - simplify_eq. cbn [app] in Hd. rewrite <- app_assoc in Hd. cbn.
    rewrite (skip_container_spec x7b x7d (print_members m) r) by (try done; by apply print_adv).
    rewrite length_app. cbn. lia.
Qed.

(** Slicing between two ASCII neighbours. *)
Lemma boundary_ascii (s r : bytes) (i : nat) (b : byte) :
  drop i s = b :: r -> bz b < 128 -> is_char_boundary s i = true.
Proof.
  intros Hd Hb. unfold is_char_boundary. destruct i; [done|].
  rewrite (drop_lookup _ _ _ _ Hd). unfold is_cont, in_range. destruct (_ && _) eqn:E; [|done].
  zbool. lia.
Qed.

Lemma str_get_mid (s t r : bytes) (i : nat) :
  drop i s = t ++ r -> is_char_boundary s i = true -> is_char_boundary s (i + length t) = true ->
  str_get s i (i + length t) = Some t.
Proof.
  intros Hd H1 H2. unfold str_get. rewrite H1, H2.
  destruct (_ <=? _)%nat eqn:E; [|apply Nat.leb_gt in E; lia]. cbn.
  rewrite Hd. replace (i + length t - i)%nat with (length t) by lia. by rewrite take_app_length.
Qed.

Lemma key_ascii (k : bytes) : forallb key_byte k = true -> Forall (fun b => bz b < 128) k.
Proof.
  intros H. apply Forall_forall. intros b Hb. apply list_elem_of_In in Hb.
  rewrite forallb_forall in H. apply H in Hb. unfold key_byte in Hb. zbool. lia.
Qed.

(** One member: the key is sliced out, the value starts after the colon. *)
Lemma member_key (k r s : bytes) (i : nat) :
  forallb key_byte k = true -> drop i s = x22 :: k ++ x22 :: x3a :: r ->
  skip_ws s i = i /\ s !! i = Some x22 /\ skip_string s i = (i + length k + 2)%nat /\
  str_get s (i + 1) (i + length k + 2 - 1) = Some k /\
  skip_ws s (i + length k + 2) = (i + length k + 2)%nat /\ s !! (i + length k + 2)%nat = Some x3a /\
  drop (i + length k + 2 + 1) s = r.
Proof.
  intros Hk Hd. pose proof (key_str_ok k Hk) as Hs. apply key_ascii in Hk.
  assert (drop (i + 1) s = k ++ x22 :: x3a :: r) as E1 by (rewrite <- drop_drop, Hd; done).
  assert (drop (i + 1 + length k) s = x22 :: x3a :: r) as E2 by (by apply drop_more).
  assert (drop (i + length k + 2) s = x3a :: r) as E3.
  { replace (i + length k + 2)%nat with (i + 1 + length k + 1)%nat by lia. rewrite <- drop_drop, E2. done. }
  split_and!.
  - by apply skip_ws_none with x22 (k ++ x22 :: x3a :: r).
  - by apply drop_lookup in Hd.
  - by apply skip_string_spec with (x3a :: r).
  - replace (i + length k + 2 - 1)%nat with (i + 1 + length k)%nat by lia.
    apply str_get_mid with (x22 :: x3a :: r); [done| |by apply boundary_ascii with (x3a :: r) x22].
    destruct k as [|b k]; cbn [app] in E1.
    + by apply boundary_ascii with (x3a :: r) x22.
    + apply Forall_cons in Hk as [Hb _]. by apply boundary_ascii with (k ++ x22 :: x3a :: r) b.
  - by apply skip_ws_none with x3a r.
  - by apply drop_lookup in E3.
  - rewrite <- drop_drop, E3. done.
Qed.

(** The value after the colon. *)
Lemma member_value (v : json) (r s : bytes) (i : nat) :
  json_wf v = true -> drop i s = wv ++ print v ++ r ->
  (exists b, hd_error r = Some b /\ is_structural b = true) ->
  skip_ws s i = (i + length wv)%nat /\
  skip_value s (i + length wv) = (i + length wv + length (print v))%nat /\
  str_get s (i + length wv) (i + length wv + length (print v)) = Some (print v) /\
  drop (i + length wv + length (print v)) s = r.
Proof.
  intros Hv Hd Hr. destruct (print_head v Hv) as (b & r1 & E & Hb & Hw).
  assert (bz b < 128) as Hasc by (unfold solid, in_range in Hb; zbool; lia).
  pose proof (drop_more _ _ _ _ Hd) as E1. pose proof (drop_more _ _ _ _ E1) as E2.
  split_and!; [|by apply skip_value_spec with r| |done].
  - apply skip_ws_spec with (print v ++ r); [done..|]. rewrite E. cbn. congruence.
  - apply str_get_mid with r; [done| |].
    + rewrite E in E1. by apply boundary_ascii with (r1 ++ r) b.
    + destruct Hr as (c & Hc & Hs). destruct r as [|c' r]; [done|]. cbn in Hc. simplify_eq.
      apply boundary_ascii with r c; [done|]. by destruct c.
Qed.

Lemma member_loop_spec (m : jmembers) (key s w : bytes) (fuel i : nat) :
  members_wf m = true -> drop i s = w ++ print_members m ++ [x7d] ->
  Forall (fun b => is_ws b = true) w -> (length s - i <= fuel)%nat ->
  member_loop fuel s key i = option_map print (get_member key m).
Proof.
  revert w fuel i. induction m as [|k v m IH]; intros w fuel i Hm Hd Hw Hf;
    pose proof (drop_length _ _ _ Hd ltac:(intros Ex; apply app_eq_nil in Ex as [_ Ex]; by apply app_eq_nil in Ex as [_ Ex])) as Hl;
    rewrite !length_app in Hl; cbn [length] in Hl; (destruct fuel as [|f]; [lia|]);
    cbn [member_loop get_member]; pose proof (drop_more _ _ _ _ Hd) as Hd1.
  { rewrite (skip_ws_spec w [x7d]), (drop_lookup _ _ _ _ Hd1) by (done || by intros ? [= <-]). done. }
  cbn [members_wf] in Hm. apply andb_prop in Hm as [Hm Hwm]. apply andb_prop in Hm as [Hk Hv].
  set (tail := match m with MNil => [x7d] | MCons _ _ _ => x2c :: wc ++ print_members m ++ [x7d] end).
  assert (print_members (MCons k v m) ++ [x7d] = x22 :: k ++ x22 :: x3a :: wv ++ print v ++ tail) as Em.
  { unfold tail. destruct m; cbn [print_members app]; repeat (rewrite <- ?app_assoc; cbn [app]); done. }
  rewrite Em in Hd, Hd1. set (i' := (i + length w)%nat) in *.
  assert (exists b, hd_error tail = Some b /\ is_structural b = true) as Ht
    by (unfold tail; destruct m; by eexists).
  rewrite (skip_ws_spec w _ s i Hd Hw) by (by intros ? [= <-]). fold i'.
  destruct (member_key k _ s i' Hk Hd1) as (_ & K2 & K3 & K4 & K5 & K6 & K7).
  destruct (member_value v tail s _ Hv K7 Ht) as (V1 & V2 & V3 & V4).
  rewrite K2, K3, K4, K5, K6, V1, V2, !bool_decide_true by done. cbn [negb].
  destruct (decide (k = key)) as [Ek|Ek].
  { rewrite !bool_decide_true, V3 by done. cbn. by rewrite print_trim. }
  rewrite !(bool_decide_false (k = key)) by done.
  unfold tail in *. destruct m as [|k2 v2 m2].
  - rewrite (skip_ws_none x7d []), (drop_lookup _ _ _ _ V4) by done. done.
  - rewrite (skip_ws_none x2c (wc ++ print_members (MCons k2 v2 m2) ++ [x7d])), (drop_lookup _ _ _ _ V4) by done.
    rewrite bool_decide_true by done. apply IH with wc; [done| |done|lia].
    rewrite <- drop_drop, V4. done.
Qed.

Lemma object_get_printed (m : jmembers) (key : bytes) :
  members_wf m = true -> object_get (print (JObj m)) key = option_map print (get_member key m).
Proof.
  intros Hm. unfold object_get. cbn [print].
  set (s := x7b :: print_members m ++ [x7d]).
  rewrite (skip_ws_none x7b (print_members m ++ [x7d])) by done.
  rewrite bool_decide_true by done.
  apply member_loop_spec with []; [done|done|constructor|lia].
Qed.

End Printed.

(** C35: the request reader finds exactly the member a client wrote. On the
    printed form of any JSON object, nested to any depth, with any strings
    (escapes, brackets and quoted keys inside values included) and any white
    space after commas and colons, [object_get] returns the text of the first
    top-level member with that key, and nothing when there is none. *)
Theorem object_get_finds (wc wv : bytes) (m : jmembers) (key : bytes) :
  Forall (fun b => is_ws b = true) wc -> Forall (fun b => is_ws b = true) wv ->
  members_wf m = true ->
  object_get (print wc wv (JObj m)) key = option_map (print wc wv) (get_member key m).
Proof. intros Hc Hv Hm. by apply object_get_printed. Qed.

(** A request whose params hold an id of their own, and a string with a closing
    brace and an escaped quote: the nested id is not the one that is found. *)
Definition nested_request : jmembers :=
  MCons (lit "params") (JObj (MCons (lit "id") (JAtom (lit "1"))
                        (MCons (lit "x") (JStr [x7d; x5c; x22]) MNil)))
  (MCons (lit "id") (JArr (LCons (JAtom (lit "7")) LNil)) MNil).

Lemma object_get_finds_witness :
  object_get (print [x20] [x20] (JObj nested_request)) (lit "id") = Some (lit "[7]").
Proof.
  rewrite (object_get_finds [x20] [x20] nested_request (lit "id"));
    [reflexivity|repeat constructor|repeat constructor|reflexivity].
Defined.

(** ** Numbers *)

Lemma fold_saturating (s : bytes) (n : Z) : 0 <= n -> forallb is_digit s = true ->
  fold_left (fun n b => saturating_add32 (saturating_mul32 n 10) (bz b - 48)) s (Z.min n (W32 - 1)) =
  Z.min (fold_left (fun a b => a * 10 + (bz b - 48)) s n) (W32 - 1).
Proof.
  revert n. induction s as [|b s IH]; intros n Hn Hs; [done|].
  cbn [forallb fold_left] in *. apply andb_prop in Hs as [Hb Hs].
  unfold is_digit in Hb. zbool. rewrite <- IH by (try done; lia). f_equal.
  unfold saturating_add32, saturating_mul32, W32. lia.
Qed.

Lemma digits_solid (s : bytes) : s <> [] -> forallb is_digit s = true -> trim s = s.
Proof.
  intros Hn Hd. destruct s as [|b s]; [done|]. destruct (rev (b :: s)) as [|c r'] eqn:Er.
  { apply (f_equal (@rev byte)) in Er. by rewrite rev_involutive in Er. }
  rewrite forallb_forall in Hd. apply (trim_solid (b :: s) b c s r'); [done|done| |].
  - specialize (Hd b ltac:(by left)). by destruct b.
  - assert (In c (b :: s)) as Hc by (apply in_rev; rewrite Er; by left).
    apply Hd in Hc. by destruct c.
Qed.

Lemma as_string_quoted (c : bytes) :
  Forall (fun b => bz b < 128) c -> as_string (x22 :: c ++ [x22]) = Some c.
Proof.
  intros Hc. unfold as_string. cbn [length]. rewrite length_app. cbn [length].
  replace (S (length c + 1) - 1)%nat with (1 + length c)%nat by lia.
  destruct (_ <=? _)%nat eqn:E; [|apply Nat.leb_gt in E; lia].
  assert ((x22 :: c ++ [x22]) !! (1 + length c)%nat = Some x22) as El.
  { rewrite app_comm_cons, lookup_app_r by (cbn; lia). cbn [length].
    replace (1 + length c - S (length c))%nat with 0%nat by lia. done. }
  rewrite El, !bool_decide_true by done. cbn [andb].
  apply str_get_mid with [x22]; [done| |].
  - destruct c as [|b c]; [done|]. apply Forall_cons in Hc as [Hb _].
    by apply boundary_ascii with (c ++ [x22]) b.
  - apply boundary_ascii with [] x22; [|done]. cbn. by rewrite drop_app_length.
Qed.

Lemma digit_not_string (s : bytes) : forallb is_digit s = true -> as_string s = None.
Proof.
  intros Hd. unfold as_string. destruct s as [|b s]; [done|]. cbn [forallb] in Hd.
  apply andb_prop in Hd as [Hb _]. destruct (_ <=? _)%nat; [|done].
  rewrite bool_decide_false; [done|]. cbn. intros [= ->]. done.
Qed.

(** A numeric argument is read exactly and saturates. A run of decimal
    digits, bare or quoted, parses to its value capped at the largest [u32],
    however long it is; and only digits are ever accepted. *)
Theorem parse_u32_saturates (s : bytes) :
  (s <> [] -> forallb is_digit s = true ->
     parse_u32 s = Some (Z.min (undec s) (W32 - 1)) /\
     parse_u32 (x22 :: s ++ [x22]) = Some (Z.min (undec s) (W32 - 1))) /\
  (forall n, parse_u32 s = Some n ->
     let t := trim (default s (as_string s)) in
     t <> [] /\ forallb is_digit t = true /\ n = Z.min (undec t) (W32 - 1)).
Proof.
  assert (forall t, t <> [] -> forallb is_digit t = true ->
    (if bool_decide (t = []) || negb (forallb is_digit t) then None
     else Some (fold_left (fun n b => saturating_add32 (saturating_mul32 n 10) (bz b - 48)) t 0)) =
    Some (Z.min (undec t) (W32 - 1))) as Hfold.
  { intros t Hn Hd. rewrite bool_decide_false, Hd by done. cbn [orb negb].
    f_equal. apply (fold_saturating t 0); [lia|done]. }
  split.
  - intros Hn Hd. unfold parse_u32. rewrite digit_not_string, as_string_quoted; cbn [default]; [| |done].
    + unfold default, id. rewrite digits_solid by done. split; by apply Hfold.
    + apply Forall_forall. intros b Hb. apply list_elem_of_In in Hb. rewrite forallb_forall in Hd.
      apply Hd in Hb. unfold is_digit in Hb. zbool. lia.
  - intros n. unfold parse_u32. set (t := trim _). intros H.
    destruct (bool_decide (t = [])) eqn:E1; [done|]. apply bool_decide_eq_false in E1.
    destruct (forallb is_digit t) eqn:E2; [|done]. cbn [orb negb] in H.
    split_and!; [done|done|].
    pose proof (Hfold t E1 E2) as Hf. rewrite bool_decide_false, E2 in Hf by done. cbn in Hf. congruence.
Qed.

(** ** The operation-id window *)

Definition record_all (hs : list Z) : opring := fold_left (fun o h => op_record h o) hs ops_init.

Lemma record_all_holds (hs : list Z) :
  ring_holds OP_SLOTS 0 (op_ids (record_all hs)) hs /\
  op_head (record_all hs) = wrap64 (Z.of_nat (length hs)).
Proof.
  induction hs as [|h hs [IH1 IH2]] using rev_ind; [split; [apply ring_holds_init|done]|].
  unfold record_all. rewrite fold_left_app. fold (record_all hs). cbn [fold_left op_record op_ids op_head].
  rewrite IH2. split.
  - replace (Z.to_nat (wrap64 (Z.of_nat (length hs)) mod Z.of_nat OP_SLOTS)) with (length hs mod OP_SLOTS)%nat.
    + apply ring_holds_push; [unfold OP_SLOTS; lia|done].
    + unfold wrap64, W64, OP_SLOTS. rewrite <- (Nat2Z.id (length hs mod 8)), Nat2Z.inj_mod. f_equal.
      change (Z.of_nat 8) with 8.
      symmetry. apply Z.mod_mod_divide. by exists 2305843009213693952.
  - rewrite length_app. cbn [length]. unfold wrap64. rewrite Nat2Z.inj_add.
    rewrite Zplus_mod_idemp_l. done.
Qed.

Lemma fnv1a_nonzero (s : bytes) : fnv1a s <> 0.
Proof.
  unfold fnv1a. intros H. apply (f_equal (fun z => Z.testbit z 0)) in H.
  rewrite Z.lor_spec, orb_true_r in H. done.
Qed.

(** The idempotency window. Whatever operation ids were recorded since
    boot, in any number, an id is reported as seen exactly when its hash is one
    of the last eight recorded; in particular an id just recorded is seen, and
    before anything is recorded nothing is. *)
Theorem op_window (ops : list bytes) (op : bytes) :
  let hs := map fnv1a ops in
  op_seen (fnv1a op) (record_all hs) = true <->
  In (fnv1a op) (drop (length ops - OP_SLOTS) hs).
Proof.
  cbn. destruct (record_all_holds (map fnv1a ops)) as [Hr _].
  pose proof (ring_holds_in OP_SLOTS 0 _ _ (fnv1a op) ltac:(unfold OP_SLOTS; lia) Hr (fnv1a_nonzero op)) as Hin.
  rewrite length_map in Hin. rewrite <- Hin. unfold op_seen. rewrite existsb_exists. split.
  - intros (v & Hv & E). zbool. by subst v.
  - intros Hv. exists (fnv1a op). split; [done|]. apply Z.eqb_refl.
Qed.

(** The id of a request is echoed as it is when it is all digits, a leading zero
    included, so the echoed text need not be a JSON number. *)
Lemma write_id_leading_zero : text (write_id (lit "007")) = lit "007".
Proof. vm_compute. reflexivity. Qed.
