(* ===== verification/KState.v ===== *)
(** * The kernel state and the monad of kernel code

    Every static of the kernel as a field, the machine below it as explicit
    streams, and the small state monad the kernel code is written in. Code that
    does not return (a jump into the scheduler, [resume_user], a panic, a
    shutdown) ends with an [exit]; an index out of range is a panic. *)

From S2P Require Import Prelude Hal Frames Console RpcJson.

(** Process states of payload.rs. *)
Inductive pstate := EMPTY | PENDING | RUNNING | EXITED | FAULTED | KILLED.

#[export] Instance pstate_eq_dec : EqDecision pstate.
Proof. solve_decision. Defined.

(** [TrapFrame]: x1..x31, the trapped pc and status. *)
Record TrapFrame := mkFrame {
  regs : list Z;  (* regs[i] holds x(i+1) *)
  sepc : Z;
  sstatus : Z
}.

Definition with_regs (v : list Z) (r : TrapFrame) : TrapFrame := mkFrame v (sepc r) (sstatus r).
Definition with_sepc (v : Z) (r : TrapFrame) : TrapFrame := mkFrame (regs r) v (sstatus r).
Definition with_sstatus (v : Z) (r : TrapFrame) : TrapFrame := mkFrame (regs r) (sepc r) v.

(** The machine the kernel talks to. The console input is the list of results
    of successive polls, the clock a list of increments between reads; both run
    dry as no byte and no progress. [hw_irq] says at which of the kernel's
    interruptible points a timer interrupt is taken, with the frame the vector
    saves there; a wait for an interrupt takes the next one. The output is one entry per frame or raw line sent. *)
Record Hw := mkHw {
  hw_in : list (option byte);  (* console_getchar *)
  hw_out : list bytes;  (* console_putchar *)
  hw_now : Z;  (* rdtime *)
  hw_dt : list Z;
  hw_timer : Z;  (* set_timer *)
  hw_satp : Z;  (* satp *)
  hw_irq : list (option TrapFrame)
}.

Definition with_hw_in (v : list (option byte)) (r : Hw) : Hw := mkHw v (hw_out r) (hw_now r) (hw_dt r) (hw_timer r) (hw_satp r) (hw_irq r).
Definition with_hw_out (v : list bytes) (r : Hw) : Hw := mkHw (hw_in r) v (hw_now r) (hw_dt r) (hw_timer r) (hw_satp r) (hw_irq r).
Definition with_hw_now (v : Z) (r : Hw) : Hw := mkHw (hw_in r) (hw_out r) v (hw_dt r) (hw_timer r) (hw_satp r) (hw_irq r).
Definition with_hw_dt (v : list Z) (r : Hw) : Hw := mkHw (hw_in r) (hw_out r) (hw_now r) v (hw_timer r) (hw_satp r) (hw_irq r).
Definition with_hw_timer (v : Z) (r : Hw) : Hw := mkHw (hw_in r) (hw_out r) (hw_now r) (hw_dt r) v (hw_satp r) (hw_irq r).
Definition with_hw_satp (v : Z) (r : Hw) : Hw := mkHw (hw_in r) (hw_out r) (hw_now r) (hw_dt r) (hw_timer r) v (hw_irq r).
Definition with_hw_irq (v : list (option TrapFrame)) (r : Hw) : Hw := mkHw (hw_in r) (hw_out r) (hw_now r) (hw_dt r) (hw_timer r) (hw_satp r) v.

Record RingSlot := mkRing {
  r_id : Z;
  r_scause : Z;
  r_sepc : Z;
  r_stval : Z
}.

Definition with_r_id (v : Z) (r : RingSlot) : RingSlot := mkRing v (r_scause r) (r_sepc r) (r_stval r).
Definition with_r_scause (v : Z) (r : RingSlot) : RingSlot := mkRing (r_id r) v (r_sepc r) (r_stval r).
Definition with_r_sepc (v : Z) (r : RingSlot) : RingSlot := mkRing (r_id r) (r_scause r) v (r_stval r).
Definition with_r_stval (v : Z) (r : RingSlot) : RingSlot := mkRing (r_id r) (r_scause r) (r_sepc r) v.

(** The statics of traps.rs. *)
Record TrapState := mkTraps {
  ring : list RingSlot;  (* RING *)
  ring_count : Z;  (* RING_COUNT *)
  ticks : Z;  (* TICKS *)
  next_deadline : Z;  (* NEXT_DEADLINE *)
  ecall_traps : Z;  (* ECALL_TRAPS *)
  fault_traps : Z;  (* FAULT_TRAPS *)
  notable : list RingSlot;  (* NOTABLE *)
  notable_count : Z;  (* NOTABLE_COUNT *)
  autonomous : bool;  (* AUTONOMOUS *)
  classic_surface : bool  (* CLASSIC_SURFACE *)
}.

Definition with_ring (v : list RingSlot) (r : TrapState) : TrapState := mkTraps v (ring_count r) (ticks r) (next_deadline r) (ecall_traps r) (fault_traps r) (notable r) (notable_count r) (autonomous r) (classic_surface r).
Definition with_ring_count (v : Z) (r : TrapState) : TrapState := mkTraps (ring r) v (ticks r) (next_deadline r) (ecall_traps r) (fault_traps r) (notable r) (notable_count r) (autonomous r) (classic_surface r).
Definition with_ticks (v : Z) (r : TrapState) : TrapState := mkTraps (ring r) (ring_count r) v (next_deadline r) (ecall_traps r) (fault_traps r) (notable r) (notable_count r) (autonomous r) (classic_surface r).
Definition with_next_deadline (v : Z) (r : TrapState) : TrapState := mkTraps (ring r) (ring_count r) (ticks r) v (ecall_traps r) (fault_traps r) (notable r) (notable_count r) (autonomous r) (classic_surface r).
Definition with_ecall_traps (v : Z) (r : TrapState) : TrapState := mkTraps (ring r) (ring_count r) (ticks r) (next_deadline r) v (fault_traps r) (notable r) (notable_count r) (autonomous r) (classic_surface r).
Definition with_fault_traps (v : Z) (r : TrapState) : TrapState := mkTraps (ring r) (ring_count r) (ticks r) (next_deadline r) (ecall_traps r) v (notable r) (notable_count r) (autonomous r) (classic_surface r).
Definition with_notable (v : list RingSlot) (r : TrapState) : TrapState := mkTraps (ring r) (ring_count r) (ticks r) (next_deadline r) (ecall_traps r) (fault_traps r) v (notable_count r) (autonomous r) (classic_surface r).
Definition with_notable_count (v : Z) (r : TrapState) : TrapState := mkTraps (ring r) (ring_count r) (ticks r) (next_deadline r) (ecall_traps r) (fault_traps r) (notable r) v (autonomous r) (classic_surface r).
Definition with_autonomous (v : bool) (r : TrapState) : TrapState := mkTraps (ring r) (ring_count r) (ticks r) (next_deadline r) (ecall_traps r) (fault_traps r) (notable r) (notable_count r) v (classic_surface r).
Definition with_classic_surface (v : bool) (r : TrapState) : TrapState := mkTraps (ring r) (ring_count r) (ticks r) (next_deadline r) (ecall_traps r) (fault_traps r) (notable r) (notable_count r) (autonomous r) v.

Record Slot := mkSlot {
  state : pstate;
  image : Z;
  caps : Z;
  parent : Z;
  exit_code : Z;
  started_at : Z;
  deadline : Z;
  root : Z;
  resume_frame : Z;
  preempted : bool;
  start_event : Z
}.

Definition with_state (v : pstate) (r : Slot) : Slot := mkSlot v (image r) (caps r) (parent r) (exit_code r) (started_at r) (deadline r) (root r) (resume_frame r) (preempted r) (start_event r).
Definition with_image (v : Z) (r : Slot) : Slot := mkSlot (state r) v (caps r) (parent r) (exit_code r) (started_at r) (deadline r) (root r) (resume_frame r) (preempted r) (start_event r).
Definition with_caps (v : Z) (r : Slot) : Slot := mkSlot (state r) (image r) v (parent r) (exit_code r) (started_at r) (deadline r) (root r) (resume_frame r) (preempted r) (start_event r).
Definition with_parent (v : Z) (r : Slot) : Slot := mkSlot (state r) (image r) (caps r) v (exit_code r) (started_at r) (deadline r) (root r) (resume_frame r) (preempted r) (start_event r).
Definition with_exit_code (v : Z) (r : Slot) : Slot := mkSlot (state r) (image r) (caps r) (parent r) v (started_at r) (deadline r) (root r) (resume_frame r) (preempted r) (start_event r).
Definition with_started_at (v : Z) (r : Slot) : Slot := mkSlot (state r) (image r) (caps r) (parent r) (exit_code r) v (deadline r) (root r) (resume_frame r) (preempted r) (start_event r).
Definition with_deadline (v : Z) (r : Slot) : Slot := mkSlot (state r) (image r) (caps r) (parent r) (exit_code r) (started_at r) v (root r) (resume_frame r) (preempted r) (start_event r).
Definition with_root (v : Z) (r : Slot) : Slot := mkSlot (state r) (image r) (caps r) (parent r) (exit_code r) (started_at r) (deadline r) v (resume_frame r) (preempted r) (start_event r).
Definition with_resume_frame (v : Z) (r : Slot) : Slot := mkSlot (state r) (image r) (caps r) (parent r) (exit_code r) (started_at r) (deadline r) (root r) v (preempted r) (start_event r).
Definition with_preempted (v : bool) (r : Slot) : Slot := mkSlot (state r) (image r) (caps r) (parent r) (exit_code r) (started_at r) (deadline r) (root r) (resume_frame r) v (start_event r).
Definition with_start_event (v : Z) (r : Slot) : Slot := mkSlot (state r) (image r) (caps r) (parent r) (exit_code r) (started_at r) (deadline r) (root r) (resume_frame r) (preempted r) v.

Record Snapshot := mkSnap {
  sn_valid : bool;
  sn_root : Z;
  sn_frame : Z;
  sn_caps : Z;
  sn_image : Z
}.

Definition with_sn_valid (v : bool) (r : Snapshot) : Snapshot := mkSnap v (sn_root r) (sn_frame r) (sn_caps r) (sn_image r).
Definition with_sn_root (v : Z) (r : Snapshot) : Snapshot := mkSnap (sn_valid r) v (sn_frame r) (sn_caps r) (sn_image r).
Definition with_sn_frame (v : Z) (r : Snapshot) : Snapshot := mkSnap (sn_valid r) (sn_root r) v (sn_caps r) (sn_image r).
Definition with_sn_caps (v : Z) (r : Snapshot) : Snapshot := mkSnap (sn_valid r) (sn_root r) (sn_frame r) v (sn_image r).
Definition with_sn_image (v : Z) (r : Snapshot) : Snapshot := mkSnap (sn_valid r) (sn_root r) (sn_frame r) (sn_caps r) v.

(** The statics of payload.rs. *)
Record PayState := mkPay {
  kernel_root : Z;  (* KERNEL_ROOT *)
  table : list Slot;  (* TABLE *)
  current : Z;  (* CURRENT *)
  snaps : list Snapshot;  (* SNAPS *)
  last_snap : Z;  (* LAST_SNAP *)
  auto_fork : Z;  (* AUTO_FORK *)
  stashed_byte : Z;  (* STASHED_BYTE *)
  key_ring : list byte;  (* KEY_RING *)
  key_head : Z;  (* KEY_HEAD *)
  key_tail : Z;  (* KEY_TAIL *)
  key_pending : bool  (* KEY_PENDING *)
}.

Definition with_kernel_root (v : Z) (r : PayState) : PayState := mkPay v (table r) (current r) (snaps r) (last_snap r) (auto_fork r) (stashed_byte r) (key_ring r) (key_head r) (key_tail r) (key_pending r).
Definition with_table (v : list Slot) (r : PayState) : PayState := mkPay (kernel_root r) v (current r) (snaps r) (last_snap r) (auto_fork r) (stashed_byte r) (key_ring r) (key_head r) (key_tail r) (key_pending r).
Definition with_current (v : Z) (r : PayState) : PayState := mkPay (kernel_root r) (table r) v (snaps r) (last_snap r) (auto_fork r) (stashed_byte r) (key_ring r) (key_head r) (key_tail r) (key_pending r).
Definition with_snaps (v : list Snapshot) (r : PayState) : PayState := mkPay (kernel_root r) (table r) (current r) v (last_snap r) (auto_fork r) (stashed_byte r) (key_ring r) (key_head r) (key_tail r) (key_pending r).
Definition with_last_snap (v : Z) (r : PayState) : PayState := mkPay (kernel_root r) (table r) (current r) (snaps r) v (auto_fork r) (stashed_byte r) (key_ring r) (key_head r) (key_tail r) (key_pending r).
Definition with_auto_fork (v : Z) (r : PayState) : PayState := mkPay (kernel_root r) (table r) (current r) (snaps r) (last_snap r) v (stashed_byte r) (key_ring r) (key_head r) (key_tail r) (key_pending r).
Definition with_stashed_byte (v : Z) (r : PayState) : PayState := mkPay (kernel_root r) (table r) (current r) (snaps r) (last_snap r) (auto_fork r) v (key_ring r) (key_head r) (key_tail r) (key_pending r).
Definition with_key_ring (v : list byte) (r : PayState) : PayState := mkPay (kernel_root r) (table r) (current r) (snaps r) (last_snap r) (auto_fork r) (stashed_byte r) v (key_head r) (key_tail r) (key_pending r).
Definition with_key_head (v : Z) (r : PayState) : PayState := mkPay (kernel_root r) (table r) (current r) (snaps r) (last_snap r) (auto_fork r) (stashed_byte r) (key_ring r) v (key_tail r) (key_pending r).
Definition with_key_tail (v : Z) (r : PayState) : PayState := mkPay (kernel_root r) (table r) (current r) (snaps r) (last_snap r) (auto_fork r) (stashed_byte r) (key_ring r) (key_head r) v (key_pending r).
Definition with_key_pending (v : bool) (r : PayState) : PayState := mkPay (kernel_root r) (table r) (current r) (snaps r) (last_snap r) (auto_fork r) (stashed_byte r) (key_ring r) (key_head r) (key_tail r) v.

(** The whole kernel state. *)
Record K := mkK {
  hw : Hw;
  pool : fpool;  (* frames.rs *)
  traps : TrapState;
  pay : PayState;
  ops : opring;  (* OP_IDS, OP_HEAD *)
  events : Z  (* events.rs: NEXT_ID, as the number of ids taken since boot *)
}.

Definition with_hw (v : Hw) (r : K) : K := mkK v (pool r) (traps r) (pay r) (ops r) (events r).
Definition with_pool (v : fpool) (r : K) : K := mkK (hw r) v (traps r) (pay r) (ops r) (events r).
Definition with_traps (v : TrapState) (r : K) : K := mkK (hw r) (pool r) v (pay r) (ops r) (events r).
Definition with_pay (v : PayState) (r : K) : K := mkK (hw r) (pool r) (traps r) v (ops r) (events r).
Definition with_ops (v : opring) (r : K) : K := mkK (hw r) (pool r) (traps r) (pay r) v (events r).
Definition with_events (v : Z) (r : K) : K := mkK (hw r) (pool r) (traps r) (pay r) (ops r) v.

(** ** Build configuration *)

(** The payload binaries the build embeds. *)
Inductive payload_file :=
  | HELLO | CRASHER | MUZZLED | SPAWNER | CHILD | RUNAWAY | WILD | WXVIOL | FORKER | LEAKER
  | DELEGATOR | REDELEGATOR | WORKER | BADJUMP | BREAKER | MISALIGN | NULLREAD | EXECDATA
  | STACKOVER | FUZZDELEGATE | INJECTOR | CRAYCAST | DOOM.

(** What the build fixes: the cargo features, the profile's overflow checks,
    the bytes of the embedded binaries and the addresses the linker chooses. *)
Class Build := {
  feat_doom : bool;
  feat_cpayloads : bool;
  dev_profile : bool;
  payload_bytes : payload_file -> bytes;
  kernel_end : Z;
  boot_stack_top : Z;
  scheduler_resume_pc : Z;
  wfi_pc : Z                     (* behind the [wfi] of [wait_for_interrupt] *)
}.

(** ** The monad *)

Inductive exit :=
  | XPanic                       (* a Rust panic *)
  | XShutdown                    (* hal::shutdown *)
  | XIllegal                     (* hal::trigger_illegal_instruction *)
  | XRun                         (* into the scheduler: payload::run *)
  | XIdle                        (* into the command loop: idle *)
  | XResume (satp frame : Z).    (* hal::resume_user *)

Inductive res (T : Type) := Val (v : T) | Exit (x : exit).
Arguments Val {T} _.
Arguments Exit {T} _.

Definition M (T : Type) : Type := K -> res T * K.

Definition ret {T} (v : T) : M T := fun k => (Val v, k).
Definition stop {T} (x : exit) : M T := fun k => (Exit x, k).
Definition bind {S T} (m : M S) (f : S -> M T) : M T := fun k =>
  match m k with
  | (Val v, k') => f v k'
  | (Exit x, k') => (Exit x, k')
  end.
Definition gets {T} (f : K -> T) : M T := fun k => (Val (f k), k).
Definition modify (f : K -> K) : M unit := fun k => (Val tt, f k).

Declare Scope kern_scope.
Delimit Scope kern_scope with K.
Notation "'let!' x := m 'in' f" := (bind m (fun x => f))
  (at level 10, x name, m at level 100, f at level 200) : kern_scope.
Notation "'let!' ' x := m 'in' f" := (bind m (fun x => f))
  (at level 10, x strict pattern, m at level 100, f at level 200) : kern_scope.
Notation "m ;;; f" := (bind m (fun _ => f)) (at level 199, right associativity) : kern_scope.
Open Scope kern_scope.

(** The bounds check of an index or a slice. *)
Definition in_bounds (b : bool) : M unit := if b then ret tt else stop XPanic.

(** [for x in l { body }]. *)
Fixpoint for_each {T} (l : list T) (body : T -> M unit) : M unit :=
  match l with
  | [] => ret tt
  | x :: r => body x ;;; for_each r body
  end.

(** ** State access *)

Definition on_hw (f : Hw -> Hw) (k : K) : K := with_hw (f (hw k)) k.
Definition on_traps (f : TrapState -> TrapState) (k : K) : K := with_traps (f (traps k)) k.
Definition on_pay (f : PayState -> PayState) (k : K) : K := with_pay (f (pay k)) k.

(** The pool operations of [Frames] and [Mm] on the kernel's pool. *)
Definition pooled {T} (f : fpool -> T * fpool) : M T := fun k =>
  let '(v, p) := f (pool k) in (Val v, with_pool p k).
Definition pool_do (f : fpool -> fpool) : M unit := modify (fun k => with_pool (f (pool k)) k).

Definition NO_PID : Z := W64 - 1.

(** [TABLE[pid]], [SNAPS[sid]]: a load and a store of some fields. *)
Definition slot_at (pid : Z) (k : K) : option Slot :=
  if pid <? 0 then None else table (pay k) !! Z.to_nat pid.
Definition get_slot (pid : Z) : M Slot := fun k =>
  match slot_at pid k with Some s => (Val s, k) | None => (Exit XPanic, k) end.
Definition upd_slot (pid : Z) (f : Slot -> Slot) : M unit := fun k =>
  match slot_at pid k with
  | Some s => (Val tt, on_pay (fun p => with_table (<[Z.to_nat pid := f s]> (table p)) p) k)
  | None => (Exit XPanic, k)
  end.

Definition snap_at (sid : Z) (k : K) : option Snapshot :=
  if sid <? 0 then None else snaps (pay k) !! Z.to_nat sid.
Definition get_snap (sid : Z) : M Snapshot := fun k =>
  match snap_at sid k with Some s => (Val s, k) | None => (Exit XPanic, k) end.
Definition upd_snap (sid : Z) (f : Snapshot -> Snapshot) : M unit := fun k =>
  match snap_at sid k with
  | Some s => (Val tt, on_pay (fun p => with_snaps (<[Z.to_nat sid := f s]> (snaps p)) p) k)
  | None => (Exit XPanic, k)
  end.

(** ** Machine operations (hal/sbi.rs, hal/csr.rs) *)

Definition console_getchar : M (option byte) := fun k =>
  match hw_in (hw k) with
  | [] => (Val None, k)
  | b :: r => (Val b, on_hw (with_hw_in r) k)
  end.

Definition read_time : M Z := fun k =>
  let h := hw k in
  match hw_dt h with
  | [] => (Val (hw_now h), k)
  | d :: r => let now := wrap64 (hw_now h + Z.abs d) in
              (Val now, with_hw (with_hw_now now (with_hw_dt r h)) k)
  end.

Definition set_timer (t : Z) : M unit := modify (on_hw (with_hw_timer t)).
Definition write_satp (v : Z) : M unit := modify (on_hw (with_hw_satp v)).

(** One burst of [console_putchar]: a frame or a raw line. A poisoned frame
    sends no byte. *)
Definition put_wire (b : bytes) : M unit := modify (fun k =>
  match b with [] => k | _ => on_hw (fun h => with_hw_out (hw_out h ++ [b]) h) k end).

(** Build a frame and send it; every such block runs with interrupts off. *)
Definition send (w : wprog) : M unit := put_wire (emit (build w)).

(** ** Event identity (events.rs) *)

(** The value of the [AtomicU64]: the count of ids taken, modulo 2^64. *)
Definition next_id (k : K) : Z := wrap64 (events k).

Definition next_event : M Z := fun k =>
  (Val (next_id k), with_events (events k + 1) k).
