(* ===== verification/BuildRs.v ===== *)
(** * The build scripts (kernel/build.rs and the payloads' build.rs)

    A run over an environment: the manifest directory, the two cargo features
    and the files that exist. It prints cargo directives and stops with a panic
    at the first payload ELF that is missing. *)

From S2P Require Import Prelude KState.

Record Env := mkEnv {
  manifest_dir : bytes;
  want_cpayloads : bool;   (* CARGO_FEATURE_CPAYLOADS is set *)
  want_doom : bool;        (* CARGO_FEATURE_DOOM is set *)
  file_exists : bytes -> bool
}.

(** The lines printed so far, and the path of the missing file on a panic. *)
Definition script : Type := list bytes * option bytes.

(** [name.to_uppercase()] on the ASCII names of the list. *)
Definition to_upper (b : byte) : byte := if (97 <=? bz b) && (bz b <=? 122) then byte.of_Z (bz b - 32) else b.

Definition RUST_PAYLOADS : list bytes :=
  [lit "hello"; lit "crasher"; lit "muzzled"; lit "spawner"; lit "child"; lit "runaway"; lit "wild"; lit "wxviol";
   lit "forker"; lit "leaker"; lit "delegator"; lit "redelegator"; lit "worker"; lit "badjump"; lit "breaker";
   lit "misalign"; lit "nullread"; lit "execdata"; lit "stackover"; lit "fuzzdelegate"; lit "injector"].

Definition payload_dir (e : Env) : bytes :=
  manifest_dir e ++ lit "/../payloads/target/riscv64gc-unknown-none-elf/release".

Definition payload_path (e : Env) (name : bytes) : bytes := payload_dir e ++ lit "/" ++ name.

Definition env_line (e : Env) (var name : bytes) : bytes :=
  lit "cargo:rustc-env=PAYLOAD_" ++ var ++ lit "=" ++ payload_path e name.

(** Require one ELF and announce it under the variable [var]. *)
Definition require (e : Env) (var name : bytes) (st : script) : script :=
  match st with
  | (out, Some missing) => (out, Some missing)
  | (out, None) =>
      if negb (file_exists e (payload_path e name)) then (out, Some (payload_path e name))
      else (out ++ [env_line e var name; lit "cargo:rerun-if-changed=" ++ payload_path e name], None)
  end.

Definition rust_payloads (e : Env) (names : list bytes) (st : script) : script :=
  fold_left (fun st name => require e (map to_upper name) name st) names st.

Definition build_main (e : Env) : script :=
  let st := ([lit "cargo:rustc-link-arg=-T" ++ manifest_dir e ++ lit "/link.ld"; lit "cargo:rerun-if-changed=link.ld"], None) in
  let st := rust_payloads e RUST_PAYLOADS st in
  let st := if want_cpayloads e then require e (lit "CRAYCAST") (lit "craycast") st else st in
  if want_doom e then require e (lit "DOOM") (lit "doom") st else st.

(** The build.rs of a payload crate (the same in all of them): [dir] is the
    environment's CARGO_MANIFEST_DIR, without which [unwrap] panics. *)
Definition payload_build_main (dir : option bytes) : option (list bytes) :=
  match dir with
  | None => None
  | Some dir => Some [lit "cargo:rustc-link-arg=-T" ++ dir ++ lit "/../link.ld"; lit "cargo:rerun-if-changed=../link.ld"]
  end.

(** The names the kernel embeds its payloads under: the variable of each
    [include_bytes!] and the file behind it. *)
Definition embedded (p : payload_file) : bytes :=
  match p with
  | HELLO => lit "hello" | CRASHER => lit "crasher" | MUZZLED => lit "muzzled" | SPAWNER => lit "spawner"
  | CHILD => lit "child" | RUNAWAY => lit "runaway" | WILD => lit "wild" | WXVIOL => lit "wxviol"
  | FORKER => lit "forker" | LEAKER => lit "leaker" | DELEGATOR => lit "delegator"
  | REDELEGATOR => lit "redelegator" | WORKER => lit "worker" | BADJUMP => lit "badjump" | BREAKER => lit "breaker"
  | MISALIGN => lit "misalign" | NULLREAD => lit "nullread" | EXECDATA => lit "execdata"
  | STACKOVER => lit "stackover" | FUZZDELEGATE => lit "fuzzdelegate" | INJECTOR => lit "injector"
  | CRAYCAST => lit "craycast" | DOOM => lit "doom"
  end.

Definition wanted (e : Env) (p : payload_file) : bool :=
  match p with CRAYCAST => want_cpayloads e | DOOM => want_doom e | _ => true end.

(** A fold over [require]: it stops at the first missing file, and without one
    it prints the lines of every name. *)
Lemma require_all (e : Env) (l : list (bytes * bytes)) (out : list bytes) :
  match fold_left (fun st '(var, name) => require e var name st) l (out, None) with
  | (out', None) => Forall (fun '(var, name) => file_exists e (payload_path e name) = true /\ env_line e var name ∈ out') l /\ out `prefix_of` out'
  | (out', Some missing) => file_exists e missing = false /\ Exists (fun '(_, name) => missing = payload_path e name) l
  end.
Proof.
  revert out. induction l as [|[var name] l IH]; intros out; cbn [fold_left]; [done|]. unfold require at 2.
  destruct (file_exists e (payload_path e name)) eqn:Ef; cbn [negb].
  - match goal with |- context [fold_left _ l (?o, None)] => specialize (IH o) end.
    destruct (fold_left _ l _) as [out' [missing|]].
    + destruct IH as [H1 H2]. split; [done|]. by right.
    + destruct IH as [H1 H2]. split.
      * constructor; [|done]. split; [done|]. eapply elem_of_prefix; [|exact H2]. rewrite elem_of_app. right. left.
      * etransitivity; [|exact H2]. by apply prefix_app_r.
  - assert (Hst : forall l0 o m, fold_left (fun st '(var0, name0) => require e var0 name0 st) l0 (o, Some m) = (o, Some m)).
    { clear. induction l0 as [|[? ?] l0 IH]; intros o m; [done|]. cbn [fold_left require]. apply IH. }
    rewrite Hst. split; [done|]. by left.
Qed.

(** Every requirement of a run, in order. *)
Definition requirements (e : Env) : list (bytes * bytes) :=
  map (fun n => (map to_upper n, n)) RUST_PAYLOADS ++
  (if want_cpayloads e then [(lit "CRAYCAST", lit "craycast")] else []) ++
  (if want_doom e then [(lit "DOOM", lit "doom")] else []).

Lemma build_main_requires (e : Env) :
  build_main e = fold_left (fun st '(var, name) => require e var name st) (requirements e)
    ([lit "cargo:rustc-link-arg=-T" ++ manifest_dir e ++ lit "/link.ld"; lit "cargo:rerun-if-changed=link.ld"], None).
Proof.
  unfold build_main, requirements, rust_payloads. rewrite !fold_left_app.
  assert (Hm : forall l st, fold_left (fun st '(var, name) => require e var name st) (map (fun n => (map to_upper n, n)) l) st =
    fold_left (fun st name => require e (map to_upper name) name st) l st).
  { induction l as [|n l IH]; intros st; [done|]. cbn [map fold_left]. apply IH. }
  rewrite Hm. by destruct (want_cpayloads e), (want_doom e).
Qed.

(** The build script is exact. It fails only over an ELF that is really
    missing and really wanted; when it succeeds, every payload the kernel
    embeds under the chosen features exists and has its [PAYLOAD_] variable set
    to its path, so that no [include_bytes!] is left without its file. *)
Theorem build_exact (e : Env) :
  match build_main e with
  | (out, None) => forall p, wanted e p = true ->
      file_exists e (payload_path e (embedded p)) = true /\
      env_line e (map to_upper (embedded p)) (embedded p) ∈ out
  | (out, Some missing) => file_exists e missing = false /\
      exists p, wanted e p = true /\ missing = payload_path e (embedded p)
  end.
Proof.
  rewrite build_main_requires.
  match goal with |- context [fold_left _ (requirements e) (?o, None)] => pose proof (require_all e (requirements e) o) as H end.
  destruct (fold_left _ _ _) as [out [missing|]].
  - destruct H as [H1 H2]. split; [done|]. apply Exists_exists in H2 as ([var name] & Hin & ->).
    unfold requirements in Hin. rewrite !elem_of_app in Hin. destruct Hin as [Hin|[Hin|Hin]].
    + apply list_elem_of_fmap in Hin as (n & [= -> ->] & Hin). unfold RUST_PAYLOADS in Hin.
      rewrite !elem_of_cons in Hin.
      repeat destruct Hin as [-> |Hin];
      first [by exists HELLO|by exists CRASHER|by exists MUZZLED|by exists SPAWNER|by exists CHILD|by exists RUNAWAY
            |by exists WILD|by exists WXVIOL|by exists FORKER|by exists LEAKER|by exists DELEGATOR|by exists REDELEGATOR
            |by exists WORKER|by exists BADJUMP|by exists BREAKER|by exists MISALIGN|by exists NULLREAD|by exists EXECDATA
            |by exists STACKOVER|by exists FUZZDELEGATE|by exists INJECTOR|by apply not_elem_of_nil in Hin].
    + destruct (want_cpayloads e) eqn:Ew; [|by apply not_elem_of_nil in Hin]. apply list_elem_of_singleton in Hin as [= -> ->].
      exists CRAYCAST. by cbn.
    + destruct (want_doom e) eqn:Ew; [|by apply not_elem_of_nil in Hin]. apply list_elem_of_singleton in Hin as [= -> ->].
      exists DOOM. by cbn.
  - destruct H as [H _]. rewrite Forall_forall in H. intros p Hw.
    apply (H (map to_upper (embedded p), embedded p)). unfold requirements. rewrite !elem_of_app.
    destruct p; cbn [wanted] in Hw; try (left; apply list_elem_of_fmap; eexists; split; [reflexivity|];
      unfold RUST_PAYLOADS, embedded; rewrite !elem_of_cons; tauto).
    + right; left. rewrite Hw. by apply list_elem_of_singleton.
    + right; right. rewrite Hw. by apply list_elem_of_singleton.
Qed.
