(* ===== verification/Sbi.v ===== *)
(** * The firmware interface (kernel/src/hal/sbi.rs)

    The four calls over one [ecall] shim, with the firmware below it as a
    parameter: a state and what an [ecall] with a given [a7], [a6], [a0], [a1]
    leaves in [a0] and [a1]. The machine operations of [KState] are related to
    them under what the SBI specification says of the three extensions. *)

From S2P Require Import Prelude Hal Console KState.

Class Firmware := {
  fw : Type;
  fw_ecall : Z -> Z -> Z -> Z -> fw -> Z * Z * fw
}.

Section Sbi.
Context {F : Firmware}.

Definition sbi_call (eid fid arg0 arg1 : Z) (s : fw) : Z * Z * fw := fw_ecall eid fid arg0 arg1 s.

Definition sbi_putchar (b : byte) (s : fw) : fw := snd (sbi_call 0x01 0 (bz b) 0 s).

(** [u8::try_from(ret).ok()]. *)
Definition sbi_getchar (s : fw) : option byte * fw :=
  let '(ret, _, s') := sbi_call 0x02 0 0 0 s in
  (if (0 <=? ret) && (ret <? 256) then Some (byte.of_Z ret) else None, s').

Definition sbi_set_timer (deadline : Z) (s : fw) : fw := snd (sbi_call 0x54494D45 0 deadline 0 s).

(** The reset call; if the platform lacks it the hart spins in what is left. *)
Definition sbi_shutdown (failure : bool) (s : fw) : fw :=
  snd (sbi_call 0x53525354 0 0 (if failure then 1 else 0) s).

(** The loop of [FrameBuf::emit] over the bytes of a frame. *)
Definition putchars (b : bytes) (s : fw) : fw := fold_left (fun s c => sbi_putchar c s) b s.

(** What the specification promises, seen through the wire, the input queue and
    the timer of a machine state: putchar sends its byte, getchar answers -1 or
    the next byte, the timer call arms the timer. *)
Record sbi_spec (sees : fw -> Hw) : Prop := {
  fw_putchar : forall b s, exists h, h = sees s /\
    sees (snd (fw_ecall 0x01 0 (bz b) 0 s)) = with_hw_out (hw_out h ++ [[b]]) h;
  fw_getchar : forall s, match hw_in (sees s) with
    | Some b :: r => fw_ecall 0x02 0 0 0 s = (bz b, snd (fst (fw_ecall 0x02 0 0 0 s)), snd (fw_ecall 0x02 0 0 0 s)) /\
        sees (snd (fw_ecall 0x02 0 0 0 s)) = with_hw_in r (sees s)
    | None :: r => fst (fst (fw_ecall 0x02 0 0 0 s)) = -1 /\ sees (snd (fw_ecall 0x02 0 0 0 s)) = with_hw_in r (sees s)
    | [] => fst (fst (fw_ecall 0x02 0 0 0 s)) = -1 /\ sees (snd (fw_ecall 0x02 0 0 0 s)) = sees s
    end;
  fw_timer : forall t s, sees (snd (fw_ecall 0x54494D45 0 t 0 s)) = with_hw_timer t (sees s)
}.

Section Spec.
Context (sees : fw -> Hw) (Hspec : sbi_spec sees).

(** A burst of putchars puts exactly its bytes on the wire, in order. *)
Lemma putchars_wire (b : bytes) (s : fw) :
  concat (hw_out (sees (putchars b s))) = concat (hw_out (sees s)) ++ b /\
  hw_in (sees (putchars b s)) = hw_in (sees s).
Proof.
  revert s. induction b as [|c b IH]; intros s; [by rewrite app_nil_r|]. cbn [putchars fold_left].
  destruct (IH (sbi_putchar c s)) as [IH1 IH2]. unfold putchars in IH1, IH2. rewrite IH1, IH2. unfold sbi_putchar, sbi_call.
  destruct (fw_putchar _ Hspec c s) as (h & -> & ->). cbn [hw_out with_hw_out hw_in]. rewrite concat_app. cbn [concat].
  by rewrite app_nil_r, <- app_assoc.
Qed.

(** [console_getchar] of the kernel model is the call's answer. *)
Lemma getchar_refines (s : fw) (k : K) : hw k = sees s ->
  match sbi_getchar s, console_getchar k with
  | (o, s'), (Val o', k') => o = o' /\ hw k' = sees s'
  | _, _ => False
  end.
Proof.
  intros Hk. pose proof (fw_getchar _ Hspec s) as Hg. unfold sbi_getchar, sbi_call, console_getchar. rewrite Hk.
  destruct (fw_ecall 2 0 0 0 s) as [[r v] s'] eqn:E. cbn [fst snd] in Hg.
  destruct (hw_in (sees s)) as [|[b|] rest]; cbn [fst snd] in Hg.
  - destruct Hg as [-> Hg]. cbn. by rewrite Hk, Hg.
  - destruct Hg as [[= ->] Hg]. pose proof (byte.unsigned_range b) as Hb. unfold bz.
    destruct (_ && _) eqn:Er; [|apply andb_false_iff in Er as [Er|Er]; zbool; lia].
    rewrite byte.of_Z_unsigned. cbn. by rewrite Hk, Hg.
  - destruct Hg as [-> Hg]. cbn. by rewrite Hk, Hg.
Qed.

Lemma set_timer_refines (t : Z) (s : fw) (k : K) : hw k = sees s -> hw (snd (set_timer t k)) = sees (sbi_set_timer t s).
Proof. intros Hk. unfold sbi_set_timer, sbi_call. rewrite (fw_timer _ Hspec). cbn. by rewrite Hk. Qed.

End Spec.
End Sbi.

(** The specification can hold: the machine state itself as firmware. *)
Definition hw_ecall (eid fid a0 a1 : Z) (h : Hw) : Z * Z * Hw :=
  if eid =? 0x01 then (0, 0, with_hw_out (hw_out h ++ [[byte.of_Z a0]]) h)
  else if eid =? 0x02 then
    match hw_in h with
    | Some b :: r => (bz b, 0, with_hw_in r h)
    | None :: r => (-1, 0, with_hw_in r h)
    | [] => (-1, 0, h)
    end
  else if eid =? 0x54494D45 then (0, 0, with_hw_timer a0 h)
  else (0, 0, h).

Lemma hw_sbi_spec : @sbi_spec {| fw := Hw; fw_ecall := hw_ecall |} (fun h => h).
Proof.
  split; cbn.
  - intros b s. exists s. split; [done|]. unfold bz. by rewrite byte.of_Z_unsigned.
  - intros s. destruct (hw_in s) as [|[b|] r]; done.
  - done.
Qed.
