(* ===== verification/Hart.v ===== *)
(** * The hart below the kernel (kernel/src/hal/csr.rs and the assembly of
      kernel/src/hal and payloads/sys)

    A register file, the supervisor CSRs and a memory, with the RV64
    instructions the repository's assembly uses. A [global_asm!] block is the
    list of its lines, numeric labels included; [exec] runs it from a line
    number until it calls Rust code, executes [sret] or [ecall], or parks in
    [wfi]. Addresses are physical: every block runs on identity-mapped memory
    or, in a payload, on memory only its own table decides about.

    Control and status registers are WARL: the value a write leaves is the
    hardware's choice among the legal ones, so it is a parameter ([warl]) of
    which only what the privileged specification fixes is assumed. *)

From S2P Require Import Prelude Hal KState.

(** ** Registers *)

Inductive csr := SSTATUS | SIE | STVEC | SSCRATCH | SEPC | SCAUSE | STVAL | SATP | TIME.

#[export] Instance csr_eq_dec : EqDecision csr.
Proof. solve_decision. Defined.

Record hart := mkHart {
  xreg : Z -> Z;      (* x1..x31; x0 reads as 0 *)
  csrs : csr -> Z;
  hmem : mem
}.

(** The ABI names. *)
Definition ZERO : Z := 0.
Definition SP : Z := 2.
Definition T0 : Z := 5.
Definition T1 : Z := 6.
Definition T2 : Z := 7.
Definition RA0 : Z := 10.
Definition RA1 : Z := 11.
Definition RA2 : Z := 12.
Definition RA7 : Z := 17.

Definition gpr (h : hart) (n : Z) : Z := if n =? 0 then 0 else xreg h n.
Definition set_gpr (n v : Z) (h : hart) : hart :=
  mkHart (fun i => if i =? n then v else xreg h i) (csrs h) (hmem h).
Definition set_mem (m : mem) (h : hart) : hart := mkHart (xreg h) (csrs h) m.

(** What a CSR keeps of a written value. *)
Class Isa := { warl : csr -> Z -> Z }.

(** The facts of the privileged specification the theorems use: [sscratch]
    holds any value, a kept value is legal, and the two interrupt fields and
    the previous-privilege field of [sstatus] keep what is written. *)
Class IsaLaws (I : Isa) : Prop := {
  warl_sscratch : forall v, warl SSCRATCH v = v;
  warl_idem : forall c v, warl c (warl c v) = warl c v;
  warl_status_sie : forall v, Z.testbit (warl SSTATUS v) 1 = Z.testbit v 1;
  warl_status_spp : forall v, Z.testbit (warl SSTATUS v) 8 = Z.testbit v 8
}.

Section Machine.
Context {I : Isa}.

Definition set_csr (c : csr) (v : Z) (h : hart) : hart :=
  mkHart (xreg h) (fun d => if decide (d = c) then warl c v else csrs h d) (hmem h).

(** ** CSR access (hal/csr.rs) *)

Definition SSTATUS_SIE : Z := Z.shiftl 1 1.
Definition SIE_STIE : Z := Z.shiftl 1 5.

(** [csrs], [csrrc]: set and clear bits of a CSR. *)
Definition csr_set_bits (c : csr) (mask : Z) (h : hart) : hart := set_csr c (Z.lor (csrs h c) mask) h.
Definition csr_clear_bits (c : csr) (mask : Z) (h : hart) : hart := set_csr c (Z.ldiff (csrs h c) mask) h.

Definition read_scause (h : hart) : Z := csrs h SCAUSE.
Definition read_stval (h : hart) : Z := csrs h STVAL.
Definition read_time_csr (h : hart) : Z := csrs h TIME.
Definition write_stvec (addr : Z) (h : hart) : hart := set_csr STVEC addr h.
(** The [sfence.vma] after it only drops cached translations, which the model
    does not have. *)
Definition write_satp_csr (value : Z) (h : hart) : hart := set_csr SATP value h.
Definition write_sscratch (value : Z) (h : hart) : hart := set_csr SSCRATCH value h.

Definition enable_timer_interrupts (h : hart) : hart :=
  csr_set_bits SSTATUS SSTATUS_SIE (csr_set_bits SIE SIE_STIE h).

(** [without_interrupts(f)], over a closure that may do anything to the hart. *)
Definition without_interrupts {T} (f : hart -> T * hart) (h : hart) : T * hart :=
  let prev := csrs h SSTATUS in
  let '(out, h1) := f (csr_clear_bits SSTATUS SSTATUS_SIE h) in
  if negb (Z.land prev SSTATUS_SIE =? 0) then (out, csr_set_bits SSTATUS SSTATUS_SIE h1)
  else (out, h1).

(** ** Instructions *)

(** [1f], [1b]: the next or the previous line with that label. *)
Inductive target := Fwd (n : nat) | Bwd (n : nat).

(** The Rust functions the assembly calls. *)
Inductive sym := KERNAI_TRAP | KERNAI_START | PMAIN.

Inductive instr :=
  | Lab (n : nat)
  | Sd (rs off base : Z)
  | Ld (rd off base : Z)
  | Addi (rd rs imm : Z)
  | Andi (rd rs imm : Z)
  | Mv (rd rs : Z)
  | Li (rd imm : Z)
  | La (rd addr : Z)
  | Csrrw (rd : Z) (c : csr) (rs : Z)
  | Csrr (rd : Z) (c : csr)
  | Csrw (c : csr) (rs : Z)
  | Csrci (c : csr) (imm : Z)
  | SfenceVma
  | Bnez (rs : Z) (t : target)
  | Bgeu (rs1 rs2 : Z) (t : target)
  | J (t : target)
  | Call (f : sym)
  | Ecall
  | Sret
  | Wfi.

(** The instructions that only change the hart; [None] for the ones that
    transfer control. *)
Definition effect (i : instr) (h : hart) : option hart :=
  match i with
  | Lab _ | SfenceVma => Some h
  | Sd rs off base => Some (set_mem (store (hmem h) (wrap64 (gpr h base + off)) (le_bytes 8 (gpr h rs))) h)
  | Ld rd off base => Some (set_gpr rd (le_word (load (hmem h) (wrap64 (gpr h base + off)) 8)) h)
  | Addi rd rs imm => Some (set_gpr rd (wrap64 (gpr h rs + imm)) h)
  | Andi rd rs imm => Some (set_gpr rd (Z.land (gpr h rs) (wrap64 imm)) h)
  | Mv rd rs => Some (set_gpr rd (gpr h rs) h)
  | Li rd imm => Some (set_gpr rd (wrap64 imm) h)
  | La rd addr => Some (set_gpr rd addr h)
  | Csrrw rd c rs => Some (set_gpr rd (csrs h c) (set_csr c (gpr h rs) h))
  | Csrr rd c => Some (set_gpr rd (csrs h c) h)
  | Csrw c rs => Some (set_csr c (gpr h rs) h)
  | Csrci c imm => Some (csr_clear_bits c imm h)
  | _ => None
  end.

(** The line a numeric label denotes from line [pc]. *)
Fixpoint find_label (n : nat) (l : list instr) (at_ : nat) : option nat :=
  match l with
  | [] => None
  | Lab m :: r => if Nat.eqb m n then Some at_ else find_label n r (S at_)
  | _ :: r => find_label n r (S at_)
  end.

Fixpoint find_label_back (n : nat) (l : list instr) (at_ : nat) (found : option nat) : option nat :=
  match l with
  | [] => found
  | Lab m :: r => find_label_back n r (S at_) (if Nat.eqb m n then Some at_ else found)
  | _ :: r => find_label_back n r (S at_) found
  end.

Definition resolve (prog : list instr) (pc : nat) (t : target) : option nat :=
  match t with
  | Fwd n => find_label n (drop pc prog) pc
  | Bwd n => find_label_back n (take pc prog) 0 None
  end.

(** How a run of a block ends: in a call of Rust code (with the line it
    returns to), at [sret], [ecall] or [wfi], or not at all. *)
Inductive outcome :=
  | Called (f : sym) (pc : nat) (h : hart)
  | Srets (h : hart)
  | Ecalls (pc : nat) (h : hart)
  | Parks (pc : nat) (h : hart)
  | Wild
  | NoFuel.

Definition jump (prog : list instr) (pc : nat) (t : target) (h : hart) (go : nat -> hart -> outcome) : outcome :=
  match resolve prog pc t with Some pc' => go pc' h | None => Wild end.

Fixpoint exec (fuel : nat) (prog : list instr) (pc : nat) (h : hart) : outcome :=
  match fuel with
  | O => NoFuel
  | S f =>
      match prog !! pc with
      | None => Wild
      | Some i =>
          match effect i h with
          | Some h' => exec f prog (S pc) h'
          | None =>
              match i with
              | Bnez rs t => if gpr h rs =? 0 then exec f prog (S pc) h else jump prog pc t h (exec f prog)
              | Bgeu r1 r2 t => if gpr h r2 <=? gpr h r1 then jump prog pc t h (exec f prog) else exec f prog (S pc) h
              | J t => jump prog pc t h (exec f prog)
              | Call s => Called s (S pc) h
              | Ecall => Ecalls (S pc) h
              | Sret => Srets h
              | Wfi => Parks (S pc) h
              | _ => Wild
              end
          end
      end
  end.

(** The harts a straight run passes through, the first excluded. *)
Fixpoint trail (blk : list instr) (h : hart) : list hart :=
  match blk with
  | [] => []
  | i :: r => match effect i h with Some h' => h' :: trail r h' | None => [] end
  end.

(** The context a hart holds, as the kernel's trap frames describe one. *)
Definition hart_frame (h : hart) : TrapFrame :=
  mkFrame (map (gpr h) (seqZ 1 31)) (csrs h SEPC) (csrs h SSTATUS).

(** ** Straight-line code *)

(** A block in which every instruction falls through. *)
Fixpoint straight (blk : list instr) (h : hart) : option hart :=
  match blk with
  | [] => Some h
  | i :: r => match effect i h with Some h' => straight r h' | None => None end
  end.

Lemma straight_app (b1 b2 : list instr) (h h1 : hart) :
  straight b1 h = Some h1 -> straight (b1 ++ b2) h = straight b2 h1.
Proof.
  revert h. induction b1 as [|i r IH]; intros h H; cbn [straight app] in *; [congruence|].
  destruct (effect i h); [by apply IH|done].
Qed.

(** A fall-through block inside a program runs as the block. *)
Lemma exec_straight (blk prog : list instr) (pc fuel : nat) (h h' : hart) :
  (exists rest, drop pc prog = blk ++ rest) -> straight blk h = Some h' ->
  exec (length blk + fuel) prog pc h = exec fuel prog (pc + length blk) h'.
Proof.
  revert pc h. induction blk as [|i r IH]; intros pc h [rest Hd] H; cbn [straight app length] in *.
  - injection H as ->. by rewrite Nat.add_0_r.
  - assert (Hi : prog !! pc = Some i).
    { rewrite <- (Nat.add_0_r pc), <- lookup_drop, Hd. done. }
    cbn [exec Nat.add]. rewrite Hi. destruct (effect i h) as [h1|] eqn:E; [|done].
    rewrite (IH (S pc) h1); [f_equal; lia| |done].
    exists rest. rewrite <- Nat.add_1_r, <- drop_drop, Hd. done.
Qed.

(** One line at a time. *)
Lemma exec_effect (f : nat) (prog : list instr) (pc : nat) (i : instr) (h h' : hart) :
  prog !! pc = Some i -> effect i h = Some h' -> exec (S f) prog pc h = exec f prog (S pc) h'.
Proof. intros Hi He. cbn [exec]. rewrite Hi, He. done. Qed.

Lemma exec_bnez (f : nat) (prog : list instr) (pc pc' : nat) (r : Z) (t : target) (h : hart) :
  prog !! pc = Some (Bnez r t) -> resolve prog pc t = Some pc' ->
  exec (S f) prog pc h = exec f prog (if gpr h r =? 0 then S pc else pc') h.
Proof. intros Hi Ht. cbn [exec]. rewrite Hi. cbn [effect]. unfold jump. rewrite Ht. by destruct (_ =? _). Qed.

Lemma exec_bgeu (f : nat) (prog : list instr) (pc pc' : nat) (r1 r2 : Z) (t : target) (h : hart) :
  prog !! pc = Some (Bgeu r1 r2 t) -> resolve prog pc t = Some pc' ->
  exec (S f) prog pc h = exec f prog (if gpr h r2 <=? gpr h r1 then pc' else S pc) h.
Proof. intros Hi Ht. cbn [exec]. rewrite Hi. cbn [effect]. unfold jump. rewrite Ht. by destruct (_ <=? _). Qed.

Lemma exec_j (f : nat) (prog : list instr) (pc pc' : nat) (t : target) (h : hart) :
  prog !! pc = Some (J t) -> resolve prog pc t = Some pc' -> exec (S f) prog pc h = exec f prog pc' h.
Proof. intros Hi Ht. cbn [exec]. rewrite Hi. cbn [effect]. unfold jump. by rewrite Ht. Qed.

Lemma exec_call (f : nat) (prog : list instr) (pc : nat) (s : sym) (h : hart) :
  prog !! pc = Some (Call s) -> exec (S f) prog pc h = Called s (S pc) h.
Proof. intros Hi. cbn [exec]. rewrite Hi. done. Qed.

Lemma exec_sret (f : nat) (prog : list instr) (pc : nat) (h : hart) :
  prog !! pc = Some Sret -> exec (S f) prog pc h = Srets h.
Proof. intros Hi. cbn [exec]. rewrite Hi. done. Qed.

Lemma csr_set_same (c : csr) (v : Z) (h : hart) : csrs (set_csr c v h) c = warl c v.
Proof. unfold set_csr; cbn [csrs]. by rewrite decide_True by done. Qed.

Lemma gpr_set (n v m : Z) (h : hart) : n <> 0 -> gpr (set_gpr n v h) m = if m =? n then v else gpr h m.
Proof.
  intros Hn. unfold gpr, set_gpr; cbn. destruct (m =? 0) eqn:E0, (m =? n) eqn:E; zbool; try done. lia.
Qed.

End Machine.
