(* ===== verification/Traps.v ===== *)
(** * Trap records, timer cadence and saved frames (kernel/src/traps.rs)

    The part of traps.rs below the payload table: the trap frame and its
    serialisation into a pool frame, the two trap rings and the counters, the
    digest, and re-arming the timer. The dispatch itself is in [Handler]. *)

From S2P Require Import Prelude Hal Frames Console RpcJson KState.

Definition TICK_INTERVAL : Z := 10000.

Definition INTERRUPT_BIT : Z := Z.shiftl 1 63.
Definition CAUSE_S_TIMER : Z := Z.lor INTERRUPT_BIT 5.
Definition CAUSE_ILLEGAL_INSTRUCTION : Z := 2.
Definition CAUSE_U_ECALL : Z := 8.

Definition SSTATUS_SPP : Z := Z.shiftl 1 8.
Definition SSTATUS_SPIE : Z := Z.shiftl 1 5.

(** ** The trap frame *)

Definition X_SP : nat := 1.
Definition X_A0 : nat := 9.
Definition X_A1 : nat := 10.
Definition X_A2 : nat := 11.
Definition X_A7 : nat := 16.

Definition reg (f : TrapFrame) (i : nat) : Z := nth i (regs f) 0.
Definition x_ (f : TrapFrame) (n : nat) : Z := match n with O => 0 | S i => reg f i end.
Definition a0 (f : TrapFrame) : Z := reg f X_A0.
Definition a1 (f : TrapFrame) : Z := reg f X_A1.
Definition a2 (f : TrapFrame) : Z := reg f X_A2.
Definition a7 (f : TrapFrame) : Z := reg f X_A7.
Definition set_a0 (v : Z) (f : TrapFrame) : TrapFrame := with_regs (<[X_A0 := v]> (regs f)) f.
Definition set_sp (v : Z) (f : TrapFrame) : TrapFrame := with_regs (<[X_SP := v]> (regs f)) f.
Definition is_from_user (f : TrapFrame) : bool := Z.land (sstatus f) SSTATUS_SPP =? 0.
Definition advance_past_ecall (f : TrapFrame) : TrapFrame := with_sepc (wrap64 (sepc f + 4)) f.

(** [hal::phys_write_u64] with its result ignored. *)
Definition poke (pa v : Z) (p : fpool) : fpool :=
  with_mem p (default (pmem p) (phys_write_u64 (pmem p) pa v)).

Fixpoint poke_regs (i : Z) (rs : list Z) (pa : Z) (p : fpool) : fpool :=
  match rs with
  | [] => p
  | r :: rest => poke_regs (i + 1) rest pa (poke (pa + i * 8) r p)
  end.

Definition save_frame_to (f : TrapFrame) (pa a0v : Z) (p : fpool) : fpool :=
  let p := poke_regs 0 (regs f) pa p in
  let p := poke (pa + Z.of_nat X_A0 * 8) a0v p in
  let p := poke (pa + 248) (sepc f) p in
  poke (pa + 256) (sstatus f) p.

Definition init_frame_to (pa entry : Z) (p : fpool) : fpool :=
  poke (pa + 256) SSTATUS_SPIE (poke (pa + 248) entry p).

(** What [__resume_user] loads from the saved frame at [pa] (hal/trap.rs). *)
Definition load_frame (m : mem) (pa : Z) : TrapFrame :=
  {| regs := map (fun i => le_word (load m (pa + i * 8) 8)) (seqZ 0 31);
     sepc := le_word (load m (pa + 248) 8);
     sstatus := le_word (load m (pa + 256) 8) |}.

(** ** The trap rings *)

Definition RING_SIZE : nat := 8.
Definition NOTABLE_SIZE : nat := 4.
Definition ring_slot_new : RingSlot := mkRing 0 0 0 0.

Definition traps_init : TrapState :=
  {| ring := replicate RING_SIZE ring_slot_new; ring_count := 0; ticks := 0; next_deadline := 0;
     ecall_traps := 0; fault_traps := 0; notable := replicate NOTABLE_SIZE ring_slot_new;
     notable_count := 0; autonomous := false; classic_surface := false |}.

Definition ring_index (n : Z) (size : nat) : nat := Z.to_nat (n mod Z.of_nat size).

Definition ring_record (id scause sepc stval : Z) (t : TrapState) : TrapState :=
  let slot := mkRing id scause sepc stval in
  let n := ring_count t in
  let t := with_ring (<[ring_index n RING_SIZE := slot]> (ring t)) t in
  let t := with_ring_count (wrap64 (n + 1)) t in
  if scause =? CAUSE_S_TIMER then t else
  let t := if scause =? CAUSE_U_ECALL then with_ecall_traps (wrap64 (ecall_traps t + 1)) t
           else with_fault_traps (wrap64 (fault_traps t + 1)) t in
  let m := notable_count t in
  let t := with_notable (<[ring_index m NOTABLE_SIZE := slot]> (notable t)) t in
  with_notable_count (wrap64 (m + 1)) t.

(** ** Names *)

Definition severity_of (scause : Z) : bytes :=
  if scause =? CAUSE_S_TIMER then lit "trace"
  else if scause =? CAUSE_U_ECALL then lit "info"
  else if negb (Z.land scause INTERRUPT_BIT =? 0) then lit "warn"
  else lit "error".

Definition cause_name (scause : Z) : bytes :=
  if scause =? 0 then lit "instruction_address_misaligned"
  else if scause =? 1 then lit "instruction_access_fault"
  else if scause =? 2 then lit "illegal_instruction"
  else if scause =? 3 then lit "breakpoint"
  else if scause =? 4 then lit "load_address_misaligned"
  else if scause =? 5 then lit "load_access_fault"
  else if scause =? 6 then lit "store_address_misaligned"
  else if scause =? 7 then lit "store_access_fault"
  else if (8 <=? scause) && (scause <=? 11) then lit "ecall"
  else if scause =? 12 then lit "instruction_page_fault"
  else if scause =? 13 then lit "load_page_fault"
  else if scause =? 15 then lit "store_page_fault"
  else if scause =? CAUSE_S_TIMER then lit "timer"
  else if negb (Z.land scause INTERRUPT_BIT =? 0) then lit "unexpected_interrupt"
  else lit "unknown".

(** ** Ring dumps and the digest *)

Fixpoint try_all (l : list wprog) : wprog :=
  match l with [] => wok | w :: r => Try w (try_all r) end.

Definition ring_entry (t : TrapState) (first n : Z) : wprog :=
  let slot := nth (ring_index n RING_SIZE) (ring t) ring_slot_new in
  ((if first <? n then Put (lit ",") else wok) +?
   fmt [js "{'id':"; dec (r_id slot); js ",'cause':'"; cause_name (r_scause slot);
        js "','sepc':'0x"; hex (r_sepc slot); js "'}"])%W.

Definition write_ring (t : TrapState) : wprog :=
  let count := ring_count t in
  let first := saturating_sub count (Z.of_nat RING_SIZE) in
  (Put (lit "[") +? try_all (map (ring_entry t first) (seqZ first (count - first))) +?
   Put (lit "]"))%W.

Definition emit_ring_dump : M unit :=
  let! id := next_event in
  let! t := gets traps in
  send (fmt [js "{'id':"; dec id; js ",'type':'trap_ring','count':"; dec (ring_count t);
             js ",'entries':"] +! write_ring t +! Put (lit "}"))%W.

Definition write_ring_resource (t : TrapState) : wprog :=
  (fmt [js "{'count':"; dec (ring_count t); js ",'entries':"] +? write_ring t +? Put (lit "}"))%W.

Definition digest_show (t : TrapState) (budget : Z) : Z :=
  Z.min (Z.min (notable_count t) budget) (Z.of_nat NOTABLE_SIZE).

Definition digest_item (t : TrapState) (k : Z) : wprog :=
  let idx := ring_index (wrap64 (notable_count t - 1 - k)) NOTABLE_SIZE in
  let slot := nth idx (notable t) ring_slot_new in
  ((if 0 <? k then Put (lit ",") else wok) +?
   fmt [js "{'id':"; dec (r_id slot); js ",'severity':'"; severity_of (r_scause slot);
        js "','cause':'"; cause_name (r_scause slot); js "','sepc':'0x"; hex (r_sepc slot); js "'}"])%W.

Definition write_digest (t : TrapState) (budget : Z) : wprog :=
  let total := ring_count t in
  let show := digest_show t budget in
  (fmt [js "{'budget':"; dec budget; js ",'autonomy':'";
        if autonomous t then lit "autonomous" else lit "reactive";
        js "','totals':{'traps':"; dec total; js ",'timer':"; dec (ticks t);
        js ",'ecall':"; dec (ecall_traps t); js ",'fault':"; dec (fault_traps t);
        js "},'by_severity':{'error':"; dec (fault_traps t); js ",'info':"; dec (ecall_traps t);
        js ",'trace':"; dec (ticks t); js "},'items':["] +?
   try_all (map (digest_item t) (seqZ 0 show)) +?
   fmt [js "],'elided':"; dec (saturating_sub total show); js "}"])%W.

(** ** Timer cadence *)

Definition arm_first_tick : M unit :=
  let! now := read_time in
  let deadline := wrap64 (now + TICK_INTERVAL) in
  modify (on_traps (with_next_deadline deadline)) ;;;
  set_timer deadline.

(** The re-arming of [handle]: the next deadline from the previous one, pushed
    forward when it has already passed. *)
Definition next_tick (prev now : Z) : Z :=
  let next := wrap64 (prev + TICK_INTERVAL) in
  if next <=? now then wrap64 (now + TICK_INTERVAL) else next.

Definition rearm : M unit :=
  let! now := read_time in
  let! prev := gets (fun k => next_deadline (traps k)) in
  modify (on_traps (with_next_deadline (next_tick prev now))) ;;;
  set_timer (next_tick prev now).

(** [TICKS.fetch_add(1) + 1]. *)
Definition count_tick : M Z := fun k =>
  let seq := wrap64 (ticks (traps k) + 1) in
  (Val seq, on_traps (with_ticks seq) k).
