(* ===== verification/TrapsProofs.v ===== *)
(** * Trap rings, digest, timer cadence and saved frames (theorems about [Traps]) *)

From S2P Require Import Prelude Hal Frames Console RpcJson KState Traps.

(** ** The rings hold the recent history *)

(** The state after a history of traps. *)
Definition record (r : RingSlot) (t : TrapState) : TrapState :=
  ring_record (r_id r) (r_scause r) (r_sepc r) (r_stval r) t.
Definition recorded (ts : list RingSlot) : TrapState := fold_left (fun t r => record r t) ts traps_init.

Definition is_notable (r : RingSlot) : bool := negb (r_scause r =? CAUSE_S_TIMER).
Definition is_ecall (r : RingSlot) : bool := r_scause r =? CAUSE_U_ECALL.
Definition notables (ts : list RingSlot) : list RingSlot := List.filter is_notable ts.
Definition count_of (p : RingSlot -> bool) (ts : list RingSlot) : Z := Z.of_nat (length (List.filter p ts)).

Lemma ring_eta (r : RingSlot) : mkRing (r_id r) (r_scause r) (r_sepc r) (r_stval r) = r.
Proof. by destruct r. Qed.

Lemma ring_index_nat (n size : nat) : (0 < size)%nat -> ring_index (Z.of_nat n) size = (n mod size)%nat.
Proof. intros H. unfold ring_index. rewrite <- Nat2Z.inj_mod. apply Nat2Z.id. Qed.

Record holds (t : TrapState) (ts : list RingSlot) : Prop := {
  h_ring : ring_holds RING_SIZE ring_slot_new (ring t) ts;
  h_count : ring_count t = Z.of_nat (length ts);
  h_notable : ring_holds NOTABLE_SIZE ring_slot_new (notable t) (notables ts);
  h_ncount : notable_count t = Z.of_nat (length (notables ts));
  h_ecalls : ecall_traps t = count_of is_ecall (notables ts);
  h_faults : fault_traps t = count_of (fun r => negb (is_ecall r)) (notables ts)
}.

Lemma filter_snoc {T} (p : T -> bool) (l : list T) (x : T) :
  List.filter p (l ++ [x]) = List.filter p l ++ (if p x then [x] else []).
Proof. induction l as [|y l IH]; cbn; [by destruct (p x)|]. rewrite IH. by destruct (p y). Qed.

Lemma filter_le {T} (p : T -> bool) (l : list T) : (length (List.filter p l) <= length l)%nat.
Proof. induction l as [|y l IH]; cbn; [lia|]. destruct (p y); cbn; lia. Qed.

Lemma holds_record (t : TrapState) (ts : list RingSlot) (r : RingSlot) :
  holds t ts -> Z.of_nat (length ts) + 1 < W64 -> holds (record r t) (ts ++ [r]).
Proof.
  intros [Hr Hc Hn Hnc He Hf] Hlt. unfold record, ring_record. rewrite ring_eta.
  pose proof (filter_le is_notable ts) as Hle. fold (notables ts) in Hle.
  pose proof (filter_le is_ecall (notables ts)) as Hle2.
  pose proof (filter_le (fun r => negb (is_ecall r)) (notables ts)) as Hle3.
  assert (ring_holds RING_SIZE ring_slot_new (<[ring_index (ring_count t) RING_SIZE := r]> (ring t)) (ts ++ [r])) as Hr'.
  { rewrite Hc, ring_index_nat by (unfold RING_SIZE; lia). apply ring_holds_push; [unfold RING_SIZE; lia|done]. }
  assert (forall (p : RingSlot -> bool) l, (length (List.filter p l) <= length ts)%nat ->
    wrap64 (count_of p l + 1) = count_of p l + 1) as Hw by (intros; apply wrap64_small; unfold count_of; lia).
  assert (wrap64 (Z.of_nat (length ts) + 1) = Z.of_nat (length (ts ++ [r]))) as Hcnt.
  { rewrite length_app, wrap64_small by lia. cbn. lia. }
  assert (wrap64 (Z.of_nat (length (notables ts)) + 1) = Z.of_nat (length (notables ts ++ [r]))) as Hcnt2.
  { rewrite length_app, wrap64_small by lia. cbn. lia. }
  assert (forall p, count_of p (notables ts ++ [r]) = count_of p (notables ts) + (if p r then 1 else 0)) as Hco.
  { intros p. unfold count_of. rewrite filter_snoc, length_app. destruct (p r); cbn; lia. }
  destruct (r_scause r =? CAUSE_S_TIMER) eqn:Et.
  - assert (notables (ts ++ [r]) = notables ts) as En.
    { unfold notables. rewrite filter_snoc. assert (is_notable r = false) as -> by (unfold is_notable; by rewrite Et). apply app_nil_r. }
    split; cbn; rewrite ?En; try done. by rewrite Hc.
  - assert (notables (ts ++ [r]) = notables ts ++ [r]) as En.
    { unfold notables. rewrite filter_snoc. assert (is_notable r = true) as -> by (unfold is_notable; by rewrite Et). done. }
    assert (ring_holds NOTABLE_SIZE ring_slot_new
      (<[ring_index (notable_count t) NOTABLE_SIZE := r]> (notable t)) (notables ts ++ [r])) as Hn'.
    { rewrite Hnc, ring_index_nat by (unfold NOTABLE_SIZE; lia). apply ring_holds_push; [unfold NOTABLE_SIZE; lia|done]. }
    assert (is_ecall r = (r_scause r =? CAUSE_U_ECALL)) as Her by done.
    destruct (r_scause r =? CAUSE_U_ECALL); (split; cbn;
      [done|by rewrite Hc|by rewrite En|by rewrite En, Hnc| |]);
      rewrite En, Hco, Her, ?He, ?Hf, ?Hw by lia; cbn [negb]; lia.
Qed.

Lemma holds_recorded (ts : list RingSlot) : Z.of_nat (length ts) < W64 -> holds (recorded ts) ts.
Proof.
  induction ts as [|r ts IH] using rev_ind; intros Hlt.
  - split; try done; apply ring_holds_init.
  - rewrite length_app in Hlt. cbn in Hlt. unfold recorded. rewrite fold_left_app. cbn.
    apply holds_record; [apply IH; lia|lia].
Qed.

(** ** Dumps *)

Fixpoint commas (l : list bytes) : bytes :=
  match l with
  | [] => []
  | [x] => x
  | x :: r => x ++ x2c :: commas r
  end.

Definition entry_text (r : RingSlot) : bytes :=
  js "{'id':" ++ dec (r_id r) ++ js ",'cause':'" ++ cause_name (r_scause r) ++ js "','sepc':'0x" ++
  hex (r_sepc r) ++ js "'}".

Lemma commas_cons (x : bytes) (l : list bytes) :
  commas (x :: l) = x ++ concat (map (fun y => x2c :: y) l).
Proof.
  revert x. induction l as [|y l IH]; intros x; [cbn; by rewrite app_nil_r|].
  change (commas (x :: y :: l)) with (x ++ x2c :: commas (y :: l)). by rewrite IH.
Qed.

Lemma try_all_text (l : list wprog) : text (try_all l) = concat (map text l).
Proof. induction l as [|w l IH]; [done|]. cbn [try_all text map concat]. by rewrite IH. Qed.

Lemma fmt_entry (a b c d e f g : bytes) :
  text (fmt [a; b; c; d; e; f; g]) = a ++ b ++ c ++ d ++ e ++ f ++ g.
Proof. rewrite fmt_text. cbn. by rewrite app_nil_r. Qed.

(** A list printed item by item, a comma before every item but the first. *)
Lemma comma_items (f : Z -> wprog) (g : Z -> bytes) (first n : Z) : 0 <= n ->
  (forall i, first <= i < first + n -> text (f i) = (if first <? i then [x2c] else []) ++ g i) ->
  concat (map text (map f (seqZ first n))) = commas (map g (seqZ first n)).
Proof.
  intros Hn H. destruct (decide (n = 0)) as [-> |Hne]; [done|].
  rewrite seqZ_cons by lia. cbn [map concat]. rewrite commas_cons, H by lia. rewrite Z.ltb_irrefl. f_equal.
  rewrite !map_map. f_equal. apply map_ext_in. intros i Hi.
  apply list_elem_of_In, elem_of_seqZ in Hi. rewrite H by lia.
  destruct (first <? i) eqn:E; zbool; [done|lia].
Qed.

Lemma map_seqZ_drop {T U} (g : T -> U) (d : T) (ts : list T) (first : nat) : (first <= length ts)%nat ->
  map (fun n => g (nth (Z.to_nat n) ts d)) (seqZ (Z.of_nat first) (Z.of_nat (length ts) - Z.of_nat first)) =
  map g (drop first ts).
Proof.
  intros Hf. apply list_eq. intros i. rewrite !list_lookup_fmap, lookup_drop.
  destruct (decide (first + i < length ts)%nat) as [Hi|Hi].
  - rewrite lookup_seqZ_lt by lia. cbn. destruct (lookup_lt_is_Some_2 ts (first + i)) as [x Hx]; [done|].
    rewrite Hx. cbn. do 2 f_equal. replace (Z.to_nat (Z.of_nat first + Z.of_nat i)) with (first + i)%nat by lia.
    by rewrite nth_lookup, Hx.
  - rewrite lookup_seqZ_ge by lia. by rewrite lookup_ge_None_2 by lia.
Qed.

Lemma ring_nth (N : nat) (rg xs : list RingSlot) (n : nat) :
  ring_holds N ring_slot_new rg xs -> (length xs - N <= n < length xs)%nat ->
  nth (n mod N)%nat rg ring_slot_new = nth n xs ring_slot_new.
Proof. intros H Hn. rewrite !nth_lookup. by rewrite (ring_recent _ _ _ _ H n Hn). Qed.

Lemma write_ring_text (t : TrapState) (ts : list RingSlot) : holds t ts ->
  text (write_ring t) = lit "[" ++ commas (map entry_text (drop (length ts - RING_SIZE) ts)) ++ lit "]".
Proof.
  intros H. unfold write_ring. rewrite (h_count _ _ H).
  replace (saturating_sub (Z.of_nat (length ts)) (Z.of_nat RING_SIZE)) with (Z.of_nat (length ts - RING_SIZE))
    by (unfold saturating_sub; lia).
  cbn [text]. rewrite try_all_text. f_equal. f_equal.
  rewrite (comma_items _ (fun n => entry_text (nth (Z.to_nat n) ts ring_slot_new))) by
    (try lia; intros n Hn; unfold ring_entry; cbn [text];
     rewrite fmt_entry, <- (Z2Nat.id n), ring_index_nat, (ring_nth _ _ ts), !Z2Nat.id by (unfold RING_SIZE in *; try apply (h_ring _ _ H); lia);
     unfold entry_text; by destruct (_ <? n)).
  f_equal. apply map_seqZ_drop. lia.
Qed.

(** The trap ring is the recent past. After any history of traps (fewer
    than 2^64), the ring dump prints exactly the last eight of them, oldest
    first, each with its event id, cause and pc. *)
Theorem trap_ring_recent (ts : list RingSlot) : Z.of_nat (length ts) < W64 ->
  text (write_ring (recorded ts)) =
  lit "[" ++ commas (map entry_text (drop (length ts - RING_SIZE) ts)) ++ lit "]".
Proof. intros H. by apply write_ring_text, holds_recorded. Qed.

Lemma trap_ring_recent_witness :
  text (write_ring (recorded [mkRing 1 CAUSE_U_ECALL 0x10004 0; mkRing 4 13 0x10010 0])) =
  js "[{'id':1,'cause':'ecall','sepc':'0x10004'},{'id':4,'cause':'load_page_fault','sepc':'0x10010'}]".
Proof. rewrite trap_ring_recent; [reflexivity|reflexivity]. Defined.

(** ** The digest *)

Definition item_text (r : RingSlot) : bytes :=
  js "{'id':" ++ dec (r_id r) ++ js ",'severity':'" ++ severity_of (r_scause r) ++ js "','cause':'" ++
  cause_name (r_scause r) ++ js "','sepc':'0x" ++ hex (r_sepc r) ++ js "'}".

(** What the digest says of a history: totals, then the newest notable traps
    within the budget, then how much was left out. *)
Definition digest_text (mode : bytes) (nticks budget : Z) (ts : list RingSlot) : bytes :=
  let ecalls := dec (count_of is_ecall (notables ts)) in
  let faults := dec (count_of (fun r => negb (is_ecall r)) (notables ts)) in
  let shown := take (Nat.min (Z.to_nat budget) NOTABLE_SIZE) (rev (notables ts)) in
  concat [js "{'budget':"; dec budget; js ",'autonomy':'"; mode; js "','totals':{'traps':";
          dec (Z.of_nat (length ts)); js ",'timer':"; dec nticks; js ",'ecall':"; ecalls;
          js ",'fault':"; faults; js "},'by_severity':{'error':"; faults; js ",'info':"; ecalls;
          js ",'trace':"; dec nticks; js "},'items':["] ++
  commas (map item_text shown) ++
  js "],'elided':" ++ dec (Z.of_nat (length ts - length shown)) ++ js "}".

Lemma notable_newest (t : TrapState) (ts : list RingSlot) (i : Z) : holds t ts ->
  Z.of_nat (length ts) < W64 ->
  0 <= i < Z.min (Z.of_nat (length (notables ts))) (Z.of_nat NOTABLE_SIZE) ->
  nth (ring_index (wrap64 (notable_count t - 1 - i)) NOTABLE_SIZE) (notable t) ring_slot_new =
  nth (Z.to_nat i) (rev (notables ts)) ring_slot_new.
Proof.
  intros H Hlt Hi. rewrite (h_ncount _ _ H). pose proof (filter_le is_notable ts) as Hle. fold (notables ts) in Hle.
  rewrite wrap64_small by lia.
  replace (Z.of_nat (length (notables ts)) - 1 - i) with (Z.of_nat (length (notables ts) - 1 - Z.to_nat i)) by lia.
  rewrite ring_index_nat by (unfold NOTABLE_SIZE; lia).
  rewrite (ring_nth _ _ (notables ts)) by (try apply (h_notable _ _ H); lia).
  rewrite rev_nth by lia. f_equal. lia.
Qed.

Lemma write_digest_text (t : TrapState) (ts : list RingSlot) (budget : Z) :
  holds t ts -> 0 <= budget -> Z.of_nat (length ts) < W64 ->
  text (write_digest t budget) =
  digest_text (if autonomous t then lit "autonomous" else lit "reactive") (ticks t) budget ts.
Proof.
  intros H Hb Hlt. unfold write_digest, digest_text. cbn [text]. rewrite !fmt_text, try_all_text.
  rewrite (h_count _ _ H), (h_ecalls _ _ H), (h_faults _ _ H). f_equal.
  set (n := notables ts). pose proof (filter_le is_notable ts) as Hle. fold n in Hle.
  assert (digest_show t budget = Z.of_nat (Nat.min (Nat.min (Z.to_nat budget) NOTABLE_SIZE) (length (rev n)))) as Es.
  { unfold digest_show. rewrite (h_ncount _ _ H), length_rev. fold n. lia. }
  f_equal.
  - rewrite Es.
    rewrite (comma_items _ (fun i => item_text (nth (Z.to_nat i) (rev n) ring_slot_new))).
    + f_equal. set (c := Nat.min (Z.to_nat budget) NOTABLE_SIZE).
      rewrite <- length_take. transitivity (map item_text (drop 0 (take c (rev n)))); [|done].
      rewrite <- (map_seqZ_drop item_text ring_slot_new) by lia. rewrite Z.sub_0_r.
      apply map_ext_in. intros i Hi. apply list_elem_of_In, elem_of_seqZ in Hi. rewrite length_take in Hi. f_equal.
      rewrite !nth_lookup, lookup_take_lt by lia. done.
    + lia.
    + intros i Hi. unfold digest_item. cbn [text]. rewrite fmt_text. cbn [concat]. rewrite app_nil_r.
      rewrite length_rev in Hi. rewrite (notable_newest t ts) by (try done; fold n; lia). fold n.
      unfold item_text. by destruct (0 <? i).
  - cbn [concat]. rewrite app_nil_r. do 2 f_equal. rewrite length_take, Es. unfold saturating_sub.
    f_equal. lia.
Qed.

(** The digest is a faithful summary within its budget. After any history
    of traps it reports the totals per severity, at most [budget] and at most
    four of the newest notable (non-timer) traps, newest first, and exactly how
    many traps it left out. Ticks never push a fault out of it. *)
Theorem digest_faithful (ts : list RingSlot) (budget : Z) :
  0 <= budget -> Z.of_nat (length ts) < W64 ->
  text (write_digest (recorded ts) budget) =
  digest_text (if autonomous (recorded ts) then lit "autonomous" else lit "reactive")
    (ticks (recorded ts)) budget ts.
Proof. intros Hb Hlt. by apply write_digest_text; [apply holds_recorded|..]. Qed.

Lemma digest_faithful_witness :
  exists pre post, text (write_digest (recorded (mkRing 1 13 0x10010 0 :: replicate 100 (mkRing 2 CAUSE_S_TIMER 0 0))) 4) =
    pre ++ js "'items':[{'id':1,'severity':'error','cause':'load_page_fault','sepc':'0x10010'}]" ++ post.
Proof.
  rewrite digest_faithful; [|lia|reflexivity].
  eexists (js "{'budget':4,'autonomy':'reactive','totals':{'traps':101,'timer':0,'ecall':0,'fault':1},'by_severity':{'error':1,'info':0,'trace':0},"),
    (js ",'elided':100}"). vm_compute. reflexivity.
Defined.

(** ** Timer cadence *)

(** The tick cadence never drifts and never storms. The next deadline is
    exactly one interval after the previous one unless that has already passed,
    in which case it is one interval from now; either way the timer is set
    strictly in the future, at most one interval ahead of the later of the two,
    and the deadline kept is the one the timer was given. *)
Theorem tick_cadence (k : K) (now prev : Z) (k1 : K) :
  read_time k = (Val now, k1) -> next_deadline (traps k) = prev ->
  0 <= prev < W64 - TICK_INTERVAL -> 0 <= now < W64 - TICK_INTERVAL ->
  let k' := snd (rearm k) in
  let next := hw_timer (hw k') in
  next_deadline (traps k') = next /\ now < next <= Z.max prev now + TICK_INTERVAL /\
  (now < prev + TICK_INTERVAL -> next = prev + TICK_INTERVAL) /\
  (prev + TICK_INTERVAL <= now -> next = now + TICK_INTERVAL).
Proof.
  intros Hr Hp Hb1 Hb2. unfold rearm, bind, gets, modify, set_timer. rewrite Hr.
  assert (next_deadline (traps k1) = prev) as E1.
  { rewrite <- Hp. unfold read_time in Hr. destruct (hw_dt (hw k)); by injection Hr as <- <-. }
  rewrite E1. cbn. unfold next_tick. rewrite !wrap64_small by (unfold TICK_INTERVAL in *; lia).
  unfold TICK_INTERVAL in *. destruct (_ <=? now) eqn:E; zbool; lia.
Qed.

(** ** Saved frames *)

Lemma poke_pmem (pa v : Z) (p : fpool) : in_pool pa 8 -> pa mod 8 = 0 ->
  pmem (poke pa v p) = store (pmem p) pa (le_bytes 8 v).
Proof.
  intros Hi Ha. unfold poke, phys_write_u64. cbn. rewrite pool_ptr_in by done.
  destruct (pa mod 8 =? 0) eqn:E; zbool; [done|lia].
Qed.

(** A word of a memory, and what a store does to it. *)
Definition word (m : mem) (pa : Z) : Z := le_word (load m pa 8).

Lemma word_store_same (m : mem) (pa v : Z) : u64_ok v -> word (store m pa (le_bytes 8 v)) pa = v.
Proof.
  intros Hv. unfold word. pose proof (load_store_same m pa (le_bytes 8 v)) as E. rewrite le_bytes_length in E.
  rewrite E. apply le_word_bytes. exact Hv.
Qed.

Lemma word_store_other (m : mem) (pa q v : Z) : q + 8 <= pa \/ pa + 8 <= q ->
  word (store m pa (le_bytes 8 v)) q = word m q.
Proof.
  intros H. unfold word. f_equal. apply load_ext. intros a Ha. apply store_other.
  rewrite le_bytes_length. lia.
Qed.

Definition frame_ok (f : TrapFrame) : Prop :=
  length (regs f) = 31%nat /\ Forall u64_ok (regs f) /\ u64_ok (sepc f) /\ u64_ok (sstatus f).

(** The 264 bytes of a saved frame are words of the frame's page. *)
Lemma frame_word (pa i : Z) : frame_addr pa -> 0 <= i < 512 ->
  in_pool (pa + i * 8) 8 /\ (pa + i * 8) mod 8 = 0.
Proof.
  intros Hf Hi. pose proof (frame_addr_in_pool pa Hf) as (_ & Hl & Hh).
  apply frame_addr_index in Hf as [_ E]. unfold in_pool, frame_pa, FRAME_SIZE, POOL_BASE in *.
  split; [lia|]. apply Z.mod_divide; [lia|]. rewrite E.
  exists (0x10080000 + (pa - 0x80400000) / 4096 * 512 + i). lia.
Qed.

(** What a store of one word of the frame does to every word and byte. *)
Lemma poke_word (pa i j v : Z) (p : fpool) : frame_addr pa -> 0 <= i < 512 -> u64_ok v ->
  word (pmem (poke (pa + i * 8) v p)) (pa + j * 8) = if j =? i then v else word (pmem p) (pa + j * 8).
Proof.
  intros Hf Hi Hv. destruct (frame_word pa i Hf Hi) as [Hp Ha]. rewrite poke_pmem by done.
  destruct (j =? i) eqn:E; zbool; [subst; by apply word_store_same|apply word_store_other; lia].
Qed.

Lemma poke_outside (pa i v : Z) (p : fpool) (a : Z) : frame_addr pa -> 0 <= i < 33 ->
  ~ (pa <= a < pa + 264) -> pmem (poke (pa + i * 8) v p) a = pmem p a.
Proof.
  intros Hf Hi Ha. destruct (frame_word pa i Hf ltac:(lia)) as [Hp Hm]. rewrite poke_pmem by done.
  apply store_other. rewrite le_bytes_length. lia.
Qed.

Lemma poke_regs_word (rs : list Z) (pa i j : Z) (p : fpool) : frame_addr pa -> Forall u64_ok rs ->
  0 <= i -> i + Z.of_nat (length rs) <= 33 ->
  word (pmem (poke_regs i rs pa p)) (pa + j * 8) =
  if bool_decide (i <= j < i + Z.of_nat (length rs)) then nth (Z.to_nat (j - i)) rs 0
  else word (pmem p) (pa + j * 8).
Proof.
  intros Hf Hrs. revert i p. induction Hrs as [|r rs Hr Hrs IH]; intros i p Hi Hl; cbn [poke_regs length] in *.
  - case_bool_decide; [lia|done].
  - rewrite IH by lia. rewrite poke_word by (try done; lia).
    destruct (j =? i) eqn:Ej; zbool; repeat case_bool_decide; try lia; try done.
    + subst j. by rewrite Z.sub_diag.
    + replace (Z.to_nat (j - i)) with (S (Z.to_nat (j - (i + 1)))) by lia. done.
Qed.

Lemma poke_regs_outside (rs : list Z) (pa i : Z) (p : fpool) (a : Z) : frame_addr pa ->
  0 <= i -> i + Z.of_nat (length rs) <= 33 -> ~ (pa <= a < pa + 264) ->
  pmem (poke_regs i rs pa p) a = pmem p a.
Proof.
  intros Hf. revert i p. induction rs as [|r rs IH]; intros i p Hi Hl Ha; [done|]. cbn [poke_regs length] in *.
  rewrite IH by lia. apply poke_outside; [done|lia|done].
Qed.

Lemma load_frame_words (m : mem) (pa : Z) :
  load_frame m pa = mkFrame (map (fun i => word m (pa + i * 8)) (seqZ 0 31)) (word m (pa + 31 * 8)) (word m (pa + 32 * 8)).
Proof. done. Qed.

Lemma save_frame_word (f : TrapFrame) (pa v j : Z) (p : fpool) : frame_addr pa -> frame_ok f -> u64_ok v ->
  0 <= j < 33 ->
  word (pmem (save_frame_to f pa v p)) (pa + j * 8) =
  if j =? 32 then sstatus f else if j =? 31 then sepc f else
  if j =? 9 then v else nth (Z.to_nat j) (regs f) 0.
Proof.
  intros Hpa (Hl & Hr & Hs & Ht) Hv Hj. unfold save_frame_to.
  change (pa + 248) with (pa + 31 * 8). change (pa + 256) with (pa + 32 * 8).
  change (Z.of_nat X_A0) with 9. rewrite !poke_word, poke_regs_word by (try done; rewrite ?Hl; lia).
  rewrite Hl, Z.sub_0_r. case_bool_decide; [done|].
  destruct (j =? 32) eqn:E1; [done|]. destruct (j =? 31) eqn:E2; [done|]. zbool. lia.
Qed.

Lemma save_frame_outside (f : TrapFrame) (pa v : Z) (p : fpool) (a : Z) : frame_addr pa ->
  length (regs f) = 31%nat -> ~ (pa <= a < pa + 264) -> pmem (save_frame_to f pa v p) a = pmem p a.
Proof.
  intros Hpa Hl Ha. unfold save_frame_to.
  change (pa + 248) with (pa + 31 * 8). change (pa + 256) with (pa + 32 * 8).
  change (Z.of_nat X_A0) with 9. rewrite !poke_outside by (try done; lia).
  by rewrite poke_regs_outside by (try done; rewrite ?Hl; lia).
Qed.

Lemma save_load_frame (f : TrapFrame) (pa v : Z) (p : fpool) : frame_addr pa -> frame_ok f -> u64_ok v ->
  load_frame (pmem (save_frame_to f pa v p)) pa = set_a0 v f.
Proof.
  intros Hpa Hf Hv. rewrite load_frame_words, !save_frame_word by (try done; lia).
  unfold set_a0, with_regs. f_equal. pose proof Hf as (Hl & _). apply list_eq. intros i.
  destruct (decide (i < 31)%nat) as [Hi|Hi].
  - rewrite list_lookup_fmap, lookup_seqZ_lt by lia. cbn [option_map fmap option_fmap].
    rewrite save_frame_word by (try done; lia). rewrite !Z.add_0_l.
    destruct (decide (i = X_A0)) as [->|Hne].
    + rewrite list_lookup_insert_eq by (rewrite Hl; unfold X_A0; lia). done.
    + rewrite list_lookup_insert_ne by done.
      destruct (lookup_lt_is_Some_2 (regs f) i ltac:(lia)) as [r Hr]. rewrite Hr. cbn. f_equal.
      repeat match goal with |- context [?x =? ?y] => destruct (x =? y) eqn:?; zbool end;
        try (unfold X_A0 in *; lia).
      by rewrite Nat2Z.id, nth_lookup, Hr.
  - rewrite !lookup_ge_None_2; [done|rewrite length_insert; lia|rewrite length_map, length_seqZ; lia].
Qed.

Lemma poke_meta (pa v : Z) (p : fpool) : bitmap (poke pa v p) = bitmap p /\
  next_hint (poke pa v p) = next_hint p /\ allocated (poke pa v p) = allocated p.
Proof. done. Qed.

Lemma poke_regs_meta (rs : list Z) (pa i : Z) (p : fpool) :
  bitmap (poke_regs i rs pa p) = bitmap p /\ next_hint (poke_regs i rs pa p) = next_hint p /\
  allocated (poke_regs i rs pa p) = allocated p.
Proof.
  revert i p. induction rs as [|r rs IH]; intros i p; [done|]. cbn [poke_regs].
  destruct (IH (i + 1) (poke (pa + i * 8) r p)) as (-> & -> & ->). done.
Qed.

(** Saving a trap frame and resuming from it gives the payload its own
    registers back, every one of the 31, the program counter and the status
    word, with [a0] replaced by the value the saver chose; the save touches the
    264 bytes of its frame and no other memory, and allocates nothing. *)
Theorem saved_frame_roundtrip (f : TrapFrame) (pa v : Z) (p : fpool) :
  frame_addr pa -> frame_ok f -> u64_ok v ->
  let p' := save_frame_to f pa v p in
  load_frame (pmem p') pa = set_a0 v f /\
  (forall a, ~ (pa <= a < pa + 264) -> pmem p' a = pmem p a) /\
  bitmap p' = bitmap p /\ next_hint p' = next_hint p /\ allocated p' = allocated p.
Proof.
  intros Hpa Hf Hv. split; [by apply save_load_frame|]. split.
  - intros a Ha. apply save_frame_outside; try done. apply Hf.
  - apply (poke_regs_meta (regs f) pa 0 p).
Qed.

Definition demo_frame : TrapFrame := mkFrame (seqZ 100 31) 0x10004 SSTATUS_SPIE.

Lemma saved_frame_roundtrip_witness :
  load_frame (pmem (save_frame_to demo_frame POOL_BASE 7 (pool_init (fun _ => x00)))) POOL_BASE = set_a0 7 demo_frame.
Proof.
  refine (proj1 (saved_frame_roundtrip demo_frame POOL_BASE 7 (pool_init (fun _ => x00)) _ _ _)).
  - split; [vm_compute; split; [discriminate|reflexivity]|reflexivity].
  - split; [reflexivity|]. split; [|vm_compute; repeat split; discriminate].
    cbn. repeat constructor; vm_compute; discriminate.
  - vm_compute. split; [discriminate|reflexivity].
Defined.

Lemma word_zero (m : mem) (pa : Z) : (forall a, pa <= a < pa + 8 -> m a = x00) -> word m pa = 0.
Proof.
  intros H. unfold word. rewrite (load_ext m (fun _ => x00)) by (intros; apply H; lia). reflexivity.
Qed.

(** A payload's first frame leaks nothing. Whatever its frame of the pool
    held before, what the hart loads to enter a fresh payload is zero in all 31
    registers, the entry point as the program counter, and a status word that
    returns to user mode with interrupts on. *)
Theorem first_frame_clean (p p1 : fpool) (pa entry : Z) :
  pool_ok p -> alloc p = (Some pa, p1) -> u64_ok entry ->
  let f := load_frame (pmem (init_frame_to pa entry p1)) pa in
  f = mkFrame (replicate 31 0) entry SSTATUS_SPIE /\ is_from_user f = true.
Proof.
  intros Hok Ha He. pose proof (alloc_loop_some _ _ _ _ _ _ Hok Ha) as (Hpa & _ & _ & Hm & _).
  assert (forall j, 0 <= j < 33 -> word (pmem p1) (pa + j * 8) = 0) as Hz.
  { intros j Hj. apply word_zero. intros a Hja. rewrite Hm. apply fill0_in. unfold FRAME_SIZE. lia. }
  match goal with |- let f := ?x in _ => assert (x = mkFrame (replicate 31 0) entry SSTATUS_SPIE) as -> end; [|done].
  rewrite load_frame_words. unfold init_frame_to.
  change (pa + 248) with (pa + 31 * 8). change (pa + 256) with (pa + 32 * 8).
  rewrite !poke_word by (try done; lia). cbn [Z.eqb Pos.eqb]. f_equal.
  apply (list_eq_same_length _ _ 31); [by rewrite length_replicate|by rewrite length_map, length_seqZ|].
  intros i x y Hi Hx Hy. apply lookup_replicate in Hy as [-> _].
  rewrite list_lookup_fmap, lookup_seqZ_lt in Hx by lia. apply Some_inj in Hx as <-.
  rewrite !poke_word by (try done; lia).
  repeat match goal with |- context [?x =? ?y] => destruct (x =? y) eqn:?; zbool end; try lia. by apply Hz; lia.
Qed.

Lemma first_frame_clean_witness :
  let p1 := snd (alloc (pool_init (fun _ => xff))) in
  load_frame (pmem (init_frame_to POOL_BASE 0x10000 p1)) POOL_BASE =
  mkFrame (replicate 31 0) 0x10000 SSTATUS_SPIE.
Proof.
  assert (fst (alloc (pool_init (fun _ => xff))) = Some POOL_BASE) as E by (vm_compute; reflexivity).
  destruct (alloc (pool_init (fun _ => xff))) as [o p1] eqn:Ea. cbn in E. subst o. cbn [snd].
  refine (proj1 (first_frame_clean (pool_init (fun _ => xff)) p1 POOL_BASE 0x10000 (pool_init_ok _) Ea _)).
  unfold u64_ok, W64. lia.
Defined.

Definition demo_clock : K :=
  {| hw := mkHw [] [] 5000 [] 0 0 []; pool := pool_init (fun _ => x00);
     traps := with_next_deadline 9000 traps_init;
     pay := mkPay 0 [] 0 [] 0 0 0 [] 0 0 false; ops := ops_init; events := 0 |}.

Lemma tick_cadence_witness : hw_timer (hw (snd (rearm demo_clock))) = 19000.
Proof.
  refine (proj1 (proj2 (proj2 (tick_cadence demo_clock 5000 9000 demo_clock eq_refl eq_refl _ _))) _).
  - vm_compute. split; [discriminate|reflexivity].
  - vm_compute. split; [discriminate|reflexivity].
  - reflexivity.
Defined.
