(* ===== verification/Vector.v ===== *)
(** * The trap vector, [__resume_user] and the boot entry (kernel/src/hal/trap.rs,
      kernel/src/hal/boot.rs)

    The [global_asm!] blocks line by line in the instructions of [Hart], and
    the Rust shim the vector calls. What they do is proved in [VectorProofs]. *)

From S2P Require Import Prelude Hal KState Hart Traps.

(** The addresses link.ld fixes. *)
Class Link := {
  trap_stack_top : Z;
  trap_vector_addr : Z;
  stack_top : Z;
  bss_start : Z;
  bss_end : Z
}.

(** The stores and loads of the thirty registers other than [sp], in the order
    of the listing. *)
Definition save_regs : list instr :=
  [Sd 1 0 SP; Sd 3 16 SP; Sd 4 24 SP; Sd 5 32 SP; Sd 6 40 SP; Sd 7 48 SP;
   Sd 8 56 SP; Sd 9 64 SP; Sd 10 72 SP; Sd 11 80 SP; Sd 12 88 SP; Sd 13 96 SP;
   Sd 14 104 SP; Sd 15 112 SP; Sd 16 120 SP; Sd 17 128 SP; Sd 18 136 SP; Sd 19 144 SP;
   Sd 20 152 SP; Sd 21 160 SP; Sd 22 168 SP; Sd 23 176 SP; Sd 24 184 SP; Sd 25 192 SP;
   Sd 26 200 SP; Sd 27 208 SP; Sd 28 216 SP; Sd 29 224 SP; Sd 30 232 SP; Sd 31 240 SP].

Definition restore_regs : list instr :=
  [Ld 1 0 SP; Ld 3 16 SP; Ld 4 24 SP; Ld 5 32 SP; Ld 6 40 SP; Ld 7 48 SP;
   Ld 8 56 SP; Ld 9 64 SP; Ld 10 72 SP; Ld 11 80 SP; Ld 12 88 SP; Ld 13 96 SP;
   Ld 14 104 SP; Ld 15 112 SP; Ld 16 120 SP; Ld 17 128 SP; Ld 18 136 SP; Ld 19 144 SP;
   Ld 20 152 SP; Ld 21 160 SP; Ld 22 168 SP; Ld 23 176 SP; Ld 24 184 SP; Ld 25 192 SP;
   Ld 26 200 SP; Ld 27 208 SP; Ld 28 216 SP; Ld 29 224 SP; Ld 30 232 SP; Ld 31 240 SP].

(** The listing up to the call of the handler. *)
Definition vector_entry : list instr :=
  [Csrrw SP SSCRATCH SP;
   Bnez SP (Fwd 1);
   Csrrw SP SSCRATCH SP;
   Lab 1;
   Addi SP SP (-272)] ++ save_regs ++
  [Csrr T0 SSTATUS;
   Sd T0 256 SP;
   Csrr T2 SEPC;
   Sd T2 248 SP;
   Andi T1 T0 0x100;
   Bnez T1 (Fwd 2);
   Csrr T1 SSCRATCH;
   J (Fwd 3);
   Lab 2; Addi T1 SP 272;
   Lab 3; Sd T1 8 SP;
   Csrw SSCRATCH ZERO;
   Mv RA0 SP;
   Call KERNAI_TRAP].

(** The restore tail: everything from the frame, [sp] last. *)
Definition restore_tail : list instr :=
  [Ld T0 248 SP;
   Csrw SEPC T0;
   Ld T0 256 SP;
   Csrw SSTATUS T0] ++ restore_regs ++
  [Ld SP 8 SP;
   Sret].

Definition trap_vector : list instr := vector_entry ++ restore_tail.

Section Programs.
Context {L : Link}.

(** [__resume_user]: [a0] holds the satp value, [a1] the frame's address. *)
Definition resume_user_asm : list instr :=
  [Csrci SSTATUS 2;
   Csrw SATP RA0;
   SfenceVma;
   La T0 trap_stack_top;
   Csrw SSCRATCH T0;
   Mv SP RA1] ++ restore_tail.

(** [_start] of hal/boot.rs. *)
Definition start_asm : list instr :=
  [La SP stack_top;
   La T0 bss_start;
   La T1 bss_end;
   Lab 1; Bgeu T0 T1 (Fwd 2);
   Sd ZERO 0 T0;
   Addi T0 T0 8;
   J (Bwd 1);
   Lab 2; Call KERNAI_START;
   Lab 3; Wfi;
   J (Bwd 3)].

Context {I : Isa}.

(** [trap::init]. *)
Definition traps_init_hart (h : hart) : hart :=
  write_stvec trap_vector_addr (write_sscratch 0 h).

(** [__kernai_trap], called with the frame's address in [a0]: the handler, any
    function of the hart here, then [sscratch] re-armed for wherever the frame
    it leaves resumes. *)
Definition kernai_trap (handle : hart -> hart) (h : hart) : hart :=
  let h1 := handle h in
  if Z.land (sstatus (load_frame (hmem h1) (gpr h RA0))) SSTATUS_SPP =? 0
  then write_sscratch trap_stack_top h1 else write_sscratch 0 h1.

(** A whole trap: the vector's entry, the Rust shim, the restore tail. *)
Definition trap_once (fuel : nat) (handle : hart -> hart) (h : hart) : outcome :=
  match exec fuel trap_vector 0 h with
  | Called KERNAI_TRAP pc h1 => exec fuel trap_vector pc (kernai_trap handle h1)
  | o => o
  end.

End Programs.
