(* ===== verification/VectorProofs.v ===== *)
(** * What the trap vector and [__resume_user] do

    The register blocks are folded into maps over the register numbers, so that
    one induction covers the thirty stores and one the thirty loads; the rest
    is symbolic execution of the few control lines. *)

From S2P Require Import Prelude Hal Frames KState Hart Traps TrapsProofs Vector.

(** ** The register blocks *)

Definition sd_at (n : Z) : instr := Sd n ((n - 1) * 8) SP.
Definition ld_at (n : Z) : instr := Ld n ((n - 1) * 8) SP.
Definition saved_regs : list Z := 1 :: seqZ 3 29.

Lemma save_regs_map : save_regs = map sd_at saved_regs.
Proof. reflexivity. Qed.

Lemma restore_regs_map : restore_regs = map ld_at saved_regs.
Proof. reflexivity. Qed.

Lemma saved_regs_in (n : Z) : n ∈ saved_regs <-> 1 <= n <= 31 /\ n <> 2.
Proof. unfold saved_regs. rewrite elem_of_cons, elem_of_seqZ. lia. Qed.

Lemma in_tail (m n : Z) (rs : list Z) : m <> n -> bool_decide (m ∈ n :: rs) = bool_decide (m ∈ rs).
Proof. intros H. apply bool_decide_ext. rewrite elem_of_cons. split; [intros [E|E]; [contradiction|exact E]|by right]. Qed.

Section Blocks.
Context {I : Isa} {HI : IsaLaws I}.

(** The stack area a frame at [b] takes does not wrap around. *)
Definition frame_room (b : Z) : Prop := 0 <= b /\ b + 272 <= W64.

Lemma slot_addr (b off : Z) : frame_room b -> 0 <= off <= 272 - 8 -> wrap64 (b + off) = b + off.
Proof. unfold frame_room. intros H Ho. apply wrap64_small. lia. Qed.

(** Harts that agree on registers and CSRs. *)
Definition same_regs (h h' : hart) : Prop := (forall n, gpr h' n = gpr h n) /\ (forall c, csrs h' c = csrs h c).

Lemma saves_run (rs : list Z) (h : hart) (b : Z) : gpr h SP = b -> frame_room b ->
  (forall n, n ∈ rs -> 1 <= n <= 31 /\ u64_ok (gpr h n)) ->
  exists h', straight (map sd_at rs) h = Some h' /\ same_regs h h' /\
    (forall j, word (hmem h') (b + j * 8) =
       if bool_decide (j + 1 ∈ rs) then gpr h (j + 1) else word (hmem h) (b + j * 8)) /\
    (forall a, ~ (b <= a < b + 264) -> hmem h' a = hmem h a).
Proof.
  intros Hb Hr. revert h Hb. induction rs as [|n rs IH]; intros h Hb Hrs; cbn [map straight].
  - exists h. split; [done|]. split; [done|]. split; [|done]. intros j. case_bool_decide; [set_solver|done].
  - destruct (Hrs n ltac:(left)) as [Hn Hu]. cbn [effect sd_at].
    rewrite Hb, slot_addr by (try done; lia).
    destruct (IH (set_mem (store (hmem h) (b + (n - 1) * 8) (le_bytes 8 (gpr h n))) h)) as (h' & Hs & (Hx & Hc) & Hw & Ho).
    { done. }
    { intros m Hm. apply Hrs. by right. }
    exists h'. split; [exact Hs|]. split; [split; [exact Hx|exact Hc]|]. split.
    + intros j. rewrite Hw. cbn [hmem set_mem]. change (gpr (set_mem ?m h)) with (gpr h).
      destruct (decide (j + 1 = n)) as [E|E].
      * rewrite (bool_decide_eq_true_2 (j + 1 ∈ n :: rs)) by (rewrite E; left).
        case_bool_decide; [done|]. replace j with (n - 1) by lia. rewrite word_store_same by done. f_equal. lia.
      * rewrite word_store_other by lia.
        by rewrite in_tail by done.
    + intros a Ha. rewrite Ho by done. cbn [hmem set_mem]. apply store_other. rewrite le_bytes_length. lia.
Qed.

Lemma loads_run (rs : list Z) (h : hart) (b : Z) : gpr h SP = b -> frame_room b ->
  (forall n, n ∈ rs -> 1 <= n <= 31 /\ n <> SP) ->
  exists h', straight (map ld_at rs) h = Some h' /\ csrs h' = csrs h /\ hmem h' = hmem h /\
    (forall n, gpr h' n = if bool_decide (n ∈ rs) then word (hmem h) (b + (n - 1) * 8) else gpr h n).
Proof.
  intros Hb Hr. revert h Hb. induction rs as [|n rs IH]; intros h Hb Hrs; cbn [map straight].
  - exists h. split; [done|]. split; [done|]. split; [done|]. intros n. case_bool_decide; [set_solver|done].
  - destruct (Hrs n ltac:(left)) as [Hn Hsp]. cbn [effect ld_at].
    rewrite Hb, slot_addr by (try done; lia).
    destruct (IH (set_gpr n (le_word (load (hmem h) (b + (n - 1) * 8) 8)) h)) as (h' & Hs & Hc & Hm & Hw).
    { rewrite gpr_set by lia. destruct (SP =? n) eqn:E; zbool; [congruence|done]. }
    { intros m Hm. apply Hrs. by right. }
    exists h'. split; [exact Hs|]. split; [exact Hc|]. split; [exact Hm|].
    intros m. rewrite Hw, gpr_set by lia. cbn [hmem set_gpr].
    destruct (m =? n) eqn:E; zbool.
    + subst m. rewrite (bool_decide_eq_true_2 (n ∈ n :: rs)) by left. by case_bool_decide.
    + by rewrite in_tail by done.
Qed.

(** ** The restore tail *)

(** A frame as the CSRs keep it. *)
Definition legal (f : TrapFrame) : TrapFrame :=
  with_sepc (warl SEPC (sepc f)) (with_sstatus (warl SSTATUS (sstatus f)) f).

Definition restore_body : list instr :=
  [Ld T0 248 SP; Csrw SEPC T0; Ld T0 256 SP; Csrw SSTATUS T0] ++ restore_regs ++ [Ld SP 8 SP].

Lemma frame_of_regs (h : hart) (m : mem) (b : Z) :
  (forall n, 1 <= n <= 31 -> gpr h n = word m (b + (n - 1) * 8)) ->
  map (gpr h) (seqZ 1 31) = map (fun i => word m (b + i * 8)) (seqZ 0 31).
Proof.
  intros H. apply list_eq. intros i. rewrite !list_lookup_fmap.
  destruct (decide (i < 31)%nat) as [Hi|Hi].
  - rewrite !lookup_seqZ_lt by lia. cbn. f_equal. rewrite H by lia. do 2 f_equal. lia.
  - by rewrite !lookup_seqZ_ge by lia.
Qed.

Lemma restore_run (h : hart) (b : Z) : gpr h SP = b -> frame_room b ->
  exists h', straight restore_body h = Some h' /\ hart_frame h' = legal (load_frame (hmem h) b) /\
    hmem h' = hmem h /\ (forall c, c <> SEPC -> c <> SSTATUS -> csrs h' c = csrs h c).
Proof.
  intros Hb Hr. unfold restore_body. rewrite restore_regs_map.
  set (h0 := set_csr SSTATUS (word (hmem h) (b + 256)) (set_gpr T0 (word (hmem h) (b + 256))
    (set_csr SEPC (word (hmem h) (b + 248)) (set_gpr T0 (word (hmem h) (b + 248)) h)))).
  assert (E0 : straight [Ld T0 248 SP; Csrw SEPC T0; Ld T0 256 SP; Csrw SSTATUS T0] h = Some h0).
  { cbn [straight effect]. change (gpr (set_csr ?c ?v ?h)) with (gpr h). cbn [hmem set_csr set_gpr].
    rewrite !gpr_set by (unfold T0; lia). change (SP =? T0) with false. change (T0 =? T0) with true.
    cbv iota. rewrite Hb, (slot_addr b 248 Hr), (slot_addr b 256 Hr) by lia. reflexivity. }
  destruct (loads_run saved_regs h0 b) as (h1 & Hs & Hc & Hm & Hw); [exact Hb|done|intros n; rewrite saved_regs_in; done|].
  rewrite (straight_app _ _ _ _ E0), (straight_app _ _ _ _ Hs). cbn [straight effect].
  assert (Hsp : gpr h1 SP = b).
  { rewrite Hw. case_bool_decide as Hin; [apply saved_regs_in in Hin; unfold SP in *; lia|exact Hb]. }
  rewrite Hsp, (slot_addr b 8 Hr) by lia. eexists. split; [reflexivity|].
  split; [|split; [exact Hm|]].
  - rewrite load_frame_words. unfold hart_frame, legal, with_sepc, with_sstatus; cbn [regs sepc sstatus csrs set_gpr].
    rewrite Hc. f_equal. apply frame_of_regs. intros n Hn. rewrite gpr_set by (unfold SP; lia).
    destruct (n =? SP) eqn:E; zbool.
    + subst n. unfold word. rewrite Hm. reflexivity.
    + rewrite Hw, bool_decide_eq_true_2 by (apply saved_regs_in; unfold SP in E; lia). reflexivity.
  - intros c H1 H2. cbn [csrs set_gpr]. rewrite Hc. cbn [csrs set_csr set_gpr h0].
    rewrite !decide_False by assumption. reflexivity.
Qed.

(** ** The entry *)

(** The [sscratch] convention: zero exactly while the kernel runs. *)
Definition convention (h : hart) : Prop := csrs h SSCRATCH = 0 <-> Z.testbit (csrs h SSTATUS) 8 = true.

(** Where the vector puts the frame: below the trap stack's top for a trap out
    of a payload, below the interrupted stack pointer in the kernel. *)
Definition frame_base (h : hart) : Z :=
  (if csrs h SSCRATCH =? 0 then gpr h SP else csrs h SSCRATCH) - 272.

Definition hart_ok (h : hart) : Prop := (forall n, u64_ok (gpr h n)) /\ (forall c, u64_ok (csrs h c)).

(** The lines up to the first label: [sp] is on the right stack, the user's
    own [sp] waits in [sscratch]. *)
Lemma entry_swap (h : hart) (f : nat) : exists h1 f1, (f <= f1)%nat /\
  exec (4 + f) trap_vector 0 h = exec f1 trap_vector 4 h1 /\
  gpr h1 SP = frame_base h + 272 /\ (forall n, n <> SP -> gpr h1 n = gpr h n) /\
  csrs h1 SSCRATCH = (if csrs h SSCRATCH =? 0 then 0 else gpr h SP) /\
  (forall c, c <> SSCRATCH -> csrs h1 c = csrs h c) /\ hmem h1 = hmem h.
Proof.
  pose proof (warl_sscratch (IsaLaws := HI)) as Hw. change (4 + f)%nat with (S (S (S (S f)))).
  erewrite exec_effect, exec_bnez by reflexivity. rewrite gpr_set by (unfold SP; lia).
  change (SP =? SP) with true. cbv iota. unfold frame_base. destruct (csrs h SSCRATCH =? 0) eqn:E.
  - erewrite exec_effect, exec_effect by reflexivity.
    eexists _, f. split; [lia|]. split; [reflexivity|].
    unfold set_csr, set_gpr, gpr; cbn. rewrite !Hw. zbool. split; [rewrite decide_True by done; lia|]. split.
    + intros n Hn. destruct (n =? 0), (n =? SP) eqn:En; zbool; done.
    + split; [done|]. split; [intros c Hc; by rewrite !decide_False by done|done].
  - erewrite exec_effect by reflexivity.
    eexists _, (S f). split; [lia|]. split; [reflexivity|].
    unfold set_csr, set_gpr, gpr; cbn. rewrite !Hw. split; [lia|]. split.
    + intros n Hn. destruct (n =? 0), (n =? SP) eqn:En; zbool; done.
    + split; [done|]. split; [intros c Hc; by rewrite !decide_False by done|done].
Qed.

Definition entry_block : list instr :=
  [Addi SP SP (-272)] ++ save_regs ++
  [Csrr T0 SSTATUS; Sd T0 256 SP; Csrr T2 SEPC; Sd T2 248 SP; Andi T1 T0 0x100].

Lemma entry_block_run (h : hart) (b : Z) : gpr h SP = b + 272 -> frame_room b -> hart_ok h ->
  exists h', straight entry_block h = Some h' /\ gpr h' SP = b /\
    gpr h' T1 = Z.land (csrs h SSTATUS) 0x100 /\ (forall c, csrs h' c = csrs h c) /\
    (forall j, 0 <= j < 33 -> j <> 1 -> word (hmem h') (b + j * 8) =
       if j =? 32 then csrs h SSTATUS else if j =? 31 then csrs h SEPC else gpr h (j + 1)) /\
    (forall a, ~ (b <= a < b + 264) -> hmem h' a = hmem h a).
Proof.
  intros Hsp Hr [Hg Hcs]. unfold entry_block. rewrite save_regs_map.
  set (h0 := set_gpr SP b h).
  assert (E0 : straight [Addi SP SP (-272)] h = Some h0).
  { cbn [straight effect]. rewrite Hsp. replace (b + 272 + -272) with b by lia.
    rewrite wrap64_small by (unfold frame_room in Hr; lia). reflexivity. }
  assert (G0 : forall n, gpr h0 n = if n =? SP then b else gpr h n) by (intros n; apply gpr_set; unfold SP; lia).
  destruct (saves_run saved_regs h0 b) as (h1 & Hs & (Hx & Hc) & Hw & Ho).
  { reflexivity. } { exact Hr. }
  { intros n Hn%saved_regs_in. split; [lia|]. rewrite G0. destruct (n =? SP) eqn:E; zbool; [unfold SP in E; lia|apply Hg]. }
  rewrite (straight_app _ _ _ _ E0), (straight_app _ _ _ _ Hs). cbn [straight effect].
  eexists. split; [reflexivity|].
  assert (H1sp : xreg h1 SP = b) by (pose proof (Hx SP) as E; rewrite G0 in E; exact E).
  unfold gpr; cbn -[wrap64 Z.add]. rewrite H1sp, !Hc. split; [done|]. split; [done|]. split; [done|].
  rewrite (slot_addr b 248 Hr), (slot_addr b 256 Hr) by lia. cbn [h0 csrs set_gpr hmem]. split.
  - intros j Hj Hj1. change (b + 248) with (b + 31 * 8). change (b + 256) with (b + 32 * 8).
    destruct (j =? 31) eqn:E31; zbool.
    { subst j. rewrite word_store_same by apply Hcs. done. }
    rewrite word_store_other by lia. destruct (j =? 32) eqn:E32; zbool.
    { subst j. rewrite word_store_same by apply Hcs. done. }
    rewrite word_store_other, Hw by lia. rewrite bool_decide_eq_true_2 by (apply saved_regs_in; lia).
    rewrite G0. destruct (j + 1 =? SP) eqn:E; zbool; [unfold SP in E; lia|done].
  - intros a Ha. rewrite !store_other by (rewrite le_bytes_length; lia). by apply Ho.
Qed.

Local Ltac entry_close Hsp Hw Hr b :=
  unfold gpr in *; cbn -[wrap64 Z.add] in *; rewrite Hsp, ?Hw, (slot_addr b 8 Hr) by lia;
  split; [done|]; split; [done|]; split; [done|]; split;
  [intros c Hc; by rewrite decide_False by done|done].

(** The lines from the second branch to the call. *)
Lemma entry_tail (h : hart) (f : nat) (b : Z) : (9 <= f)%nat -> gpr h SP = b -> frame_room b ->
  exists h', exec f trap_vector 40 h = Called KERNAI_TRAP 50 h' /\ gpr h' SP = b /\ gpr h' RA0 = b /\
    csrs h' SSCRATCH = 0 /\ (forall c, c <> SSCRATCH -> csrs h' c = csrs h c) /\
    hmem h' = store (hmem h) (b + 8)
      (le_bytes 8 (if gpr h T1 =? 0 then csrs h SSCRATCH else wrap64 (b + 272))).
Proof.
  intros Hf Hsp Hr. pose proof (warl_sscratch (IsaLaws := HI)) as Hw.
  replace f with (S (S (S (S (S (S (S (S (S (f - 9)))))))))) by lia.
  erewrite exec_bnez by reflexivity. destruct (gpr h T1 =? 0) eqn:E.
  - erewrite exec_effect, exec_j by reflexivity.
    do 4 (erewrite exec_effect by reflexivity). erewrite exec_call by reflexivity.
    eexists. split; [reflexivity|]. entry_close Hsp Hw Hr b.
  - do 6 (erewrite exec_effect by reflexivity). erewrite exec_call by reflexivity.
    eexists. split; [reflexivity|]. entry_close Hsp Hw Hr b.
Qed.

Lemma spp_clear (v : Z) : (Z.land v 0x100 =? 0) = negb (Z.testbit v 8).
Proof.
  assert (E : Z.land v 0x100 = if Z.testbit v 8 then 0x100 else 0).
  { apply Z.bits_inj'. intros n Hn. rewrite Z.land_spec. change 0x100 with (2 ^ 8).
    destruct (decide (n = 8)) as [->|Hne].
    - rewrite Z.pow2_bits_true by lia. rewrite andb_true_r. destruct (Z.testbit v 8); [by rewrite Z.pow2_bits_true|by rewrite Z.bits_0].
    - rewrite Z.pow2_bits_false, andb_false_r by done.
      destruct (Z.testbit v 8); [by rewrite Z.pow2_bits_false by done|by rewrite Z.bits_0]. }
  rewrite E. by destruct (Z.testbit v 8).
Qed.

(** The value the x2 slot gets is the interrupted stack pointer. *)
Lemma entry_sp (h : hart) : convention h -> hart_ok h ->
  (if Z.land (csrs h SSTATUS) 0x100 =? 0 then if csrs h SSCRATCH =? 0 then 0 else gpr h SP
   else wrap64 (frame_base h + 272)) = gpr h SP.
Proof.
  intros Hconv [Hg _]. red in Hconv. rewrite spp_clear. unfold frame_base. rewrite Z.sub_add.
  destruct (csrs h SSCRATCH =? 0) eqn:E, (Z.testbit (csrs h SSTATUS) 8) eqn:Eb; zbool; cbn [negb].
  - apply wrap64_small, Hg.
  - apply Hconv in E. congruence.
  - destruct E. by apply Hconv.
  - done.
Qed.

(** The swap keeps every register and CSR a 64-bit word. *)
Lemma entry_ok (h h1 : hart) : hart_ok h -> gpr h1 SP = frame_base h + 272 ->
  (forall n, n <> SP -> gpr h1 n = gpr h n) ->
  csrs h1 SSCRATCH = (if csrs h SSCRATCH =? 0 then 0 else gpr h SP) ->
  (forall c, c <> SSCRATCH -> csrs h1 c = csrs h c) -> hart_ok h1.
Proof.
  intros [Hg Hcs] Hsp1 Hg1 Hs1 Hc1. split.
  - intros n. destruct (decide (n = SP)) as [->|Hn]; [|rewrite Hg1 by done; apply Hg].
    rewrite Hsp1. unfold frame_base. rewrite Z.sub_add. destruct (_ =? _); [apply Hg|apply Hcs].
  - intros c. destruct (decide (c = SSCRATCH)) as [->|Hn]; [|rewrite Hc1 by done; apply Hcs].
    rewrite Hs1. destruct (_ =? _); [unfold u64_ok, W64; lia|apply Hg].
Qed.

(** Every word of the frame is what [hart_frame] says: then the frame is. *)
Lemma frame_of_words (h : hart) (m : mem) (b : Z) :
  (forall j, 0 <= j < 33 -> word m (b + j * 8) =
     if j =? 32 then csrs h SSTATUS else if j =? 31 then csrs h SEPC else gpr h (j + 1)) ->
  load_frame m b = hart_frame h.
Proof.
  intros Hword. rewrite load_frame_words, !Hword by lia. unfold hart_frame. cbn [Z.eqb Pos.eqb]. f_equal.
  symmetry. apply frame_of_regs. intros n Hn. rewrite Hword by lia.
  destruct (n - 1 =? 32) eqn:E1, (n - 1 =? 31) eqn:E2; zbool; try lia. f_equal. lia.
Qed.

(** The vector from entry to the call, for a trap from either mode. *)
Lemma vector_saves (h : hart) (fuel : nat) : (60 <= fuel)%nat -> convention h -> hart_ok h -> frame_room (frame_base h) ->
  exists h', exec fuel trap_vector 0 h = Called KERNAI_TRAP (length vector_entry) h' /\
    load_frame (hmem h') (frame_base h) = hart_frame h /\
    gpr h' SP = frame_base h /\ gpr h' RA0 = frame_base h /\
    csrs h' SSCRATCH = 0 /\ (forall c, c <> SSCRATCH -> csrs h' c = csrs h c) /\
    (forall a, ~ (frame_base h <= a < frame_base h + 264) -> hmem h' a = hmem h a).
Proof.
  intros Hf Hconv Hok Hr. replace fuel with (4 + (fuel - 4))%nat by lia.
  destruct (entry_swap h (fuel - 4)) as (h1 & f1 & Hf1 & -> & Hsp1 & Hg1 & Hs1 & Hc1 & Hm1).
  pose proof (entry_ok h h1 Hok Hsp1 Hg1 Hs1 Hc1) as Hok1. pose proof (entry_sp h Hconv Hok) as Eusp.
  set (b := frame_base h) in *.
  destruct (entry_block_run h1 b Hsp1 Hr Hok1) as (h2 & He & Hsp2 & Ht & Hc2 & Hw2 & Ho2).
  replace f1 with (length entry_block + (f1 - length entry_block))%nat by (change (length entry_block) with 36%nat; lia).
  rewrite (exec_straight entry_block trap_vector 4 _ h1 h2 ltac:(by eexists) He). clear He.
  change (4 + length entry_block)%nat with 40%nat.
  destruct (entry_tail h2 (f1 - length entry_block) b) as (h3 & -> & Hsp3 & Ha3 & Hs3 & Hc3 & Hm3);
    [change (length entry_block) with 36%nat; lia|exact Hsp2|exact Hr|].
  rewrite Ht, Hc2, Hs1, Hc1, Eusp in Hm3 by discriminate.
  exists h3. split; [reflexivity|]. split.
  { apply frame_of_words. intros j Hj. rewrite Hm3. change (b + 8) with (b + 1 * 8).
    destruct (decide (j = 1)) as [->|Hj1]; [by rewrite word_store_same by apply Hok|].
    rewrite word_store_other, Hw2, !Hc1 by (lia || discriminate).
    destruct (j =? 32), (j =? 31); try reflexivity. apply Hg1. unfold SP. lia. }
  split; [exact Hsp3|]. split; [exact Ha3|]. split; [exact Hs3|]. split.
  - intros c Hc. rewrite Hc3, Hc2 by exact Hc. by apply Hc1.
  - intros a Ha. rewrite Hm3, store_other by (rewrite le_bytes_length; lia). rewrite Ho2, Hm1 by exact Ha. done.
Qed.

(** ** Interrupts stay off *)

(** [sstatus.SIE] is clear: a pending interrupt is not taken in supervisor mode. *)
Definition masked (h : hart) : Prop := Z.testbit (csrs h SSTATUS) 1 = false.

Definition keeps_status (i : instr) : bool :=
  match i with
  | Csrrw _ c _ | Csrw c _ | Csrci c _ => bool_decide (c <> SSTATUS)
  | _ => true
  end.

Lemma effect_masked (i : instr) (h h' : hart) : keeps_status i = true -> effect i h = Some h' ->
  masked h -> masked h'.
Proof.
  unfold masked. destruct i; cbn; intros Hk E Hm; simplify_eq; try exact Hm;
    apply bool_decide_eq_true in Hk; cbn; rewrite decide_False by congruence; exact Hm.
Qed.

Lemma trail_masked (blk : list instr) (h : hart) : forallb keeps_status blk = true -> masked h ->
  Forall masked (trail blk h).
Proof.
  revert h. induction blk as [|i r IH]; intros h Hk Hm; cbn [trail forallb] in *; [constructor|].
  apply andb_true_iff in Hk as [Hi Hk]. destruct (effect i h) as [h1|] eqn:E; [|constructor].
  pose proof (effect_masked i h h1 Hi E Hm). constructor; [done|]. by apply IH.
Qed.

Lemma masked_written (v : Z) (h : hart) : Z.testbit v 1 = false -> masked (set_csr SSTATUS v h).
Proof. unfold masked. by rewrite csr_set_same, warl_status_sie. Qed.

Lemma trail_app (b1 b2 : list instr) (h h1 : hart) : straight b1 h = Some h1 ->
  trail (b1 ++ b2) h = trail b1 h ++ trail b2 h1.
Proof.
  revert h. induction b1 as [|i r IH]; intros h H; cbn [trail straight app] in *; [congruence|].
  destruct (effect i h) as [h2|]; [|done]. by rewrite (IH h2 H).
Qed.

End Blocks.

(** ** The blocks as a whole *)

Section Theorems.
Context {I : Isa} {HI : IsaLaws I} {L : Link}.

Definition resume_prologue : list instr :=
  [Csrci SSTATUS 2; Csrw SATP RA0; SfenceVma; La T0 trap_stack_top; Csrw SSCRATCH T0; Mv SP RA1].

Definition resume_block : list instr := resume_prologue ++ restore_body.

(** The instructions of [resume_block] around the one that loads [sstatus]. *)
Lemma resume_block_split : resume_block =
  [Csrci SSTATUS 2] ++ [Csrw SATP RA0; SfenceVma; La T0 trap_stack_top; Csrw SSCRATCH T0; Mv SP RA1;
    Ld T0 248 SP; Csrw SEPC T0; Ld T0 256 SP] ++ [Csrw SSTATUS T0] ++ restore_regs ++ [Ld SP 8 SP].
Proof. reflexivity. Qed.

(** The run of [__resume_user]. *)
Lemma resume_run_asm (h : hart) : frame_room (gpr h RA1) ->
  exists h', exec 48 resume_user_asm 0 h = Srets h' /\
    hart_frame h' = legal (load_frame (hmem h) (gpr h RA1)) /\ hmem h' = hmem h /\
    csrs h' SATP = warl SATP (gpr h RA0) /\ csrs h' SSCRATCH = trap_stack_top.
Proof.
  intros Hr.
  set (h0 := set_gpr SP (gpr h RA1) (set_csr SSCRATCH trap_stack_top (set_gpr T0 trap_stack_top
    (set_csr SATP (gpr h RA0) (csr_clear_bits SSTATUS 2 h))))).
  assert (E0 : straight resume_prologue h = Some h0) by reflexivity.
  destruct (restore_run h0 (gpr h RA1) eq_refl Hr) as (h1 & Hrun & Hfr & Hm & Hc).
  exists h1. split; [|split; [exact Hfr|split; [exact Hm|]]].
  - change 48%nat with (length resume_block + 7)%nat. unfold resume_block.
    rewrite (exec_straight _ resume_user_asm 0 _ h h1); [by apply exec_sret|by eexists|].
    by rewrite (straight_app _ _ _ _ E0).
  - clear Hrun. rewrite !Hc by discriminate. split; [reflexivity|apply warl_sscratch].
Qed.

(** C24: [__resume_user] is [load_frame] of the scheduler's model: it ends at the
    [sret], with every register, the pc and the status word those of the frame
    at [a1] (as the CSRs keep them), the address space of [a0] active, the trap
    stack armed in [sscratch] and memory untouched; and if the frame was saved
    with interrupts off, as every trap saves it, then interrupts are off after
    every single instruction, so no tick can see a half-loaded context. *)
Theorem resume_user_equiv (h : hart) : frame_room (gpr h RA1) ->
  exists h', exec 48 resume_user_asm 0 h = Srets h' /\
    hart_frame h' = legal (load_frame (hmem h) (gpr h RA1)) /\ hmem h' = hmem h /\
    csrs h' SATP = warl SATP (gpr h RA0) /\ csrs h' SSCRATCH = trap_stack_top /\
    (Z.testbit (sstatus (load_frame (hmem h) (gpr h RA1))) 1 = false -> Forall masked (trail resume_block h)).
Proof.
  intros Hr. destruct (resume_run_asm h Hr) as (h1 & Hrun & Hfr & Hm & Hsatp & Hsc). exists h1. split; [exact Hrun|]. split; [exact Hfr|]. split; [exact Hm|]. split; [exact Hsatp|]. split; [exact Hsc|]. clear Hrun.
  cbn [sstatus load_frame]. intros Hsie. rewrite resume_block_split.
  assert (H0 : masked (csr_clear_bits SSTATUS 2 h)).
  { apply masked_written. rewrite Z.ldiff_spec. apply andb_false_r. }
  erewrite trail_app by reflexivity. apply Forall_app. split; [by repeat constructor|].
  erewrite trail_app by reflexivity. apply Forall_app. split; [by apply trail_masked|].
  erewrite trail_app by reflexivity.
  match goal with |- Forall masked (trail [Csrw SSTATUS T0] ?g ++ _) =>
    assert (H1 : masked (set_csr SSTATUS (gpr g T0) g)) end.
  { apply masked_written. rewrite <- (slot_addr _ 256 Hr) in Hsie by lia. exact Hsie. }
  apply Forall_app. split; [by repeat constructor|by apply trail_masked].
Qed.

(** A whole trap, around any handler that gives the stack pointer back. *)
Lemma trap_run (h : hart) : trap_stack_top <> 0 -> convention h -> hart_ok h -> frame_room (frame_base h) ->
  exists h1, load_frame (hmem h1) (frame_base h) = hart_frame h /\ gpr h1 RA0 = frame_base h /\
    (forall c, c <> SSCRATCH -> csrs h1 c = csrs h c) /\
    (forall a, ~ (frame_base h <= a < frame_base h + 264) -> hmem h1 a = hmem h a) /\
    forall handle, gpr (handle h1) SP = gpr h1 SP ->
    exists h', trap_once 60 handle h = Srets h' /\ hart_frame h' = legal (load_frame (hmem (handle h1)) (frame_base h)) /\
      hmem h' = hmem (handle h1) /\ (forall c, c <> SEPC -> c <> SSTATUS -> c <> SSCRATCH -> csrs h' c = csrs (handle h1) c) /\
      convention h'.
Proof.
  intros Hts Hconv Hok Hr. unfold trap_once.
  destruct (vector_saves h 60 (le_n _) Hconv Hok Hr) as (h1 & -> & Hl & Hsp1 & Ha1 & Hs1 & Hc1 & Ho1).
  exists h1. split_and!; [done|done|done|done|]. intros handle Hsp. set (h2 := kernai_trap handle h1).
  assert (H2 : gpr h2 SP = frame_base h /\ hmem h2 = hmem (handle h1)).
  { split; [rewrite <- Hsp1, <- Hsp|]; unfold h2, kernai_trap; by destruct (_ =? 0). }
  destruct H2 as [Hsp2 Hm2].
  destruct (restore_run h2 (frame_base h) Hsp2 Hr) as (h3 & Hrun & Hfr & Hm3 & Hc3). rewrite Hm2 in Hfr.
  exists h3. split_and!; [|exact Hfr|by rewrite Hm3| |].
  - change 60%nat with (length restore_body + 25)%nat.
    rewrite (exec_straight restore_body trap_vector (length vector_entry) _ h2 h3 ltac:(by exists [Sret]) Hrun).
    by apply exec_sret.
  - intros c H1 H2 H3. rewrite Hc3 by done. unfold h2, kernai_trap, write_sscratch. destruct (_ =? 0); cbn; by rewrite decide_False.
  - clear Hrun. set (f' := load_frame (hmem (handle h1)) (frame_base h)) in *.
    assert (Es : csrs h3 SSTATUS = warl SSTATUS (sstatus f')).
    { change (csrs h3 SSTATUS) with (sstatus (hart_frame h3)). by rewrite Hfr. }
    red. rewrite Es, warl_status_spp, Hc3 by discriminate. unfold h2, kernai_trap. rewrite Ha1. fold f'.
    change SSTATUS_SPP with 0x100. rewrite spp_clear.
    destruct (Z.testbit (sstatus f') 8); cbn; rewrite warl_sscratch; done.
Qed.

(** C25: a whole trap is the handler on frames. Taken in user or supervisor mode
    under the sscratch convention, the vector saves exactly the interrupted
    context, calls the shim on it and restores whatever context the handler left
    in the frame: the hart ends at the [sret] with the handler's result in its
    registers, pc and status (as the CSRs keep them), and with sscratch again
    what the convention asks for the privilege it returns to. A handler that
    changes nothing is invisible to the interrupted code. *)
Theorem trap_vector_equiv (handle : hart -> hart) (handler : TrapFrame -> TrapFrame) (h : hart) :
  (forall g, gpr (handle g) SP = gpr g SP) ->
  (forall g, load_frame (hmem (handle g)) (gpr g RA0) = handler (load_frame (hmem g) (gpr g RA0))) ->
  trap_stack_top <> 0 -> convention h -> hart_ok h -> frame_room (frame_base h) ->
  exists h', trap_once 60 handle h = Srets h' /\ hart_frame h' = legal (handler (hart_frame h)) /\
    convention h'.
Proof.
  intros Hsp Hf Hts Hconv Hok Hr. destruct (trap_run h Hts Hconv Hok Hr) as (h1 & Hl & Ha & _ & _ & H).
  destruct (H handle (Hsp h1)) as (h' & Hrun & Hfr & _ & _ & Hc). exists h'. split; [exact Hrun|]. split; [|exact Hc].
  rewrite Hfr, <- Ha, Hf, Ha, Hl. done.
Qed.

(** ** Boot *)

Lemma store_zero (m : mem) (pa a : Z) : store m pa (le_bytes 8 0) a = if (pa <=? a) && (a <? pa + 8) then x00 else m a.
Proof.
  unfold store. rewrite le_bytes_length. change (Z.of_nat 8) with 8. destruct (_ && _) eqn:E; [|done].
  change (le_bytes 8 0) with (replicate 8 x00). rewrite nth_lookup.
  destruct (replicate 8 x00 !! Z.to_nat (a - pa)) eqn:El; [|done].
  by apply lookup_replicate in El as [-> _].
Qed.

(** The clearing loop, from its label with [n] words to go. *)
Lemma clear_loop (n : nat) (h : hart) (f : nat) (t0 : Z) : gpr h T0 = t0 -> gpr h T1 = bss_end ->
  0 <= t0 -> bss_end = t0 + 8 * Z.of_nat n -> bss_end < W64 ->
  exists h', exec (n * 5 + (4 + f)) start_asm 3 h = Called KERNAI_START 10 h' /\
    (forall r, r <> T0 -> gpr h' r = gpr h r) /\ (forall c, csrs h' c = csrs h c) /\
    (forall a, hmem h' a = if (t0 <=? a) && (a <? bss_end) then x00 else hmem h a).
Proof.
  revert h t0. induction n as [|n IH]; intros h t0 Ht0 Ht1 Hpos Hn He.
  - change (0 * 5 + (4 + f))%nat with (S (S (S (S f)))).
    erewrite exec_effect, exec_bgeu by reflexivity. rewrite Ht0, Ht1.
    destruct (bss_end <=? t0) eqn:E; zbool; [|lia].
    erewrite exec_effect, exec_call by reflexivity. exists h. split; [done|]. split; [done|]. split; [done|].
    intros a. destruct (_ && _) eqn:Ea; [|done]. zbool. lia.
  - change (S n * 5 + (4 + f))%nat with (S (S (S (S (S (n * 5 + (4 + f))))))).
    erewrite exec_effect, exec_bgeu by reflexivity. rewrite Ht0, Ht1.
    destruct (bss_end <=? t0) eqn:E; zbool; [lia|].
    erewrite exec_effect, exec_effect, exec_j by reflexivity.
    match goal with |- context [exec _ start_asm 3 ?g] =>
      destruct (IH g (t0 + 8)) as (h' & -> & Hg & Hc & Hm) end; [| |lia|lia|done|].
    + rewrite gpr_set by (unfold T0; lia). change (T0 =? T0) with true. cbv iota.
      change (gpr (set_mem ?m h)) with (gpr h). rewrite Ht0. apply wrap64_small. lia.
    + rewrite gpr_set by (unfold T0; lia). exact Ht1.
    + exists h'. split; [done|]. split.
      { intros r Hr. rewrite Hg, gpr_set by (try done; unfold T0; lia). destruct (r =? T0) eqn:Er; zbool; done. }
      split; [intros c; by rewrite Hc|]. intros a. rewrite Hm. cbn [hmem set_gpr set_mem].
      rewrite Z.add_0_r, Ht0, wrap64_small by lia. change (gpr h ZERO) with 0. rewrite store_zero.
      destruct (t0 + 8 <=? a) eqn:E1, (a <? bss_end) eqn:E2, (t0 <=? a) eqn:E3, (a <? t0 + 8) eqn:E4; zbool; cbn; try done; lia.
Qed.

(** C40: the boot entry ends in the kernel's Rust entry point with [sp] at the
    boot stack's top, [a0] and [a1] (hart id and device tree) as the firmware
    left them, every byte of [.bss] zero and every other byte of memory
    untouched. *)
Theorem boot_clears_bss (h : hart) (n : nat) : 0 <= bss_start -> bss_end = bss_start + 8 * Z.of_nat n -> bss_end < W64 ->
  exists h', exec (n * 5 + 8) start_asm 0 h = Called KERNAI_START 10 h' /\ gpr h' SP = stack_top /\
    gpr h' RA0 = gpr h RA0 /\ gpr h' RA1 = gpr h RA1 /\
    (forall a, hmem h' a = if (bss_start <=? a) && (a <? bss_end) then x00 else hmem h a).
Proof.
  intros Hp Hn He. replace (n * 5 + 8)%nat with (S (S (S (n * 5 + (4 + 1))))) by lia.
  erewrite !exec_effect by reflexivity.
  match goal with |- context [exec _ start_asm 3 ?g] =>
    destruct (clear_loop n g 1 bss_start eq_refl eq_refl Hp Hn He) as (h' & -> & Hg & Hc & Hm) end.
  exists h'. split; [done|]. rewrite !Hg by discriminate. done.
Qed.

End Theorems.

(** ** A concrete hart *)

(** [sepc] drops its lowest bit, every other register is plain. *)
Definition demo_isa : Isa := {| warl c v := if decide (c = SEPC) then Z.ldiff v 1 else v |}.

Lemma demo_isa_laws : IsaLaws demo_isa.
Proof.
  split; try done. intros c v. cbn. destruct (decide (c = SEPC)); [|done].
  rewrite Z.ldiff_ldiff_l. by rewrite Z.lor_diag.
Qed.

Definition demo_link : Link :=
  {| trap_stack_top := 0x80230000; trap_vector_addr := 0x80200200; stack_top := 0x80220000;
     bss_start := 0x80210000; bss_end := 0x80210010 |}.

(** A payload interrupted at 0x10004: [x]n holds 100 + n. *)
Definition demo_hart : hart :=
  mkHart (fun n => if (0 <=? n) && (n <? 32) then 100 + n else 0)
    (fun c => match c with SSCRATCH => 0x80230000 | SEPC => 0x10004 | SSTATUS => 0x20 | _ => 0 end) (fun _ => xff).

Lemma demo_hart_ok : hart_ok demo_hart.
Proof.
  split; [intros n|intros c; destruct c; cbn; unfold u64_ok, W64; lia].
  unfold gpr, u64_ok, W64; cbn. destruct (n =? 0); [lia|]. destruct (_ && _) eqn:E; zbool; lia.
Qed.

(** A handler that moves the interrupted pc. *)
Definition demo_handle (h : hart) : hart := set_mem (store (hmem h) (gpr h RA0 + 248) (le_bytes 8 0x10008)) h.

Lemma demo_handle_frame (h : hart) :
  load_frame (hmem (demo_handle h)) (gpr h RA0) = with_sepc 0x10008 (load_frame (hmem h) (gpr h RA0)).
Proof.
  rewrite !load_frame_words. unfold with_sepc; cbn [regs sstatus hmem demo_handle set_mem].
  change (gpr h RA0 + 248) with (gpr h RA0 + 31 * 8). f_equal.
  - apply map_ext_in. intros i Hi%list_elem_of_In%elem_of_seqZ. apply word_store_other. lia.
  - apply word_store_same. unfold u64_ok, W64. lia.
  - apply word_store_other. lia.
Qed.

Lemma resume_user_equiv_witness : exists h',
  exec (I := demo_isa) 48 (resume_user_asm (L := demo_link)) 0 demo_hart = Srets h' /\
  hart_frame h' = legal (I := demo_isa) (load_frame (hmem demo_hart) (gpr demo_hart RA1)).
Proof.
  destruct (resume_user_equiv (I := demo_isa) (HI := demo_isa_laws) (L := demo_link) demo_hart)
    as (h' & H1 & H2 & _); [change (frame_room 111); unfold frame_room, W64; lia|].
  exists h'. split; [exact H1|exact H2].
Defined.

Lemma trap_vector_equiv_witness : exists h',
  trap_once (I := demo_isa) (L := demo_link) 60 demo_handle demo_hart = Srets h' /\
  sepc (hart_frame h') = 0x10008 /\ gpr h' SP = 102.
Proof.
  destruct (trap_vector_equiv (I := demo_isa) (HI := demo_isa_laws) (L := demo_link) demo_handle (with_sepc 0x10008) demo_hart)
    as (h' & H1 & H2 & _); [done|exact demo_handle_frame|done| |exact demo_hart_ok| |].
  - split; [discriminate|]. vm_compute. discriminate.
  - change (frame_room (0x80230000 - 272)). unfold frame_room, W64. lia.
  - exists h'. split; [exact H1|]. split; [by rewrite H2|].
    change (gpr h' SP) with (nth 1 (regs (hart_frame h')) 0). by rewrite H2.
Defined.

Lemma boot_clears_bss_witness : exists h',
  exec (I := demo_isa) 18 (start_asm (L := demo_link)) 0 demo_hart = Called KERNAI_START 10 h' /\
  hmem h' 0x8021000f = x00 /\ hmem h' 0x80210010 = xff.
Proof.
  destruct (boot_clears_bss (I := demo_isa) (L := demo_link) demo_hart 2) as (h' & H1 & _ & _ & _ & H2);
    [cbn; lia|reflexivity|cbn; unfold W64; lia|].
  exists h'. split; [exact H1|]. by rewrite !H2.
Defined.

(** ** Critical sections *)

Section Critical.
Context {I : Isa} {HI : IsaLaws I}.

Lemma sie_bit (v : Z) : (Z.land v SSTATUS_SIE =? 0) = negb (Z.testbit v 1).
Proof.
  change SSTATUS_SIE with (2 ^ 1).
  destruct (Z.testbit v 1) eqn:E; cbn [negb].
  - apply Z.eqb_neq. intros H. assert (Hb : Z.testbit (Z.land v (2 ^ 1)) 1 = true) by (by rewrite Z.land_spec, E).
    by rewrite H in Hb.
  - apply Z.eqb_eq, Z.bits_inj'. intros n Hn. rewrite Z.land_spec, Z.bits_0.
    destruct (decide (n = 1)) as [->|Hne]; [by rewrite E|]. rewrite Z.pow2_bits_false by done. apply andb_false_r.
Qed.

(** [without_interrupts] is a critical section that nests: the closure starts
    with interrupts masked, its result is returned, and a closure that leaves
    the mask as it found it leaves the caller's interrupt state as it was,
    whether interrupts were on or off. *)
Theorem without_interrupts_restores {T} (f : hart -> T * hart) (h : hart) :
  (forall g, masked g -> masked (snd (f g))) ->
  let g := csr_clear_bits SSTATUS SSTATUS_SIE h in
  masked g /\ fst (without_interrupts f h) = fst (f g) /\
  Z.testbit (csrs (snd (without_interrupts f h)) SSTATUS) 1 = Z.testbit (csrs h SSTATUS) 1.
Proof.
  intros Hf g.
  assert (Hg : masked g) by (apply masked_written; rewrite Z.ldiff_spec; apply andb_false_r).
  split; [done|]. unfold without_interrupts. fold g. pose proof (Hf g Hg) as Hm.
  destruct (f g) as [out h1]. rewrite sie_bit, negb_involutive.
  destruct (Z.testbit (csrs h SSTATUS) 1) eqn:E; cbn [fst snd]; [|done].
  split; [done|]. unfold csr_set_bits. rewrite csr_set_same, warl_status_sie, Z.lor_spec. apply orb_true_r.
Qed.

End Critical.

Lemma without_interrupts_restores_witness :
  masked (csr_clear_bits (I := demo_isa) SSTATUS SSTATUS_SIE demo_hart).
Proof.
  apply (without_interrupts_restores (I := demo_isa) (HI := demo_isa_laws) (fun g => (7, g)) demo_hart).
  intros g Hg. exact Hg.
Defined.
