(* ===== verification/Payload.v ===== *)
(** * Payloads: images, process table, capabilities, checkpoints
      (kernel/src/payload.rs)

    The embedded image table, the process table and its suites, the events
    about payloads, the syscall hooks, checkpoints, preemption and the operator
    key ring. The scheduler itself is in [Sched]. *)

From S2P Require Import Prelude Hal Frames Mm Console RpcJson KState Traps.

(** ** Capabilities *)

Definition WRITE_QUOTA : Z := 256.
Definition CAP_WRITE : Z := Z.shiftl 1 0.
Definition CAP_YIELD : Z := Z.shiftl 1 1.
Definition CAP_SPAWN : Z := Z.shiftl 1 2.

Inductive Cap := CapWrite | CapYield | CapSpawn.
Definition cap_bit (c : Cap) : Z :=
  match c with CapWrite => CAP_WRITE | CapYield => CAP_YIELD | CapSpawn => CAP_SPAWN end.

(** ** Images *)

Record Image := mkImage { im_name : bytes; im_elf : bytes; im_caps : Z; im_deadline : Z }.

Section Payload.
Context {B : Build}.

(** The C payloads are empty unless their feature embeds them. *)
Definition craycast_elf : bytes := if feat_cpayloads then payload_bytes CRAYCAST else [].
Definition doom_elf : bytes := if feat_doom then payload_bytes DOOM else [].

Definition WAD_VA : Z := 0x50000000.
Definition WAD_PA : Z := 0x88000000.
Definition WAD_WINDOW : Z := Z.shiftl 32 20.

Definition IMAGES : list Image :=
  [ mkImage (lit "hello") (payload_bytes HELLO) CAP_WRITE 0;
    mkImage (lit "crasher") (payload_bytes CRASHER) CAP_WRITE 0;
    mkImage (lit "muzzled") (payload_bytes MUZZLED) 0 0;
    mkImage (lit "spawner") (payload_bytes SPAWNER) (Z.lor CAP_WRITE CAP_SPAWN) 0;
    mkImage (lit "child") (payload_bytes CHILD) (Z.lor CAP_WRITE CAP_YIELD) 0;
    mkImage (lit "runaway") (payload_bytes RUNAWAY) CAP_WRITE 15000;
    mkImage (lit "wild") (payload_bytes WILD) CAP_WRITE 0;
    mkImage (lit "wxviol") (payload_bytes WXVIOL) CAP_WRITE 0;
    mkImage (lit "forker") (payload_bytes FORKER) CAP_WRITE 0;
    mkImage (lit "leaker") (payload_bytes LEAKER) CAP_WRITE 0;
    mkImage (lit "delegator") (payload_bytes DELEGATOR) (Z.lor (Z.lor CAP_WRITE CAP_SPAWN) CAP_YIELD) 0;
    mkImage (lit "redelegator") (payload_bytes REDELEGATOR) (Z.lor CAP_WRITE CAP_SPAWN) 0;
    mkImage (lit "worker") (payload_bytes WORKER) CAP_WRITE 0;
    mkImage (lit "badjump") (payload_bytes BADJUMP) CAP_WRITE 0;
    mkImage (lit "craycast") craycast_elf CAP_WRITE 0;
    mkImage (lit "doom") doom_elf CAP_WRITE 0;
    mkImage (lit "livelock") (payload_bytes RUNAWAY) CAP_WRITE 0;
    mkImage (lit "breaker") (payload_bytes BREAKER) CAP_WRITE 0;
    mkImage (lit "misalign") (payload_bytes MISALIGN) CAP_WRITE 0;
    mkImage (lit "nullread") (payload_bytes NULLREAD) CAP_WRITE 0;
    mkImage (lit "execdata") (payload_bytes EXECDATA) CAP_WRITE 0;
    mkImage (lit "stackover") (payload_bytes STACKOVER) CAP_WRITE 0;
    mkImage (lit "fuzzdelegate") (payload_bytes FUZZDELEGATE) (Z.lor (Z.lor CAP_WRITE CAP_YIELD) CAP_SPAWN) 0;
    mkImage (lit "injector") (payload_bytes INJECTOR) CAP_WRITE 0 ].

Definition IMG_HELLO : Z := 0.
Definition IMG_CRASHER : Z := 1.
Definition IMG_MUZZLED : Z := 2.
Definition IMG_SPAWNER : Z := 3.
Definition IMG_CHILD : Z := 4.
Definition IMG_RUNAWAY : Z := 5.
Definition IMG_WILD : Z := 6.
Definition IMG_WXVIOL : Z := 7.
Definition IMG_FORKER : Z := 8.
Definition IMG_LEAKER : Z := 9.
Definition IMG_DELEGATOR : Z := 10.
Definition IMG_REDELEGATOR : Z := 11.
Definition IMG_WORKER : Z := 12.
Definition IMG_BADJUMP : Z := 13.
Definition IMG_CRAYCAST : Z := 14.
Definition IMG_DOOM : Z := 15.
Definition IMG_LIVELOCK : Z := 16.
Definition IMG_BREAKER : Z := 17.
Definition IMG_MISALIGN : Z := 18.
Definition IMG_NULLREAD : Z := 19.
Definition IMG_EXECDATA : Z := 20.
Definition IMG_STACKOVER : Z := 21.
Definition IMG_FUZZDELEGATE : Z := 22.
Definition IMG_INJECTOR : Z := 23.

(** [IMAGES[i]] and [IMAGES.get(i)]. *)
Definition image_at (i : Z) : option Image := if i <? 0 then None else IMAGES !! Z.to_nat i.
Definition get_image (i : Z) : M Image :=
  match image_at i with Some im => ret im | None => stop XPanic end.

Definition image_window (image : Z) : option (Z * Z * Z) :=
  if feat_doom && (image =? IMG_DOOM) then Some (WAD_VA, WAD_PA, WAD_WINDOW) else None.

Fixpoint window_loop (n : nat) (root va pa off : Z) (p : fpool) : bool * fpool :=
  match n with
  | O => (true, p)
  | S n' =>
      match map_page p root (va + off) (pa + off) (Z.lor R U) with
      | (inl _, p1) => (false, p1)
      | (inr _, p1) => window_loop n' root va pa (off + PAGE_SIZE) p1
      end
  end.

(** One iteration per page of [len]; [false] is the error window_map_failed. *)
Definition map_window (root va pa len : Z) (p : fpool) : bool * fpool :=
  window_loop (Z.to_nat ((len + PAGE_SIZE - 1) / PAGE_SIZE)) root va pa 0 p.

Definition spawnable_image (selector : Z) : option Z :=
  if selector =? 0 then Some IMG_CHILD
  else if selector =? 1 then Some IMG_REDELEGATOR
  else if selector =? 2 then Some IMG_WORKER
  else None.

(** ** Process table *)

Definition MAX_PROC : nat := 12.
Definition MAX_SNAP : nat := 4.

Definition slot_new : Slot := mkSlot EMPTY 0 0 NO_PID 0 0 0 0 0 false 0.
Definition snap_new : Snapshot := mkSnap false 0 0 0 0.

Fixpoint position_from {T} (i : Z) (p : T -> bool) (l : list T) : option Z :=
  match l with
  | [] => None
  | x :: r => if p x then Some i else position_from (i + 1) p r
  end.
Definition position {T} (p : T -> bool) (l : list T) : option Z := position_from 0 p l.

Definition has_state (st : pstate) (s : Slot) : bool := bool_decide (state s = st).

(** ** Kernel address space *)

Definition kernel_satp : M Z := gets (fun k => satp_of (kernel_root (pay k))).

Definition init_paging : M unit :=
  let! o := pooled space_new in
  match o with
  | None => stop XPanic
  | Some root =>
      let! r := pooled (fun p => map_kernel p root) in
      match r with
      | inl _ => stop XPanic
      | inr _ =>
          modify (on_pay (with_kernel_root root)) ;;;
          write_satp (satp_of root)
      end
  end.

Definition assert_pool_clear : M unit :=
  if kernel_end <=? POOL_BASE then ret tt else stop XPanic.

(** ** Operator keys: the ring *)

Definition KEY_RING_SIZE : Z := 64.
Definition KEY_PREFIX : byte := xa5.
Definition KEY_OP_KILL : byte := x03.

Definition image_wants_input (image : Z) : bool := image =? IMG_DOOM.

Definition clear_keys : M unit :=
  modify (on_pay (fun p => with_key_pending false (with_key_tail 0 (with_key_head 0 p)))).

(** ** Suites *)

(** [frames::free] and [AddressSpace::destroy] of a swapped-out field. *)
Definition release_space (root : Z) : M unit :=
  if root =? 0 then ret tt else pool_do (destroy root).
Definition release_frame (f : Z) : M unit :=
  if f =? 0 then ret tt else pool_do (free f).

Definition free_snapshots : M unit :=
  for_each (seqZ 0 (Z.of_nat MAX_SNAP)) (fun sid =>
    let! s := get_snap sid in
    if sn_valid s then
      upd_snap sid (fun s => with_sn_valid false (with_sn_root 0 s)) ;;;
      release_space (sn_root s) ;;;
      upd_snap sid (with_sn_frame 0) ;;;
      release_frame (sn_frame s)
    else ret tt).

Definition clear_table : M unit :=
  modify (on_pay (fun p => with_table (map (with_state EMPTY) (table p)) p)) ;;;
  free_snapshots ;;;
  modify (on_pay (with_auto_fork 0)) ;;;
  modify (on_pay (with_last_snap 0)) ;;;
  (if feat_doom then clear_keys else ret tt).

(** The slot a fresh entry of [image] becomes. *)
Definition fresh_slot (image : Z) (im : Image) (cs par : Z) : Slot :=
  {| state := PENDING; image := image; caps := Z.land cs (im_caps im); parent := par;
     exit_code := 0; started_at := 0; deadline := im_deadline im; root := 0;
     resume_frame := 0; preempted := false; start_event := 0 |}.

Definition enqueue (image cs par : Z) : M (option Z) :=
  let! t := gets (fun k => table (pay k)) in
  match position (has_state EMPTY) t with
  | None => ret None
  | Some pid =>
      let! im := get_image image in
      upd_slot pid (fun _ => fresh_slot image im cs par) ;;;
      ret (Some pid)
  end.

(** [enqueue(img, IMAGES[img].caps, NO_PID)], the result dropped. *)
Definition seed_one (img : Z) : M unit :=
  let! im := get_image img in
  let! _ := enqueue img (im_caps im) NO_PID in
  ret tt.

Definition seed (imgs : list Z) : M unit := clear_table ;;; for_each imgs seed_one.

Definition seed_suite_m3 : M unit := seed [IMG_HELLO; IMG_CRASHER].
Definition seed_suite_m4 : M unit := seed [IMG_MUZZLED; IMG_SPAWNER; IMG_RUNAWAY].
Definition seed_suite_m5 : M unit := seed [IMG_WILD; IMG_WXVIOL; IMG_LEAKER; IMG_HELLO].
Definition seed_suite_m6 : M unit := seed [IMG_FORKER] ;;; modify (on_pay (with_auto_fork 2)).
Definition seed_suite_m10 : M unit := seed [IMG_DELEGATOR].
Definition seed_suite_e2 : M unit := seed [IMG_LIVELOCK].
Definition seed_suite_e7 : M unit := seed [IMG_FUZZDELEGATE].
Definition seed_suite_e5 : M unit := seed [IMG_INJECTOR].
Definition seed_suite_eval : M unit :=
  seed [IMG_CRASHER; IMG_WILD; IMG_WXVIOL; IMG_BADJUMP; IMG_BREAKER; IMG_MISALIGN;
        IMG_NULLREAD; IMG_EXECDATA; IMG_STACKOVER].
Definition seed_suite_craycast : M unit := seed [IMG_CRAYCAST].
Definition seed_suite_doom : M unit := seed [IMG_DOOM].
Definition seed_suite_doom_fork : M unit := seed [IMG_DOOM] ;;; modify (on_pay (with_auto_fork 2)).

Definition take_next_pending : M (option Z) :=
  gets (fun k => position (has_state PENDING) (table (pay k))).

(** Free what every terminated payload still owns. *)
Definition terminal (st : pstate) : bool :=
  match st with EXITED | FAULTED | KILLED => true | _ => false end.

Definition reap_terminated : M unit :=
  for_each (seqZ 0 (Z.of_nat MAX_PROC)) (fun pid =>
    let! s := get_slot pid in
    if terminal (state s) then
      upd_slot pid (with_root 0) ;;;
      release_space (root s) ;;;
      upd_slot pid (with_resume_frame 0) ;;;
      release_frame (resume_frame s)
    else ret tt).

(** ** Events *)

Fixpoint then_all (l : list wprog) : wprog :=
  match l with [] => wok | w :: r => Then w (then_all r) end.

(** The names of the capabilities held, with commas between them. *)
Fixpoint caps_names (cs : Z) (first : bool) (l : list (bytes * Z)) : wprog :=
  match l with
  | [] => wok
  | (name, bit) :: r =>
      if negb (Z.land cs bit =? 0) then
        ((if first then wok else Put (lit ",")) +! fmt [js "'"; name; js "'"] +! caps_names cs false r)%W
      else caps_names cs first r
  end.

Definition cap_table : list (bytes * Z) :=
  [(lit "write", CAP_WRITE); (lit "yield", CAP_YIELD); (lit "spawn", CAP_SPAWN)].

Definition caps_json (cs : Z) : wprog :=
  (Put (lit "[") +! caps_names cs true cap_table +! Put (lit "]"))%W.

Definition state_name (s : pstate) : bytes :=
  match s with
  | EMPTY => lit "empty" | PENDING => lit "pending" | RUNNING => lit "running"
  | EXITED => lit "exited" | FAULTED => lit "faulted" | KILLED => lit "killed"
  end.

Definition emit_start (pid : Z) (name : bytes) (cs entry : Z) (restored : bool) : M unit :=
  let! ev := next_event in
  upd_slot pid (with_start_event ev) ;;;
  let! s := get_slot pid in
  let! cause :=
    (if parent s =? NO_PID then ret (Put (lit "null"))
     else let! ps := get_slot (parent s) in ret (fmt [dec (start_event ps)])) in
  send (fmt [js "{'id':"; dec ev; js ",'type':'payload_start','pid':"; dec pid; js ",'name':'"; name;
             js "','entry':'0x"; hex entry; js "','restored':"; dec_bool restored; js ",'caused_by':"] +!
        cause +! Put (js ",'caps':") +! caps_json cs +! Put (lit "}"))%W.

Definition emit_snapshot (pid id : Z) : M unit :=
  let! ev := next_event in
  send (fmt [js "{'id':"; dec ev; js ",'type':'snapshot','pid':"; dec pid; js ",'snapshot':"; dec id; js "}"]).

Definition emit_exit (pid code : Z) : M unit :=
  let! ev := next_event in
  let! s := get_slot pid in
  send (fmt [js "{'id':"; dec ev; js ",'type':'payload_exit','pid':"; dec pid; js ",'code':"; dec_i code;
             js ",'caused_by':"; dec (start_event s); js "}"]).

Definition emit_load_fault (pid : Z) (name reason : bytes) : M unit :=
  let! ev := next_event in
  send (fmt [js "{'id':"; dec ev; js ",'type':'payload_load_fault','pid':"; dec pid; js ",'name':'"; name;
             js "','reason':'"; reason; js "'}"]).

Definition emit_yield (pid : Z) : M unit :=
  let! ev := next_event in
  send (fmt [js "{'id':"; dec ev; js ",'type':'payload_yield','pid':"; dec pid; js "}"]).

Definition emit_spawn (par child : Z) (name : bytes) (parent_caps requested granted : Z) : M unit :=
  let! ev := next_event in
  send (fmt [js "{'id':"; dec ev; js ",'type':'payload_spawn','parent':"; dec par; js ",'child':"; dec child;
             js ",'name':'"; name; js "','parent_caps':"] +!
        caps_json parent_caps +! Put (js ",'requested':") +! caps_json requested +!
        Put (js ",'granted':") +! caps_json granted +! Put (js ",'attenuated':") +!
        Put (dec_bool (negb (requested =? granted))) +! Put (lit "}"))%W.

Definition emit_killed (pid elapsed dl : Z) : M unit :=
  let! ev := next_event in
  let! s := get_slot pid in
  send (fmt [js "{'id':"; dec ev; js ",'type':'payload_killed','pid':"; dec pid;
             js ",'reason':'deadline','elapsed':"; dec elapsed; js ",'deadline':"; dec dl;
             js ",'caused_by':"; dec (start_event s); js "}"]).

Definition count_state (st : pstate) (t : list Slot) : Z :=
  Z.of_nat (length (List.filter (has_state st) t)).

Definition emit_suite_done : M unit :=
  let! t := gets (fun k => table (pay k)) in
  let! ev := next_event in
  send (fmt [js "{'id':"; dec ev; js ",'type':'suite_done','exited':"; dec (count_state EXITED t);
             js ",'faulted':"; dec (count_state FAULTED t); js ",'killed':"; dec (count_state KILLED t);
             js "}"]).

Definition emit_sched_preempt (pid : Z) : M unit :=
  let! ev := next_event in
  let! s := get_slot pid in
  send (fmt [js "{'id':"; dec ev; js ",'type':'sched','action':'preempt','pid':"; dec pid;
             js ",'reason':'pending_input','caused_by':"; dec (start_event s); js "}"]).

(** Time units since a payload started, 0 if it never did. *)
Definition elapsed_since (started : Z) : M Z :=
  if started =? 0 then ret 0
  else let! now := read_time in ret (saturating_sub now started).

Definition emit_killed_operator (pid : Z) : M unit :=
  let! s := get_slot pid in
  let! elapsed := elapsed_since (started_at s) in
  let! ev := next_event in
  send (fmt [js "{'id':"; dec ev; js ",'type':'payload_killed','pid':"; dec pid;
             js ",'reason':'operator','elapsed':"; dec elapsed; js ",'caused_by':"] +!
        (if start_event s =? 0 then Put (lit "null") else fmt [dec (start_event s)]) +!
        Put (lit "}"))%W.

(** ** The running payload *)

Definition current_pid : M (option Z) :=
  gets (fun k => if current (pay k) =? NO_PID then None else Some (current (pay k))).

Definition current_has (c : Cap) : M bool :=
  let! o := current_pid in
  match o with
  | None => ret false
  | Some pid => let! s := get_slot pid in ret (negb (Z.land (caps s) (cap_bit c) =? 0))
  end.

Definition current_space : M (option Z) :=
  let! o := current_pid in
  match o with
  | None => ret None
  | Some pid =>
      let! s := get_slot pid in
      ret (if root s =? 0 then None else Some (root s))
  end.

Definition current_pagewalk (va : Z) : M (option WalkChain) :=
  let! o := current_space in
  let! m := gets (fun k => pmem (pool k)) in
  ret (option_map (fun r => walk m r va) o).

Definition current_cause : M (option Z) :=
  let! o := current_pid in
  match o with
  | None => ret None
  | Some pid => let! s := get_slot pid in ret (Some (start_event s))
  end.

(** The [pid] field of an event about the running payload. *)
Definition pid_or_none : M Z := let! o := current_pid in ret (default NO_PID o).

Definition emit_denied (syscall cap : bytes) : M unit :=
  let! pid := pid_or_none in
  let! ev := next_event in
  send (fmt [js "{'id':"; dec ev; js ",'type':'syscall_denied','pid':"; dec pid; js ",'syscall':'"; syscall;
             js "','reason':'missing_cap','cap':'"; cap; js "'}"]).

Definition mark_faulted : M unit :=
  let! o := current_pid in
  match o with
  | Some pid => upd_slot pid (with_state FAULTED)
  | None => ret tt
  end.

Definition leave_current : M unit := modify (on_pay (with_current NO_PID)).

Definition any_alive : M bool :=
  gets (fun k => existsb (fun s => has_state RUNNING s || has_state PENDING s) (table (pay k))).

(** ** Syscall hooks *)

Definition ENOSYS : Z := -1.
Definition ENOCAP : Z := -2.
Definition EFAULT : Z := -3.
Definition EINVAL : Z := -4.
Definition EAGAIN : Z := -5.
Definition ENOMEM : Z := -6.

Definition on_exit (code : Z) : M unit :=
  let! cur := gets (fun k => current (pay k)) in
  if cur =? NO_PID then ret tt else
  upd_slot cur (fun s => with_state EXITED (with_exit_code (as_isize code) s)) ;;;
  emit_exit cur (as_isize code).

Definition on_yield : M Z :=
  let! ok := current_has CapYield in
  if negb ok then emit_denied (lit "yield") (lit "yield") ;;; ret ENOCAP else
  let! o := current_pid in
  match o with
  | Some pid => emit_yield pid ;;; ret 0
  | None => ret 0
  end.

Definition on_spawn (selector requested_caps : Z) : M Z :=
  let! o := current_pid in
  match o with
  | None => ret EINVAL
  | Some par =>
      let! ok := current_has CapSpawn in
      if negb ok then emit_denied (lit "spawn") (lit "spawn") ;;; ret ENOCAP else
      match spawnable_image selector with
      | None => ret EINVAL
      | Some image =>
          let! s := get_slot par in
          let parent_caps := caps s in
          let! im := get_image image in
          let granted := Z.land (Z.land requested_caps parent_caps) (im_caps im) in
          let! r := enqueue image granted par in
          match r with
          | Some child =>
              emit_spawn par child (im_name im) parent_caps requested_caps granted ;;;
              ret child
          | None => ret EAGAIN
          end
      end
  end.

(** [false] is [Err(())]. *)
Definition emit_output (ptr len : Z) : M bool :=
  let n := Z.min len WRITE_QUOTA in
  let! o := current_space in
  match o with
  | None => ret false
  | Some space =>
      in_bounds (n <=? WRITE_QUOTA) ;;;
      let! m := gets (fun k => pmem (pool k)) in
      match copy_from_user m space ptr n with
      | None => ret false
      | Some buf =>
          let! pid := pid_or_none in
          let! caused_by := gets (fun k => match slot_at pid k with Some s => start_event s | None => 0 end) in
          let! ev := next_event in
          send (fmt [js "{'id':"; dec ev; js ",'type':'payload_output','pid':"; dec pid;
                     js ",'untrusted':true,'caused_by':"; dec caused_by; js ",'len':"; dec n;
                     js ",'data':'"] +!
                write_json_escaped_bytes buf +! Put (js "'}"))%W ;;;
          ret true
      end
  end.

(** *** blit *)

Definition RAMP : list byte := lit " .:-=+*#%@".
Definition BLIT_MAXW : Z := 72.
Definition BLIT_MAXH : Z := 24.

(** [RAMP[..]]; [None] is an index out of range. *)
Definition glyph (v : byte) : option byte :=
  RAMP !! Z.to_nat ((bz v * (Z.of_nat (length RAMP) - 1)) / 255).

Definition blit_row (row : bytes) : option wprog :=
  option_map (fun gs => (then_all (map (fun g => Put [g]) gs) +! Put (js "'"))%W) (mapM glyph row).

(** The rows: what is written between the header and the checksum, a row the
    payload could not read itself, or a panic. *)
Inductive blitted := BlitRows (w : wprog) (checksum : Z) | BlitFault | BlitPanic.

(** The rows from [y] on, [n] of them left. *)
Fixpoint blit_rows (n : nat) (m : mem) (space ptr w y checksum : Z) : blitted :=
  match n with
  | O => BlitRows wok checksum
  | S n' =>
      if negb (w <=? BLIT_MAXW) then BlitPanic else
      match copy_from_user m space (wrap64 (ptr + y * w)) w with
      | None => BlitFault
      | Some row =>
          match blit_row row with
          | None => BlitPanic
          | Some drawn =>
              match blit_rows n' m space ptr w (y + 1) (fold_left fnv_step row checksum) with
              | BlitRows rest sum =>
                  BlitRows ((if 0 <? y then Put (lit ",") else wok) +! Put (js "'") +! drawn +! rest)%W sum
              | r => r
              end
          end
      end
  end.

Definition on_blit (ptr w h : Z) : M Z :=
  let! ok := current_has CapWrite in
  if negb ok then emit_denied (lit "blit") (lit "write") ;;; ret ENOCAP else
  if (w =? 0) || (h =? 0) || (BLIT_MAXW <? w) || (BLIT_MAXH <? h) then ret EINVAL else
  let! o := current_space in
  match o with
  | None => ret EINVAL
  | Some space =>
      let! pid := pid_or_none in
      let! ev := next_event in
      let! m := gets (fun k => pmem (pool k)) in
      match blit_rows (Z.to_nat h) m space ptr w 0 FNV_BASIS with
      | BlitPanic => stop XPanic
      | BlitFault => ret EFAULT
      | BlitRows rows checksum =>
          let f := (fmt [js "{'id':"; dec ev; js ",'type':'frame','pid':"; dec pid;
                         js ",'untrusted':true,'w':"; dec w; js ",'h':"; dec h; js ",'rows':["] +!
                    rows +! fmt [js "],'checksum':'0x"; hex checksum; js "'}"])%W in
          if overflowed (build f) then ret EINVAL else send f ;;; ret 0
      end
  end.

(** *** frame_rgb *)

Definition ALPHABET : bytes :=
  lit "ABCDEFGHIJKLMNOPQRSTUVWXYZabcdefghijklmnopqrstuvwxyz0123456789+/".
Definition b64 (i : Z) : byte := nth (Z.to_nat (Z.land i 63)) ALPHABET x00.

Fixpoint write_base64 (bs : bytes) : wprog :=
  match bs with
  | [] => wok
  | [c0] =>
      let n := Z.shiftl (bz c0) 16 in
      Put [b64 (Z.shiftr n 18); b64 (Z.shiftr n 12); x3d; x3d]
  | [c0; c1] =>
      let n := Z.lor (Z.shiftl (bz c0) 16) (Z.shiftl (bz c1) 8) in
      Put [b64 (Z.shiftr n 18); b64 (Z.shiftr n 12); b64 (Z.shiftr n 6); x3d]
  | c0 :: c1 :: c2 :: r =>
      let n := Z.lor (Z.lor (Z.shiftl (bz c0) 16) (Z.shiftl (bz c1) 8)) (bz c2) in
      (Put [b64 (Z.shiftr n 18); b64 (Z.shiftr n 12); b64 (Z.shiftr n 6); b64 n] +! write_base64 r)%W
  end.

Definition FB_CHUNK : Z := 1440.

Definition on_frame_rgb (ptr len seq : Z) : M Z :=
  let! ok := current_has CapWrite in
  if negb ok then emit_denied (lit "frame") (lit "write") ;;; ret ENOCAP else
  let! auto := gets (fun k => autonomous (traps k)) in
  if auto then ret 0 else
  if (len =? 0) || (FB_CHUNK <? len) then ret EINVAL else
  let! o := current_space in
  match o with
  | None => ret EINVAL
  | Some space =>
      in_bounds (len <=? FB_CHUNK) ;;;
      let! m := gets (fun k => pmem (pool k)) in
      match copy_from_user m space ptr len with
      | None => ret EFAULT
      | Some buf =>
          let! pid := pid_or_none in
          let! ev := next_event in
          let f := (fmt [js "{'id':"; dec ev; js ",'type':'fbchunk','pid':"; dec pid;
                         js ",'untrusted':true,'seq':"; dec seq; js ",'n':"; dec len; js ",'data':'"] +!
                    write_base64 buf +! Put (js "'}"))%W in
          if overflowed (build f) then ret EINVAL else send f ;;; ret 0
      end
  end.

(** *** Checkpoints *)

Definition on_snapshot (frame : TrapFrame) : M Z :=
  let! op := current_pid in
  match op with
  | None => ret EINVAL
  | Some pid =>
      let! os := current_space in
      match os with
      | None => ret EINVAL
      | Some space =>
          let! sn := gets (fun k => snaps (pay k)) in
          match position (fun s => negb (sn_valid s)) sn with
          | None => ret EAGAIN
          | Some sid =>
              let! oc := pooled (fun p => deep_copy p space) in
              match oc with
              | None => ret ENOMEM
              | Some snap_as =>
                  let! ofr := pooled alloc in
                  match ofr with
                  | None => pool_do (destroy snap_as) ;;; ret ENOMEM
                  | Some snap_frame =>
                      pool_do (save_frame_to frame snap_frame 0) ;;;
                      let! s := get_slot pid in
                      upd_snap sid (fun _ => mkSnap true snap_as snap_frame (caps s) (image s)) ;;;
                      modify (on_pay (with_last_snap (sid + 1))) ;;;
                      emit_snapshot pid (sid + 1) ;;;
                      ret (sid + 1)
                  end
              end
          end
      end
  end.

(** The slot a continuation of a snapshot becomes. *)
Definition restored_slot (s : Snapshot) (im : Image) (new_as new_frame : Z) : Slot :=
  {| state := PENDING; image := sn_image s; caps := Z.land (sn_caps s) (im_caps im); parent := NO_PID;
     exit_code := 0; started_at := 0; deadline := 0; root := new_as;
     resume_frame := new_frame; preempted := false; start_event := 0 |}.

Definition enqueue_restore (sid : Z) : M (option Z) :=
  let! s := get_snap sid in
  if negb (sn_valid s) then ret None else
  let! oc := pooled (fun p => deep_copy p (sn_root s)) in
  match oc with
  | None => ret None
  | Some new_as =>
      let! ofr := pooled alloc in
      match ofr with
      | None => pool_do (destroy new_as) ;;; ret None
      | Some new_frame =>
          let! copied := pooled (fun p =>
            match phys_read (pmem p) (sn_frame s) (Z.to_nat PAGE_SIZE) with
            | None => (false, p)
            | Some buf =>
                match phys_write (pmem p) new_frame buf with
                | None => (false, p)
                | Some m => (true, with_mem p m)
                end
            end) in
          let abandon : M (option Z) :=
            pool_do (destroy new_as) ;;; pool_do (free new_frame) ;;; ret None in
          if negb copied then abandon else
          let! t := gets (fun k => table (pay k)) in
          match position (has_state EMPTY) t with
          | None => abandon
          | Some pid =>
              let! im := get_image (sn_image s) in
              upd_slot pid (fun _ => restored_slot s im new_as new_frame) ;;;
              ret (Some pid)
          end
      end
  end.

(** *** Deadlines and preemption *)

Definition on_tick : M bool :=
  let! o := current_pid in
  match o with
  | None => ret false
  | Some pid =>
      let! s := get_slot pid in
      if negb (has_state RUNNING s) then ret false else
      if deadline s =? 0 then ret false else
      let! now := read_time in
      let elapsed := saturating_sub now (started_at s) in
      if deadline s <? elapsed then
        upd_slot pid (with_state KILLED) ;;;
        emit_killed pid elapsed (deadline s) ;;;
        ret true
      else ret false
  end.

(** The frame to save a preempted payload into, allocated on first use. *)
Definition resume_slot_frame (pid : Z) : M (option Z) :=
  let! s := get_slot pid in
  if negb (resume_frame s =? 0) then ret (Some (resume_frame s)) else
  let! ofr := pooled alloc in
  match ofr with
  | None => ret None
  | Some f => upd_slot pid (with_resume_frame f) ;;; ret (Some f)
  end.

Definition maybe_preempt (frame : TrapFrame) : M bool :=
  let! o := current_pid in
  match o with
  | None => ret false
  | Some pid =>
      let! s := get_slot pid in
      if negb (has_state RUNNING s) then ret false else
      if feat_doom && image_wants_input (image s) then ret false else
      let! ob := console_getchar in
      match ob with
      | None => ret false
      | Some b =>
          modify (on_pay (with_stashed_byte (Z.lor 0x100 (bz b)))) ;;;
          let! orf := resume_slot_frame pid in
          match orf with
          | None => ret false
          | Some rf =>
              pool_do (save_frame_to frame rf (a0 frame)) ;;;
              upd_slot pid (with_preempted true) ;;;
              upd_slot pid (with_state PENDING) ;;;
              emit_sched_preempt pid ;;;
              ret true
          end
      end
  end.

(** *** Operator verbs *)

Definition kill_pid (pid : Z) : M (bytes + Z) :=
  let! os := gets (slot_at pid) in
  match os with
  | None => ret (inl (lit "no such pid"))
  | Some s =>
      if negb (has_state PENDING s) then ret (inl (lit "payload not alive")) else
      upd_slot pid (with_state KILLED) ;;;
      emit_killed_operator pid ;;;
      let! elapsed := elapsed_since (started_at s) in
      ret (inr elapsed)
  end.

Definition set_deadline (pid units : Z) : M (bytes + unit) :=
  let! os := gets (slot_at pid) in
  match os with
  | None => ret (inl (lit "no such pid"))
  | Some s =>
      if negb (has_state PENDING s) then ret (inl (lit "payload not alive")) else
      upd_slot pid (with_deadline units) ;;;
      ret (inr tt)
  end.

(** *** Operator keys *)

Definition push_key (b : byte) (p : PayState) : PayState :=
  if KEY_RING_SIZE <=? wrap64 (key_tail p - key_head p) then p else
  with_key_tail (wrap64 (key_tail p + 1))
    (with_key_ring (<[Z.to_nat (key_tail p mod KEY_RING_SIZE) := b]> (key_ring p)) p).

(** One byte of the drain; the result is the new value of [killed]. *)
Definition drain_byte (pid : Z) (killed : bool) (b : byte) : M bool :=
  let! pending := gets (fun k => key_pending (pay k)) in
  if negb pending then
    (if beq b KEY_PREFIX then modify (on_pay (with_key_pending true)) else ret tt) ;;;
    ret killed
  else
    modify (on_pay (with_key_pending false)) ;;;
    if beq b KEY_OP_KILL then
      let! s := get_slot pid in
      (if has_state RUNNING s
       then upd_slot pid (with_state KILLED) ;;; emit_killed_operator pid
       else ret tt) ;;;
      ret true
    else if killed then ret killed
    else modify (on_pay (push_key b)) ;;; ret killed.

(** The loop until the console is empty; a round per poll, so the number of
    polls left is enough. *)
Fixpoint drain_loop (fuel : nat) (pid : Z) (killed : bool) : M bool :=
  match fuel with
  | O => ret killed
  | S f =>
      let! ob := console_getchar in
      match ob with
      | None => ret killed
      | Some b => let! killed := drain_byte pid killed b in drain_loop f pid killed
      end
  end.

Definition drain_keys : M bool :=
  let! o := current_pid in
  match o with
  | None => ret false
  | Some pid =>
      let! s := get_slot pid in
      if negb (has_state RUNNING s) || negb (image_wants_input (image s)) then ret false else
      let! n := gets (fun k => length (hw_in (hw k))) in
      drain_loop (S n) pid false
  end.

Definition swallow_stray_key (b : byte) : M bool :=
  let! pending := gets (fun k => key_pending (pay k)) in
  modify (on_pay (with_key_pending false)) ;;;
  if pending then ret true else
  if beq b KEY_PREFIX then modify (on_pay (with_key_pending true)) ;;; ret true
  else ret false.

Definition on_getkey : M Z :=
  let! p := gets pay in
  if key_head p =? key_tail p then ret EAGAIN else
  let b := nth (Z.to_nat (key_head p mod KEY_RING_SIZE)) (key_ring p) x00 in
  modify (on_pay (with_key_head (wrap64 (key_head p + 1)))) ;;;
  ret (bz b).

(** ** Resources *)

Definition process_entry (pid : Z) (s : Slot) (first : bool) : wprog :=
  let name := match image_at (image s) with Some im => im_name im | None => lit "?" end in
  ((if first then wok else Put (lit ",")) +?
   fmt [js "{'pid':"; dec pid; js ",'name':'"; name; js "','state':'"; state_name (state s);
        js "','exit_code':"; dec_i (exit_code s); js ",'caps':"] +?
   (caps_json (caps s) +! Put (lit "}")))%W.

Fixpoint process_entries (pid : Z) (first : bool) (t : list Slot) : wprog :=
  match t with
  | [] => wok
  | s :: r =>
      if has_state EMPTY s then process_entries (pid + 1) first r
      else (process_entry pid s first +? process_entries (pid + 1) false r)%W
  end.

Definition write_process_table (t : list Slot) : wprog :=
  (Put (js "{'processes':[") +? process_entries 0 true t +? Put (js "]}"))%W.

Definition spec_syscalls : list (Z * bytes) :=
  [(0, lit "exit"); (1, lit "write"); (2, lit "yield"); (3, lit "spawn"); (4, lit "snapshot"); (5, lit "blit")].

(** A JSON array body: the items with commas between them. *)
Fixpoint comma_list (first : bool) (l : list wprog) : wprog :=
  match l with
  | [] => wok
  | w :: r => ((if first then wok else Put (lit ",")) +? w +? comma_list false r)%W
  end.

Definition write_spec : wprog :=
  (Put (js "{'proto':0,'arch':'riscv64','syscalls':[") +?
   comma_list true (map (fun '(num, name) => fmt [js "{'num':"; dec num; js ",'name':'"; name; js "'}"]) spec_syscalls) +?
   (if feat_doom then Put (js ",{'num':6,'name':'frame'},{'num':7,'name':'getkey'}") else wok) +?
   Put (js "],'caps':[") +?
   comma_list true (map (fun '(name, bit) => fmt [js "{'name':'"; name; js "','bit':"; dec bit; js "}"]) cap_table) +?
   fmt [js "],'memory':{'kernel_base':'0x80200000','pool_base':'0x"; hex POOL_BASE; js "','pool_end':'0x";
        hex POOL_END; js "'}"] +?
   (if feat_doom then fmt [js ",'windows':[{'name':'iwad','image':'doom','va':'0x"; hex WAD_VA; js "','len':";
                           dec WAD_WINDOW; js ",'perms':'r'}]"] else wok) +?
   Put (lit "}"))%W.

End Payload.
