(* ===== verification/LoadOwn.v ===== *)
(** * Ownership across loading

    The loader and the window mapper grow the address space they work on: it
    takes frames nobody owned, and the frames of everybody else keep their
    bytes, whatever the image and however the load ends. *)

From S2P Require Import Prelude Hal Frames Mm MmSpec MmWalk Elf PoolAcct ElfProofs CopySpec Console RpcJson KState Traps Payload Owner.

(** ** Growth *)

Definition is_tab (sh : shape) (g : Z) : Prop := exists k, sh !! k = Some g.

Record grown (p : fpool) (sh : shape) (p' : fpool) (sh' : shape) : Prop := {
  gn_own : forall g, owned p g -> owned p' g;
  gn_tab : forall g, is_tab sh' g -> is_tab sh g \/ ~ owned p g;
  gn_foot : forall g, frame_addr g -> holds p' sh' g -> holds p sh g \/ ~ owned p g;
  gn_mem : forall g a, owned p g -> ~ is_tab sh g -> g <= a < g + FRAME_SIZE -> pmem p' a = pmem p a
}.

Lemma grown_refl (p : fpool) (sh : shape) : grown p sh p sh.
Proof. split; try done; by left. Qed.

Lemma grown_trans (p1 p2 p3 : fpool) (s1 s2 s3 : shape) : grown p1 s1 p2 s2 -> grown p2 s2 p3 s3 -> grown p1 s1 p3 s3.
Proof.
  intros [A1 A2 A3 A4] [B1 B2 B3 B4]. split; [by auto| | |].
  - intros g Hg. destruct (B2 g Hg) as [H|H]; [by apply A2|right; by auto].
  - intros g Hf Hg. destruct (B3 g Hf Hg) as [H|H]; [by apply A3|right; by auto].
  - intros g a Hg Hn Ha. rewrite (B4 g); [by apply (A4 g)|by apply A1| |done]. intros H. by destruct (A2 g H).
Qed.

(** A space that grew keeps its neighbours. *)
Lemma sep_grown (p p' : fpool) (root : Z) (sh sh' : shape) (l : list tenant) : sep p (TSpace root sh :: l) ->
  space_ok p' sh' root -> grown p sh p' sh' -> sep p' (TSpace root sh' :: l) /\ Forall (agrees p p') l.
Proof.
  intros Hs Hok [G1 G2 G3 G4]. apply (sep_change p _ (TSpace root sh)); [done|apply (wf_pool _ _ _ (so_wf _ _ _ (ok_src _ _ _ Hok)))|done| |].
  - intros g [Hf Hg]. destruct (G3 g Hf Hg); [left; by split|by right].
  - intros g Hg Hn. split; [by apply G1|]. intros a. apply G4; [done|]. intros Ht. apply Hn. split; [apply Hg|]. by left.
Qed.

(** ** Frames *)

(** A frame taken and written, in no table. *)
Lemma grown_alloc (p p1 : fpool) (f : Z) (m : mem) (sh : shape) (root : Z) : space_ok p sh root -> alloc p = (Some f, p1) ->
  (forall a, ~ (f <= a < f + FRAME_SIZE) -> m a = pmem p1 a) ->
  space_ok (with_mem p1 m) sh root /\ grown p sh (with_mem p1 m) sh /\ owned (with_mem p1 m) f /\ ~ owned p f /\
  ~ holds (with_mem p1 m) sh f.
Proof.
  intros Hok Ha Hm. pose proof (wf_pool _ _ _ (so_wf _ _ _ (ok_src _ _ _ Hok))) as Hp.
  destruct (alloc_keeps p p1 f m Hp Ha Hm) as (Hk & Hf & Hn & Ho).
  assert (Hag : agrees p (with_mem p1 m) (TSpace root sh)).
  { intros g Hg. apply foot_owned in Hg; [|done]. by apply Ho. }
  destruct (space_transfer p (with_mem p1 m) root sh Hk Hok Hag) as (Hok2 & Hpg & _).
  assert (Hh : forall g, holds (with_mem p1 m) sh g -> holds p sh g).
  { intros g [?|(i2 & i1 & i0 & e & Hi & He & <-)]; [by left|]. rewrite Hpg in He by done. right. eauto 10. }
  split; [done|]. split; [|split; [done|split; [done|]]].
  - split; [by apply Ho|by left|intros g _ Hg; left; by apply Hh|]. intros g a Hg _. by apply Ho.
  - intros Hg. apply Hh in Hg. apply Hn. apply (foot_owned p (TSpace root sh)); [done|]. split; [apply Hf|done].
Qed.

(** A frame outside the space given back. *)
Lemma grown_free (p0 p : fpool) (f : Z) (sh0 sh : shape) (root : Z) : space_ok p sh root -> grown p0 sh0 p sh -> frame_addr f ->
  ~ owned p0 f -> ~ holds p sh f -> space_ok (free f p) sh root /\ grown p0 sh0 (free f p) sh.
Proof.
  intros Hok [G1 G2 G3 G4] Hf Hn Hh. pose proof (wf_pool _ _ _ (so_wf _ _ _ (ok_src _ _ _ Hok))) as Hp.
  destruct (free_releases p f Hp Hf) as (Ho & Hm & _ & _ & Hk).
  destruct (space_transfer p (free f p) root sh Hk Hok) as (Hok2 & Hpg & _).
  { intros g [Hfg Hg]. rewrite Hm. split; [|done]. apply Ho. split; [by apply (foot_owned p (TSpace root sh)); [|split]|by intros ->]. }
  split; [done|]. split.
  - intros g Hg. apply Ho. split; [by apply G1|by intros ->].
  - done.
  - intros g Hfg [?|(i2 & i1 & i0 & e & Hi & He & <-)]; [apply G3; [done|by left]|]. rewrite Hpg in He by done.
    apply G3; [done|]. right. eauto 10.
  - intros g a. rewrite Hm. by apply G4.
Qed.

(** ** Mapping *)

Section Spread.
Context (p0 p p' : fpool) (sh0 sh sh' : shape) (root : Z) (add : option (Z * Z * Z * Z)).
Context (Hok : space_ok p sh root) (Hg : grown p0 sh0 p sh) (Hs : spreads root p sh p' sh' add)
  (Hadd : forall t e', add = Some (t, e') -> frame_addr (pte_pa e') ->
    owned p (pte_pa e') /\ ~ is_tab sh (pte_pa e') /\ ~ owned p0 (pte_pa e'))
  (Hwin : forall t e', add = Some (t, e') -> has e' W = true -> frame_addr (pte_pa e')).

Lemma spread_tab (g : Z) : owned p g -> ~ is_tab sh g -> ~ is_tab sh' g.
Proof.
  intros Ho Hn [k Hk]. destruct (sh !! k) as [g'|] eqn:E.
  - apply Hn. exists k. pose proof (lookup_weaken _ _ _ _ E (sp_sub _ _ _ _ _ _ Hs)). congruence.
  - by apply (sp_new _ _ _ _ _ _ Hs k g).
Qed.

Lemma spread_page (i2 i1 i0 e : Z) : 0 <= i0 < 512 -> page_of p' sh' i2 i1 i0 = Some e ->
  page_of p sh i2 i1 i0 = Some e \/ exists t, add = Some (t, e).
Proof.
  intros Hi. rewrite (sp_page _ _ _ _ _ _ Hs) by done. destruct (added add (i2, i1, i0)) as [e'|] eqn:E; [|by left].
  intros [= <-]. unfold added in E. destruct add as [[t e]|]; [|done]. case_decide; [|done]. injection E as <-. right. eauto.
Qed.

Lemma spread_space_ok : space_ok p' sh' root.
Proof.
  destruct Hok as [[Hwf Hmg Hgg Hk Hpg] Htabs Hwn].
  assert (Hp : forall i2 i1 i0 e, 0 <= i0 < 512 -> page_of p' sh' i2 i1 i0 = Some e -> frame_addr (pte_pa e) ->
    owned p (pte_pa e) /\ ~ is_tab sh (pte_pa e)).
  { intros i2 i1 i0 e Hi He Hf. destruct (spread_page _ _ _ _ Hi He) as [He'|[t Et]].
    - split; [by eapply Hpg|]. intros [k Hk']. by apply (Htabs i2 i1 i0 e Hi He' k).
    - by destruct (Hadd t e Et Hf) as (? & ? & _). }
  split; [split| |].
  - apply (sp_wf _ _ _ _ _ _ Hs).
  - intros i2 i1 H2 H1. rewrite (sp_mega _ _ _ _ _ _ Hs) by done. by apply Hmg.
  - intros i2 e H2. rewrite (sp_giga _ _ _ _ _ _ Hs) by done. by apply Hgg.
  - by rewrite (sp_giga _ _ _ _ _ _ Hs).
  - intros i2 i1 i0 e Hi He Hf. apply (sp_own _ _ _ _ _ _ Hs). left. by eapply Hp.
  - intros i2 i1 i0 e Hi He k Hk'. assert (Hf : frame_addr (pte_pa e)) by (eapply wf_frame; [apply (sp_wf _ _ _ _ _ _ Hs)|done]).
    destruct (Hp _ _ _ _ Hi He Hf) as [Ho Hn]. apply (spread_tab _ Ho Hn). by exists k.
  - intros i2 i1 i0 e Hi He Hw. destruct (spread_page _ _ _ _ Hi He) as [He'|[t Et]]; [by eapply Hwn|by eapply Hwin].
Qed.

Lemma spread_grown : grown p0 sh0 p' sh'.
Proof.
  destruct Hg as [G1 G2 G3 G4].
  assert (Htab : forall g, is_tab sh' g -> is_tab sh g \/ ~ owned p g).
  { intros g [k Hk]. destruct (sh !! k) as [g'|] eqn:E.
    - left. exists k. pose proof (lookup_weaken _ _ _ _ E (sp_sub _ _ _ _ _ _ Hs)). congruence.
    - right. by apply (sp_new _ _ _ _ _ _ Hs k g). }
  split.
  - intros g Ho. apply (sp_own _ _ _ _ _ _ Hs). left. by apply G1.
  - intros g Ht. destruct (Htab g Ht) as [H|H]; [by apply G2|right; by auto].
  - intros g Hf [[k Hk]|(i2 & i1 & i0 & e & Hi & He & <-)].
    + destruct (Htab g (ex_intro _ k Hk)) as [[k' H]|H]; [apply G3; [done|]; left; eauto|right; by auto].
    + destruct (spread_page _ _ _ _ Hi He) as [He'|[t Et]]; [apply G3; [done|]; right; eauto 10|].
      right. by destruct (Hadd t e Et Hf) as (_ & _ & ?).
  - intros g a Ho Hn Ha. rewrite <- (G4 g a Ho Hn Ha).
    assert (Hn' : ~ is_tab sh g) by (intros H; by destruct (G2 g H)). pose proof (G1 g Ho) as Hop.
    apply (sp_mem _ _ _ _ _ _ Hs). intros k t Hk. apply (frames_disjoint g t a); [apply Ho|eapply wf_frame; [apply (sp_wf _ _ _ _ _ _ Hs)|done]| |done].
    intros ->. apply (spread_tab t Hop Hn'). by exists k.
Qed.

End Spread.

(** [map_page] of a frame nobody had, or of an address outside the pool; if it
    fails the frame is not in the space. *)
Lemma map_page_grown (p0 p : fpool) (sh0 sh : shape) (root va pa perms : Z) : space_ok p sh root -> grown p0 sh0 p sh ->
  page_pa pa -> 0 <= perms < 1024 ->
  (frame_addr pa -> owned p pa /\ ~ holds p sh pa /\ ~ owned p0 pa) -> (frame_addr pa \/ Z.land perms W = 0) ->
  match map_page p root va pa perms with
  | (r, p') => exists sh', space_ok p' sh' root /\ grown p0 sh0 p' sh' /\
      (forall e, r = inl e -> frame_addr pa -> ~ holds p' sh' pa)
  end.
Proof.
  intros Hok Hg Hpa Hperms Hf Hrw. pose proof (map_page_cases p sh root va pa perms (so_wf _ _ _ (ok_src _ _ _ Hok)) Hpa Hperms) as Hm.
  destruct (leaf_spec pa perms Hpa Hperms) as (_ & Epa & Efl).
  assert (Hnh : frame_addr pa -> ~ holds p sh pa) by (intros H; apply (Hf H)).
  assert (Htab : frame_addr pa -> ~ is_tab sh pa) by (intros H [k Hk]; apply (Hnh H); left; eauto).
  destruct (map_page p root va pa perms) as [[[]|[]] p'].
  - destruct Hm as [(sh' & Hwf & Hgr) _]. pose proof (grows_spreads root p p' sh sh' Hwf Hgr) as Hs. exists sh'.
    assert (Hadd : forall (t : Z * Z * Z) (e' : Z), None = Some (t, e') -> frame_addr (pte_pa e') -> owned p (pte_pa e') /\ ~ is_tab sh (pte_pa e') /\ ~ owned p0 (pte_pa e')) by done.
    split; [by apply (spread_space_ok p0 p p' sh sh' root None Hok Hs Hadd)|]. split; [by apply (spread_grown p0 p p' sh0 sh sh' root None)|].
    intros e _ Hfa [Ht|(i2 & i1 & i0 & e0 & Hi & He & Ee)].
    + by apply (spread_tab p p' sh sh' root None Hs pa (proj1 (Hf Hfa)) (Htab Hfa)).
    + rewrite (gr_page _ _ _ _ Hgr) in He by done. apply (Hnh Hfa). right. eauto 10.
  - destruct Hm as [-> _]. exists sh. split; [done|]. split; [done|]. intros e _ Hfa. by apply Hnh.
  - done.
  - destruct Hm as (sh' & Hwf & Hmp). pose proof (mapped_spreads root p p' sh sh' va _ Hwf Hmp) as Hs. exists sh'.
    assert (Hadd : forall t e', Some (vpn va 2, vpn va 1, vpn va 0, leaf pa perms) = Some (t, e') -> frame_addr (pte_pa e') ->
      owned p (pte_pa e') /\ ~ is_tab sh (pte_pa e') /\ ~ owned p0 (pte_pa e')).
    { intros t e' [= _ <-]. rewrite Epa. intros Hfa. destruct (Hf Hfa) as (H1 & _ & H3). split; [done|]. split; [by apply Htab|done]. }
    assert (Hwin : forall t e', Some (vpn va 2, vpn va 1, vpn va 0, leaf pa perms) = Some (t, e') -> has e' W = true -> frame_addr (pte_pa e')).
    { intros t e' [= _ <-] Hw. rewrite Epa. destruct Hrw as [?|Hz]; [done|].
      unfold has in Hw. rewrite Efl in Hw by flag_lia. unfold leaf_flags in Hw. by rewrite !Z.land_lor_distr_l, Hz in Hw. }
    split; [by apply (spread_space_ok p0 p p' sh sh' root _ Hok Hs Hadd Hwin)|].
    split; [by eapply (spread_grown p0 p p' sh0 sh sh' root); eauto|]. by intros e [=].
Qed.

(** ** The loader *)

Lemma copy_page_frame (oc : bool) (image : bytes) (f page vaddr offset cs ce : Z) (p p' : fpool) (r : eres unit) :
  0 <= offset < W64 -> 0 <= vaddr <= cs -> page <= cs -> ce <= page + FRAME_SIZE -> frame_addr f ->
  copy_page oc image f page vaddr offset cs ce p = (r, p') ->
  (exists m, p' = with_mem p m /\ forall a, ~ (f <= a < f + FRAME_SIZE) -> m a = pmem p a) \/
  (p' = free f p /\ forall u, r <> EOk u).
Proof.
  intros Hof Hv Hcs Hce Hf H. unfold copy_page in H.
  assert (Hsame : p' = p -> exists m, p' = with_mem p m /\ forall a, ~ (f <= a < f + FRAME_SIZE) -> m a = pmem p a).
  { intros ->. exists (pmem p). by destruct p. }
  destruct (cs <? ce) eqn:E; zbool; cbn [negb] in H; [|left; apply Hsame; congruence].
  destruct (add_usize oc offset (cs - vaddr)) as [so|] eqn:E1; [|left; apply Hsame; congruence].
  destruct (add_usize oc so (ce - cs)) as [se|] eqn:E2; [|left; apply Hsame; congruence].
  destruct (get_range image so se) as [src|] eqn:Eg; [|left; apply Hsame; congruence].
  destruct (phys_write _ _ src) as [m|] eqn:Ew; [|right; split; [congruence|]; intros u ->; congruence].
  left. exists m. split; [congruence|]. intros a Ha. unfold phys_write in Ew. destruct (pool_ptr _ _) as [q|] eqn:Eq; [|done].
  injection Ew as <-. apply pool_ptr_inv in Eq as [-> _]; [|lia]. apply store_other.
  assert (Hso : 0 <= so) by (unfold add_usize in E1; repeat case_match; simplify_eq; zbool; [lia|apply wrap64_range]).
  assert (Hl : Z.of_nat (length src) <= ce - cs); [|lia].
  apply get_range_spec in Eg as (Hr & Hlen & _); [|done]. rewrite Hlen.
  unfold add_usize in E2. destruct (so + (ce - cs) <? W64) eqn:El; zbool; [injection E2 as <-; lia|].
  destruct oc; [done|]. injection E2 as <-. pose proof (wrap64_range (so + (ce - cs))). unfold wrap64 in *.
  pose proof (Z.mod_le (so + (ce - cs)) W64). unfold W64 in *. lia.
Qed.

(** A step of the loader on the space at [root]: whatever the result, the space
    has grown. *)
Definition grows_space {T} (root : Z) (op : fpool -> T * fpool) : Prop := forall p sh, space_ok p sh root ->
  exists sh', space_ok (snd (op p)) sh' root /\ grown p sh (snd (op p)) sh'.

Lemma page_grown (oc : bool) (image : bytes) (root vaddr offset file_end perms page page_end : Z) (p p1 : fpool) (sh : shape) (f : Z) :
  0 <= vaddr -> 0 <= offset < W64 -> 0 <= perms < 1024 -> page_end = page + PAGE_SIZE -> space_ok p sh root -> alloc p = (Some f, p1) ->
  match copy_page oc image f page vaddr offset (Z.max page vaddr) (Z.min page_end file_end) p1 with
  | (EOk _, p2) =>
      match map_page p2 root page f perms with
      | (inl _, p3) => exists sh', space_ok (free f p3) sh' root /\ grown p sh (free f p3) sh'
      | (inr _, p3) => exists sh', space_ok p3 sh' root /\ grown p sh p3 sh'
      end
  | (_, p2) => exists sh', space_ok p2 sh' root /\ grown p sh p2 sh'
  end.
Proof.
  intros Hv Hof Hpm Hpe Hok Ha. pose proof (wf_pool _ _ _ (so_wf _ _ _ (ok_src _ _ _ Hok))) as Hp.
  destruct (alloc_gives p f p1 Hp Ha) as (Hf & Hn & _).
  destruct (copy_page _ _ _ _ _ _ _ _ p1) as [r p2] eqn:Ec. unfold PAGE_SIZE in Hpe.
  apply copy_page_frame in Ec; [|done|lia|lia|unfold FRAME_SIZE; lia|done].
  destruct Ec as [(m & -> & Hm)|[Ep2 Hr]].
  - destruct (grown_alloc p p1 f m sh root Hok Ha Hm) as (Hok2 & Hg2 & Ho2 & _ & Hh2).
    destruct r as [u|e| |]; [|by exists sh..].
    pose proof (map_page_grown p (with_mem p1 m) sh sh root page f perms Hok2 Hg2 (frame_page_pa f Hf) Hpm ltac:(done) (or_introl Hf)) as Hmp.
    destruct (map_page _ _ _ _ _) as [[e|v] p3]; destruct Hmp as (sh' & Hok3 & Hg3 & Hh3); exists sh'; [|done].
    apply (grown_free p p3 f sh sh' root Hok3 Hg3 Hf Hn). by apply (Hh3 e).
  - destruct (grown_alloc p p1 f (pmem p1) sh root Hok Ha ltac:(done)) as (Hok2 & Hg2 & Ho2 & _ & Hh2).
    replace (with_mem p1 (pmem p1)) with p1 in * by (by destruct p1). subst p2.
    destruct (grown_free p p1 f sh sh root Hok2 Hg2 Hf Hn Hh2) as [Hok3 Hg3].
    destruct r as [u|e| |]; [by destruct (Hr u)|by exists sh..].
Qed.

Lemma segment_grown (oc : bool) (fuel : nat) (image : bytes) (root vaddr offset file_end seg_end perms page : Z) :
  0 <= vaddr -> 0 <= offset < W64 -> 0 <= perms < 1024 ->
  grows_space root (segment_loop oc fuel image root vaddr offset file_end seg_end perms page).
Proof.
  intros Hv Hof Hpm. revert page. induction fuel as [|fuel IH]; intros page p sh Hok; cbn [segment_loop].
  - destruct (negb _); exists sh; (split; [done|apply grown_refl]).
  - destruct (negb _); [exists sh; split; [done|apply grown_refl]|].
    unfold checked_add. destruct (page + PAGE_SIZE <? W64); [|exists sh; split; [done|apply grown_refl]].
    destruct (alloc p) as [[f|] p1] eqn:Ea.
    2:{ apply alloc_exhausted in Ea as [-> _]. exists sh. split; [done|apply grown_refl]. }
    pose proof (page_grown oc image root vaddr offset file_end perms page _ p p1 sh f Hv Hof Hpm eq_refl Hok Ea) as Hpg.
    destruct (copy_page _ _ _ _ _ _ _ _ p1) as [[u|e| |] p2]; [|exact Hpg..].
    destruct (map_page p2 root page f perms) as [[e|v] p3]; [exact Hpg|]. destruct Hpg as (sh1 & Hok1 & Hg1).
    destruct (IH (page + PAGE_SIZE) p3 sh1 Hok1) as (sh2 & Hok2 & Hg2). exists sh2. split; [done|]. by eapply grown_trans.
Qed.

Lemma header_grown (oc : bool) (image : bytes) (root ph : Z) : 0 <= ph -> grows_space root (load_header oc image root ph).
Proof.
  intros Hph p sh Hok.
  assert (Hsame : exists sh', space_ok p sh' root /\ grown p sh p sh') by (exists sh; split; [done|apply grown_refl]).
  unfold load_header. destruct (u32_at image ph) as [ty|]; [|exact Hsame]. destruct (negb _); [exact Hsame|].
  destruct (u32_at image (ph + 4)) as [fl|] eqn:E1; [|exact Hsame]. destruct (u64_at image (ph + 8)) as [po|] eqn:E2; [|exact Hsame].
  destruct (u64_at image (ph + 16)) as [va|] eqn:E3; [|exact Hsame]. destruct (u64_at image (ph + 32)) as [fs|] eqn:E4; [|exact Hsame].
  destruct (u64_at image (ph + 40)) as [ms|] eqn:E5; [|exact Hsame].
  destruct (ms <? fs); [exact Hsame|]. cbv zeta. destruct (_ && _); [exact Hsame|].
  apply uint_at_range in E2, E3; [|lia..]. change (2 ^ (8 * 8)) with W64 in *.
  unfold map_segment. destruct (checked_add va ms); [|exact Hsame]. destruct (checked_add va fs); [|exact Hsame].
  apply segment_grown; [lia|lia|apply seg_perms_range|exact Hok].
Qed.

Lemma headers_grown (oc : bool) (n : nat) (i : Z) (image : bytes) (root phoff phentsize : Z) : 0 <= phoff -> 0 <= phentsize -> 0 <= i ->
  grows_space root (header_loop oc n i image root phoff phentsize).
Proof.
  intros Hpo Hpe. revert i. induction n as [|n IH]; intros i Hi p sh Hok; cbn [header_loop].
  - exists sh. split; [done|apply grown_refl].
  - destruct (header_grown oc image root (phoff + i * phentsize) ltac:(nia) p sh Hok) as (sh1 & Hok1 & Hg1).
    destruct (load_header _ _ _ _ p) as [[u|e| |] p1]; cbn [snd] in *; [|by exists sh1..].
    destruct (IH (i + 1) ltac:(lia) p1 sh1 Hok1) as (sh2 & Hok2 & Hg2). exists sh2. split; [done|]. by eapply grown_trans.
Qed.

Lemma load_grown (oc : bool) (image : bytes) (root : Z) : grows_space root (load_elf oc image root).
Proof.
  intros p sh Hok.
  assert (Hsame : exists sh', space_ok p sh' root /\ grown p sh p sh') by (exists sh; split; [done|apply grown_refl]).
  unfold load_elf. cbv zeta. destruct (_ <? 64); [exact Hsame|]. destruct (negb _); [exact Hsame|].
  destruct (is_elf64_rv image) as [[|]|]; [|exact Hsame..].
  destruct (u64_at image 24) as [entry|]; [|exact Hsame]. destruct (u64_at image 32) as [po|] eqn:E2; [|exact Hsame].
  destruct (u16_at image 54) as [pe|] eqn:E3; [|exact Hsame]. destruct (u16_at image 56) as [pn|]; [|exact Hsame].
  destruct (pe <? 56); [exact Hsame|]. destruct (checked_mul pn pe); [|exact Hsame]. destruct (checked_add po z); [|exact Hsame].
  destruct (_ <? z0); [exact Hsame|]. apply uint_at_range in E2, E3; [|lia..].
  destruct (headers_grown oc (Z.to_nat pn) 0 image root po pe ltac:(lia) ltac:(lia) ltac:(lia) p sh Hok) as (sh1 & Hok1 & Hg1).
  destruct (header_loop _ _ _ _ _ _ _ p) as [[u|e| |] p1]; cbn [snd] in *; [destruct (translate _ _ _)|..]; by exists sh1.
Qed.

(** ** Windows *)

(** A window lies outside the pool. *)
Lemma window_grown (n : nat) (root va pa off : Z) : (forall i, 0 <= i < Z.of_nat n -> page_pa (pa + off + i * PAGE_SIZE) /\ ~ frame_addr (pa + off + i * PAGE_SIZE)) ->
  grows_space root (window_loop n root va pa off).
Proof.
  revert off. induction n as [|n IH]; intros off Hw p sh Hok; cbn [window_loop]; [exists sh; split; [done|apply grown_refl]|].
  destruct (Hw 0 ltac:(lia)) as [Hpa Hnf]. rewrite Z.mul_0_l, Z.add_0_r in Hpa, Hnf.
  pose proof (map_page_grown p p sh sh root (va + off) (pa + off) (Z.lor R U) Hok (grown_refl p sh) Hpa ltac:(flag_lia) ltac:(done) (or_intror eq_refl)) as Hmp.
  destruct (map_page _ _ _ _ _) as [[e|v] p1]; destruct Hmp as (sh1 & Hok1 & Hg1 & _); [by exists sh1|].
  destruct (IH (off + PAGE_SIZE)) with (p := p1) (sh := sh1) as (sh2 & Hok2 & Hg2); [|done|exists sh2; split; [done|by eapply grown_trans]].
  intros i Hi. replace (pa + (off + PAGE_SIZE) + i * PAGE_SIZE) with (pa + off + (i + 1) * PAGE_SIZE) by lia. apply Hw. lia.
Qed.
