(* ===== verification/Base64.v ===== *)
(** * Base64 of pixel chunks (kernel/src/payload.rs, [write_base64])

    A decoder, and the round trip through the encoder of the framebuffer
    syscall. *)

From S2P Require Import Prelude Console RpcJson KState Payload.

(** Quotients and remainders by constants. *)
Ltac dlia := Z.to_euclidean_division_equations; lia.

(** The value of a character of the alphabet. *)
Definition unb64 (c : byte) : Z :=
  let v := bz c in
  if (65 <=? v) && (v <=? 90) then v - 65
  else if (97 <=? v) && (v <=? 122) then v - 71
  else if (48 <=? v) && (v <=? 57) then v + 4
  else if v =? 43 then 62 else 63.

Definition group (a b c d : byte) : Z :=
  unb64 a * 262144 + unb64 b * 4096 + unb64 c * 64 + unb64 d.

Fixpoint unbase64 (s : bytes) : bytes :=
  match s with
  | a :: b :: c :: d :: r =>
      if beq c x3d then [byte.of_Z (group a b x41 x41 / 65536)]
      else if beq d x3d then
        let n := group a b c x41 in [byte.of_Z (n / 65536); byte.of_Z (n / 256 mod 256)]
      else
        let n := group a b c d in
        byte.of_Z (n / 65536) :: byte.of_Z (n / 256 mod 256) :: byte.of_Z (n mod 256) :: unbase64 r
  | _ => []
  end.

(** ** Arithmetic of the packing *)

Lemma lor_pack (a b n : Z) : 0 <= n -> 0 <= b < 2 ^ n -> Z.lor (Z.shiftl a n) b = a * 2 ^ n + b.
Proof.
  intros Hn Hb. assert (Z.land (Z.shiftl a n) b = 0) as H0.
  { apply Z.bits_inj'. intros i Hi. rewrite Z.land_spec, Z.bits_0. destruct (decide (i < n)).
    - by rewrite Z.shiftl_spec_low.
    - rewrite (proj1 (Z.bounded_iff_bits_nonneg' n b Hn (proj1 Hb)) Hb i) by lia. apply andb_false_r. }
  rewrite <- Z.shiftl_mul_pow2 by done. by rewrite Z.add_nocarry_lxor, Z.lxor_lor.
Qed.

Lemma pack2 (a b : Z) : 0 <= b < 256 -> Z.lor (Z.shiftl a 16) (Z.shiftl b 8) = a * 65536 + b * 256.
Proof. intros Hb. rewrite lor_pack; rewrite ?Z.shiftl_mul_pow2 by lia; lia. Qed.

Lemma pack3 (a b c : Z) : 0 <= b < 256 -> 0 <= c < 256 ->
  Z.lor (Z.lor (Z.shiftl a 16) (Z.shiftl b 8)) c = a * 65536 + b * 256 + c.
Proof.
  intros Hb Hc. rewrite pack2 by done.
  replace (a * 65536 + b * 256) with (Z.shiftl (a * 256 + b) 8) by (rewrite Z.shiftl_mul_pow2; lia).
  rewrite lor_pack by lia. rewrite Z.shiftl_mul_pow2; lia.
Qed.

Lemma unb64_b64 (i : Z) : unb64 (b64 i) = i mod 64 /\ beq (b64 i) x3d = false.
Proof.
  unfold b64. replace (Z.land i 63) with (i mod 64) by (symmetry; apply (Z.land_ones i 6); lia).
  pose proof (Z.mod_pos_bound i 64 eq_refl) as Hm. generalize dependent (i mod 64). intros j Hj.
  assert (forallb (fun j => (unb64 (nth (Z.to_nat j) ALPHABET x00) =? j) &&
            negb (beq (nth (Z.to_nat j) ALPHABET x00) x3d)) (seqZ 0 64) = true) as Hall by (vm_compute; reflexivity).
  rewrite forallb_forall in Hall. specialize (Hall j).
  assert (In j (seqZ 0 64)) as Hin by (apply list_elem_of_In, elem_of_seqZ; lia).
  specialize (Hall Hin). zbool. done.
Qed.

(** The four characters of a packed group carry its 24 bits. *)
Lemma group_b64 (n : Z) : 0 <= n < 16777216 ->
  group (b64 (Z.shiftr n 18)) (b64 (Z.shiftr n 12)) (b64 (Z.shiftr n 6)) (b64 n) = n.
Proof.
  intros Hn. unfold group. rewrite !(proj1 (unb64_b64 _)), !Z.shiftr_div_pow2 by lia.
  change (2 ^ 18) with 262144. change (2 ^ 12) with 4096. change (2 ^ 6) with 64.
  replace (n / 4096) with (n / 64 / 64) by (by rewrite Z.div_div).
  replace (n / 262144) with (n / 64 / 64 / 64) by (by rewrite !Z.div_div). dlia.
Qed.

Lemma of_bz (b : byte) (z : Z) : z = bz b -> byte.of_Z z = b.
Proof. intros ->. apply byte.of_Z_unsigned. Qed.

(** Lists by groups of three. *)
Lemma list3_ind (P : bytes -> Prop) :
  P [] -> (forall a, P [a]) -> (forall a b, P [a; b]) ->
  (forall a b c l, P l -> P (a :: b :: c :: l)) -> forall l, P l.
Proof.
  intros H0 H1 H2 H3 l. assert (P l /\ (forall a, P (a :: l)) /\ (forall a b, P (a :: b :: l))) as [H _]; [|done].
  induction l as [|x l (IH1 & IH2 & IH3)]; [done|]. split_and!; auto.
Qed.

Lemma base64_decodes (bs : bytes) : unbase64 (text (write_base64 bs)) = bs.
Proof.
  induction bs as [|c0|c0 c1|c0 c1 c2 r IH] using list3_ind; [done|..]; pose proof (bz_range c0) as H0.
  - cbn [write_base64 text unbase64 beq Byte.eqb]. change (beq x3d x3d) with true. cbv iota.
    f_equal. apply of_bz. unfold group. rewrite !(proj1 (unb64_b64 _)), !Z.shiftr_div_pow2, Z.shiftl_mul_pow2 by lia.
    change (unb64 x41) with 0. change (2 ^ 18) with 262144. change (2 ^ 12) with 4096. change (2 ^ 16) with 65536. dlia.
  - pose proof (bz_range c1) as H1. cbn [write_base64 text unbase64]. rewrite (proj2 (unb64_b64 _)).
    change (beq x3d x3d) with true. cbv iota zeta. rewrite pack2 by lia.
    unfold group. rewrite !(proj1 (unb64_b64 _)), !Z.shiftr_div_pow2 by lia.
    change (unb64 x41) with 0. change (2 ^ 18) with 262144. change (2 ^ 12) with 4096. change (2 ^ 6) with 64.
    f_equal; [|f_equal]; apply of_bz; dlia.
  - pose proof (bz_range c1) as H1. pose proof (bz_range c2) as H2.
    cbn [write_base64 text app unbase64]. rewrite !(proj2 (unb64_b64 _)). cbv iota zeta.
    rewrite pack3 by lia. rewrite group_b64 by lia. rewrite IH.
    f_equal; [|f_equal; [|f_equal]]; apply of_bz; dlia.
Qed.

Lemma base64_length (bs : bytes) :
  Z.of_nat (length (text (write_base64 bs))) = 4 * ((Z.of_nat (length bs) + 2) / 3).
Proof.
  induction bs as [|c0|c0 c1|c0 c1 c2 r IH] using list3_ind; [done..|].
  cbn [write_base64 text]. rewrite length_app. cbn [length]. dlia.
Qed.

(** The base64 of a pixel chunk decodes to the chunk. Decoding what
    [write_base64] means to write gives back the bytes, whatever their number,
    and the text is four characters for every three bytes, rounded up. *)
Theorem base64_roundtrip (bs : bytes) :
  unbase64 (text (write_base64 bs)) = bs /\
  Z.of_nat (length (text (write_base64 bs))) = 4 * ((Z.of_nat (length bs) + 2) / 3).
Proof. split; [apply base64_decodes|apply base64_length]. Qed.
