(* ===== verification/Syscall.v ===== *)
(** * Syscall dispatch (kernel/src/syscall.rs) *)

From S2P Require Import Prelude Hal Frames Mm Console RpcJson KState Traps Payload.

Definition SYS_EXIT : Z := 0.
Definition SYS_WRITE : Z := 1.
Definition SYS_YIELD : Z := 2.
Definition SYS_SPAWN : Z := 3.
Definition SYS_SNAPSHOT : Z := 4.
Definition SYS_BLIT : Z := 5.
Definition SYS_FRAME : Z := 6.
Definition SYS_GETKEY : Z := 7.

Inductive Outcome := Resume (v : Z) | Leave.

Section Syscall.
Context {B : Build}.

Definition sys_write (ptr len : Z) : M Z :=
  let! ok := current_has CapWrite in
  if negb ok then emit_denied (lit "write") (lit "write") ;;; ret ENOCAP else
  let take := Z.min len WRITE_QUOTA in
  let! sent := emit_output ptr take in
  ret (if sent then take else EFAULT).

(** [Outcome::Resume] of the value a hook returns. *)
Definition resume (m : M Z) : M Outcome := let! v := m in ret (Resume v).

Definition dispatch (frame : TrapFrame) : M Outcome :=
  let nr := a7 frame in
  let a0 := a0 frame in
  let a1 := a1 frame in
  if nr =? SYS_EXIT then on_exit a0 ;;; ret Leave
  else if nr =? SYS_WRITE then resume (sys_write a0 a1)
  else if nr =? SYS_YIELD then resume on_yield
  else if nr =? SYS_SPAWN then resume (on_spawn a0 (wrap32 a1))
  else if nr =? SYS_SNAPSHOT then resume (on_snapshot frame)
  else if nr =? SYS_BLIT then resume (on_blit a0 a1 (a2 frame))
  else if feat_doom && (nr =? SYS_FRAME) then resume (on_frame_rgb a0 a1 (a2 frame))
  else if feat_doom && (nr =? SYS_GETKEY) then resume on_getkey
  else ret (Resume ENOSYS).

End Syscall.
