(* ===== verification/Handler.v ===== *)
(** * Trap dispatch and fault reports (kernel/src/traps.rs)

    [handle], the redirection into the scheduler, and the diagnostic frame on
    its two surfaces. The trap frame is passed in and the rewritten frame is
    returned. *)

From S2P Require Import Prelude Hal Frames Mm Console RpcJson KState Traps Payload Syscall.

Section Handler.
Context {B : Build}.

(** ** The diagnostic frame *)

Definition reg_names : list bytes :=
  [lit "ra"; lit "sp"; lit "gp"; lit "tp"; lit "t0"; lit "t1"; lit "t2"; lit "s0";
   lit "s1"; lit "a0"; lit "a1"; lit "a2"; lit "a3"; lit "a4"; lit "a5"; lit "a6";
   lit "a7"; lit "s2"; lit "s3"; lit "s4"; lit "s5"; lit "s6"; lit "s7"; lit "s8";
   lit "s9"; lit "s10"; lit "s11"; lit "t3"; lit "t4"; lit "t5"; lit "t6"].

Definition write_regs (frame : TrapFrame) : wprog :=
  (Put (lit "{") +?
   try_all (imap (fun i name =>
     (if (0 <? i)%nat then Put (lit ",") else wok) +?
     fmt [js "'"; name; js "':'0x"; hex (x_ frame (i + 1)); js "'"]) reg_names) +?
   Put (lit "}"))%W.

Definition bit_at (pte : Z) (i : Z) : Z := Z.land (Z.shiftr pte i) 1.

Definition write_pagewalk (o : option WalkChain) : wprog :=
  match o with
  | None => Put (lit "null")
  | Some w =>
      (Put (lit "[") +!
       then_all (imap (fun i '(level, pte) =>
         (if (0 <? i)%nat then Put (lit ",") else wok) +!
         fmt [js "{'level':"; dec level; js ",'pte':'0x"; hex pte; js "','v':"; dec (bit_at pte 0);
              js ",'r':"; dec (bit_at pte 1); js ",'w':"; dec (bit_at pte 2); js ",'x':"; dec (bit_at pte 3);
              js ",'u':"; dec (bit_at pte 4); js "}"]) w) +!
       Put (lit "]"))%W
  end.

Definition fault_origin (id : Z) (pid : option Z) : wprog :=
  match pid with
  | Some pid => fmt [js "{'id':"; dec id; js ",'type':'fault','origin':'payload','pid':"; dec pid; lit ","]
  | None => fmt [js "{'id':"; dec id; js ",'type':'fault','origin':'kernel',"]
  end.

Definition fault_insn (scause stval : Z) : wprog :=
  if (scause =? CAUSE_ILLEGAL_INSTRUCTION) && negb (stval =? 0) then
    (fmt [js "{'bits':'0x"; hex stval; js "','opcode':'0x"; hex (Z.land stval 0x7f);
          js "','rd':"; dec (Z.land (Z.shiftr stval 7) 0x1f);
          js ",'funct3':"; dec (Z.land (Z.shiftr stval 12) 0x7);
          js ",'rs1':"; dec (Z.land (Z.shiftr stval 15) 0x1f);
          js ",'rs2':"; dec (Z.land (Z.shiftr stval 20) 0x1f);
          js ",'funct7':'0x"; hex (Z.land (Z.shiftr stval 25) 0x7f); js "'"] +!
     (if Z.land stval 0x7f =? 0x73
      then fmt [js ",'csr':'0x"; hex (Z.land (Z.shiftr stval 20) 0xfff); js "'"] else wok) +!
     Put (lit "}"))%W
  else Put (lit "null").

(** The rich frame: everything known about the fault. *)
Definition fault_frame (t : TrapState) (frame : TrapFrame) (id scause stval : Z) (pid caused_by : option Z)
    (pagewalk : wprog) : wprog :=
  (fault_origin id pid +! Put (js "'caused_by':") +!
   match caused_by with Some ev => fmt [dec ev] | None => Put (lit "null") end +!
   fmt [js ",'cause':'0x"; hex scause; js "','cause_name':'"; cause_name scause; js "','sepc':'0x";
        hex (sepc frame); js "','stval':'0x"; hex stval; js "','ra':'0x"; hex (x_ frame 1);
        js "','sp':'0x"; hex (x_ frame 2); js "','regs':"] +!
   write_regs frame +! Put (js ",'insn':") +! fault_insn scause stval +!
   Put (js ",'pagewalk':") +! pagewalk +! Put (js ",'ring':") +! write_ring t +! Put (lit "}"))%W.

(** The fallback when the rich frame does not fit. *)
Definition fault_minimal (frame : TrapFrame) (id scause stval : Z) (pid : option Z) : wprog :=
  (fault_origin id pid +!
   fmt [js "'overflow':true,'cause_name':'"; cause_name scause; js "','sepc':'0x"; hex (sepc frame);
        js "','stval':'0x"; hex stval; js "'}"])%W.

(** [RawConsole]: the line as it goes over the wire. *)
Definition classic_line (frame : TrapFrame) (scause stval : Z) (pid : option Z) : bytes := concat
  [lit "[FAULT] "; match pid with Some _ => lit "payload" | None => lit "kernel" end; lit " ";
   cause_name scause; lit " pc=0x"; hex (sepc frame); lit " stval=0x"; hex stval; lit " ra=0x";
   hex (x_ frame 1); lit " sp=0x"; hex (x_ frame 2); [x0a]].

Definition emit_fault_classic (frame : TrapFrame) (scause stval : Z) (pid : option Z) : M unit :=
  put_wire (classic_line frame scause stval pid).

Definition emit_fault (frame : TrapFrame) (id scause stval : Z) (pid : option Z) : M unit :=
  let! t := gets traps in
  if classic_surface t then emit_fault_classic frame scause stval pid else
  let! cause := current_cause in
  let caused_by := match pid with Some _ => cause | None => None end in
  let! walk :=
    (if (match pid with Some _ => true | None => false end) &&
        ((scause =? 12) || (scause =? 13) || (scause =? 15))
     then let! w := current_pagewalk stval in ret (write_pagewalk w)
     else ret (Put (lit "null"))) in
  let f := fault_frame t frame id scause stval pid caused_by walk in
  if overflowed (build f) then send (fault_minimal frame id scause stval pid) else send f.

(** ** Dispatch *)

Definition redirect_to_scheduler (frame : TrapFrame) : M TrapFrame :=
  leave_current ;;;
  let frame := with_sepc scheduler_resume_pc frame in
  let frame := with_sstatus (Z.lor (sstatus frame) SSTATUS_SPP) frame in
  let frame := with_sstatus (Z.lor (sstatus frame) SSTATUS_SPIE) frame in
  ret (set_sp boot_stack_top frame).

Definition emit_tick (id seq : Z) : M unit :=
  let! auto := gets (fun k => autonomous (traps k)) in
  if auto then ret tt else
  let! now := read_time in
  send (fmt [js "{'id':"; dec id; js ",'type':'tick','seq':"; dec seq; js ",'time':"; dec now; js "}"]).

(** The timer branch of [handle]. *)
Definition handle_tick (id : Z) (frame : TrapFrame) : M TrapFrame :=
  rearm ;;;
  let! seq := count_tick in
  emit_tick id seq ;;;
  let! op_killed := (if feat_doom then drain_keys else ret false) in
  let! over := on_tick in
  if over || op_killed then redirect_to_scheduler frame else
  let! pre := maybe_preempt frame in
  if pre then redirect_to_scheduler frame else ret frame.

(** The environment-call branch. *)
Definition handle_ecall (frame : TrapFrame) : M TrapFrame :=
  let frame := advance_past_ecall frame in
  let! out := dispatch frame in
  match out with
  | Resume v => ret (set_a0 (as_u64 v) frame)
  | Leave => redirect_to_scheduler frame
  end.

(** Any other trap. *)
Definition handle_fault (id scause stval : Z) (frame : TrapFrame) : M TrapFrame :=
  if is_from_user frame then
    let! pid := current_pid in
    emit_fault frame id scause stval pid ;;;
    mark_faulted ;;;
    redirect_to_scheduler frame
  else
    emit_fault frame id scause stval None ;;;
    stop XShutdown.

(** [scause] and [stval] are the CSRs the hardware set. *)
Definition handle (scause stval : Z) (frame : TrapFrame) : M TrapFrame :=
  let! id := next_event in
  modify (on_traps (ring_record id scause (sepc frame) stval)) ;;;
  if scause =? CAUSE_S_TIMER then handle_tick id frame
  else if scause =? CAUSE_U_ECALL then handle_ecall frame
  else handle_fault id scause stval frame.

End Handler.
