(* ===== verification/Rpc.v ===== *)
(** * The control plane (kernel/src/rpc.rs)

    The inbound frame reader, the method dispatcher and the responders. A
    request runs in scheduler or idle context with interrupts on, so waiting
    for a byte may take timer ticks. *)

From S2P Require Import Prelude Hal Frames Mm Console Utf8 RpcJson KState Traps Payload Syscall Handler.

Definition MAX_REQ : Z := 512.
Definition MAX_STALL_WAITS : nat := 16.

Section Rpc.
Context {B : Build}.

(** ** Interrupts in kernel context *)

(** A timer interrupt in kernel code: the vector saves the kernel's own frame
    and runs [handle]; the [sret] that follows goes back to the interrupted
    instruction, or to the scheduler if the frame was redirected. (The
    interrupted pc is never the scheduler's entry point itself.) *)
Definition kernel_tick (f : TrapFrame) : M unit := fun k =>
  if sepc f =? scheduler_resume_pc then (Val tt, k) else
  match handle CAUSE_S_TIMER 0 (with_sstatus (Z.lor (sstatus f) SSTATUS_SPP) f) k with
  | (Val f', k') => if sepc f' =? scheduler_resume_pc then (Exit XRun, k') else (Val tt, k')
  | (Exit x, k') => (Exit x, k')
  end.

(** A point at which kernel code can be interrupted: the machine takes a timer
    interrupt there or does not. *)
Definition irq_point : M unit := fun k =>
  match hw_irq (hw k) with
  | [] => (Val tt, k)
  | None :: r => (Val tt, on_hw (with_hw_irq r) k)
  | Some f :: r => kernel_tick f (on_hw (with_hw_irq r) k)
  end.

(** The next interrupt of the machine, and what is left behind it. *)
Fixpoint next_irq (l : list (option TrapFrame)) : option (TrapFrame * list (option TrapFrame)) :=
  match l with
  | [] => None
  | None :: r => next_irq r
  | Some f :: r => Some (f, r)
  end.

(** The frame saved when the armed timer fires in a [wfi] of which nothing else
    is known. *)
Definition parked_frame : TrapFrame := {| regs := replicate 31 0; sepc := wfi_pc; sstatus := SSTATUS_SPP |}.

(** [wfi]: the hart is parked until the next interrupt, which is taken behind the
    instruction; when the machine schedules no other, it is the timer, which is
    always armed. *)
Definition wait_for_interrupt : M unit := fun k =>
  match next_irq (hw_irq (hw k)) with
  | Some (f, r) => kernel_tick (with_sepc wfi_pc f) (on_hw (with_hw_irq r) k)
  | None => kernel_tick parked_frame (on_hw (with_hw_irq []) k)
  end.

(** ** Reading a request frame *)

(** [waits] more idle waits are allowed. *)
Fixpoint getc_loop (waits : nat) : M (option byte) :=
  let! ob := console_getchar in
  match ob, waits with
  | Some b, _ => ret (Some b)
  | None, O => ret None
  | None, S w => wait_for_interrupt ;;; getc_loop w
  end.

Definition getc_stall : M (option byte) := getc_loop MAX_STALL_WAITS.

(** [n] bytes, or nothing if the sender stalls. *)
Fixpoint read_bytes (n : nat) : M (option bytes) :=
  match n with
  | O => ret (Some [])
  | S n' =>
      let! ob := getc_stall in
      match ob with
      | None => ret None
      | Some b =>
          let! rest := read_bytes n' in
          ret (option_map (cons b) rest)
      end
  end.

(** ** Responders *)

Definition emit_rpc (body : wprog) : M unit :=
  let! id := next_event in
  let f := (fmt [js "{'id':"; dec id; js ",'type':'rpc','rpc':"] +! body +! Put (lit "}"))%W in
  if overflowed (build f) then
    send (fmt [js "{'id':"; dec id;
               js ",'type':'rpc','rpc':{'jsonrpc':'2.0','id':null,'error':{'code':-32001,'message':'response too large'}}}"])
  else send f.

Definition respond_result (id : bytes) (result : wprog) : M unit :=
  emit_rpc (Put (js "{'jsonrpc':'2.0','id':") +? write_id id +? Put (js ",'result':") +? result +?
            Put (lit "}"))%W.

Definition respond_error (id : bytes) (code : Z) (message : bytes) : M unit :=
  emit_rpc (Put (js "{'jsonrpc':'2.0','id':") +? write_id id +?
            fmt [js ",'error':{'code':"; dec_i code; js ",'message':'"] +?
            write_json_escaped message +? Put (js "'}}"))%W.

Definition respond_accepted (id suite : bytes) : M unit :=
  respond_result id (Put (js "{'status':'accepted','suite':'") +? write_json_escaped suite +? Put (js "'}"))%W.

Definition respond_duplicate (id op : bytes) : M unit :=
  respond_result id (Put (js "{'status':'duplicate','opId':'") +? write_json_escaped op +? Put (js "'}"))%W.

Definition respond_initialize (id : bytes) : M unit :=
  respond_result id
    (Put (js "{'protocolVersion':'2024-11-05',") +?
     Put (js "'serverInfo':{'name':'kernai','version':'0'},") +?
     Put (js "'capabilities':{'tools':{},'resources':{}}}"))%W.

Definition tool (name desc : bytes) (prop : option bytes) : wprog :=
  (fmt [js "{'name':'"; name; js "','description':'"; desc; js "','inputSchema':{'type':'object'"] +?
   match prop with
   | Some p => fmt [js ",'properties':{'"; p; js "':{'type':'string'}},'required':['"; p; js "']"]
   | None => wok
   end +?
   Put (lit "}}"))%W.

Definition tools_body : wprog :=
  (Put (js "{'tools':[") +?
   comma_list true
     [tool (lit "run_suite") (lit "Run a payload suite (p|m|i|f|d|e|e2; feature builds add craycast/doom).")
        (Some (lit "suite"));
      tool (lit "crash") (lit "Trigger a deliberate kernel fault → shutdown.") None;
      tool (lit "kill") (lit "Kill a live payload by pid — servable mid-run (M13/E2 remediation).")
        (Some (lit "pid"));
      tool (lit "set_budget")
        (lit "Set a live payload's instruction budget (deadline, timebase units; 0=none) — P1 policy, servable mid-run.")
        (Some (lit "pid"));
      tool (lit "ring_read") (lit "Read the trap ring buffer.") None;
      tool (lit "set_surface") (lit "Select the diagnostic surface: classic|agentic (P6/E1).")
        (Some (lit "mode"));
      tool (lit "set_autonomy") (lit "Set the autonomy dial: reactive|autonomous (P1/P3).")
        (Some (lit "mode"))] +?
   Put (js "]}"))%W.

Definition respond_tools_list (id : bytes) : M unit := respond_result id tools_body.

Definition resource (uri desc : bytes) : wprog :=
  fmt [js "{'uri':'"; uri; js "','name':'"; uri; js "','description':'"; desc;
       js "','mimeType':'application/json'}"].

Definition resources_body : wprog :=
  (Put (js "{'resources':[") +?
   comma_list true
     [resource (lit "trap_ring") (lit "The trap ring buffer (last N traps).");
      resource (lit "processes") (lit "The process table.");
      resource (lit "spec") (lit "Self-describing surface: syscalls, caps, memory map (P5).");
      resource (lit "surface") (lit "The active diagnostic surface (classic|agentic).");
      resource (lit "autonomy") (lit "The active autonomy dial (reactive|autonomous).");
      resource (lit "memory") (lit "Frame-allocator state: allocated/capacity (P11).");
      resource (lit "digest") (lit "Budgeted, coalesced activity summary; takes a `budget` param (P3).")] +?
   Put (js "]}"))%W.

Definition respond_resources_list (id : bytes) : M unit := respond_result id resources_body.

(** ** Tools *)

Definition is_ (s : option bytes) (t : bytes) : bool := bool_decide (s = Some t).
Definition get_string (obj key : bytes) : option bytes :=
  match object_get obj key with Some v => as_string v | None => None end.
Definition get_u32 (obj key : bytes) : option Z :=
  match object_get obj key with Some v => parse_u32 v | None => None end.
Definition get_object (obj key : bytes) : bytes := default (lit "{}") (object_get obj key).

(** The opId guard of the mutating tools: a replayed operation is acknowledged
    and nothing else happens. *)
Definition once (id : bytes) (op : option bytes) (m : M unit) : M unit :=
  match op with
  | None => m
  | Some op =>
      let h := fnv1a op in
      let! o := gets ops in
      if op_seen h o then respond_duplicate id op
      else modify (fun k => with_ops (op_record h (ops k)) k) ;;; m
  end.

Definition suite_seed (s : bytes) : option (M unit) :=
  let eqs t := bool_decide (s = t) in
  if eqs (lit "p") || eqs (lit "m3") then Some seed_suite_m3
  else if eqs (lit "m") || eqs (lit "m4") then Some seed_suite_m4
  else if eqs (lit "i") || eqs (lit "m5") then Some seed_suite_m5
  else if eqs (lit "f") || eqs (lit "m6") then Some seed_suite_m6
  else if eqs (lit "d") || eqs (lit "m10") then Some seed_suite_m10
  else if eqs (lit "e") || eqs (lit "eval") then Some seed_suite_eval
  else if eqs (lit "l") || eqs (lit "e2") then Some seed_suite_e2
  else if eqs (lit "e7") then Some seed_suite_e7
  else if eqs (lit "e5") then Some seed_suite_e5
  else if feat_cpayloads && (eqs (lit "c") || eqs (lit "craycast")) then Some seed_suite_craycast
  else if feat_doom && (eqs (lit "D") || eqs (lit "doom")) then Some seed_suite_doom
  else if feat_doom && eqs (lit "doomfork") then Some seed_suite_doom_fork
  else None.

Definition busy (id : bytes) : M unit := respond_error id (-32002) (lit "busy: payloads active").

Definition tool_run_suite (params id : bytes) (op : option bytes) : M unit :=
  let suite := default [] (get_string (get_object params (lit "arguments")) (lit "suite")) in
  match suite_seed suite with
  | None => respond_error id (-32602) (lit "unknown suite")
  | Some seed =>
      let! alive := any_alive in
      if alive then busy id else
      once id op (respond_accepted id suite ;;; seed ;;; stop XRun)
  end.

Definition tool_crash (id : bytes) (op : option bytes) : M unit :=
  let! alive := any_alive in
  if alive then busy id else
  once id op (respond_result id (Put (js "{'status':'crashing'}")) ;;; stop XIllegal).

Definition tool_kill (params id : bytes) (op : option bytes) : M unit :=
  match get_u32 (get_object params (lit "arguments")) (lit "pid") with
  | None => respond_error id (-32602) (lit "missing pid")
  | Some pid =>
      once id op (
        let! r := kill_pid pid in
        match r with
        | inr elapsed =>
            respond_result id (fmt [js "{'status':'killed','pid':"; dec pid; js ",'elapsed':"; dec elapsed; js "}"])
        | inl reason => respond_error id (-32602) reason
        end)
  end.

Definition tool_set_budget (params id : bytes) (op : option bytes) : M unit :=
  let args := get_object params (lit "arguments") in
  match get_u32 args (lit "pid") with
  | None => respond_error id (-32602) (lit "missing pid")
  | Some pid =>
      match get_u32 args (lit "deadline") with
      | None => respond_error id (-32602) (lit "missing deadline")
      | Some dl =>
          once id op (
            let! r := set_deadline pid dl in
            match r with
            | inr _ =>
                respond_result id (fmt [js "{'status':'budget_set','pid':"; dec pid; js ",'deadline':"; dec dl; js "}"])
            | inl reason => respond_error id (-32602) reason
            end)
      end
  end.

Definition tool_set_surface (params id : bytes) : M unit :=
  let mode := get_string (get_object params (lit "arguments")) (lit "mode") in
  if is_ mode (lit "classic") then
    modify (on_traps (with_classic_surface true)) ;;;
    respond_result id (Put (js "{'surface':'classic'}"))
  else if is_ mode (lit "agentic") then
    modify (on_traps (with_classic_surface false)) ;;;
    respond_result id (Put (js "{'surface':'agentic'}"))
  else respond_error id (-32602) (lit "mode must be classic|agentic").

Definition tool_set_autonomy (params id : bytes) : M unit :=
  let mode := get_string (get_object params (lit "arguments")) (lit "mode") in
  if is_ mode (lit "autonomous") then
    modify (on_traps (with_autonomous true)) ;;;
    respond_result id (Put (js "{'autonomy':'autonomous'}"))
  else if is_ mode (lit "reactive") then
    modify (on_traps (with_autonomous false)) ;;;
    respond_result id (Put (js "{'autonomy':'reactive'}"))
  else respond_error id (-32602) (lit "mode must be reactive|autonomous").

Definition handle_tools_call (json id : bytes) : M unit :=
  let params := get_object json (lit "params") in
  let name := get_string params (lit "name") in
  let op := get_string params (lit "opId") in
  if is_ name (lit "run_suite") then tool_run_suite params id op
  else if is_ name (lit "crash") then tool_crash id op
  else if is_ name (lit "kill") then tool_kill params id op
  else if is_ name (lit "set_budget") then tool_set_budget params id op
  else if is_ name (lit "ring_read") then
    let! t := gets traps in respond_result id (write_ring_resource t)
  else if is_ name (lit "set_surface") then tool_set_surface params id
  else if is_ name (lit "set_autonomy") then tool_set_autonomy params id
  else match name with
       | Some _ => respond_error id (-32602) (lit "unknown tool")
       | None => respond_error id (-32602) (lit "missing tool name")
       end.

(** ** Resources *)

Definition digest_budget (params : bytes) : Z :=
  Z.min (default 4 (get_u32 params (lit "budget"))) 64.

Definition handle_resources_read (json id : bytes) : M unit :=
  let params := get_object json (lit "params") in
  let uri := get_string params (lit "uri") in
  let! k := gets (fun k => k) in
  if is_ uri (lit "trap_ring") then respond_result id (write_ring_resource (traps k))
  else if is_ uri (lit "processes") then respond_result id (write_process_table (table (pay k)))
  else if is_ uri (lit "spec") then respond_result id write_spec
  else if is_ uri (lit "surface") then
    respond_result id (fmt [js "{'surface':'"; if classic_surface (traps k) then lit "classic" else lit "agentic"; js "'}"])
  else if is_ uri (lit "autonomy") then
    respond_result id (fmt [js "{'autonomy':'"; if autonomous (traps k) then lit "autonomous" else lit "reactive"; js "'}"])
  else if is_ uri (lit "memory") then
    let '(alloced, capacity) := stats (pool k) in
    respond_result id (fmt [js "{'allocated':"; dec alloced; js ",'capacity':"; dec capacity; js "}"])
  else if is_ uri (lit "digest") then respond_result id (write_digest (traps k) (digest_budget params))
  else match uri with
       | Some _ => respond_error id (-32602) (lit "unknown resource")
       | None => respond_error id (-32602) (lit "missing uri")
       end.

(** ** Dispatch *)

Definition dispatch_request (json : bytes) : M unit :=
  let id := default (lit "null") (object_get json (lit "id")) in
  let method := get_string json (lit "method") in
  if is_ method (lit "initialize") then respond_initialize id
  else if is_ method (lit "tools/list") then respond_tools_list id
  else if is_ method (lit "tools/call") then handle_tools_call json id
  else if is_ method (lit "resources/list") then respond_resources_list id
  else if is_ method (lit "resources/read") then handle_resources_read json id
  else match method with
       | Some _ => respond_error id (-32601) (lit "method not found")
       | None => respond_error id (-32600) (lit "missing method")
       end.

(** The body of a frame once it is read: dispatched if it is a JSON object. *)
Definition accept_body (body : bytes) : M unit :=
  if negb (utf8_valid body) then ret tt else
  if bool_decide (hd_error (trim_start body) = Some x7b) then dispatch_request body else ret tt.

Definition read_request : M unit :=
  let! ob := getc_stall in
  if negb (bool_decide (ob = Some x99)) then ret tt else
  let! ol := read_bytes 4 in
  match ol with
  | None => ret tt
  | Some lenb =>
      let len := le_word lenb in
      if (len =? 0) || (MAX_REQ <? len) then ret tt else
      let! obody := read_bytes (Z.to_nat len) in
      match obody with
      | None => ret tt
      | Some body => in_bounds (len <=? MAX_REQ) ;;; accept_body body
      end
  end.

End Rpc.
