(* ===== verification/Sched.v ===== *)
(** * The scheduler, the command loop and the machine (kernel/src/payload.rs,
      kernel/src/main.rs, kernel/src/hal/trap.rs)

    [run], [start] and [idle] as the code has them, the boot sequence, and the
    whole machine as a step relation: kernel code between control points is a
    run of the monad, a payload is an adversary that may do anything U-mode
    allows before it traps. *)

From S2P Require Import Prelude Hal Frames Mm Elf Console RpcJson KState Traps Payload Syscall Handler Rpc.

Section Sched.
Context {B : Build}.

(** ** The scheduler *)

(** [STASHED_BYTE.swap(0)], then the console if nothing was stashed. *)
Definition next_command : M (option byte) :=
  let! stashed := gets (fun k => stashed_byte (pay k)) in
  modify (on_pay (with_stashed_byte 0)) ;;;
  if stashed =? 0 then console_getchar
  else ret (Some (byte.of_Z (Z.land stashed 0xff))).

Definition serve_byte (b : byte) : M unit :=
  if beq b xaa then read_request
  else if beq b x72 then emit_ring_dump
  else ret tt.

(** Every round takes the stashed byte or a poll of the console. *)
Fixpoint service_loop (fuel : nat) : M unit :=
  match fuel with
  | O => ret tt
  | S f =>
      let! ob := next_command in
      match ob with
      | None => ret tt
      | Some b => serve_byte b ;;; service_loop f
      end
  end.

Definition service_console : M unit :=
  let! n := gets (fun k => length (hw_in (hw k))) in
  service_loop (S (S n)).

Definition load_failed (pid : Z) (name reason : bytes) : M unit :=
  upd_slot pid (with_state FAULTED) ;;;
  emit_load_fault pid name reason ;;;
  stop XRun.

(** Resume from the saved frame of a restored or preempted payload. Interrupts
    are on until [resume_user] masks them. *)
Definition start_saved (pid : Z) (s : Slot) : M unit :=
  upd_slot pid (fun s => with_state RUNNING (with_preempted false s)) ;;;
  (if preempted s then ret tt
   else let! now := read_time in upd_slot pid (with_started_at now)) ;;;
  modify (on_pay (with_current pid)) ;;;
  irq_point ;;;
  (if preempted s then ret tt
   else
     let! im := get_image (image s) in
     let! s' := get_slot pid in
     emit_start pid (im_name im) (caps s') 0 true) ;;;
  irq_point ;;;
  stop (XResume (satp_of (root s)) (resume_frame s)).

(** Build the address space of a fresh payload; [inl] is the reason it failed,
    with the space already destroyed. *)
Definition build_space (image : Z) (im : Image) : M (bytes + Z * Z) :=
  let! o := pooled space_new in
  match o with
  | None => ret (inl (lit "out_of_memory"))
  | Some space =>
      let fail (reason : bytes) : M (bytes + Z * Z) :=
        pool_do (destroy space) ;;; ret (inl reason) in
      let! r := pooled (fun p => map_kernel p space) in
      match r with
      | inl _ => fail (lit "kernel_map_failed")
      | inr _ =>
          let! l := pooled (load_elf dev_profile (im_elf im) space) in
          match l with
          | EPanic | FuelOut => stop XPanic
          | EErr e => fail (elf_error_str e)
          | EOk entry =>
              match image_window image with
              | None => ret (inr (space, entry))
              | Some (va, pa, len) =>
                  let! ok := pooled (map_window space va pa len) in
                  if ok : bool then ret (inr (space, entry)) else fail (lit "window_map_failed")
              end
          end
      end
  end.

Definition start_fresh (pid : Z) (s : Slot) : M unit :=
  let! im := get_image (image s) in
  let! b := build_space (image s) im in
  match b with
  | inl reason => load_failed pid (im_name im) reason
  | inr (space, entry) =>
      let! ofr := pooled alloc in
      match ofr with
      | None => pool_do (destroy space) ;;; load_failed pid (im_name im) (lit "out_of_memory")
      | Some frame =>
          pool_do (init_frame_to frame entry) ;;;
          upd_slot pid (fun s => with_state RUNNING (with_resume_frame frame (with_root space s))) ;;;
          let! now := read_time in
          upd_slot pid (with_started_at now) ;;;
          modify (on_pay (with_current pid)) ;;;
          irq_point ;;;
          let! s' := get_slot pid in
          emit_start pid (im_name im) (caps s') entry false ;;;
          irq_point ;;;
          stop (XResume (satp_of space) frame)
      end
  end.

Definition start (pid : Z) : M unit :=
  let! s := get_slot pid in
  if negb (resume_frame s =? 0) then start_saved pid s else start_fresh pid s.

(** The checkpoint continuation the suite still owes, if any. *)
Definition owed_fork : M (option Z) :=
  let! p := gets pay in
  if (0 <? auto_fork p) && (0 <? last_snap p) then
    modify (on_pay (with_auto_fork (auto_fork p - 1))) ;;;
    enqueue_restore (last_snap p - 1)
  else ret None.

Definition run : M unit :=
  modify (on_pay (with_current NO_PID)) ;;;
  let! satp := kernel_satp in
  write_satp satp ;;;
  irq_point ;;;
  reap_terminated ;;;
  service_console ;;;
  irq_point ;;;
  reap_terminated ;;;
  let! next := take_next_pending in
  match next with
  | Some pid => start pid
  | None =>
      let! fork := owed_fork in
      match fork with
      | Some pid => start pid
      | None => emit_suite_done ;;; stop XIdle
      end
  end.

(** ** The command loop *)

Definition seed_and_run (seed : M unit) : M unit := seed ;;; stop XRun.

(** One iteration of [idle]. *)
Definition idle_step : M unit :=
  let! ob := console_getchar in
  let! ob :=
    (match ob with
     | Some b => if feat_doom then let! eaten := swallow_stray_key b in ret (if eaten : bool then None else Some b)
                 else ret (Some b)
     | None => ret None
     end) in
  match ob with
  | Some b =>
      if beq b xaa then read_request
      else if beq b x72 then emit_ring_dump
      else if beq b x78 then stop XIllegal
      else if beq b x70 then seed_and_run seed_suite_m3
      else if beq b x6d then seed_and_run seed_suite_m4
      else if beq b x69 then seed_and_run seed_suite_m5
      else if beq b x66 then seed_and_run seed_suite_m6
      else if beq b x64 then seed_and_run seed_suite_m10
      else if beq b x65 then seed_and_run seed_suite_eval
      else if feat_cpayloads && beq b x63 then seed_and_run seed_suite_craycast
      else if feat_doom && beq b x44 then seed_and_run seed_suite_doom
      else wait_for_interrupt
  | None => wait_for_interrupt
  end.

(** ** Boot *)

Definition kmain : M unit :=
  let! id := next_event in
  send (fmt [js "{'id':"; dec id; js ",'type':'hello','name':'kernai','proto':0}"]) ;;;
  assert_pool_clear ;;;
  init_paging ;;;
  arm_first_tick ;;;
  stop XIdle.

Definition pay_init : PayState :=
  {| kernel_root := 0; table := replicate MAX_PROC slot_new; current := NO_PID;
     snaps := replicate MAX_SNAP snap_new; last_snap := 0; auto_fork := 0; stashed_byte := 0;
     key_ring := replicate (Z.to_nat KEY_RING_SIZE) x00; key_head := 0; key_tail := 0;
     key_pending := false |}.

(** The kernel at reset: zeroed statics, any machine below. *)
Definition k_init (h : Hw) (m : mem) : K :=
  {| hw := h; pool := pool_init m; traps := traps_init; pay := pay_init; ops := ops_init; events := 0 |}.

(** ** The machine *)

(** Where the hart is: about to enter the scheduler or an idle iteration, in
    the deliberate illegal instruction, executing a payload with the given
    register file, or off. [CKernel] is a payload frame that [resume_user] loads
    with SPP set: the [sret] would continue in supervisor mode. *)
Inductive control :=
  | CRun | CIdle | CIllegal | CUser (f : TrapFrame) | CKernel (f : TrapFrame) | COff.

(** The [sret] that ends a trap out of a payload: back to it, or into the
    scheduler. *)
Definition sret (f : TrapFrame) : control :=
  if is_from_user f then CUser f
  else if sepc f =? scheduler_resume_pc then CRun else CKernel f.

(** The [sret] of [__resume_user]. *)
Definition resume_sret (f : TrapFrame) : control :=
  if is_from_user f then CUser f else CKernel f.

Definition after (x : exit) (k : K) : control * K :=
  match x with
  | XPanic | XShutdown => (COff, k)
  | XIllegal => (CIllegal, k)
  | XRun => (CRun, k)
  | XIdle => (CIdle, k)
  | XResume satp frame =>
      (resume_sret (load_frame (pmem (pool k)) frame), on_hw (with_hw_satp satp) k)
  end.

(** The memory a payload may change: what its own table maps for it as
    writable, under the active [satp]. *)
Definition user_writes (k : K) (m' : mem) : Prop :=
  forall a, m' a <> pmem (pool k) a ->
  exists root va, hw_satp (hw k) = satp_of root /\ root mod PAGE_SIZE = 0 /\
    translate_checked (pmem (pool k)) root va (Z.lor U W) = Some a.

(** A frame the trap vector saves for a trap out of U-mode. *)
Definition user_frame (f : TrapFrame) : Prop :=
  length (regs f) = 31%nat /\ Forall u64_ok (regs f) /\ u64_ok (sepc f) /\ u64_ok (sstatus f) /\
  is_from_user f = true.

(** The frames the vector saves at interrupts: an array of 31 registers each. *)
Definition irqs_ok (l : list (option TrapFrame)) : Prop :=
  Forall (fun o => forall f, o = Some f -> length (regs f) = 31%nat) l.

Inductive step : control * K -> control * K -> Prop :=
  | step_run k x k' : run k = (Exit x, k') -> step (CRun, k) (after x k')
  | step_idle k k' : idle_step k = (Val tt, k') -> step (CIdle, k) (CIdle, k')
  | step_idle_exit k x k' : idle_step k = (Exit x, k') -> step (CIdle, k) (after x k')
  | step_illegal k f x k' stval : is_from_user f = false ->
      handle CAUSE_ILLEGAL_INSTRUCTION stval f k = (Exit x, k') -> step (CIllegal, k) (after x k')
  | step_user k f f' m' : user_frame f' -> user_writes k m' ->
      step (CUser f, k) (CUser f', with_pool (with_mem (pool k) m') k)
  | step_trap k f scause stval f' k' : u64_ok scause -> u64_ok stval ->
      handle scause stval f k = (Val f', k') -> step (CUser f, k) (sret f', k')
  | step_trap_exit k f scause stval x k' : u64_ok scause -> u64_ok stval ->
      handle scause stval f k = (Exit x, k') -> step (CUser f, k) (after x k')
  | step_input k c ins irqs dts : irqs_ok irqs -> (* the outside world schedules input, interrupts and time *)
      step (c, k) (c, on_hw (fun h => with_hw_in ins (with_hw_irq irqs (with_hw_dt dts h))) k).

Inductive steps : control * K -> control * K -> Prop :=
  | steps_refl s : steps s s
  | steps_step s1 s2 s3 : steps s1 s2 -> step s2 s3 -> steps s1 s3.

(** The states the machine can be in after boot. *)
Definition booted (s : control * K) : Prop :=
  exists h m x k, hw_out h = [] /\ irqs_ok (hw_irq h) /\ kmain (k_init h m) = (Exit x, k) /\ s = after x k.

Definition reachable (s : control * K) : Prop := exists s0, booted s0 /\ steps s0 s.

End Sched.

(** ** The interrupts to come *)

Lemma irqs_cons (o : option TrapFrame) (l : list (option TrapFrame)) :
  irqs_ok (o :: l) -> (forall f, o = Some f -> length (regs f) = 31%nat) /\ irqs_ok l.
Proof. apply Forall_cons. Qed.

Lemma next_irq_ok (l r : list (option TrapFrame)) (f : TrapFrame) :
  irqs_ok l -> next_irq l = Some (f, r) -> length (regs f) = 31%nat /\ irqs_ok r.
Proof.
  intros H. induction H as [|[g|] l Hg Hl IH]; cbn [next_irq]; [done| |done]. intros [= -> ->]. split; [by apply Hg|done].
Qed.
