(* ===== verification/Docs.v ===== *)
(** * The writers of the kernel write JSON

    Every nested writer program, piece by piece, through the recogniser of
    [JsonDoc]: the lists it writes have their commas, the strings it writes
    verbatim need no escape, and each is one value. *)

From S2P Require Import Prelude Hal Mm Elf Console Utf8 JsonDoc JsonText RpcJson KState Traps TrapsProofs Payload Handler Rpc Sched.

(** An array of objects as the elements of one. *)
Ltac element_go := intros ? ? [-> | ->]; pieces; feed_go.

(** ** Lists *)

Lemma then_all_text (l : list wprog) : text (then_all l) = concat (map text l).
Proof. induction l as [|w l IH]; [done|]. cbn [then_all text map concat]. by rewrite IH. Qed.

Lemma comma_list_text (first : bool) (l : list wprog) : text (comma_list first l) = items first (map text l).
Proof.
  revert first. induction l as [|w l IH]; intros first; [done|]. cbn [comma_list text map items]. rewrite IH. by destruct first.
Qed.

(** A list written by number, the comma left out at the number [a]. *)
Lemma numbered_items (f : Z -> bytes) (v : Z -> bytes) (a n : Z) :
  (forall i, a <= i -> f i = item (negb (a <? i)) (v i)) -> concat (map f (seqZ a n)) = items true (map v (seqZ a n)).
Proof.
  intros Hf. destruct (decide (0 < n)) as [Hn|Hn]; [|by rewrite seqZ_nil by lia].
  rewrite seqZ_cons by lia. cbn [map concat items]. rewrite Hf, Z.ltb_irrefl by lia. cbn [negb item]. f_equal.
  assert (forall k m b, Z.to_nat m = k -> a < b -> concat (map f (seqZ b m)) = items false (map v (seqZ b m))) as H; [|by eapply H; [reflexivity|lia]].
  induction k as [|k IH]; intros m b Hm Hb; [by rewrite seqZ_nil by lia|]. rewrite seqZ_cons by lia. cbn [map concat items].
  rewrite Hf, (proj2 (Z.ltb_lt a b)) by lia. cbn [negb]. f_equal. apply IH; lia.
Qed.

(** One written with [enumerate]. *)
Lemma enumerated_items {T} (f : nat -> T -> bytes) (v : T -> bytes) (l : list T) :
  (forall i x, f i x = item (i =? 0)%nat (v x)) -> concat (imap f l) = items true (map v l).
Proof.
  intros Hf. destruct l as [|x l]; [done|]. rewrite imap_cons. cbn [map concat items]. rewrite Hf. cbn [item Nat.eqb]. f_equal.
  assert (forall g : nat -> T -> bytes, (forall i y, g i y = x2c :: v y) -> forall l, concat (imap g l) = items false (map v l)) as H.
  { clear. intros g Hg l. revert g Hg. induction l as [|y l IH]; intros g Hg; [done|]. rewrite imap_cons. cbn [map concat items item app].
    rewrite Hg. cbn [app]. f_equal. f_equal. apply IH. intros i z. apply Hg. }
  apply H. intros i y. unfold compose. by rewrite Hf.
Qed.

(** ** Names *)

Lemma cause_name_plain (c : Z) : all_plain (cause_name c) = true.
Proof. unfold cause_name. repeat match goal with |- context [if ?b then _ else _] => destruct b end; reflexivity. Qed.
Lemma severity_plain (c : Z) : all_plain (severity_of c) = true.
Proof. unfold severity_of. repeat match goal with |- context [if ?b then _ else _] => destruct b end; reflexivity. Qed.
Lemma state_name_plain (s : pstate) : all_plain (state_name s) = true.
Proof. by destruct s. Qed.
Lemma elf_error_plain (e : ElfError) : all_plain (elf_error_str e) = true.
Proof. by destruct e. Qed.
#[export] Hint Resolve cause_name_plain severity_plain state_name_plain elf_error_plain : json.

Lemma image_plain {B : Build} (i : Z) (im : Image) : image_at i = Some im -> all_plain (im_name im) = true.
Proof.
  unfold image_at. destruct (i <? 0); [done|]. intros H. revert im H. generalize (Z.to_nat i). intros n im H.
  assert (Forall (fun im => all_plain (im_name im) = true) IMAGES) as HF by (by repeat constructor).
  by apply (Forall_lookup_1 _ _ _ _ HF H).
Qed.

Lemma process_name_plain {B : Build} (i : Z) : all_plain (match image_at i with Some im => im_name im | None => lit "?" end) = true.
Proof. destruct (image_at i) as [im|] eqn:E; [by apply image_plain in E|done]. Qed.
#[export] Hint Resolve process_name_plain : json.

(** ** Capability lists *)

Lemma caps_json_element (cs : Z) : element (text (caps_json cs)).
Proof.
  unfold caps_json, cap_table. cbn [caps_names]. intros q st Hq.
  destruct (negb (Z.land cs CAP_WRITE =? 0)), (negb (Z.land cs CAP_YIELD =? 0)), (negb (Z.land cs CAP_SPAWN =? 0)), Hq as [-> | ->];
    apply feeds_scan; vm_compute; reflexivity.
Qed.

Lemma feeds_element (q : jstate) (st : list nest) (v : bytes) : element v -> starting q -> feeds (q, st) v (AtEnd, st).
Proof. intros H. apply H. Qed.
#[export] Hint Resolve feeds_element caps_json_element : json.

(** ** The trap ring and the digest *)

(** What follows a list, whether it was empty or not. *)
Ltac list_go := eapply feeds_items; [|intros ? [-> | ->]; feed_go].

Definition ring_object (t : TrapState) (n : Z) : bytes :=
  let slot := nth (ring_index n RING_SIZE) (ring t) ring_slot_new in
  concat [js "{'id':"; dec (r_id slot); js ",'cause':'"; cause_name (r_scause slot); js "','sepc':'0x"; hex (r_sepc slot); js "'}"].

Lemma ring_items_text (t : TrapState) : text (write_ring t) =
  lit "[" ++ items true (map (ring_object t) (seqZ (saturating_sub (ring_count t) (Z.of_nat RING_SIZE))
    (ring_count t - saturating_sub (ring_count t) (Z.of_nat RING_SIZE)))) ++ lit "]".
Proof.
  unfold write_ring. cbn [text]. rewrite try_all_text, List.map_map. erewrite numbered_items; [done|].
  intros i Hi. unfold ring_entry. cbn [text]. rewrite fmt_text. destruct (_ <? i); done.
Qed.

Lemma ring_object_element (t : TrapState) (n : Z) : element (ring_object t n).
Proof. unfold ring_object. cbv zeta. element_go. Qed.

Lemma forall_map {S T} (P : T -> Prop) (f : S -> T) (l : list S) : (forall x, P (f x)) -> Forall P (map f l).
Proof. intros H. induction l; cbn; auto. Qed.

Lemma write_ring_element (t : TrapState) : element (text (write_ring t)).
Proof.
  rewrite ring_items_text. intros q st Hq. eapply feeds_app with (AtFirst, InArr :: st); [apply feeds_scan; by destruct Hq as [-> | ->]|].
  list_go. apply forall_map, ring_object_element.
Qed.
#[export] Hint Resolve write_ring_element : json.

Lemma write_ring_resource_element (t : TrapState) : element (text (write_ring_resource t)).
Proof. unfold write_ring_resource. element_go. Qed.

Definition digest_object (t : TrapState) (k : Z) : bytes :=
  let slot := nth (ring_index (wrap64 (notable_count t - 1 - k)) NOTABLE_SIZE) (notable t) ring_slot_new in
  concat [js "{'id':"; dec (r_id slot); js ",'severity':'"; severity_of (r_scause slot); js "','cause':'"; cause_name (r_scause slot);
          js "','sepc':'0x"; hex (r_sepc slot); js "'}"].

Lemma digest_items_text (t : TrapState) (n : Z) :
  text (try_all (map (digest_item t) (seqZ 0 n))) = items true (map (digest_object t) (seqZ 0 n)).
Proof.
  rewrite try_all_text, List.map_map. apply numbered_items. intros i Hi. unfold digest_item. cbn [text]. rewrite fmt_text.
  destruct (0 <? i); done.
Qed.

Lemma write_digest_element (t : TrapState) (budget : Z) : element (text (write_digest t budget)).
Proof.
  assert (all_plain (if autonomous t then lit "autonomous" else lit "reactive") = true) as Ha by (by destruct (autonomous t)).
  unfold write_digest. cbv zeta. intros q st [-> | ->]; pieces; rewrite digest_items_text; feed_go; list_go;
    apply forall_map; intros k; unfold digest_object; element_go.
Qed.
#[export] Hint Resolve write_ring_resource_element write_digest_element : json.

(** ** Fault reports *)

Lemma write_regs_element (f : TrapFrame) : element (text (write_regs f)).
Proof.
  unfold write_regs. generalize (x_ f). intros x. cbn [text]. rewrite try_all_text. unfold reg_names.
  intros q st [-> | ->]; cbn [imap map concat Nat.ltb Nat.leb compose]; pieces; feed_go.
Qed.

Definition level_object (e : Z * Z) : bytes :=
  let '(level, pte) := e in
  concat [js "{'level':"; dec level; js ",'pte':'0x"; hex pte; js "','v':"; dec (bit_at pte 0); js ",'r':"; dec (bit_at pte 1);
          js ",'w':"; dec (bit_at pte 2); js ",'x':"; dec (bit_at pte 3); js ",'u':"; dec (bit_at pte 4); js "}"].

Lemma write_pagewalk_element (o : option WalkChain) : element (text (write_pagewalk o)).
Proof.
  destruct o as [w|]; [|intros q st [-> | ->]; by apply feeds_scan]. unfold write_pagewalk. cbn [text]. rewrite then_all_text.
  change (map text) with (fmap (M := list) text). rewrite fmap_imap, (enumerated_items _ level_object).
  - intros q st Hq. eapply feeds_app with (AtFirst, InArr :: st); [apply feeds_scan; by destruct Hq as [-> | ->]|].
    list_go. apply forall_map. intros [level pte]. unfold level_object. element_go.
  - intros i [level pte]. unfold compose. cbn [text]. rewrite fmt_text. by destruct i.
Qed.

Lemma fault_insn_element (scause stval : Z) : element (text (fault_insn scause stval)).
Proof.
  unfold fault_insn. destruct (_ && _); [|intros q st [-> | ->]; by apply feeds_scan]. destruct (_ =? 0x73); element_go.
Qed.
#[export] Hint Resolve write_regs_element write_pagewalk_element fault_insn_element : json.

Lemma fault_frame_doc (t : TrapState) (f : TrapFrame) (id scause stval : Z) (pid caused_by : option Z) (w : wprog) :
  element (text w) -> doc (fault_frame t f id scause stval pid caused_by w).
Proof.
  intros Hw. unfold doc, fault_frame, fault_origin. destruct pid, caused_by; pieces; feed_go.
Qed.

Lemma fault_minimal_doc (f : TrapFrame) (id scause stval : Z) (pid : option Z) : doc (fault_minimal f id scause stval pid).
Proof. unfold fault_minimal, fault_origin. destruct pid; doc_go. Qed.

(** ** Pixels *)

(** Every byte has a character in the ramp. *)
Definition shade (v : byte) : byte := default x20 (glyph v).

Lemma glyph_shade (v : byte) : glyph v = Some (shade v).
Proof. by destruct v. Qed.

Lemma shade_plain (v : byte) : is_plain (shade v) = true.
Proof. by destruct v. Qed.

Lemma glyphs_shade (row : bytes) : mapM glyph row = Some (map shade row).
Proof. induction row as [|v row IH]; [done|]. cbn [mapM map]. by rewrite glyph_shade, IH. Qed.

Definition drawn_row (row : bytes) : wprog := (then_all (map (fun g => Put [g]) (map shade row)) +! Put (js "'"))%W.

Lemma blit_row_drawn (row : bytes) : blit_row row = Some (drawn_row row).
Proof. unfold blit_row. by rewrite glyphs_shade. Qed.

Lemma drawn_row_text (row : bytes) : text (drawn_row row) = map shade row ++ js "'".
Proof.
  unfold drawn_row. cbn [text]. rewrite then_all_text, List.map_map. f_equal. induction row as [|v row IH]; [done|].
  cbn [map concat]. by rewrite IH.
Qed.

Lemma drawn_row_element (row : bytes) : element (js "'" ++ text (drawn_row row)).
Proof.
  intros q st Hq. eapply feeds_app with (InString false, st); [apply feeds_scan; by destruct Hq as [-> | ->]|].
  rewrite drawn_row_text. eapply feeds_app with (InString false, st); [|piece]. apply feeds_plain.
  unfold all_plain. induction row as [|v row IH]; [done|]. cbn [map forallb]. by rewrite shade_plain, IH.
Qed.

(** The rows in range are drawn or fault; no index is out of range. *)
Lemma blit_rows_in (n : nat) (m : mem) (space ptr w y sum : Z) : w <= BLIT_MAXW -> blit_rows n m space ptr w y sum <> BlitPanic.
Proof.
  intros Hw. revert y sum. induction n as [|n IH]; intros y sum; cbn [blit_rows]; [done|].
  destruct (w <=? BLIT_MAXW) eqn:E; [|zbool; lia]. cbn [negb]. destruct (copy_from_user _ _ _ _) as [row|]; [|done].
  rewrite blit_row_drawn. specialize (IH (y + 1) (fold_left fnv_step row sum)). by destruct (blit_rows n _ _ _ _ _ _).
Qed.

Lemma blit_rows_items (n : nat) (m : mem) (space ptr w y sum sum' : Z) (p : wprog) : 0 <= y ->
  blit_rows n m space ptr w y sum = BlitRows p sum' -> exists l, Forall element l /\ text p = items (y =? 0) l.
Proof.
  revert y sum p. induction n as [|n IH]; intros y sum p Hy E; cbn [blit_rows] in E; [simplify_eq; by exists []|].
  destruct (negb _); [done|]. destruct (copy_from_user _ _ _ _) as [row|]; [|done]. rewrite blit_row_drawn in E.
  destruct (blit_rows n _ _ _ _ _ _) as [rest s| |] eqn:Er; [|done|done]. simplify_eq.
  destruct (IH (y + 1) _ _ ltac:(lia) Er) as (l & Hl & Ht). exists ((js "'" ++ text (drawn_row row)) :: l). split; [constructor; [apply drawn_row_element|done]|].
  cbn [text items]. rewrite Ht, (proj2 (Z.eqb_neq (y + 1) 0)) by lia. destruct (0 <? y) eqn:E0, (y =? 0) eqn:E1; zbool; try lia; cbn [item text];
    by rewrite <- ?app_assoc.
Qed.

Lemma b64_plain (i : Z) : is_plain (b64 i) = true.
Proof.
  unfold b64. rewrite nth_lookup. replace (Z.land i 63) with (i mod 64) by (symmetry; apply (Z.land_ones i 6); lia).
  pose proof (Z.mod_pos_bound i 64 eq_refl) as Hm. destruct (lookup_lt_is_Some_2 ALPHABET (Z.to_nat (i mod 64))) as [b Hb]; [cbn; lia|].
  rewrite Hb. apply (proj1 (forallb_forall is_plain ALPHABET) eq_refl). by apply list_elem_of_In, list_elem_of_lookup_2 with (Z.to_nat (i mod 64)).
Qed.

Lemma base64_plain (bs : bytes) : all_plain (text (write_base64 bs)) = true.
Proof.
  assert (forall n bs, (length bs <= n)%nat -> all_plain (text (write_base64 bs)) = true) as H; [|by apply (H (length bs))].
  clear bs. induction n as [|n IH]; intros [|a [|b [|c r]]] Hl; cbn [length] in Hl; try lia; try done;
    cbn [write_base64 text all_plain forallb app]; rewrite ?b64_plain; try done.
  apply IH. lia.
Qed.
#[export] Hint Resolve base64_plain : json.

(** ** Resources and lists of the control plane *)

Section Resources.
Context {B : Build}.

Definition process_object (pid : Z) (s : Slot) : bytes := text (process_entry pid s true).

Lemma process_object_element (pid : Z) (s : Slot) : element (process_object pid s).
Proof. unfold process_object, process_entry. element_go. Qed.

Lemma process_entries_items (pid : Z) (first : bool) (t : list Slot) :
  exists l, Forall element l /\ text (process_entries pid first t) = items first l.
Proof.
  revert pid first. induction t as [|s t IH]; intros pid first; [by exists []|]. cbn [process_entries].
  destruct (has_state EMPTY s); [apply IH|]. destruct (IH (pid + 1) false) as (l & Hl & Ht). exists (process_object pid s :: l).
  split; [constructor; [apply process_object_element|done]|]. cbn [text items]. rewrite Ht. by destruct first.
Qed.

Lemma write_process_table_element (t : list Slot) : element (text (write_process_table t)).
Proof.
  unfold write_process_table. destruct (process_entries_items 0 true t) as (l & Hl & Ht). intros q st [-> | ->]; pieces; rewrite Ht;
    (eapply feeds_app; [piece|]); by list_go.
Qed.

Lemma write_spec_element : element (text write_spec).
Proof. unfold write_spec. destruct feat_doom; intros q st [-> | ->]; apply feeds_scan; vm_compute; reflexivity. Qed.

End Resources.
#[export] Hint Resolve write_process_table_element write_spec_element : json.

Lemma tools_body_element : element (text tools_body).
Proof. intros q st [-> | ->]; apply feeds_scan; vm_compute; reflexivity. Qed.
Lemma resources_body_element : element (text resources_body).
Proof. intros q st [-> | ->]; apply feeds_scan; vm_compute; reflexivity. Qed.
#[export] Hint Resolve tools_body_element resources_body_element : json.

(** ** Responses *)

(** [tok] is the number [num] behind superfluous zeros. *)
Definition pads (tok num : bytes) : Prop := exists sign n d,
  (sign = [] \/ sign = [x2d]) /\ is_nat d = true /\ tok = sign ++ replicate (S n) x30 ++ d /\ num = sign ++ d.

Lemma digits_number (d : bytes) : d <> [] -> forallb is_digit d = true ->
  exists n e, d = replicate n x30 ++ e /\ is_nat e = true.
Proof.
  induction d as [|b d IH]; [done|]. intros _ H. cbn [forallb] in H. apply andb_prop in H as [Hb H].
  destruct (beq b x30) eqn:E.
  - apply beq_eq in E as ->. destruct d as [|c d]; [by exists 0%nat, [x30]|].
    destruct (IH ltac:(done) H) as (n & e & -> & He). by exists (S n), e.
  - exists 0%nat, (b :: d). split; [done|]. cbn [is_nat forallb]. by rewrite E, Hb, H.
Qed.

(** A slice that ends before a character. *)
Lemma nth_char_cut (n : nat) (s : bytes) (off : nat) : exists k, nth_char n s off = (off + k)%nat /\ inside (drop k s) = false.
Proof.
  revert n off. induction s as [|b s IH]; intros n off; cbn [nth_char]; [exists 0%nat; split; [lia|done]|].
  assert (Hnext : forall m, exists k, nth_char m s (off + 1) = (off + k)%nat /\ inside (drop k (b :: s)) = false).
  { intros m. destruct (IH m (off + 1)%nat) as (k & E & Hk). exists (S k). split; [lia|done]. }
  destruct (is_cont b) eqn:Eb; [apply Hnext|]. destruct n as [|n]; [|apply Hnext]. exists 0%nat. split; [lia|done].
Qed.

Lemma nth_char_valid (n : nat) (s : bytes) : utf8_valid s = true -> utf8_valid (take (nth_char n s 0) s) = true.
Proof.
  intros H. destruct (nth_char_cut n s 0) as (k & -> & Hk). cbn [Nat.add]. rewrite <- (take_drop k s) in H. by apply utf8_cut in H as [H _].
Qed.

Lemma as_string_valid (s t : bytes) : utf8_valid s = true -> as_string s = Some t -> utf8_valid t = true.
Proof. intros H. unfold as_string. destruct (_ && _); [|done]. by apply str_get_valid. Qed.

(** The echoed id: a string, a number or null, but for superfluous zeros. *)
Lemma write_id_feeds (raw : bytes) (st : list nest) : utf8_valid raw = true ->
  exists num, (text (write_id raw) = num \/ pads (text (write_id raw)) num) /\ feeds (AtValue, st) num (AtEnd, st).
Proof.
  intros Hu. apply trim_valid in Hu. unfold write_id. cbv zeta. destruct (as_string (trim raw)) as [inner|] eqn:Es.
  - apply as_string_valid in Es; [|done]. eexists. split; [by left|].
    assert (Ht : utf8_valid (take (nth_char MAX_ID inner 0) inner) = true) by (by apply nth_char_valid). pieces. feed_go.
  - destruct (_ && _) eqn:E; [|exists (lit "null"); split; [by left|by apply feeds_scan]]. cbn [text].
    apply andb_prop in E as [Hn Hd]. apply negb_true_iff, bool_decide_eq_false in Hn.
    assert (Hsign : exists sign d, (sign = [] \/ sign = [x2d]) /\ trim raw = sign ++ d /\ d <> [] /\ forallb is_digit d = true).
    { destruct (strip_prefix [x2d] (trim raw)) as [d|] eqn:Ep; cbn [default] in Hn, Hd.
      - apply strip_prefix_app in Ep. exists [x2d], d. split_and!; [by right|done|done|done].
      - exists [], (trim raw). split_and!; [by left|done|done|done]. }
    destruct Hsign as (sign & d & Hs & -> & Hn' & Hd'). destruct (digits_number d Hn' Hd') as (n & e & -> & He). exists (sign ++ e). split.
    + destruct n as [|n]; [by left|]. right. by exists sign, n, e.
    + destruct Hs as [-> | ->]; [apply feeds_nat|apply (feeds_negative _ _ e)]; [left|done| |done]; apply starting_value.
Qed.

Definition id_prefix : bytes := js "{'jsonrpc':'2.0','id':".

(** A response body, what [emit_rpc] wraps: a document once the superfluous zeros
    of the echoed id are dropped. *)
Definition response (w : wprog) : Prop := exists tok num post,
  text w = id_prefix ++ tok ++ post /\ (tok = num \/ pads tok num) /\
  feeds (AtValue, [InObj]) (id_prefix ++ num ++ post) (AtEnd, [InObj]).

Lemma with_id_response (id : bytes) (w : wprog) : utf8_valid id = true -> feeds (AtEnd, [InObj; InObj]) (text w) (AtEnd, [InObj]) ->
  response (Put (js "{'jsonrpc':'2.0','id':") +? write_id id +? w)%W.
Proof.
  intros Hid Hw. destruct (write_id_feeds id [InObj; InObj] Hid) as (num & Hn & Hf). exists (text (write_id id)), num, (text w).
  split; [done|]. split; [done|]. eapply feeds_app; [unfold id_prefix; piece|]. by eapply feeds_app.
Qed.

Lemma result_response (id : bytes) (w : wprog) : utf8_valid id = true -> element (text w) ->
  response (Put (js "{'jsonrpc':'2.0','id':") +? write_id id +? Put (js ",'result':") +? w +? Put (lit "}"))%W.
Proof. intros Hid Hw. apply with_id_response; [done|]. pieces. feed_go. Qed.

Lemma error_response (id message : bytes) (code : Z) : utf8_valid id = true -> utf8_valid message = true ->
  response (Put (js "{'jsonrpc':'2.0','id':") +? write_id id +? fmt [js ",'error':{'code':"; dec_i code; js ",'message':'"] +?
            write_json_escaped message +? Put (js "'}}"))%W.
Proof. intros Hid Hm. apply with_id_response; [done|]. pieces. feed_go. Qed.

(** An rpc frame up to the echoed id. *)
Definition rpc_prefix (event : Z) : bytes := js "{'id':" ++ dec event ++ js ",'type':'rpc','rpc':" ++ id_prefix.

(** The text of a frame: a JSON document, or an rpc response that echoes the
    request's integer id with the superfluous zeros it was sent with, and is a
    document without them. *)
Definition frame_text (s : bytes) : Prop :=
  value s \/ exists event tok num post,
    pads tok num /\ s = rpc_prefix event ++ tok ++ post /\ value (rpc_prefix event ++ num ++ post).

Lemma doc_text (w : wprog) : doc w -> frame_text (text w).
Proof. intros H. left. by apply doc_value. Qed.

Lemma rpc_doc (id : Z) (w : wprog) : response w ->
  frame_text (text (fmt [js "{'id':"; dec id; js ",'type':'rpc','rpc':"] +! w +! Put (lit "}"))%W).
Proof.
  intros (tok & num & post & Ht & Hn & Hf).
  assert (Hd : value (rpc_prefix id ++ num ++ post ++ lit "}")).
  { change (value (text (Put (rpc_prefix id ++ num ++ post ++ lit "}")))). apply doc_value. unfold doc. cbn [text]. unfold rpc_prefix.
    rewrite <- !app_assoc. eapply feeds_app; [piece|]. eapply feeds_app; [piece|]. eapply feeds_app; [piece|].
    rewrite !app_assoc, <- (app_assoc id_prefix). eapply feeds_app; [exact Hf|]. piece. }
  assert (Et : text (fmt [js "{'id':"; dec id; js ",'type':'rpc','rpc':"] +! w +! Put (lit "}"))%W = rpc_prefix id ++ tok ++ post ++ lit "}").
  { cbn [text]. rewrite fmt_text, Ht. cbn [concat]. unfold rpc_prefix. by rewrite <- !app_assoc. }
  rewrite Et. destruct Hn as [<-|Hp]; [by left|]. right. by exists id, tok, num, (post ++ lit "}").
Qed.
