(* ===== verification/KRun.v ===== *)
(** * Running kernel code symbolically

    Equations that evaluate one operation of the monad at a time, bounds on the
    text of a frame, and the hypotheses the syscall theorems share: which
    payload runs and what its slot holds. *)

From S2P Require Import Prelude Hal Frames Mm Console RpcJson KState Traps Payload.

(** ** Evaluation *)

Lemma bind_val {S T} (m : M S) (f : S -> M T) (k k' : K) (v : S) :
  m k = (Val v, k') -> bind m f k = f v k'.
Proof. unfold bind. by intros ->. Qed.

Lemma bind_exit {S T} (m : M S) (f : S -> M T) (k k' : K) (x : exit) :
  m k = (Exit x, k') -> bind m f k = (Exit x, k').
Proof. unfold bind. by intros ->. Qed.

Lemma bind_assoc {S T U} (m : M S) (f : S -> M T) (g : T -> M U) (k : K) :
  bind (bind m f) g k = bind m (fun v => bind (f v) g) k.
Proof. unfold bind. by destruct (m k) as [[v|x] k']. Qed.

Lemma in_bounds_run (b : bool) (k : K) : b = true -> in_bounds b k = (Val tt, k).
Proof. by intros ->. Qed.

(** The state after a burst on the wire, and after an event id is taken. *)
Definition sent (b : bytes) (k : K) : K := on_hw (fun h => with_hw_out (hw_out h ++ [b]) h) k.
Definition numbered (k : K) : K := with_events (events k + 1) k.

Lemma next_event_run (k : K) : next_event k = (Val (next_id k), numbered k).
Proof. done. Qed.

Lemma put_wire_run (b : bytes) (k : K) : b <> [] -> put_wire b k = (Val tt, sent b k).
Proof. by destruct b. Qed.

Lemma send_run (w : wprog) (k : K) : (length (text w) <= CAPACITY)%nat ->
  send w k = (Val tt, sent (frame_bytes (text w)) k).
Proof. intros H. unfold send. rewrite emit_fits by done. by apply put_wire_run. Qed.

(** A writer that falls back when the first does not fit. *)
Lemma send_or (w fallback : wprog) (k : K) : (length (text fallback) <= CAPACITY)%nat ->
  (if overflowed (build w) then send fallback else send w) k =
  (Val tt, sent (frame_bytes (if (length (text w) <=? CAPACITY)%nat then text w else text fallback)) k).
Proof.
  intros Hf. unfold overflowed. destruct (length (text w) <=? CAPACITY)%nat eqn:E.
  - apply Nat.leb_le in E. rewrite build_fits by done. cbn [overflow]. by rewrite send_run.
  - apply Nat.leb_gt, build_overflow in E. rewrite E. by rewrite send_run.
Qed.

Lemma get_slot_run (pid : Z) (s : Slot) (k : K) : slot_at pid k = Some s -> get_slot pid k = (Val s, k).
Proof. unfold get_slot. by intros ->. Qed.

(** The state after a store to a slot. *)
Definition stored (pid : Z) (s : Slot) (k : K) : K :=
  on_pay (fun p => with_table (<[Z.to_nat pid := s]> (table p)) p) k.

Lemma upd_slot_run (pid : Z) (f : Slot -> Slot) (s : Slot) (k : K) : slot_at pid k = Some s ->
  upd_slot pid f k = (Val tt, stored pid (f s) k).
Proof. unfold upd_slot, stored. by intros ->. Qed.

Lemma slot_at_range (pid : Z) (k : K) (s : Slot) : slot_at pid k = Some s ->
  0 <= pid < Z.of_nat (length (table (pay k))).
Proof.
  unfold slot_at. destruct (pid <? 0) eqn:E; [done|]. zbool. intros H.
  apply lookup_lt_Some in H. lia.
Qed.

Lemma slot_at_stored (pid : Z) (s s0 : Slot) (k : K) : slot_at pid k = Some s0 ->
  slot_at pid (stored pid s k) = Some s.
Proof.
  intros H. pose proof (slot_at_range _ _ _ H). unfold slot_at in *. cbn.
  destruct (pid <? 0) eqn:E; [done|]. apply list_lookup_insert_eq. lia.
Qed.

Lemma slot_at_stored_ne (pid q : Z) (s : Slot) (k : K) : 0 <= pid -> q <> pid ->
  slot_at q (stored pid s k) = slot_at q k.
Proof.
  intros Hp Hq. unfold slot_at. cbn. destruct (q <? 0) eqn:E; [done|]. zbool.
  apply list_lookup_insert_ne. lia.
Qed.

(** [slot_at] depends on the table alone. *)
Lemma slot_at_same (pid : Z) (k k' : K) : table (pay k') = table (pay k) -> slot_at pid k' = slot_at pid k.
Proof. unfold slot_at. by intros ->. Qed.

(** ** Searching the table *)

Lemma position_from_some {T} (p : T -> bool) (l : list T) (i j : Z) :
  position_from i p l = Some j -> i <= j /\ exists x, l !! Z.to_nat (j - i) = Some x /\ p x = true.
Proof.
  revert i. induction l as [|x l IH]; intros i; cbn [position_from]; [done|].
  destruct (p x) eqn:E.
  - intros [= <-]. split; [lia|]. exists x. by rewrite Z.sub_diag.
  - intros H. apply IH in H as (Hi & y & Hy & Hp). split; [lia|]. exists y.
    replace (Z.to_nat (j - i)) with (S (Z.to_nat (j - (i + 1)))) by lia. done.
Qed.

(** ** The running payload *)

Definition running (k : K) (pid : Z) (s : Slot) : Prop :=
  current (pay k) = pid /\ pid <> NO_PID /\ slot_at pid k = Some s.

Section Run.
Context {B : Build}.

Lemma current_pid_run (k : K) (pid : Z) (s : Slot) : running k pid s ->
  current_pid k = (Val (Some pid), k).
Proof.
  intros (Hc & Hn & _). unfold current_pid, gets. rewrite Hc.
  destruct (pid =? NO_PID) eqn:E; zbool; done.
Qed.

Lemma pid_or_none_run (k : K) (pid : Z) (s : Slot) : running k pid s -> pid_or_none k = (Val pid, k).
Proof. intros H. unfold pid_or_none. by erewrite bind_val by (by eapply current_pid_run). Qed.

Lemma current_has_run (c : Cap) (k : K) (pid : Z) (s : Slot) : running k pid s ->
  current_has c k = (Val (negb (Z.land (caps s) (cap_bit c) =? 0)), k).
Proof.
  intros H. unfold current_has. erewrite bind_val by (by eapply current_pid_run).
  cbv beta iota. by erewrite bind_val by (apply get_slot_run, H).
Qed.

Lemma current_space_run (k : K) (pid : Z) (s : Slot) : running k pid s ->
  current_space k = (Val (if root s =? 0 then None else Some (root s)), k).
Proof.
  intros H. unfold current_space. erewrite bind_val by (by eapply current_pid_run).
  cbv beta iota. by erewrite bind_val by (apply get_slot_run, H).
Qed.

Lemma current_cause_run (k : K) (pid : Z) (s : Slot) : running k pid s ->
  current_cause k = (Val (Some (start_event s)), k).
Proof.
  intros H. unfold current_cause. erewrite bind_val by (by eapply current_pid_run).
  cbv beta iota. by erewrite bind_val by (apply get_slot_run, H).
Qed.

End Run.

(** The table and the running payload of [k'] are those of [k]. *)
Lemma running_same (k k' : K) (pid : Z) (s : Slot) : table (pay k') = table (pay k) ->
  current (pay k') = current (pay k) -> running k pid s -> running k' pid s.
Proof. intros Ht Hc (H1 & H2 & H3). split; [congruence|]. split; [done|]. by rewrite (slot_at_same _ k). Qed.

Lemma running_range (k : K) (pid : Z) (s : Slot) : running k pid s ->
  0 <= pid < Z.of_nat (length (table (pay k))).
Proof. intros (_ & _ & H). by eapply slot_at_range. Qed.

(** Evaluate the next bind whose first half is known. *)
Ltac run_bind :=
  first
    [ erewrite bind_val by (eapply current_pid_run; eassumption)
    | erewrite bind_val by (eapply pid_or_none_run; eassumption)
    | erewrite bind_val by (eapply current_has_run; eassumption)
    | erewrite bind_val by (eapply current_space_run; eassumption)
    | erewrite bind_val by (eapply current_cause_run; eassumption)
    | erewrite bind_val by (eapply get_slot_run; eassumption)
    | erewrite bind_val by (eapply upd_slot_run; eassumption)
    | erewrite bind_val by (apply next_event_run)
    | erewrite bind_val by reflexivity ];
  cbv beta iota.

(** ** What code returns, in any state *)

Definition yields {T} (m : M T) (P : T -> Prop) : Prop := forall k v, fst (m k) = Val v -> P v.

Lemma yields_ret {T} (v : T) (P : T -> Prop) : P v -> yields (ret v) P.
Proof. by intros H k v' [= <-]. Qed.
Lemma yields_stop {T} (x : exit) (P : T -> Prop) : yields (stop x) P.
Proof. by intros k v [=]. Qed.
Lemma yields_bind {S T} (m : M S) (f : S -> M T) (P : T -> Prop) : (forall v, yields (f v) P) -> yields (bind m f) P.
Proof. intros Hf k v. unfold bind. destruct (m k) as [[a|x] k1]; [apply Hf|done]. Qed.

(** ** Bounds on text *)

Lemma dec_i_length (z : Z) : (length (dec_i z) <= 21)%nat.
Proof.
  pose proof (dec_length z). pose proof (dec_length (- z)).
  unfold dec_i. destruct (_ <? _); [|lia]. rewrite length_app. change (length (lit "-")) with 1%nat. lia.
Qed.

Lemma dec_bool_length (b : bool) : (length (dec_bool b) <= 5)%nat.
Proof. destruct b; cbn; lia. Qed.

(** The length of every piece of a text, the numbers by their widths. *)
Ltac measure :=
  repeat match goal with
  | |- context [length (dec ?n)] => lazymatch goal with H : (length (dec n) <= 20)%nat |- _ => fail | _ => pose proof (dec_length n) end
  | |- context [length (hex ?n)] => lazymatch goal with H : (length (hex n) <= 16)%nat |- _ => fail | _ => pose proof (hex_length n) end
  | |- context [length (dec_i ?n)] => lazymatch goal with H : (length (dec_i n) <= 21)%nat |- _ => fail | _ => pose proof (dec_i_length n) end
  | |- context [length (dec_bool ?n)] => lazymatch goal with H : (length (dec_bool n) <= 5)%nat |- _ => fail | _ => pose proof (dec_bool_length n) end
  | |- context [length (js ?s)] => let n := eval vm_compute in (length (js s)) in change (length (js s)) with n
  | |- context [length (lit ?s)] => let n := eval vm_compute in (length (lit s)) in change (length (lit s)) with n
  end.

Ltac text_bound :=
  cbn [text]; rewrite ?fmt_text; cbn [concat]; rewrite ?length_app; cbn [length]; measure.
