(* ===== verification/Iso.v ===== *)
(** * Claims on the frame pool

    What the kernel state claims: the kernel's own table, the address space and
    the saved context of every slot and of every checkpoint. [kept w t cs k]
    says that these claims, and those [cs] that running code holds in its local
    variables, are tenants of the pool that share no frame. [hoare] is the triple
    for it: code takes frames into its hand and puts them into the state.
    [steady] code keeps what is in hand and in the state. A checkpoint can be put
    under observation ([froz]): it then keeps its contents too. *)

From S2P Require Import Prelude Hal Frames Mm MmSpec MmWalk Elf PoolAcct ElfProofs CopySpec Console RpcJson KState Traps TrapsProofs Payload Syscall Handler Rpc Sched KRun Owner LoadOwn.

(** ** Claims *)

Inductive claim := CSpace (root : Z) | CFrame (f : Z).
Definition claim_of (t : tenant) : claim := match t with TSpace r _ => CSpace r | TFrame f => CFrame f end.

(** The pool has tenants for the claims. *)
Definition housed (p : fpool) (cs : list claim) : Prop := exists l, map claim_of l = cs /\ sep p l.

#[export] Instance housed_perm (p : fpool) : Proper ((≡ₚ) ==> iff) (housed p).
Proof.
  assert (H : forall cs cs', cs ≡ₚ cs' -> housed p cs -> housed p cs').
  { intros cs cs' Hp (l & <- & Hs). symmetry in Hp. apply Permutation_map_inv in Hp as (l' & -> & Hp). exists l'. split; [done|]. by rewrite <- Hp. }
  intros cs cs' Hp. split; by apply H.
Qed.

Lemma housed_cons (p : fpool) (c : claim) (cs : list claim) : housed p (c :: cs) ->
  exists t l, claim_of t = c /\ map claim_of l = cs /\ sep p (t :: l).
Proof. intros (l & Hl & Hs). destruct l as [|t l]; [done|]. injection Hl as <- <-. by exists t, l. Qed.

Lemma housed_drop (p : fpool) (a b : list claim) : housed p (a ++ b) -> housed p b.
Proof. intros (l & Hl & Hs). apply map_eq_app in Hl as (l1 & l2 & -> & _ & <-). exists l2. split; [done|]. by eapply sep_app_r. Qed.

Lemma housed_nonzero (p : fpool) (c : claim) (cs : list claim) : housed p (c :: cs) ->
  match c with CSpace r => frame_addr r | CFrame f => frame_addr f end.
Proof.
  intros (t & l & <- & _ & Hok & _)%housed_cons. destruct t as [r sh|f]; cbn in *; [|apply Hok].
  eapply wf_frame; [apply (so_wf _ _ _ (ok_src _ _ _ Hok))|apply (wf_root _ _ _ (so_wf _ _ _ (ok_src _ _ _ Hok)))].
Qed.

(** What nobody else may change: a space translates and reads as before, a
    saved context loads as before. *)
Definition untouched (m m' : mem) (c : claim) : Prop :=
  match c with
  | CSpace r => (forall va need, translate_checked m' r va need = translate_checked m r va need) /\
                (forall va len, 0 <= len -> copy_from_user m' r va len = copy_from_user m r va len)
  | CFrame f => load_frame m' f = load_frame m f
  end.

Lemma untouched_refl (m : mem) (c : claim) : untouched m m c.
Proof. by destruct c. Qed.

Lemma untouched_trans (m1 m2 m3 : mem) (c : claim) : untouched m1 m2 c -> untouched m2 m3 c -> untouched m1 m3 c.
Proof.
  destruct c as [r|f]; cbn; [|congruence]. intros [H1 H2] [H3 H4]. split; intros; [by rewrite H3|by rewrite H4, H2].
Qed.

(** The claims of [cs] kept their contents. *)
Definition unmoved (p p' : fpool) (cs : list claim) : Prop := Forall (untouched (pmem p) (pmem p')) cs.

Lemma load_frame_moved (m m' : mem) (f g : Z) : (forall i, 0 <= i < FRAME_SIZE -> m' (g + i) = m (f + i)) -> load_frame m' g = load_frame m f.
Proof.
  intros Hm. assert (Hw : forall i, 0 <= i < 33 -> load m' (g + i * 8) 8 = load m (f + i * 8) 8).
  { intros i Hi. unfold load. apply map_ext_in. intros j Hj%in_seq. rewrite <- !Z.add_assoc. apply Hm. unfold FRAME_SIZE. lia. }
  unfold load_frame. f_equal.
  - apply map_ext_in. intros i Hi%list_elem_of_In%elem_of_seqZ. rewrite Hw; [done|lia].
  - change 248 with (31 * 8). by rewrite Hw by lia.
  - change 256 with (32 * 8). by rewrite Hw by lia.
Qed.

Lemma agrees_unmoved (p p' : fpool) (l : list tenant) : pool_ok p' -> sep p l -> Forall (agrees p p') l -> unmoved p p' (map claim_of l).
Proof.
  intros Hp Hs Ha. apply Forall_fmap. rewrite Forall_forall in *. intros t Hin. specialize (Ha t Hin). apply sep_in with (t := t) in Hs; [|done].
  destruct t as [r sh|f]; cbn in *.
  - split; [by apply (space_transfer p p' r sh)|]. intros va len Hl. by apply (space_reads p p' r sh).
  - apply load_frame_moved. intros i Hi. apply (Ha f eq_refl). lia.
Qed.

(** ** The pool's operations on claims *)

Lemma housed_alloc (p p1 : fpool) (f : Z) (cs : list claim) : pool_ok p -> housed p cs -> alloc p = (Some f, p1) ->
  pool_ok p1 /\ housed p1 (CFrame f :: cs) /\ unmoved p p1 cs.
Proof.
  intros Hp (l & <- & Hs) Ha. destruct (sep_alloc p p1 f (pmem p1) l Hp Hs Ha ltac:(done)) as (Hk & Hs' & Hag).
  replace (with_mem p1 (pmem p1)) with p1 in * by (by destruct p1). split; [done|]. split; [by exists (TFrame f :: l)|by apply agrees_unmoved].
Qed.

Lemma housed_write (p p' : fpool) (f : Z) (cs : list claim) : housed p (CFrame f :: cs) ->
  (forall g, owned p' g <-> owned p g) -> pool_ok p' ->
  (frame_addr f -> forall a, ~ (f <= a < f + FRAME_SIZE) -> pmem p' a = pmem p a) -> housed p' (CFrame f :: cs) /\ unmoved p p' cs.
Proof.
  intros (t & l & Ht & <- & Hs)%housed_cons Ho Hk Hm. destruct t as [|f0]; [done|]. injection Ht as ->.
  assert (Hf : frame_addr f) by apply Hs.
  destruct (sep_change p p' (TFrame f) (TFrame f) l) as [Hs' Hag]; [done|done|apply Ho, Hs|by left| |].
  { intros g Hg Hne. split; [by apply Ho|]. intros a Ha. apply (Hm Hf). apply (frames_disjoint g f a); [apply Hg|done|done|done]. }
  split; [by exists (TFrame f :: l)|]. apply agrees_unmoved; [done|apply Hs|done].
Qed.

Lemma housed_free (p : fpool) (f : Z) (cs : list claim) : pool_ok p -> housed p (CFrame f :: cs) ->
  pool_ok (free f p) /\ housed (free f p) cs /\ unmoved p (free f p) cs.
Proof.
  intros Hp (t & l & Ht & <- & Hs)%housed_cons. destruct t as [|f0]; [done|]. injection Ht as ->.
  destruct (sep_free p f l Hp Hs) as (Hk & Hs' & Ha). split; [done|]. split; [by exists l|]. apply agrees_unmoved; [done|apply Hs|done].
Qed.

Lemma housed_destroy (p : fpool) (r : Z) (cs : list claim) : housed p (CSpace r :: cs) ->
  pool_ok (destroy r p) /\ housed (destroy r p) cs /\ unmoved p (destroy r p) cs.
Proof.
  intros (t & l & Ht & <- & Hs)%housed_cons. destruct t as [r0 sh|]; [|done]. injection Ht as ->.
  destruct (sep_destroy p r sh l Hs) as (Hk & Hs' & Ha). split; [done|]. split; [by exists l|]. apply agrees_unmoved; [done|apply Hs|done].
Qed.

Lemma housed_copy (p : fpool) (r : Z) (cs : list claim) : housed p cs -> CSpace r ∈ cs ->
  match deep_copy p r with
  | (Some dst, p') => pool_ok p' /\ housed p' (CSpace dst :: cs) /\ unmoved p p' cs
  | (None, p') => pool_ok p' /\ housed p' cs /\ unmoved p p' cs
  end.
Proof.
  intros (l & <- & Hs) Hin. apply list_elem_of_fmap in Hin as (t & Ht & Hin). destruct t as [r0 sh|]; [|done]. injection Ht as <-.
  pose proof (sep_copy p r sh l Hs Hin) as Hc. destruct (deep_copy p r) as [[dst|] p'].
  - destruct Hc as (Hk & sh' & Hs' & Ha). split; [done|]. split; [by exists (TSpace dst sh' :: l)|by apply agrees_unmoved].
  - destruct Hc as (Hk & Hs' & Ha). split; [done|]. split; [by exists l|by apply agrees_unmoved].
Qed.

Lemma housed_grow {T} (p : fpool) (r : Z) (cs : list claim) (op : fpool -> T * fpool) : grows_space r op -> housed p (CSpace r :: cs) ->
  pool_ok (snd (op p)) /\ housed (snd (op p)) (CSpace r :: cs) /\ unmoved p (snd (op p)) cs.
Proof.
  intros Hop (t & l & Ht & <- & Hs)%housed_cons. destruct t as [r0 sh|]; [|done]. injection Ht as ->.
  destruct (Hop p sh (proj1 Hs)) as (sh' & Hok & Hg). destruct (sep_grown p _ r sh sh' l Hs Hok Hg) as [Hs' Ha].
  assert (Hk : pool_ok (snd (op p))) by apply (wf_pool _ _ _ (so_wf _ _ _ (ok_src _ _ _ Hok))).
  split; [done|]. split; [by exists (TSpace r sh' :: l)|]. apply agrees_unmoved; [done|apply Hs|done].
Qed.

(** A new space with the kernel gigapage, which a fresh root always takes. *)
Lemma housed_space (p p1 : fpool) (r : Z) (cs : list claim) : pool_ok p -> housed p cs -> space_new p = (Some r, p1) ->
  exists p2, map_kernel p1 r = (inr tt, p2) /\ pool_ok p2 /\ housed p2 (CSpace r :: cs) /\ unmoved p p2 cs.
Proof.
  intros Hp (l & <- & Hs) Hn. destruct (space_new_wf p p1 r Hp Hn) as (Hwf & (Hf & Hno & Ho & Hz & _) & Hpg & Hmg & Hgg).
  destruct (map_kernel p1 r) as [[e|[]] p2] eqn:Em; [by destruct (map_kernel_fresh p1 r e p2 Hwf Hgg)|].
  exists p2. split; [done|]. destruct (map_kernel_spec p1 p2 _ r Hwf Em) as (Hwf2 & Hgg2 & Hmg2 & Hpg2 & Ho2).
  split; [apply (wf_pool _ _ _ Hwf2)|].
  enough (H : sep p2 (TSpace r {[ [] := r ]} :: l) /\ Forall (agrees p p2) l).
  { split; [exists (TSpace r {[ [] := r ]} :: l); split; [done|apply H]|]. apply agrees_unmoved; [apply (wf_pool _ _ _ Hwf2)|done|apply H]. }
  assert (Hpages : forall i2 i1 i0, 0 <= i0 < 512 -> page_of p2 {[ [] := r ]} i2 i1 i0 = None) by (intros; rewrite Hpg2 by done; apply Hpg).
  apply (sep_new p); [done|apply (wf_pool _ _ _ Hwf2)| | |].
  - split; [split| |].
    + done.
    + intros i2 i1 H2 H1. rewrite Hmg2 by done. apply Hmg.
    + intros i2 e H2. rewrite Hgg2 by done. case_decide; [by intros [= <-]|]. by rewrite Hgg.
    + rewrite Hgg2 by lia. by eexists.
    + intros i2 i1 i0 e Hi He. by rewrite Hpages in He.
    + intros i2 i1 i0 e Hi He. by rewrite Hpages in He.
    + intros i2 i1 i0 e Hi He. by rewrite Hpages in He.
  - intros g [_ [[k [_ Hk]%lookup_singleton_Some]|(i2 & i1 & i0 & e & Hi & He & _)]]; [by subst g|by rewrite Hpages in He].
  - intros g Hg. split; [apply Ho2, Ho; by left|]. intros a Ha.
    assert (Hd : ~ (r <= a < r + FRAME_SIZE)) by (apply (frames_disjoint g r a); [apply Hg|done|by intros ->|done]).
    by rewrite (map_kernel_mem p1 p2 r Hf Em a Hd), Hz, fill0_other.
Qed.

(** ** The claims of a state *)

Definition nz {T} (c : Z -> T) (x : Z) : list T := if x =? 0 then [] else [c x].
Definition slot_claims (s : Slot) : list claim := nz CSpace (root s) ++ nz CFrame (resume_frame s).
Definition snap_claims (s : Snapshot) : list claim := nz CSpace (sn_root s) ++ nz CFrame (sn_frame s).
Definition pay_claims (p : PayState) : list claim :=
  nz CSpace (kernel_root p) ++ concat (map slot_claims (table p)) ++ concat (map snap_claims (snaps p)).

Lemma concat_insert {A B} (f : A -> list B) (l : list A) (i : nat) (x : A) : l !! i = Some x ->
  exists rest, concat (map f l) ≡ₚ f x ++ rest /\ forall y, concat (map f (<[i := y]> l)) ≡ₚ f y ++ rest.
Proof.
  revert i. induction l as [|z l IH]; intros [|i] Hi; cbn in Hi; [done|done| |].
  - injection Hi as ->. exists (concat (map f l)). done.
  - destruct (IH i Hi) as (rest & H1 & H2). exists (f z ++ rest). split.
    + cbn [map concat]. rewrite H1. solve_Permutation.
    + intros y. cbn [map concat insert list_insert]. rewrite H2. solve_Permutation.
Qed.

Lemma claims_slot (k : K) (pid : Z) (s : Slot) : slot_at pid k = Some s ->
  exists rest, pay_claims (pay k) ≡ₚ slot_claims s ++ rest /\ forall s', pay_claims (pay (stored pid s' k)) ≡ₚ slot_claims s' ++ rest.
Proof.
  intros Hs. unfold slot_at in Hs. destruct (pid <? 0); [done|]. destruct (concat_insert slot_claims _ _ _ Hs) as (rest & H1 & H2).
  exists (nz CSpace (kernel_root (pay k)) ++ rest ++ concat (map snap_claims (snaps (pay k)))). split.
  - unfold pay_claims. rewrite H1. solve_Permutation.
  - intros s'. unfold pay_claims, stored. cbn [pay on_pay with_pay table with_table kernel_root snaps]. rewrite H2. solve_Permutation.
Qed.

(** The state after a store to a checkpoint. *)
Definition kept_snap (sid : Z) (s : Snapshot) (k : K) : K :=
  on_pay (fun p => with_snaps (<[Z.to_nat sid := s]> (snaps p)) p) k.

Lemma claims_snap (k : K) (sid : Z) (s : Snapshot) : snap_at sid k = Some s ->
  exists rest, pay_claims (pay k) ≡ₚ snap_claims s ++ rest /\ forall s', pay_claims (pay (kept_snap sid s' k)) ≡ₚ snap_claims s' ++ rest.
Proof.
  intros Hs. unfold snap_at in Hs. destruct (sid <? 0); [done|]. destruct (concat_insert snap_claims _ _ _ Hs) as (rest & H1 & H2).
  exists (nz CSpace (kernel_root (pay k)) ++ concat (map slot_claims (table (pay k))) ++ rest). split.
  - unfold pay_claims. rewrite H1. solve_Permutation.
  - intros s'. unfold pay_claims, kept_snap. cbn [pay on_pay with_pay table with_snaps kernel_root snaps]. rewrite H2. solve_Permutation.
Qed.

(** ** The invariant of running code *)

(** A valid checkpoint has an address space; so has a payload that runs or
    waits with a saved context. *)
Definition snap_whole (s : Snapshot) : Prop := sn_valid s = true -> sn_root s <> 0.
Definition slot_whole (s : Slot) : Prop := state s = RUNNING \/ (state s = PENDING /\ resume_frame s <> 0) -> root s <> 0.

(** The address space [t] names is the running payload's; [None]: no payload runs. *)
Definition tied (t : option Z) (k : K) : Prop :=
  match t with
  | None => current (pay k) = NO_PID
  | Some satp => forall s, current (pay k) <> NO_PID -> slot_at (current (pay k)) k = Some s -> state s = RUNNING -> satp_of (root s) = satp
  end.

(** [TABLE[pid]] and [SNAPS[sid]], as facts about the process state. *)
Definition slot_is (pid : Z) (s : Slot) (p : PayState) : Prop := 0 <= pid /\ table p !! Z.to_nat pid = Some s.
Definition snap_is (sid : Z) (s : Snapshot) (p : PayState) : Prop := 0 <= sid /\ snaps p !! Z.to_nat sid = Some s.

Lemma slot_at_is (pid : Z) (s : Slot) (k : K) : slot_at pid k = Some s <-> slot_is pid s (pay k).
Proof. unfold slot_at, slot_is. destruct (pid <? 0) eqn:E; zbool; split; try done; [by intros [? _]; lia|by intros [_ ?]]. Qed.
Lemma snap_at_is (sid : Z) (s : Snapshot) (k : K) : snap_at sid k = Some s <-> snap_is sid s (pay k).
Proof. unfold snap_at, snap_is. destruct (sid <? 0) eqn:E; zbool; split; try done; [by intros [? _]; lia|by intros [_ ?]]. Qed.

(** A checkpoint under observation: its record and the memory it was seen in.
    [Hold]: it is there, as it was; [Watch]: if it is there, it is as it was. *)
Inductive froz := Loose | Watch (sid : Z) (sn : Snapshot) (m : mem) | Hold (sid : Z) (sn : Snapshot) (m : mem).
Existing Class froz.

Definition intact (sn : Snapshot) (m : mem) (k : K) : Prop := Forall (untouched m (pmem (pool k))) (snap_claims sn).

Definition frozen (fz : froz) (k : K) : Prop :=
  match fz with
  | Loose => True
  | Watch sid sn m => snap_is sid sn (pay k) -> intact sn m k
  | Hold sid sn m => snap_is sid sn (pay k) /\ intact sn m k
  end.

(** Code that takes checkpoints cannot be watched, code that discards them
    cannot be held to keep one. *)
Definition can_snap (fz : froz) : Prop := match fz with Loose => True | Watch _ _ _ => False | Hold _ sn _ => sn_valid sn = true end.
Definition can_free (fz : froz) : Prop := match fz with Loose => True | Watch _ sn _ => sn_valid sn = true | Hold _ _ _ => False end.

Section Kept.
Context {fz : froz}.

(** [cs]: what the code holds; [w]: the active satp. *)
Record kept (w : Z) (t : option Z) (cs : list claim) (k : K) : Prop := {
  kp_pool : pool_ok (pool k);
  kp_housed : housed (pool k) (cs ++ pay_claims (pay k));
  kp_snaps : Forall snap_whole (snaps (pay k));
  kp_slots : Forall slot_whole (table (pay k));
  kp_tied : tied t k;
  kp_satp : hw_satp (hw k) = w;
  kp_irqs : irqs_ok (hw_irq (hw k));
  kp_frozen : frozen fz k
}.

(** Where code may leave with an exit: nothing in hand, and [resume_user] only
    into the address space of the running payload. *)
Definition leaving (x : exit) (k : K) : Prop :=
  exists w t, kept w t [] k /\ match x with XResume satp _ => t = Some satp | _ => True end.

Definition hoare {T} (P : K -> Prop) (m : M T) (Q : T -> K -> Prop) : Prop := forall k, P k ->
  match m k with
  | (Val v, k') => Q v k'
  | (Exit x, k') => leaving x k'
  end.

Definition steady {T} (m : M T) : Prop := forall w t cs, hoare (kept w t cs) m (fun _ => kept w t cs).

Lemma kept_drop (w : Z) (t : option Z) (a cs : list claim) (k : K) : kept w t (a ++ cs) k -> kept w t cs k.
Proof. intros [H1 H2 H3 H4 H5 H6 H7 H8]. split; try done. rewrite <- app_assoc in H2. by eapply housed_drop. Qed.

Lemma kept_left (w : Z) (t : option Z) (cs : list claim) (x : exit) (k : K) : kept w t cs k ->
  match x with XResume satp _ => t = Some satp | _ => True end -> leaving x k.
Proof. intros Hk Hx. exists w, t. split; [|done]. apply (kept_drop w t cs). by rewrite app_nil_r. Qed.

Lemma kept_perm (w : Z) (t : option Z) (cs cs' : list claim) (k : K) : cs ≡ₚ cs' -> kept w t cs k -> kept w t cs' k.
Proof. intros Hp [H1 H2 H3 H4 H5 H6 H7 H8]. split; try done. by rewrite <- Hp. Qed.

(** ** Composition *)

Lemma hoare_ret {T} (v : T) (P : K -> Prop) (Q : T -> K -> Prop) : (forall k, P k -> Q v k) -> hoare P (ret v) Q.
Proof. intros H k Hk. by apply H. Qed.

Lemma hoare_bind {S T} (m : M S) (f : S -> M T) (P : K -> Prop) (R : S -> K -> Prop) (Q : T -> K -> Prop) :
  hoare P m R -> (forall v, hoare (R v) (f v) Q) -> hoare P (bind m f) Q.
Proof. intros Hm Hf k Hk. unfold bind. specialize (Hm k Hk). destruct (m k) as [[v|x] k']; [by apply Hf|done]. Qed.

Lemma hoare_conseq {T} (m : M T) (P P' : K -> Prop) (Q Q' : T -> K -> Prop) : hoare P' m Q' ->
  (forall k, P k -> P' k) -> (forall v k, Q' v k -> Q v k) -> hoare P m Q.
Proof. intros Hm HP HQ k Hk. specialize (Hm k (HP k Hk)). destruct (m k) as [[v|x] k']; [by apply HQ|done]. Qed.

Lemma hoare_pre {T} (m : M T) (P P' : K -> Prop) (Q : T -> K -> Prop) : (forall k, P k -> P' k) -> hoare P' m Q -> hoare P m Q.
Proof. intros HP Hm. by eapply hoare_conseq. Qed.

(** Steady code in the middle of a proof about claims in hand. *)
Lemma hoare_steady {S T} (m : M S) (f : S -> M T) (w : Z) (t : option Z) (cs : list claim) (Q : T -> K -> Prop) :
  steady m -> (forall v, hoare (kept w t cs) (f v) Q) -> hoare (kept w t cs) (bind m f) Q.
Proof. intros Hm. apply hoare_bind, Hm. Qed.

Lemma steady_ret {T} (v : T) : steady (ret v).
Proof. intros w t cs. by apply hoare_ret. Qed.

Lemma steady_stop {T} (x : exit) : (forall satp f, x <> XResume satp f) -> steady (@stop T x).
Proof. intros Hx w t cs k Hk. apply (kept_left w t cs); [done|]. destruct x; try done. by destruct (Hx satp frame). Qed.

Lemma steady_bind {S T} (m : M S) (f : S -> M T) : steady m -> (forall v, steady (f v)) -> steady (bind m f).
Proof. intros Hm Hf w t cs. eapply hoare_bind; [apply Hm|]. intros v. apply Hf. Qed.

Lemma steady_gets {T} (g : K -> T) : steady (gets g).
Proof. by intros w t cs k Hk. Qed.

Lemma steady_in_bounds (b : bool) : steady (in_bounds b).
Proof. destruct b; [apply steady_ret|by apply steady_stop]. Qed.

Lemma steady_for_each {T} (l : list T) (body : T -> M unit) : (forall x, steady (body x)) -> steady (for_each l body).
Proof. intros H. induction l as [|x l IH]; cbn [for_each]; [apply steady_ret|]. apply steady_bind; [apply H|done]. Qed.

(** Only the pool, the process state, satp and the pending interrupts matter. *)
Lemma kept_ext (w : Z) (t : option Z) (cs : list claim) (k k' : K) : kept w t cs k -> pool k' = pool k -> pay k' = pay k ->
  hw_satp (hw k') = hw_satp (hw k) -> hw_irq (hw k') = hw_irq (hw k) -> kept w t cs k'.
Proof.
  intros [H1 H2 H3 H4 H5 H6 H7 H8] E1 E2 E3 E4. split; rewrite ?E1, ?E2, ?E3, ?E4; try done.
  - unfold tied, slot_at in *. by rewrite E2.
  - unfold frozen, intact in *. by rewrite E1, E2.
Qed.

Lemma steady_frame {T} (m : M T) : (forall k, exists v k', m k = (Val v, k') /\ pool k' = pool k /\ pay k' = pay k /\
  hw_satp (hw k') = hw_satp (hw k) /\ hw_irq (hw k') = hw_irq (hw k)) -> steady m.
Proof. intros H w t cs k Hk. destruct (H k) as (v & k' & -> & E1 & E2 & E3 & E4). by apply (kept_ext w t cs k). Qed.

(** ** Stores *)

Lemma kept_store (w : Z) (t : option Z) (cs cs' d : list claim) (k : K) (pid : Z) (s s' : Slot) : kept w t cs k -> slot_at pid k = Some s ->
  cs ++ slot_claims s ≡ₚ d ++ cs' ++ slot_claims s' -> slot_whole s' ->
  (t = None \/ (state s' = RUNNING -> state s = RUNNING /\ root s' = root s)) -> kept w t cs' (stored pid s' k).
Proof.
  intros [H1 H2 H3 H4 H5 H6 H7 H8] Hs Hp Hw Ht. destruct (claims_slot k pid s Hs) as (rest & E1 & E2). split; try done.
  - rewrite E2. rewrite E1 in H2. change (pool (stored pid s' k)) with (pool k). apply (housed_drop _ d).
    eapply (housed_perm (pool k)); [|exact H2]. rewrite !app_assoc. rewrite <- (app_assoc d), <- Hp. done.
  - apply Forall_insert; done.
  - destruct t as [satp|]; [|exact H5]. destruct Ht as [?|Ht]; [done|]. intros s1 Hn Hs1 Hr.
    change (current (pay (stored pid s' k))) with (current (pay k)) in *.
    destruct (decide (current (pay k) = pid)) as [E|Hne].
    + rewrite E, (slot_at_stored _ _ _ _ Hs) in Hs1. injection Hs1 as <-. destruct (Ht Hr) as [Hr' ->]. apply H5; [done| |done]. by rewrite E.
    + rewrite slot_at_stored_ne in Hs1; [by apply H5|apply (slot_at_range _ _ _ Hs)|done].
Qed.

(** A store that keeps what a slot owns, and its state or ends it. *)
Definition tame (f : Slot -> Slot) : Prop := forall s, root (f s) = root s /\ resume_frame (f s) = resume_frame s /\
  (state (f s) = state s \/ terminal (state (f s)) = true).

Lemma steady_upd_slot (pid : Z) (f : Slot -> Slot) : tame f -> steady (upd_slot pid f).
Proof.
  intros Hf w t cs k Hk. unfold upd_slot. destruct (slot_at pid k) as [s|] eqn:Hs; [|by apply (kept_left w t cs)].
  destruct (Hf s) as (Er & Ef & Est). assert (Hsw : slot_whole s).
  { unfold slot_at in Hs. destruct (pid <? 0); [done|]. eapply Forall_lookup_1; [apply (kp_slots _ _ _ _ Hk)|done]. }
  change (kept w t cs (stored pid (f s) k)). apply (kept_store w t cs cs [] k pid s); [done|done| | |].
  - unfold slot_claims. by rewrite Er, Ef.
  - unfold slot_whole in *. rewrite Er, Ef. destruct Est as [-> |Ht]; [done|]. intros [E|[E _]]; by rewrite E in Ht.
  - right. intros E. rewrite E in Est. split; [|done]. destruct Est; [congruence|done].
Qed.

Lemma kept_snapped (w : Z) (t : option Z) (cs cs' d : list claim) (k : K) (sid : Z) (s s' : Snapshot) : kept w t cs k -> snap_at sid k = Some s ->
  cs ++ snap_claims s ≡ₚ d ++ cs' ++ snap_claims s' -> snap_whole s' -> frozen fz (kept_snap sid s' k) ->
  kept w t cs' (kept_snap sid s' k).
Proof.
  intros [H1 H2 H3 H4 H5 H6 H7 H8] Hs Hp Hw Hfz. destruct (claims_snap k sid s Hs) as (rest & E1 & E2). split; try done.
  - rewrite E2. rewrite E1 in H2. change (pool (kept_snap sid s' k)) with (pool k). apply (housed_drop _ d).
    eapply (housed_perm (pool k)); [|exact H2]. rewrite !app_assoc. rewrite <- (app_assoc d), <- Hp. done.
  - apply Forall_insert; done.
Qed.

(** The process state apart from the arrays, the kernel's table and [CURRENT]. *)
Lemma steady_on_pay (f : PayState -> PayState) :
  (forall p, kernel_root (f p) = kernel_root p /\ table (f p) = table p /\ snaps (f p) = snaps p /\ current (f p) = current p) ->
  steady (modify (on_pay f)).
Proof.
  intros H w t cs k [H1 H2 H3 H4 H5 H6 H7 H8]. destruct (H (pay k)) as (E1 & E2 & E3 & E4). split; cbn; try done.
  - unfold pay_claims. by rewrite E1, E2, E3.
  - by rewrite E3.
  - by rewrite E2.
  - unfold tied, slot_at in *. cbn. rewrite E2, E4. exact H5.
  - unfold frozen, snap_is, intact in *. cbn. by rewrite E3.
Qed.

Lemma kept_rest (w : Z) (t t' : option Z) (cs : list claim) (k : K) : kept w t cs k -> kept w t' cs (on_pay (with_current NO_PID) k).
Proof. intros [H1 H2 H3 H4 H5 H6 H7 H8]. split; try done. destruct t'; [by intros s Hn|done]. Qed.

Lemma steady_leave : steady leave_current.
Proof. intros w t cs k Hk. by apply (kept_rest w t). Qed.

Lemma steady_get_slot (pid : Z) : steady (get_slot pid).
Proof. intros w t cs k Hk. unfold get_slot. destruct (slot_at pid k); [done|by apply (kept_left w t cs)]. Qed.
Lemma steady_get_snap (sid : Z) : steady (get_snap sid).
Proof. intros w t cs k Hk. unfold get_snap. destruct (snap_at sid k); [done|by apply (kept_left w t cs)]. Qed.

Lemma steady_next_event : steady next_event.
Proof. apply steady_frame. intros k. by do 2 eexists. Qed.
Lemma steady_read_time : steady read_time.
Proof. apply steady_frame. intros k. unfold read_time. destruct (hw_dt (hw k)); by do 2 eexists. Qed.
Lemma steady_getchar : steady console_getchar.
Proof. apply steady_frame. intros k. unfold console_getchar. destruct (hw_in (hw k)); by do 2 eexists. Qed.
Lemma steady_put_wire (b : bytes) : steady (put_wire b).
Proof. apply steady_frame. intros k. unfold put_wire, modify. destruct b; by do 2 eexists. Qed.
Lemma steady_send (w : wprog) : steady (send w).
Proof. apply steady_put_wire. Qed.
Lemma steady_set_timer (x : Z) : steady (set_timer x).
Proof. apply steady_frame. intros k. by do 2 eexists. Qed.
Lemma steady_on_traps (f : TrapState -> TrapState) : steady (modify (on_traps f)).
Proof. apply steady_frame. intros k. by do 2 eexists. Qed.
Lemma steady_ops (f : K -> opring) : steady (modify (fun k => with_ops (f k) k)).
Proof. apply steady_frame. intros k. by do 2 eexists. Qed.
Lemma steady_count_tick : steady count_tick.
Proof. apply steady_frame. intros k. by do 2 eexists. Qed.
Lemma steady_get_image {B : Build} (i : Z) : steady (get_image i).
Proof. unfold get_image. destruct (image_at i); [apply steady_ret|by apply steady_stop]. Qed.
Lemma steady_push_key (b : byte) : steady (modify (on_pay (push_key b))).
Proof. apply steady_on_pay. intros p. unfold push_key. by destruct (_ <=? _). Qed.

End Kept.
