(* ===== verification/IsoCode.v ===== *)
(** * Frames and their owners across kernel code

    The triples of [Iso] for every function of the kernel. The few that take
    frames or give them back are proved by following the claims through their
    code; all others neither touch the pool nor a claim, and a walk over their
    code shows it. *)

From S2P Require Import Prelude Hal Frames Mm MmSpec MmWalk Elf PoolAcct ElfProofs CopySpec Console RpcJson KState Traps TrapsProofs Payload Syscall Handler Rpc Sched KRun Owner LoadOwn Iso.

(** ** Operations on what is in hand *)

Lemma in_concat_elem {A} (l : list (list A)) (x : A) : x ∈ concat l <-> exists y, y ∈ l /\ x ∈ y.
Proof. rewrite list_elem_of_In, in_concat. by setoid_rewrite list_elem_of_In. Qed.

Lemma slot_claims_table (pid : Z) (s : Slot) (p : PayState) (c : claim) : slot_is pid s p -> c ∈ slot_claims s -> c ∈ concat (map slot_claims (table p)).
Proof.
  intros [_ Hs] Hc. apply in_concat_elem. exists (slot_claims s). split; [|done]. apply list_elem_of_fmap. exists s. split; [done|].
  by eapply list_elem_of_lookup_2.
Qed.
Lemma snap_claims_snaps (sid : Z) (s : Snapshot) (p : PayState) (c : claim) : snap_is sid s p -> c ∈ snap_claims s -> c ∈ concat (map snap_claims (snaps p)).
Proof.
  intros [_ Hs] Hc. apply in_concat_elem. exists (snap_claims s). split; [|done]. apply list_elem_of_fmap. exists s. split; [done|].
  by eapply list_elem_of_lookup_2.
Qed.
Lemma slot_claims_in (pid : Z) (s : Slot) (p : PayState) (c : claim) : slot_is pid s p -> c ∈ slot_claims s -> c ∈ pay_claims p.
Proof. intros Hs Hc. unfold pay_claims. rewrite !elem_of_app. right. left. by eapply slot_claims_table. Qed.
Lemma snap_claims_in (sid : Z) (s : Snapshot) (p : PayState) (c : claim) : snap_is sid s p -> c ∈ snap_claims s -> c ∈ pay_claims p.
Proof. intros Hs Hc. unfold pay_claims. rewrite !elem_of_app. right. right. by eapply snap_claims_snaps. Qed.

(** A claim of a slot is not one of a checkpoint's. *)
Lemma slot_claim_split (pid : Z) (s : Slot) (p : PayState) (c : claim) : slot_is pid s p -> c ∈ slot_claims s ->
  exists rest, pay_claims p ≡ₚ c :: rest /\ forall sid sn c', snap_is sid sn p -> c' ∈ snap_claims sn -> c' ∈ rest.
Proof.
  intros Hs Hc. pose proof (slot_claims_table pid s p c Hs Hc) as Hin. apply elem_of_Permutation in Hin as (l & Hl).
  exists (nz CSpace (kernel_root p) ++ l ++ concat (map snap_claims (snaps p))). split; [unfold pay_claims; rewrite Hl; solve_Permutation|].
  intros sid sn c' Hsn Hc'. rewrite !elem_of_app. do 2 right. by eapply snap_claims_snaps.
Qed.

(** The claims in hand, and a fact about the process state. *)
Definition holding {fz : froz} (w : Z) (t : option Z) (cs : list claim) (R : PayState -> Prop) (k : K) : Prop := kept w t cs k /\ R (pay k).

Section Hand.
Context {fz : froz} (w : Z) (t : option Z) (R : PayState -> Prop).

Lemma kept_pool_snaps (cs cs' : list claim) (k : K) (p : fpool) : kept w t cs k -> pool_ok p -> housed p (cs' ++ pay_claims (pay k)) ->
  (forall sid s, snap_is sid s (pay k) -> unmoved (pool k) p (snap_claims s)) -> kept w t cs' (with_pool p k).
Proof.
  intros [H1 H2 H3 H4 H5 H6 H7 H8] Hp Hh Hu. split; try done.
  assert (Hi : forall sid sn m, snap_is sid sn (pay k) -> intact sn m k -> intact sn m (with_pool p k)).
  { intros sid sn m Hs Hi. specialize (Hu sid sn Hs). unfold intact, unmoved in *. rewrite Forall_forall in *.
    intros c Hc. eapply untouched_trans; [by apply Hi|by apply Hu]. }
  destruct fz as [|sid sn m|sid sn m]; cbn in *; [done| |].
  - intros Hs. by apply (Hi sid); auto.
  - destruct H8 as [Hs Hin]. split; [done|]. by apply (Hi sid).
Qed.

Lemma kept_pool (cs0 cs cs' : list claim) (k : K) (p : fpool) : kept w t cs k -> pool_ok p /\ housed p (cs' ++ pay_claims (pay k)) /\
  unmoved (pool k) p (cs0 ++ pay_claims (pay k)) -> kept w t cs' (with_pool p k).
Proof.
  intros Hk (Hp & Hh & Hu). apply (kept_pool_snaps cs); [done|done|done|]. intros sid s Hs. unfold unmoved in *. rewrite Forall_forall in *.
  intros c Hc. apply Hu, elem_of_app. right. by eapply snap_claims_in.
Qed.

Lemma hold_alloc (cs : list claim) : hoare (holding w t cs R) (pooled alloc)
  (fun o => match o with Some f => holding w t (CFrame f :: cs) R | None => holding w t cs R end).
Proof.
  intros k [Hk Hr]. unfold pooled. destruct (alloc (pool k)) as [[f|] p1] eqn:Ea; (split; [|done]).
  - apply (kept_pool cs cs); [done|]. by apply housed_alloc; [apply Hk|apply Hk|].
  - apply alloc_exhausted in Ea as [-> _]. by destruct k.
Qed.

Lemma hold_copy (cs : list claim) (r : Z) : (forall p, R p -> CSpace r ∈ pay_claims p) ->
  hoare (holding w t cs R) (pooled (fun p => deep_copy p r))
  (fun o => match o with Some d => holding w t (CSpace d :: cs) R | None => holding w t cs R end).
Proof.
  intros HR k [Hk Hr]. pose proof (housed_copy (pool k) r _ (kp_housed _ _ _ _ Hk) ltac:(apply elem_of_app; by right; apply HR)) as Hc.
  unfold pooled. destruct (deep_copy (pool k) r) as [[d|] p']; (split; [|done]); by apply (kept_pool cs cs).
Qed.

Lemma hold_destroy (cs : list claim) (r : Z) : hoare (holding w t (CSpace r :: cs) R) (pool_do (destroy r)) (fun _ => holding w t cs R).
Proof. intros k [Hk Hr]. split; [|done]. apply (kept_pool cs (CSpace r :: cs)); [done|]. apply housed_destroy, Hk. Qed.

Lemma hold_free (cs : list claim) (f : Z) : hoare (holding w t (CFrame f :: cs) R) (pool_do (free f)) (fun _ => holding w t cs R).
Proof. intros k [Hk Hr]. split; [|done]. apply (kept_pool cs (CFrame f :: cs)); [done|]. apply housed_free; apply Hk. Qed.

Lemma hold_release_space (cs : list claim) (r : Z) : hoare (holding w t (nz CSpace r ++ cs) R) (release_space r) (fun _ => holding w t cs R).
Proof. unfold release_space, nz. destruct (r =? 0); [by apply hoare_ret|apply hold_destroy]. Qed.
Lemma hold_release_frame (cs : list claim) (f : Z) : hoare (holding w t (nz CFrame f ++ cs) R) (release_frame f) (fun _ => holding w t cs R).
Proof. unfold release_frame, nz. destruct (f =? 0); [by apply hoare_ret|apply hold_free]. Qed.

(** A write into a frame in hand. *)
Definition writes_in (f : Z) (g : fpool -> fpool) : Prop := forall p, bitmap (g p) = bitmap p /\ next_hint (g p) = next_hint p /\
  allocated (g p) = allocated p /\ (frame_addr f -> forall a, ~ (f <= a < f + FRAME_SIZE) -> pmem (g p) a = pmem p a).

Lemma writes_housed (p : fpool) (f : Z) (cs : list claim) (g : fpool -> fpool) : writes_in f g -> pool_ok p -> housed p (CFrame f :: cs) ->
  pool_ok (g p) /\ housed (g p) (CFrame f :: cs) /\ unmoved p (g p) cs.
Proof.
  intros Hg Hp Hh. destruct (Hg p) as (E1 & E2 & E3 & Hm).
  assert (Hk : pool_ok (g p)) by (unfold pool_ok in *; by rewrite E1, E2, E3). split; [done|].
  apply (housed_write p); [done| |done|done]. intros x. unfold owned. by rewrite E1.
Qed.

Lemma hold_write (cs : list claim) (f : Z) (g : fpool -> fpool) : writes_in f g ->
  hoare (holding w t (CFrame f :: cs) R) (pool_do g) (fun _ => holding w t (CFrame f :: cs) R).
Proof.
  intros Hg k [Hk Hr]. split; [|done]. apply (kept_pool cs (CFrame f :: cs)); [done|]. apply writes_housed; [done|apply Hk..].
Qed.

Lemma hold_grow {T} (cs : list claim) (r : Z) (op : fpool -> T * fpool) : grows_space r op ->
  hoare (holding w t (CSpace r :: cs) R) (pooled op) (fun _ => holding w t (CSpace r :: cs) R).
Proof.
  intros Hop k [Hk Hr]. pose proof (housed_grow _ _ _ op Hop (kp_housed _ _ _ _ Hk)) as Hg.
  unfold pooled. destruct (op (pool k)) as [v p]. split; [|done]. by apply (kept_pool cs (CSpace r :: cs)).
Qed.

(** A fresh address space, with the kernel mapped. *)
Lemma hold_space {T} (cs : list claim) (none : M T) (g : Z -> MmError + unit -> M T) (Q : T -> K -> Prop) :
  hoare (holding w t cs R) none Q -> (forall r, hoare (holding w t (CSpace r :: cs) R) (g r (inr tt)) Q) ->
  hoare (holding w t cs R) (let! o := pooled space_new in
    match o with None => none | Some r => let! e := pooled (fun p => map_kernel p r) in g r e end) Q.
Proof.
  intros Hn Hg k [Hk Hr]. unfold bind, pooled at 1. destruct (space_new (pool k)) as [[r|] p1] eqn:Es.
  - destruct (housed_space _ _ _ _ (kp_pool _ _ _ _ Hk) (kp_housed _ _ _ _ Hk) Es) as (p2 & Em & Hp & Hh).
    unfold pooled. cbn [pool with_pool]. rewrite Em. apply (Hg r). split; [|done].
    change (with_pool p2 (with_pool p1 k)) with (with_pool p2 k). by apply (kept_pool cs cs).
  - apply alloc_exhausted in Es as [-> _]. apply Hn. by destruct k.
Qed.

End Hand.

(** ** Slots and checkpoints *)

Section Arrays.
Context {fz : froz} (w : Z) (t : option Z).

Lemma hold_get_slot (cs : list claim) (pid : Z) : hoare (kept w t cs) (get_slot pid) (fun s => holding w t cs (slot_is pid s)).
Proof.
  intros k Hk. unfold get_slot. destruct (slot_at pid k) as [s|] eqn:E; [|by apply (kept_left w t cs)]. split; [done|by apply slot_at_is].
Qed.
Lemma hold_get_snap (cs : list claim) (sid : Z) : hoare (kept w t cs) (get_snap sid) (fun s => holding w t cs (snap_is sid s)).
Proof.
  intros k Hk. unfold get_snap. destruct (snap_at sid k) as [s|] eqn:E; [|by apply (kept_left w t cs)]. split; [done|by apply snap_at_is].
Qed.

Lemma hold_upd_slot (cs cs' d : list claim) (pid : Z) (s : Slot) (f : Slot -> Slot) :
  cs ++ slot_claims s ≡ₚ d ++ cs' ++ slot_claims (f s) -> (slot_whole s -> slot_whole (f s)) ->
  (t = None \/ (state (f s) = RUNNING -> state s = RUNNING /\ root (f s) = root s)) ->
  hoare (holding w t cs (slot_is pid s)) (upd_slot pid f) (fun _ => holding w t cs' (slot_is pid (f s))).
Proof.
  intros Hp Hw Ht k [Hk Hs]. apply slot_at_is in Hs. unfold upd_slot. rewrite Hs. fold (stored pid (f s) k). split.
  - eapply kept_store; eauto. apply Hw. apply slot_at_is in Hs as [_ Hs]. eapply Forall_lookup_1; [apply (kp_slots _ _ _ _ Hk)|done].
  - apply slot_at_is. by eapply slot_at_stored.
Qed.

(** An update that does not forge the checkpoint under observation, nor take it away. *)
Definition loses (sid : Z) (s s' : Snapshot) : Prop :=
  match fz with
  | Loose => True
  | Watch i sn _ => i = sid -> s' <> sn
  | Hold i sn _ => i = sid -> s <> sn
  end.

Lemma loses_frozen (sid : Z) (s s' : Snapshot) (k : K) : loses sid s s' -> snap_is sid s (pay k) -> frozen fz k -> frozen fz (kept_snap sid s' k).
Proof.
  unfold loses. intros Hlo [H0 Hs] Hf.
  assert (Hne : forall i sn, i <> sid -> snap_is i sn (pay (kept_snap sid s' k)) <-> snap_is i sn (pay k)).
  { intros i sn Hn. unfold snap_is. cbn. split; intros [Hi Hl]; (split; [done|]); rewrite list_lookup_insert_ne in * by lia; done. }
  assert (Heq : forall sn, snap_is sid sn (pay (kept_snap sid s' k)) -> sn = s').
  { intros sn [_ Hl]. cbn in Hl. rewrite list_lookup_insert_eq in Hl by (by eapply lookup_lt_Some). congruence. }
  destruct fz as [|i sn m|i sn m]; cbn in *; [done| |].
  - intros Hi. destruct (decide (i = sid)) as [-> |Hn]; [by apply Heq in Hi; destruct (Hlo eq_refl)|]. apply Hf. by apply Hne.
  - destruct Hf as [Hi Hin]. destruct (decide (i = sid)) as [-> |Hn]; [|split; [by apply Hne|done]].
    destruct Hi as [_ Hi]. destruct (Hlo eq_refl). congruence.
Qed.

Lemma hold_upd_snap (cs cs' d : list claim) (sid : Z) (s : Snapshot) (f : Snapshot -> Snapshot) :
  cs ++ snap_claims s ≡ₚ d ++ cs' ++ snap_claims (f s) -> snap_whole (f s) -> loses sid s (f s) ->
  hoare (holding w t cs (snap_is sid s)) (upd_snap sid f) (fun _ => holding w t cs' (snap_is sid (f s))).
Proof.
  intros Hp Hw Hlo k [Hk Hs]. pose proof Hs as [H0 Hl]. apply snap_at_is in Hs. unfold upd_snap. rewrite Hs. fold (kept_snap sid (f s) k). split.
  - eapply kept_snapped; [done|done|done|done|]. apply loses_frozen with s; [done|apply snap_at_is; done|apply Hk].
  - split; [done|]. cbn. apply list_lookup_insert_eq. by eapply lookup_lt_Some.
Qed.

End Arrays.

Lemma nz_one {T} (c : Z -> T) (x : Z) : x <> 0 -> nz c x = [c x].
Proof. intros H. unfold nz. destruct (x =? 0) eqn:E; zbool; done. Qed.

(** What is in hand is a frame of the pool. *)
Lemma kept_frame {fz : froz} (w : Z) (t : option Z) (cs : list claim) (k : K) (f : Z) : kept w t (CFrame f :: cs) k -> f <> 0.
Proof. intros Hk. pose proof (housed_nonzero _ _ _ (kp_housed _ _ _ _ Hk)) as H. cbn in H. unfold frame_addr, POOL_BASE in H. lia. Qed.
Lemma kept_space {fz : froz} (w : Z) (t : option Z) (cs : list claim) (k : K) (c : claim) (d : Z) : kept w t (c :: CSpace d :: cs) k -> d <> 0.
Proof.
  intros Hk. pose proof (housed_nonzero _ _ _ (housed_drop _ [c] _ (kp_housed _ _ _ _ Hk))) as H. cbn in H. unfold frame_addr, POOL_BASE in H. lia.
Qed.

Lemma nz_in {T} (c : Z -> T) (x : Z) : x <> 0 -> c x ∈ nz c x.
Proof. intros H. unfold nz. destruct (x =? 0) eqn:E; zbool; [done|by left]. Qed.

(** ** Automation *)

Create HintDb steady discriminated.
#[export] Hint Constants Opaque : steady.
#[export] Hint Variables Opaque : steady.
#[export] Hint Resolve steady_gets steady_next_event steady_read_time steady_getchar steady_put_wire steady_send steady_set_timer
  steady_in_bounds steady_on_traps steady_ops steady_count_tick steady_get_slot steady_get_snap steady_get_image steady_leave steady_push_key : steady.

Ltac steady_leaf :=
  lazymatch goal with
  | |- steady (upd_slot _ _) => apply steady_upd_slot; intros ?; split; [reflexivity|split; [reflexivity|first [left; reflexivity|right; reflexivity]]]
  | |- steady (modify (on_pay _)) => first [solve [eauto with steady] | apply steady_on_pay; intros ?; split_and!; reflexivity]
  | |- _ => solve [eauto with steady]
  end.

(** Walk the code: a known operation by its lemma, the rest by its structure. *)
Ltac steady_step :=
  lazymatch goal with
  | |- steady (bind _ _) => apply steady_bind; [|intros ?]
  | |- steady (ret _) => apply steady_ret
  | |- steady (stop _) => apply steady_stop; discriminate
  | |- steady (match ?x with _ => _ end) => destruct x eqn:?
  | |- steady (for_each _ _) => apply steady_for_each; intros ?
  | |- steady _ => steady_leaf
  end.
Ltac steady_go := repeat steady_step.

(** The claims of two slots or checkpoints, up to order. *)
Ltac nil_claims :=
  unfold slot_claims, snap_claims;
  cbn [root resume_frame sn_root sn_frame with_root with_resume_frame with_sn_root with_sn_frame with_sn_valid];
  change (nz CSpace 0) with (@nil claim); change (nz CFrame 0) with (@nil claim); solve_Permutation.

Section Functions.
Context {B : Build} {fz : froz}.

Lemma steady_current_pid : steady current_pid.
Proof. apply steady_gets. Qed.
#[local] Hint Resolve steady_current_pid : steady.
Lemma steady_current_has (c : Cap) : steady (current_has c).
Proof. unfold current_has. steady_go. Qed.
Lemma steady_current_space : steady current_space.
Proof. unfold current_space. steady_go. Qed.
Lemma steady_current_cause : steady current_cause.
Proof. unfold current_cause. steady_go. Qed.
Lemma steady_pid_or_none : steady pid_or_none.
Proof. unfold pid_or_none. steady_go. Qed.
Lemma steady_elapsed_since (x : Z) : steady (elapsed_since x).
Proof. unfold elapsed_since. steady_go. Qed.
#[local] Hint Resolve steady_current_has steady_current_space steady_current_cause steady_pid_or_none steady_elapsed_since : steady.

(** *** Events *)

Lemma steady_emit_start (pid : Z) (n : bytes) (cs e : Z) (r : bool) : steady (emit_start pid n cs e r).
Proof. unfold emit_start. steady_go. Qed.
Lemma steady_emit_snapshot (a b : Z) : steady (emit_snapshot a b).
Proof. unfold emit_snapshot. steady_go. Qed.
Lemma steady_emit_exit (pid c : Z) : steady (emit_exit pid c).
Proof. unfold emit_exit. steady_go. Qed.
Lemma steady_emit_load_fault (pid : Z) (a b : bytes) : steady (emit_load_fault pid a b).
Proof. unfold emit_load_fault. steady_go. Qed.
Lemma steady_emit_yield (pid : Z) : steady (emit_yield pid).
Proof. unfold emit_yield. steady_go. Qed.
Lemma steady_emit_spawn (a b : Z) (n : bytes) (c d e : Z) : steady (emit_spawn a b n c d e).
Proof. unfold emit_spawn. steady_go. Qed.
Lemma steady_emit_killed (pid a b : Z) : steady (emit_killed pid a b).
Proof. unfold emit_killed. steady_go. Qed.
Lemma steady_emit_suite_done : steady emit_suite_done.
Proof. unfold emit_suite_done. steady_go. Qed.
Lemma steady_emit_sched_preempt (pid : Z) : steady (emit_sched_preempt pid).
Proof. unfold emit_sched_preempt. steady_go. Qed.
Lemma steady_emit_killed_operator (pid : Z) : steady (emit_killed_operator pid).
Proof. unfold emit_killed_operator. steady_go. Qed.
Lemma steady_emit_denied (a b : bytes) : steady (emit_denied a b).
Proof. unfold emit_denied. steady_go. Qed.
Lemma steady_emit_ring_dump : steady emit_ring_dump.
Proof. unfold emit_ring_dump. steady_go. Qed.
#[local] Hint Resolve steady_emit_start steady_emit_snapshot steady_emit_exit steady_emit_load_fault steady_emit_yield steady_emit_spawn
  steady_emit_killed steady_emit_suite_done steady_emit_sched_preempt steady_emit_killed_operator steady_emit_denied
  steady_emit_ring_dump : steady.

(** *** Suites *)

Lemma hold_kept {T} (w : Z) (t : option Z) (cs : list claim) (R : PayState -> Prop) (m : M T) (Q : T -> K -> Prop) :
  hoare (kept w t cs) m Q -> hoare (holding w t cs R) m Q.
Proof. intros H k [Hk _]. by apply H. Qed.
Lemma hold_done {T} (w : Z) (t : option Z) (cs : list claim) (P : K -> Prop) (R : PayState -> Prop) (m : M T) :
  hoare P m (fun _ => holding w t cs R) -> hoare P m (fun _ => kept w t cs).
Proof. intros H. eapply hoare_conseq; [exact H|done|]. by intros v k [? _]. Qed.

Lemma steady_free_snapshots : can_free fz -> steady free_snapshots.
Proof.
  intros Hfree. assert (Hlo : forall sid s s', sn_valid s' = false -> loses sid s s').
  { intros sid s s' Hv. unfold loses, can_free in *. destruct fz; [done|by intros _ ->; rewrite Hv in Hfree|done]. }
  unfold free_snapshots. apply steady_for_each. intros sid w t cs. eapply hoare_bind; [apply hold_get_snap|]. intros s.
  destruct (sn_valid s); [|apply hold_kept, hoare_ret; done].
  eapply hoare_bind.
  { apply (hold_upd_snap w t cs (nz CSpace (sn_root s) ++ cs) [] sid s); [|by intros [=]|by apply Hlo].
    nil_claims. }
  intros ?. cbn beta. eapply hoare_bind; [apply hold_release_space|]. intros ?. cbn beta.
  eapply hoare_bind.
  { eapply (hold_upd_snap w t cs (nz CFrame (sn_frame s) ++ cs) [] sid); [|by intros [=]|by apply Hlo].
    nil_claims. }
  intros ?. cbn beta. eapply hold_done, hold_release_frame.
Qed.

Lemma steady_reap : steady reap_terminated.
Proof.
  unfold reap_terminated. apply steady_for_each. intros pid w t cs. eapply hoare_bind; [apply hold_get_slot|]. intros s.
  destruct (terminal (state s)) eqn:Et; [|apply hold_kept, hoare_ret; done].
  assert (Hn : state s <> RUNNING /\ state s <> PENDING) by (by destruct (state s)).
  eapply hoare_bind.
  { apply (hold_upd_slot w t cs (nz CSpace (root s) ++ cs) [] pid s); [|intros _ [H|[H _]]; by destruct Hn|right; by destruct Hn].
    nil_claims. }
  intros ?. cbn beta. eapply hoare_bind; [apply hold_release_space|]. intros ?. cbn beta.
  eapply hoare_bind.
  { eapply (hold_upd_slot w t cs (nz CFrame (resume_frame s) ++ cs) [] pid); [|intros _ [H|[H _]]; by destruct Hn|right; by destruct Hn].
    nil_claims. }
  intros ?. cbn beta. eapply hold_done, hold_release_frame.
Qed.
#[local] Hint Resolve steady_free_snapshots steady_reap : steady.

Lemma steady_clear_table : can_free fz -> steady clear_table.
Proof.
  intros Hfree. unfold clear_table, clear_keys. apply steady_bind; [|intros _; steady_go].
  intros w t cs k [H1 H2 H3 H4 H5 H6 H7 H8]. split; try done.
  - unfold pay_claims in *. cbn. rewrite map_map. exact H2.
  - cbn. apply Forall_fmap. apply Forall_true. intros s [H|[H _]]; done.
  - destruct t as [satp|]; [|exact H5]. intros s Hn Hs Hr. exfalso. cbn in *. unfold slot_at in Hs. cbn in Hs.
    destruct (current (pay k) <? 0); [done|]. apply list_lookup_fmap_Some in Hs as (s0 & -> & _). done.
Qed.

(** A new entry in an empty slot; what the slot still owned is given up. *)
Lemma position_is {T} (f : T -> bool) (l : list T) (i : Z) : position f l = Some i -> 0 <= i /\ exists x, l !! Z.to_nat i = Some x /\ f x = true.
Proof. intros H. apply position_from_some in H as (Hi & x & Hx & Hf). rewrite Z.sub_0_r in Hx. eauto. Qed.

Lemma hold_enter (w : Z) (t : option Z) (cs cs' : list claim) (pid : Z) (s new : Slot) :
  cs ≡ₚ cs' ++ slot_claims new -> slot_whole new -> state new = PENDING ->
  hoare (holding w t cs (slot_is pid s)) (upd_slot pid (fun _ => new)) (fun _ => holding w t cs' (slot_is pid new)).
Proof.
  intros Hp Hw Hs. apply (hold_upd_slot w t cs cs' (slot_claims s) pid s (fun _ => new)); [|done|right; by rewrite Hs].
  rewrite Hp. solve_Permutation.
Qed.

Lemma steady_enqueue (img cs par : Z) : steady (enqueue img cs par).
Proof.
  intros w t hs k Hk. unfold enqueue. erewrite bind_val by done. destruct (position _ _) as [pid|] eqn:E; [|done].
  apply position_is in E as (H0 & s & Hs & _). unfold get_image. destruct (image_at img) as [im|]; [|by apply (kept_left w t hs)].
  erewrite bind_val by done. revert k Hk Hs. intros k Hk Hs.
  pose proof (hold_enter w t hs hs pid s (fresh_slot img im cs par) ltac:(by rewrite app_nil_r) ltac:(by intros [?|[_ ?]]) eq_refl k (conj Hk (conj H0 Hs))) as H.
  unfold bind. destruct (upd_slot _ _ k) as [[v|x] k']; [apply H|done].
Qed.
#[local] Hint Resolve steady_clear_table steady_enqueue : steady.

Lemma steady_seed (imgs : list Z) : can_free fz -> steady (seed imgs).
Proof. intros Hfree. unfold seed, seed_one. steady_go. Qed.
#[local] Hint Resolve steady_seed : steady.

Lemma steady_suites : can_free fz -> Forall steady [seed_suite_m3; seed_suite_m4; seed_suite_m5; seed_suite_m6; seed_suite_m10; seed_suite_e2; seed_suite_e7;
  seed_suite_e5; seed_suite_eval; seed_suite_craycast; seed_suite_doom; seed_suite_doom_fork].
Proof. intros Hfree. repeat constructor; try (apply steady_seed; done); unfold seed_suite_m6, seed_suite_doom_fork; steady_go. Qed.

Lemma steady_suite_seed (n : bytes) (m : M unit) : can_free fz -> suite_seed n = Some m -> steady m.
Proof.
  intros Hfree. intros H. pose proof (steady_suites Hfree) as Hs. rewrite Forall_forall in Hs. apply Hs. unfold suite_seed in H.
  repeat match type of H with (if ?b then _ else _) = _ => destruct b; [injection H as <-; set_solver|] end. done.
Qed.

(** *** Syscalls *)

Lemma steady_emit_output (p n : Z) : steady (emit_output p n).
Proof. unfold emit_output. steady_go. Qed.
#[local] Hint Resolve steady_emit_output : steady.
Lemma steady_sys_write (p n : Z) : steady (sys_write p n).
Proof. unfold sys_write. steady_go. Qed.
Lemma steady_on_exit (c : Z) : steady (on_exit c).
Proof. unfold on_exit. steady_go. Qed.
Lemma steady_on_yield : steady on_yield.
Proof. unfold on_yield. steady_go. Qed.
Lemma steady_on_spawn (sel req : Z) : steady (on_spawn sel req).
Proof. unfold on_spawn. steady_go. Qed.
Lemma steady_on_blit (a b c : Z) : steady (on_blit a b c).
Proof. unfold on_blit. steady_go. Qed.
Lemma steady_on_frame_rgb (a b c : Z) : steady (on_frame_rgb a b c).
Proof. unfold on_frame_rgb. steady_go. Qed.
Lemma steady_on_getkey : steady on_getkey.
Proof. unfold on_getkey. steady_go. Qed.
Lemma steady_on_tick : steady on_tick.
Proof. unfold on_tick. steady_go. Qed.
Lemma steady_kill_pid (pid : Z) : steady (kill_pid pid).
Proof. unfold kill_pid. steady_go. Qed.
Lemma steady_set_deadline (pid u : Z) : steady (set_deadline pid u).
Proof. unfold set_deadline. steady_go. Qed.
Lemma steady_drain_byte (pid : Z) (k : bool) (b : byte) : steady (drain_byte pid k b).
Proof. unfold drain_byte. steady_go. Qed.
#[local] Hint Resolve steady_drain_byte : steady.
Lemma steady_drain_loop (n : nat) (pid : Z) (k : bool) : steady (drain_loop n pid k).
Proof. revert k. induction n as [|n IH]; intros k; cbn [drain_loop]; steady_go. Qed.
#[local] Hint Resolve steady_drain_loop : steady.
Lemma steady_drain_keys : steady drain_keys.
Proof. unfold drain_keys. steady_go. Qed.
Lemma steady_swallow (b : byte) : steady (swallow_stray_key b).
Proof. unfold swallow_stray_key. steady_go. Qed.

(** *** Checkpoints *)

Lemma hold_current_space (w : Z) (t : option Z) (cs : list claim) : hoare (kept w t cs) current_space (fun o =>
  match o with Some r => holding w t cs (fun p => CSpace r ∈ pay_claims p) | None => kept w t cs end).
Proof.
  unfold current_space. apply hoare_steady; [apply steady_current_pid|]. intros [pid|]; [|by apply hoare_ret].
  eapply hoare_bind; [apply hold_get_slot|]. intros s. apply hoare_ret. intros k [Hk Hs]. destruct (root s =? 0) eqn:E; [done|]. zbool.
  split; [done|]. eapply slot_claims_in; [done|]. apply elem_of_app. left. by apply nz_in.
Qed.

(** Reads keep what is known of the state. *)
Lemma hold_gets {T} (w : Z) (t : option Z) (cs : list claim) (R : PayState -> Prop) (g : PayState -> T) :
  hoare (holding w t cs R) (gets (fun k => g (pay k))) (fun v => holding w t cs (fun p => R p /\ v = g p)).
Proof. intros k [Hk Hr]. done. Qed.
Lemma hold_look (w : Z) (t : option Z) (cs : list claim) (R : PayState -> Prop) (pid : Z) :
  hoare (holding w t cs R) (get_slot pid) (fun _ => holding w t cs R).
Proof. intros k Hk. unfold get_slot. destruct (slot_at pid k); [done|]. destruct Hk as [Hk _]. by apply (kept_left w t cs). Qed.

Lemma save_writes (f : TrapFrame) (pa v : Z) : length (regs f) = 31%nat -> writes_in pa (save_frame_to f pa v).
Proof.
  intros Hl p. destruct (poke_regs_meta (regs f) pa 0 p) as (E1 & E2 & E3).
  split; [exact E1|split; [exact E2|split; [exact E3|]]]. intros Hf a Ha. apply save_frame_outside; [done|done|].
  unfold FRAME_SIZE in Ha. lia.
Qed.

Lemma steady_on_snapshot (f : TrapFrame) : can_snap fz -> length (regs f) = 31%nat -> steady (on_snapshot f).
Proof.
  intros Hsnap Hl w t cs. unfold on_snapshot. apply hoare_steady; [apply steady_current_pid|]. intros [pid|]; [|by apply hoare_ret].
  eapply hoare_bind; [apply hold_current_space|]. intros [r|]; [|by apply hoare_ret].
  eapply hoare_bind; [apply (hold_gets _ _ _ _ snaps)|]. intros sn. cbn beta.
  destruct (position _ sn) as [sid|] eqn:Ep; [|by apply hold_kept, hoare_ret]. apply position_is in Ep as (H0 & s & Hs & Hv).
  assert (Hlo : forall s', loses sid s s').
  { intros s'. unfold loses, can_snap in *. destruct fz; [done|done|]. intros _ ->. by rewrite Hsnap in Hv. }
  set (R := fun p => CSpace r ∈ pay_claims p /\ snap_is sid s p).
  apply (hoare_pre _ _ (holding w t cs R)); [intros k [Hk [Hi ->]]; by split|].
  eapply hoare_bind; [apply hold_copy; by intros p []|]. intros [d|]; [|by apply hold_kept, hoare_ret].
  eapply hoare_bind; [apply hold_alloc|]. intros [fr|].
  2:{ eapply hoare_bind; [apply hold_destroy|]. intros ?. by apply hold_kept, hoare_ret. }
  eapply hoare_bind; [by apply hold_write, save_writes|]. intros ?. eapply hoare_bind; [apply hold_look|]. intros sl.
  intros k [Hk [_ Hi]]. pose proof (kept_space _ _ _ _ _ _ Hk) as Hd. pose proof (kept_frame _ _ _ _ _ Hk) as Hf.
  pose proof (hold_upd_snap w t (CFrame fr :: CSpace d :: cs) cs (snap_claims s) sid s (fun _ => mkSnap true d fr (caps sl) (image sl))) as Hu.
  specialize (Hu ltac:(unfold snap_claims at 3; cbn [sn_root sn_frame]; rewrite (nz_one CSpace d), (nz_one CFrame fr) by done; solve_Permutation) ltac:(by intros _) (Hlo _) k (conj Hk Hi)).
  unfold bind at 1. destruct (upd_snap _ _ k) as [[?|x] k1]; [|done].
  assert (Hst : steady (modify (on_pay (with_last_snap (sid + 1))) ;;; emit_snapshot pid (sid + 1) ;;; ret (sid + 1))) by steady_go.
  apply (Hst w t cs k1), Hu.
Qed.

(** The copy of the saved context into the new frame. *)
Lemma hold_clone (w : Z) (t : option Z) (cs : list claim) (R : PayState -> Prop) (src dst : Z) :
  hoare (holding w t (CFrame dst :: cs) R) (pooled (fun p =>
      match phys_read (pmem p) src (Z.to_nat PAGE_SIZE) with
      | None => (false, p)
      | Some buf => match phys_write (pmem p) dst buf with None => (false, p) | Some m => (true, with_mem p m) end
      end)) (fun _ => holding w t (CFrame dst :: cs) R).
Proof.
  intros k [Hk Hr]. unfold pooled. destruct (phys_read _ _ _) as [buf|] eqn:E1; [|by destruct k].
  destruct (phys_write _ _ buf) as [m|] eqn:E2; [|by destruct k]. split; [|done].
  apply (kept_pool w t cs (CFrame dst :: cs)); [done|]. split; [apply Hk|]. apply housed_write; [apply Hk|done|apply Hk|].
  intros _ a Ha. cbn. unfold phys_read in E1. destruct (pool_ptr src _) as [q|]; [|done]. injection E1 as <-.
  unfold phys_write in E2. rewrite load_length in E2. destruct (pool_ptr dst _) as [q'|] eqn:E; [|done]. injection E2 as <-.
  apply pool_ptr_inv in E as [-> _]; [|done]. apply store_other. rewrite load_length. exact Ha.
Qed.

(** A continuation of a checkpoint is queued with a space and a context of its own. *)
Lemma hold_restore (w : Z) (t : option Z) (cs : list claim) (sid : Z) : hoare (kept w t cs) (enqueue_restore sid) (fun o =>
  match o with Some pid => holding w t cs (fun p => exists s, slot_is pid s p /\ state s = PENDING) | None => kept w t cs end).
Proof.
  unfold enqueue_restore. eapply hoare_bind; [apply hold_get_snap|]. intros s. destruct (sn_valid s) eqn:Ev; [|by apply hold_kept, hoare_ret].
  cbn [negb]. set (R := fun p => CSpace (sn_root s) ∈ pay_claims p).
  apply (hoare_pre _ _ (holding w t cs R)).
  { intros k [Hk Hs]. split; [done|]. eapply snap_claims_in; [done|]. apply elem_of_app. left. apply nz_in.
      destruct Hs as [_ Hs]. by apply (Forall_lookup_1 _ _ _ _ (kp_snaps _ _ _ _ Hk) Hs). }
  eapply hoare_bind; [by apply hold_copy|]. intros [d|]; [|by apply hold_kept, hoare_ret].
  eapply hoare_bind; [apply hold_alloc|]. intros [fr|].
  2:{ eapply hoare_bind; [apply hold_destroy|]. intros ?. by apply hold_kept, hoare_ret. }
  eapply hoare_bind; [apply hold_clone|]. intros copied.
  assert (Hab : hoare (holding w t (CFrame fr :: CSpace d :: cs) R) (pool_do (destroy d) ;;; pool_do (free fr) ;;; ret (@None Z)) (fun _ => kept w t cs)).
  { apply (hoare_pre _ _ (holding w t (CSpace d :: CFrame fr :: cs) R)).
    - intros k [Hk Hr]. split; [|done]. eapply kept_perm; [|exact Hk]. constructor.
    - eapply hoare_bind; [apply hold_destroy|]. intros ?. eapply hoare_bind; [apply hold_free|]. intros ?. by apply hold_kept, hoare_ret. }
  destruct copied; cbn [negb].
  2:{ intros k Hk. specialize (Hab k Hk). revert Hab. unfold bind. cbn. done. }
  eapply hoare_bind; [apply (hold_gets _ _ _ _ table)|]. intros tb. cbn beta.
  destruct (position _ tb) as [pid|] eqn:Ep.
  2:{ intros k [Hk [Hr _]]. specialize (Hab k (conj Hk Hr)). revert Hab. unfold bind. cbn. done. }
  apply position_is in Ep as (H0 & s0 & Hs & _). unfold get_image. destruct (image_at (sn_image s)) as [im|].
  2:{ intros k [Hk _]. by apply (kept_left w t (CFrame fr :: CSpace d :: cs)). }
  intros k [Hk [Hr ->]]. pose proof (kept_space _ _ _ _ _ _ Hk) as Hd. pose proof (kept_frame _ _ _ _ _ Hk) as Hf.
  erewrite bind_val by done.
  pose proof (hold_enter w t (CFrame fr :: CSpace d :: cs) cs pid s0 (restored_slot s im d fr)) as Hu.
  specialize (Hu ltac:(unfold slot_claims; cbn [root resume_frame restored_slot]; rewrite (nz_one CSpace d), (nz_one CFrame fr) by done; solve_Permutation)
    ltac:(by intros _) eq_refl k (conj Hk (conj H0 Hs))).
  unfold bind. destruct (upd_slot _ _ k) as [[v|x] k1]; [|done]. destruct Hu as [Hu1 Hu2]. split; [done|]. by exists (restored_slot s im d fr).
Qed.

(** *** Preemption *)

Lemma hold_pay {T} (w : Z) (t : option Z) (cs : list claim) (R R' : PayState -> Prop) (m : M T) : steady m ->
  (forall k, R (pay k) -> R' (pay (snd (m k)))) -> hoare (holding w t cs R) m (fun _ => holding w t cs R').
Proof. intros Hm Hp k [Hk Hr]. specialize (Hm w t cs k Hk). specialize (Hp k Hr). destruct (m k) as [[v|x] k']; done. Qed.

Lemma hold_resume_frame (w : Z) (t : option Z) (cs : list claim) (pid : Z) (s : Slot) : state s = RUNNING ->
  hoare (holding w t cs (slot_is pid s)) (resume_slot_frame pid) (fun o =>
    match o with
    | Some rf => holding w t cs (fun p => slot_is pid (with_resume_frame rf s) p /\ rf <> 0)
    | None => kept w t cs
    end).
Proof.
  intros Hr k [Hk Hs]. unfold resume_slot_frame. erewrite bind_val by (by apply get_slot_run, slot_at_is).
  destruct (resume_frame s =? 0) eqn:E; cbn [negb]; zbool; [|split; [done|split; [by destruct s|done]]].
  pose proof (hold_alloc w t (slot_is pid s) cs k (conj Hk Hs)) as Ha. unfold bind. destruct (pooled alloc k) as [[[f|]|x] k1]; [|apply Ha|done].
  pose proof (kept_frame _ _ _ _ _ (proj1 Ha)) as Hf.
  pose proof (hold_upd_slot w t (CFrame f :: cs) cs [] pid s (with_resume_frame f)) as Hu.
  specialize (Hu ltac:(unfold slot_claims; cbn [root resume_frame with_resume_frame]; rewrite E, (nz_one CFrame f) by done; change (nz CFrame 0) with (@nil claim); solve_Permutation)
    ltac:(intros H _; apply H; by left) ltac:(by right) k1 Ha).
  destruct (upd_slot _ _ k1) as [[?|x] k2]; [|done]. destruct Hu. by split.
Qed.

Lemma hold_pure {T} (w : Z) (t : option Z) (cs : list claim) (R : PayState -> Prop) (P : Prop) (m : M T) (Q : T -> K -> Prop) :
  (P -> hoare (holding w t cs R) m Q) -> hoare (holding w t cs (fun p => R p /\ P)) m Q.
Proof. intros H k [Hk [Hr HP]]. by apply (H HP). Qed.

(** A write into the saved context of a slot. *)
Lemma hold_save (w : Z) (t : option Z) (cs : list claim) (pid : Z) (s : Slot) (g : fpool -> fpool) : writes_in (resume_frame s) g -> resume_frame s <> 0 ->
  hoare (holding w t cs (slot_is pid s)) (pool_do g) (fun _ => holding w t cs (slot_is pid s)).
Proof.
  intros Hg Hn k [Hk Hs]. split; [|done].
  destruct (slot_claim_split pid s (pay k) (CFrame (resume_frame s)) Hs) as (rest & Hp & Hrest); [apply elem_of_app; right; by apply nz_in|].
  assert (Hp' : cs ++ pay_claims (pay k) ≡ₚ CFrame (resume_frame s) :: cs ++ rest) by (rewrite Hp; solve_Permutation).
  pose proof (kp_housed _ _ _ _ Hk) as Hh. rewrite Hp' in Hh.
  destruct (writes_housed _ _ _ g Hg (kp_pool _ _ _ _ Hk) Hh) as (H1 & H2 & H3). apply (kept_pool_snaps w t cs); [done|done|by rewrite Hp'|].
  intros sid sn Hsn. unfold unmoved in *. rewrite Forall_forall in *. intros c Hc. apply H3, elem_of_app. right. by eapply Hrest.
Qed.

Lemma steady_maybe_preempt (f : TrapFrame) : length (regs f) = 31%nat -> steady (maybe_preempt f).
Proof.
  intros Hl w t cs. unfold maybe_preempt. apply hoare_steady; [apply steady_current_pid|]. intros [pid|]; [|by apply hoare_ret].
  eapply hoare_bind; [apply hold_get_slot|]. intros s. destruct (has_state RUNNING s) eqn:Hr; [|by apply hold_kept, hoare_ret].
  apply bool_decide_eq_true in Hr. cbn [negb]. destruct (_ && _); [by apply hold_kept, hoare_ret|].
  eapply hoare_bind; [apply (hold_pay w t cs _ (slot_is pid s)); [steady_go|intros k; unfold console_getchar; by destruct (hw_in (hw k))]|].
  intros [b|]; [|by apply hold_kept, hoare_ret].
  eapply hoare_bind; [apply (hold_pay w t cs _ (slot_is pid s)); [steady_go|done]|]. intros ?.
  eapply hoare_bind; [by apply hold_resume_frame|]. intros [rf|]; [|by apply hoare_ret].
  apply hold_pure. intros Hn. eapply hoare_bind; [apply hold_save; [by apply save_writes|done]|]. intros ?.
  eapply hoare_bind; [apply (hold_upd_slot w t cs cs []); [done|intros H _; apply H; by left|by right]|]. intros ?. cbn beta.
  eapply hoare_bind; [eapply (hold_upd_slot w t cs cs []); [done|intros H _; apply H; by left|right; by intros [=]]|]. intros ?. cbn beta.
  apply hold_kept. assert (H : steady (emit_sched_preempt pid ;;; ret true)) by steady_go. apply H.
Qed.
#[local] Hint Resolve steady_sys_write steady_on_exit steady_on_yield steady_on_spawn steady_on_blit steady_on_frame_rgb steady_on_getkey
  steady_on_tick steady_kill_pid steady_set_deadline steady_drain_keys steady_swallow : steady.

(** *** Traps *)

Lemma steady_dispatch (f : TrapFrame) : can_snap fz -> length (regs f) = 31%nat -> steady (dispatch f).
Proof. intros Hsnap Hl. pose proof (steady_on_snapshot f Hsnap Hl). unfold dispatch, resume. steady_go. Qed.
Lemma steady_rearm : steady rearm.
Proof. unfold rearm. steady_go. Qed.
Lemma steady_emit_tick (a b : Z) : steady (emit_tick a b).
Proof. unfold emit_tick. steady_go. Qed.
Lemma steady_redirect (f : TrapFrame) : steady (redirect_to_scheduler f).
Proof. unfold redirect_to_scheduler. cbv zeta. steady_go. Qed.
Lemma steady_pagewalk (va : Z) : steady (current_pagewalk va).
Proof. unfold current_pagewalk. steady_go. Qed.
#[local] Hint Resolve steady_rearm steady_emit_tick steady_redirect steady_pagewalk steady_dispatch : steady.
Lemma steady_emit_fault (f : TrapFrame) (a b c : Z) (o : option Z) : steady (emit_fault f a b c o).
Proof. unfold emit_fault, emit_fault_classic. steady_go. Qed.
Lemma steady_mark_faulted : steady mark_faulted.
Proof. unfold mark_faulted. steady_go. Qed.
#[local] Hint Resolve steady_emit_fault steady_mark_faulted : steady.

Lemma steady_handle_tick (id : Z) (f : TrapFrame) : length (regs f) = 31%nat -> steady (handle_tick id f).
Proof. intros Hl. pose proof (steady_maybe_preempt f Hl). unfold handle_tick. steady_go. Qed.
#[local] Hint Resolve steady_handle_tick : steady.

Lemma steady_handle (sc st : Z) (f : TrapFrame) : can_snap fz -> length (regs f) = 31%nat -> steady (handle sc st f).
Proof.
  intros Hsnap Hl. pose proof (steady_dispatch (advance_past_ecall f) Hsnap Hl). unfold handle, handle_ecall, handle_fault. cbv zeta. steady_go.
Qed.

(** A tick takes no checkpoint. *)
Lemma steady_timer (st : Z) (f : TrapFrame) : length (regs f) = 31%nat -> steady (handle CAUSE_S_TIMER st f).
Proof. intros Hl. unfold handle. change (CAUSE_S_TIMER =? CAUSE_S_TIMER) with true. steady_go. Qed.

(** A fault saves no frame. *)
Lemma steady_illegal (st : Z) (f : TrapFrame) : steady (handle CAUSE_ILLEGAL_INSTRUCTION st f).
Proof.
  unfold handle. change (CAUSE_ILLEGAL_INSTRUCTION =? CAUSE_S_TIMER) with false. change (CAUSE_ILLEGAL_INSTRUCTION =? CAUSE_U_ECALL) with false.
  unfold handle_fault. steady_go.
Qed.

Lemma steady_kernel_tick (f : TrapFrame) : length (regs f) = 31%nat -> steady (kernel_tick f).
Proof.
  intros Hl w t cs k Hk. unfold kernel_tick. destruct (sepc f =? scheduler_resume_pc); [done|].
  pose proof (steady_timer 0 (with_sstatus (Z.lor (sstatus f) SSTATUS_SPP) f) Hl w t cs _ Hk) as H.
  destruct (handle _ _ _ _) as [[f'|x] k2]; [|done]. destruct (sepc f' =? scheduler_resume_pc); [by apply (kept_left w t cs)|done].
Qed.

Lemma kept_irq (w : Z) (t : option Z) (cs : list claim) (k : K) (l : list (option TrapFrame)) :
  kept w t cs k -> irqs_ok l -> kept w t cs (on_hw (with_hw_irq l) k).
Proof. intros [H1 H2 H3 H4 H5 H6 H7 H8] Hl. by split. Qed.

Lemma steady_irq_point : steady irq_point.
Proof.
  intros w t cs k Hk. pose proof (kp_irqs _ _ _ _ Hk) as Hi. unfold irq_point.
  destruct (hw_irq (hw k)) as [|[f|] r]; [done| |]; apply irqs_cons in Hi as [Hf Hr].
  - apply steady_kernel_tick; [by apply Hf|by apply kept_irq].
  - by apply (kept_irq w t cs).
Qed.
Lemma steady_wait_for_interrupt : steady wait_for_interrupt.
Proof.
  intros w t cs k Hk. pose proof (kp_irqs _ _ _ _ Hk) as Hi. unfold wait_for_interrupt.
  destruct (next_irq _) as [[f r]|] eqn:E.
  - destruct (next_irq_ok _ _ _ Hi E). apply steady_kernel_tick; [done|by apply kept_irq].
  - apply steady_kernel_tick; [done|]. apply kept_irq; [done|constructor].
Qed.
#[local] Hint Resolve steady_irq_point steady_wait_for_interrupt : steady.

(** *** The control plane *)

Lemma steady_getc_loop (n : nat) : steady (getc_loop n).
Proof. induction n as [|n IH]; cbn [getc_loop]; steady_go. Qed.
Lemma steady_getc_stall : steady getc_stall.
Proof. apply steady_getc_loop. Qed.
#[local] Hint Resolve steady_getc_stall : steady.
Lemma steady_read_bytes (n : nat) : steady (read_bytes n).
Proof. induction n as [|n IH]; cbn [read_bytes]; steady_go. Qed.
Lemma steady_emit_rpc (w : wprog) : steady (emit_rpc w).
Proof. unfold emit_rpc. cbv zeta. steady_go. Qed.
#[local] Hint Resolve steady_read_bytes steady_emit_rpc : steady.
Lemma steady_respond_result (i : bytes) (w : wprog) : steady (respond_result i w).
Proof. apply steady_emit_rpc. Qed.
Lemma steady_respond_error (i : bytes) (c : Z) (m : bytes) : steady (respond_error i c m).
Proof. apply steady_emit_rpc. Qed.
#[local] Hint Resolve steady_respond_result steady_respond_error : steady.
Lemma steady_once (i : bytes) (op : option bytes) (m : M unit) : steady m -> steady (once i op m).
Proof. intros H. unfold once, respond_duplicate. cbv zeta. steady_go. Qed.

Lemma steady_tools_call (json id : bytes) : can_free fz -> steady (handle_tools_call json id).
Proof.
  intros Hfree. unfold handle_tools_call, tool_run_suite, tool_crash, tool_kill, tool_set_budget, tool_set_surface, tool_set_autonomy,
    busy, any_alive, respond_accepted. cbv zeta.
  repeat match goal with |- steady (if ?b then _ else _) => destruct b end; try (steady_go; fail).
  - destruct (suite_seed _) as [m|] eqn:Es; [|steady_go]. apply (steady_suite_seed _ _ Hfree) in Es.
    apply steady_bind; [steady_go|]. intros []; [steady_go|]. apply steady_once. steady_go.
  - apply steady_bind; [steady_go|]. intros []; [steady_go|]. apply steady_once. steady_go.
  - destruct (get_u32 _ _); [|steady_go]. apply steady_once. steady_go.
  - destruct (get_u32 _ _); [|steady_go]. destruct (get_u32 _ _); [|steady_go]. apply steady_once. steady_go.
Qed.

Lemma steady_resources_read (json id : bytes) : steady (handle_resources_read json id).
Proof.
  unfold handle_resources_read. cbv zeta. apply steady_bind; [apply steady_gets|]. intros k.
  repeat match goal with |- steady (if ?b then _ else _) => destruct b; [solve [steady_go]|] end. steady_go.
Qed.
#[local] Hint Resolve steady_tools_call steady_resources_read : steady.
Lemma steady_dispatch_request (json : bytes) : can_free fz -> steady (dispatch_request json).
Proof.
  intros Hfree. unfold dispatch_request, respond_initialize, respond_tools_list, respond_resources_list. cbv zeta.
  repeat match goal with |- steady (if ?b then _ else _) => destruct b; [solve [steady_go]|] end. steady_go.
Qed.
#[local] Hint Resolve steady_dispatch_request : steady.
Lemma steady_read_request : can_free fz -> steady read_request.
Proof. intros Hfree. unfold read_request, accept_body. cbv zeta. steady_go. Qed.
#[local] Hint Resolve steady_read_request : steady.

Lemma steady_service_console : can_free fz -> steady service_console.
Proof.
  intros Hfree. unfold service_console. apply steady_bind; [steady_go|]. intros v. generalize (S (S v)). intros n.
  induction n as [|n IH]; cbn [service_loop]; [steady_go|]. unfold next_command, serve_byte. steady_go.
Qed.
#[local] Hint Resolve steady_service_console : steady.

(** *** The scheduler *)

(** A fresh address space is in hand, or nothing is. *)
Lemma hold_build (w : Z) (t : option Z) (cs : list claim) (R : PayState -> Prop) (img : Z) (im : Image) :
  hoare (holding w t cs R) (build_space img im) (fun r =>
    match r with inl _ => holding w t cs R | inr (space, _) => holding w t (CSpace space :: cs) R end).
Proof.
  unfold build_space. cbv zeta. apply hold_space; [by apply hoare_ret|]. intros r.
  assert (Hfail : forall reason, hoare (holding w t (CSpace r :: cs) R) (pool_do (destroy r) ;;; ret (@inl bytes (Z * Z) reason)) (fun r =>
    match r with inl _ => holding w t cs R | inr (space, _) => holding w t (CSpace space :: cs) R end)).
  { intros reason. eapply hoare_bind; [apply hold_destroy|]. intros ?. by apply hoare_ret. }
  eapply hoare_bind; [apply hold_grow, load_grown|].
  assert (Hpanic : forall T Q, hoare (holding w t (CSpace r :: cs) R) (@stop T XPanic) Q) by (intros T Q k [Hk _]; by apply (kept_left w t (CSpace r :: cs))).
  intros [entry|e| |]; [|apply Hfail|apply Hpanic..].
  destruct (image_window img) as [[[va pa] len]|] eqn:Ew; [|by apply hoare_ret].
  assert (E : (va, pa, len) = (WAD_VA, WAD_PA, WAD_WINDOW)) by (unfold image_window in Ew; by destruct (_ && _); [injection Ew as <- <- <-|]).
  injection E as -> -> ->. eapply hoare_bind; [apply hold_grow|intros []; [by apply hoare_ret|apply Hfail]].
  unfold map_window. apply window_grown. change (Z.of_nat (Z.to_nat ((WAD_WINDOW + PAGE_SIZE - 1) / PAGE_SIZE))) with 8192.
  intros i Hi. unfold page_pa, frame_addr, WAD_PA, PAGE_SIZE, POOL_BASE, POOL_END, FRAME_SIZE. split; [|lia]. split; [lia|].
  replace (2281701376 + 0 + i * 4096) with ((557056 + i) * 4096) by lia. apply Z.mod_mul. lia.
Qed.

(** [CURRENT] is set: from here the payload's address space is tied to it. *)
Lemma hold_current {T} (w : Z) (pid : Z) (s : Slot) (m : M T) (Q : T -> K -> Prop) :
  hoare (kept w (Some (satp_of (root s))) []) m Q ->
  hoare (holding w None [] (slot_is pid s)) (modify (on_pay (with_current pid)) ;;; m) Q.
Proof.
  intros Hm k [[H1 H2 H3 H4 H5 H6 H7 H8] Hs]. unfold bind, modify. apply Hm. split; try done.
  intros s' _ Hs' _. change (slot_at pid k = Some s') in Hs'. apply slot_at_is in Hs. by rewrite Hs in Hs'; injection Hs' as <-.
Qed.

Lemma hold_resume {T} (w satp fr : Z) (Q : T -> K -> Prop) : hoare (kept w (Some satp) []) (irq_point ;;; stop (XResume satp fr)) Q.
Proof. apply hoare_steady; [apply steady_irq_point|]. intros _ k Hk. by apply (kept_left w (Some satp) []). Qed.

Lemma hold_start_saved (w : Z) (pid : Z) (s : Slot) : state s = PENDING -> resume_frame s <> 0 ->
  hoare (holding w None [] (slot_is pid s)) (start_saved pid s) (fun _ _ => True).
Proof.
  intros Hp Hn. unfold start_saved.
  eapply hoare_bind; [apply (hold_upd_slot w None [] [] []); [done|intros H _; apply H; by right|by left]|]. intros ?. cbn beta.
  apply (hoare_bind _ _ _ (fun _ k => exists s', holding w None [] (slot_is pid s') k /\ root s' = root s)).
  { destruct (preempted s); [apply hoare_ret; by eauto|]. eapply hoare_bind.
    - apply hold_pay; [apply steady_read_time|intros k; unfold read_time; destruct (hw_dt (hw k)); exact id].
    - intros now. eapply hoare_conseq; [apply (hold_upd_slot w None [] [] []); [done|done|by left]|done|]. intros ? k Hk. eexists. by split; [exact Hk|]. }
  intros ? k (s' & Hk & E). revert k Hk. apply hold_current. rewrite E. do 2 (apply hoare_steady; [steady_go|]; intros ?). apply hold_resume.
Qed.

Lemma hold_load_failed (w : Z) (pid : Z) (a b : bytes) : hoare (kept w None []) (load_failed pid a b) (fun _ _ => True).
Proof.
  assert (H : steady (load_failed pid a b)) by (unfold load_failed; steady_go). eapply hoare_conseq; [apply H|done|done].
Qed.

Lemma init_writes (f entry : Z) : writes_in f (init_frame_to f entry).
Proof.
  intros p. split_and!; try done. intros Hf a Ha. unfold FRAME_SIZE in Ha. unfold init_frame_to.
  change (f + 256) with (f + 32 * 8). change (f + 248) with (f + 31 * 8). rewrite !poke_outside by (done || lia). done.
Qed.

Lemma hold_start_fresh (w : Z) (pid : Z) (s : Slot) : hoare (holding w None [] (slot_is pid s)) (start_fresh pid s) (fun _ _ => True).
Proof.
  unfold start_fresh. eapply hoare_bind; [apply hold_pay; [apply steady_get_image|]|].
  { intros k. unfold get_image. destruct (image_at _); exact id. }
  intros im. eapply hoare_bind; [apply hold_build|]. intros [reason|[space entry]]; [apply hold_kept, hold_load_failed|].
  eapply hoare_bind; [apply hold_alloc|]. intros [fr|].
  2:{ eapply hoare_bind; [apply hold_destroy|]. intros ?. apply hold_kept, hold_load_failed. }
  eapply hoare_bind; [apply hold_write, init_writes|]. intros ?.
  apply (hoare_bind _ _ _ (fun _ => holding w None [] (slot_is pid (with_state RUNNING (with_resume_frame fr (with_root space s)))))).
  { intros k Hk. pose proof (kept_space _ _ _ _ _ _ (proj1 Hk)) as Hd. pose proof (kept_frame _ _ _ _ _ (proj1 Hk)) as Hf.
    apply (hold_upd_slot w None (CFrame fr :: [CSpace space]) [] (slot_claims s) pid s (fun s => with_state RUNNING (with_resume_frame fr (with_root space s)))).
    - unfold slot_claims at 3. cbn [root resume_frame with_state with_resume_frame with_root]. rewrite (nz_one CSpace), (nz_one CFrame) by done. solve_Permutation.
    - by intros _ _.
    - by left.
    - exact Hk. }
  intros ?. cbn beta. eapply hoare_bind; [apply hold_pay; [apply steady_read_time|intros k; unfold read_time; destruct (hw_dt (hw k)); exact id]|].
  intros now. eapply hoare_bind; [apply (hold_upd_slot w None [] [] []); [done|done|by left]|]. intros ?. cbn beta.
  apply hold_current. do 3 (apply hoare_steady; [steady_go|]; intros ?). apply hold_resume.
Qed.

Definition waiting (pid : Z) (p : PayState) : Prop := exists s, slot_is pid s p /\ state s = PENDING.

Lemma hold_start (w : Z) (pid : Z) : hoare (holding w None [] (waiting pid)) (start pid) (fun _ _ => True).
Proof.
  intros k [Hk (s & Hs & Hp)]. unfold start. erewrite bind_val by (by apply get_slot_run, slot_at_is).
  destruct (resume_frame s =? 0) eqn:E; cbn [negb]; zbool;
    [by apply (hold_start_fresh w pid s k)|by apply (hold_start_saved w pid s Hp E k)].
Qed.

Lemma hold_owed (w : Z) (t : option Z) : hoare (kept w t []) owed_fork (fun o =>
  match o with Some pid => holding w t [] (waiting pid) | None => kept w t [] end).
Proof.
  unfold owed_fork. apply hoare_steady; [steady_go|]. intros p. destruct (_ && _); [|by apply hoare_ret].
  apply hoare_steady; [steady_go|]. intros ?. apply hold_restore.
Qed.

Lemma run_leaves (w : Z) (t : option Z) : can_free fz -> hoare (kept w t []) run (fun _ _ => True).
Proof.
  intros Hfree k Hk. unfold run, kernel_satp. erewrite bind_val by done. erewrite bind_val by done. erewrite bind_val by done.
  set (k1 := on_hw _ _). assert (Hk1 : kept (hw_satp (hw k1)) None [] k1).
  { apply (kept_rest _ _ None) in Hk as [H1 H2 H3 H4 H5 H6 H7 H8]. by split. }
  revert Hk1. generalize (hw_satp (hw k1)) as w1. generalize k1. clear - Hfree. intros k1 w1. revert k1.
  do 5 (apply hoare_steady; [steady_go|]; intros ?).
  apply (hoare_bind _ _ _ (fun o => match o with Some pid => holding w1 None [] (waiting pid) | None => kept w1 None [] end)).
  { intros k Hk. cbn. destruct (position _ _) as [pid|] eqn:E; [|done]. apply position_is in E as (H0 & s & Hs & Hp).
    split; [done|]. exists s. split; [done|]. by apply bool_decide_eq_true in Hp. }
  intros [pid|]; [apply hold_start|]. eapply hoare_bind; [apply hold_owed|]. intros [pid|]; [apply hold_start|].
  apply hoare_steady; [steady_go|]. intros _ k Hk. by apply (kept_left w1 None []).
Qed.

Lemma steady_idle : can_free fz -> steady idle_step.
Proof.
  intros Hfree. pose proof (steady_suites Hfree) as Hs. repeat (apply Forall_cons in Hs as [? Hs]).
  unfold idle_step, seed_and_run.
  apply steady_bind; [steady_go|]. intros ob. apply steady_bind; [steady_go|]. intros [b|]; [|steady_go].
  repeat match goal with |- steady (if ?c then _ else _) => destruct c; [solve [steady_go]|] end. steady_go.
Qed.

Lemma boot_leaves (w : Z) : hoare (kept w None []) kmain (fun _ _ => True).
Proof.
  unfold kmain. do 2 (apply hoare_steady; [steady_go|]; intros ?). apply hoare_steady; [unfold assert_pool_clear; steady_go|]. intros ?.
  apply (hoare_bind _ _ _ (fun _ k => exists w', kept w' None [] k)).
  - apply (hoare_pre _ _ (holding w None [] (fun _ => True))); [done|]. unfold init_paging. apply hold_space.
    { intros k [Hk _]. by apply (kept_left w None []). }
    intros r k [Hk _]. pose proof (housed_nonzero _ _ _ (kp_housed _ _ _ _ Hk)) as Hr. exists (satp_of r).
    destruct Hk as [H1 H2 H3 H4 H5 H6 H7 H8]. split; try done. cbn [pay on_hw with_hw on_pay with_pay pool].
    unfold pay_claims in *. cbn [kernel_root with_kernel_root table snaps]. apply (housed_drop _ (nz CSpace (kernel_root (pay k)))).
    eapply housed_perm; [|exact H2]. rewrite (nz_one CSpace r); [solve_Permutation|]. cbn in Hr. unfold frame_addr, POOL_BASE in Hr. lia.
  - intros ? k (w' & Hk). revert k Hk. cbn beta. assert (H : steady (arm_first_tick ;;; stop (T := unit) XIdle)) by (unfold arm_first_tick; steady_go).
    eapply hoare_conseq; [apply (H w' None [])|done|done].
Qed.

End Functions.
