(* ===== verification/Panic.v ===== *)
(** * The panic handler (kernel/src/main.rs)

    One report through the JSON escaper, then shutdown; a second entry, the one
    that finds [IN_PANIC] set, goes straight down. *)

From S2P Require Import Prelude Hal Frames Console Utf8 JsonDoc JsonText RpcJson KState Traps Payload Syscall Handler Rpc Sched KRun.

(** [FmtCapture]: every piece a [write!] produces goes through the escaper. *)
Fixpoint fmt_capture (pieces : list bytes) : wprog :=
  match pieces with
  | [] => wok
  | p :: r => Try (write_json_escaped p) (fmt_capture r)
  end.

(** [loc] is the file and line of [info.location()], [message] the pieces
    [info.message()] formats to. *)
Definition panic_frame (id : Z) (loc : option (bytes * Z)) (message : list bytes) : wprog :=
  (fmt [js "{'id':"; dec id; js ",'type':'panic','location':'"] +!
   match loc with
   | Some (file, line) => fmt_capture [file; lit ":"; dec line]
   | None => wok
   end +!
   Put (js "','msg':'") +!
   fmt_capture message +!
   Put (js "'}"))%W.

Definition panic (in_panic : bool) (loc : option (bytes * Z)) (message : list bytes) : M unit :=
  if in_panic then stop XShutdown else
  let! id := next_event in
  send (panic_frame id loc message) ;;;
  stop XShutdown.

Lemma fmt_capture_text (l : list bytes) : text (fmt_capture l) = concat (map (fun p => concat (map json_escape_byte p)) l).
Proof. induction l as [|p l IH]; [done|]. cbn [fmt_capture text map concat]. by rewrite escaped_text, IH. Qed.

Definition panic_text (id : Z) (loc : option (bytes * Z)) (message : list bytes) : bytes :=
  js "{'id':" ++ dec id ++ js ",'type':'panic','location':'" ++
  concat (map json_escape_byte (match loc with Some (file, line) => file ++ lit ":" ++ dec line | None => [] end)) ++
  js "','msg':'" ++ concat (map json_escape_byte (concat message)) ++ js "'}".

Lemma escape_concat (l : list bytes) :
  concat (map (fun p => concat (map json_escape_byte p)) l) = concat (map json_escape_byte (concat l)).
Proof. induction l as [|p l IH]; [done|]. cbn [map concat]. by rewrite IH, map_app, concat_app. Qed.

Lemma panic_frame_text (id : Z) (loc : option (bytes * Z)) (message : list bytes) :
  text (panic_frame id loc message) = panic_text id loc message.
Proof.
  unfold panic_frame, panic_text. cbn [text]. rewrite fmt_text, fmt_capture_text, escape_concat. cbn [concat].
  rewrite app_nil_r, <- !app_assoc. do 4 f_equal. destruct loc as [[file line]|]; [|done].
  rewrite fmt_capture_text, escape_concat. cbn [concat]. by rewrite app_nil_r.
Qed.

Lemma utf8_concat (l : list bytes) : Forall (fun p => utf8_valid p = true) l -> utf8_valid (concat l) = true.
Proof. induction 1; [done|]. cbn [concat]. by apply utf8_app. Qed.

Lemma utf8_digits (d : bytes) : Forall (fun b => is_digit b = true) d -> utf8_valid d = true.
Proof.
  induction 1 as [|b d Hb _ IH]; [done|]. rewrite ascii_cons; [done|]. unfold is_digit in Hb. zbool. lia.
Qed.

(** The report is one JSON document, whatever the message: the pieces of a Rust
    message are UTF-8. *)
Lemma panic_frame_doc (id : Z) (loc : option (bytes * Z)) (message : list bytes) :
  (forall file line, loc = Some (file, line) -> utf8_valid file = true) -> Forall (fun p => utf8_valid p = true) message ->
  doc (panic_frame id loc message).
Proof.
  intros Hl Hm.
  assert (H : forall l st, Forall (fun p => utf8_valid p = true) l -> feeds (InString false, st) (text (fmt_capture l)) (InString false, st)).
  { intros l st Hu. rewrite fmt_capture_text, escape_concat, <- escaped_text. by apply feeds_escaped, utf8_concat. }
  pose proof (fun st => H message st Hm) as Hmsg. unfold panic_frame. destruct loc as [[file line]|]; [|doc_go].
  assert (Hloc : forall st, feeds (InString false, st) (text (fmt_capture [file; lit ":"; dec line])) (InString false, st)).
  { intros st. apply H. repeat constructor; [by eapply Hl|]. apply utf8_digits, dec_digits. }
  doc_go.
Qed.

(** The first panic sends one report, whole, and shuts down; a panic inside the
    handler shuts down at once. *)
Lemma panic_reports (k : K) (loc : option (bytes * Z)) (message : list bytes) :
  panic true loc message k = (Exit XShutdown, k) /\
  panic false loc message k =
    (Exit XShutdown, if (length (panic_text (next_id k) loc message) <=? CAPACITY)%nat
                     then sent (frame_bytes (panic_text (next_id k) loc message)) (numbered k) else numbered k).
Proof.
  split; [done|]. unfold panic. run_bind. rewrite <- panic_frame_text.
  destruct (_ <=? _)%nat eqn:E.
  - apply Nat.leb_le in E. by rewrite (bind_val _ _ _ _ _ (send_run _ _ E)).
  - apply Nat.leb_gt, build_overflow in E. unfold send, emit. by rewrite E.
Qed.

(** A message that does not fit the frame is not reported at all. *)
Lemma panic_silent : exists message,
  panic false None [message] (mkK (mkHw [] [] 0 [] 0 0 []) (pool_init (fun _ => x00)) traps_init pay_init ops_init 0) =
  (Exit XShutdown, mkK (mkHw [] [] 0 [] 0 0 []) (pool_init (fun _ => x00)) traps_init pay_init ops_init 1).
Proof. exists (replicate 2048 x61). vm_compute. reflexivity. Qed.
