(* ===== verification/Demo.v ===== *)
(** * A concrete kernel to instantiate the theorems at

    A build whose payloads are all the same small valid image, and a kernel
    state in which one payload with chosen capabilities runs. *)

From S2P Require Import Prelude Hal Frames Mm MmSpec MmWalk Elf ElfProofs Console RpcJson KState Traps Payload Sched KRun.

Definition demo_build : Build :=
  {| feat_doom := true; feat_cpayloads := true; dev_profile := false; payload_bytes := fun _ => text_image;
     kernel_end := 0x80300000; boot_stack_top := 0x80210000; scheduler_resume_pc := 0x80200100; wfi_pc := 0x80200200 |}.

(** A loaded address space: the image's pages at 0x10000, read-only to the payload. *)
Definition demo_loaded : fpool := snd (load_elf false text_image POOL_BASE demo_space).

(** A running payload with a deadline of 50 units, started at time 100. *)
Definition demo_slot (st : pstate) (cs : Z) : Slot := mkSlot st 0 cs NO_PID 0 100 50 POOL_BASE 0 false 3.

Definition demo_k (p : fpool) (ins : list (option byte)) (now : Z) (s : Slot) : K :=
  {| hw := mkHw ins [] now [] 0 0 []; pool := p; traps := traps_init;
     pay := with_current 0 (with_table (s :: replicate 11 slot_new) pay_init); ops := ops_init; events := 40 |}.

Lemma demo_running (p : fpool) (ins : list (option byte)) (now : Z) (s : Slot) : running (demo_k p ins now s) 0 s.
Proof. split; [reflexivity|]. split; [discriminate|reflexivity]. Qed.

(** A syscall frame: number in [a7], arguments in [a0]. *)
Definition demo_call (nr arg0 : Z) : TrapFrame :=
  mkFrame (<[X_A7 := nr]> (<[X_A0 := arg0]> (replicate 31 0))) 0x10000 SSTATUS_SPIE.
