(* ===== verification/SyscallProofs.v ===== *)
(** * What the syscalls do

    The capability gate, spawn and its attenuation, the write quota, the
    framebuffer syscalls, exit and deadlines, preemption, all as equations on the
    whole kernel state. *)

From S2P Require Import Prelude Hal Frames Mm MmSpec MmWalk Console RpcJson KState Traps TrapsProofs Payload Syscall Handler Rpc Sched KRun Base64 Elf ElfProofs Docs Demo.

Section SyscallProofs.
Context {B : Build}.

(** ** The capability gate *)

(** The capability a syscall needs, with the names its denial is reported under. *)
Definition gate (nr : Z) : option (Cap * bytes * bytes) :=
  if nr =? SYS_WRITE then Some (CapWrite, lit "write", lit "write")
  else if nr =? SYS_YIELD then Some (CapYield, lit "yield", lit "yield")
  else if nr =? SYS_SPAWN then Some (CapSpawn, lit "spawn", lit "spawn")
  else if nr =? SYS_BLIT then Some (CapWrite, lit "blit", lit "write")
  else if feat_doom && (nr =? SYS_FRAME) then Some (CapWrite, lit "frame", lit "write")
  else None.

Definition denied_event (ev pid : Z) (syscall cap : bytes) : bytes :=
  concat [js "{'id':"; dec ev; js ",'type':'syscall_denied','pid':"; dec pid; js ",'syscall':'"; syscall;
          js "','reason':'missing_cap','cap':'"; cap; js "'}"].

(** The state after a denial: one event id spent, one event sent. *)
Definition denied (pid : Z) (syscall cap : bytes) (k : K) : K :=
  sent (frame_bytes (denied_event (next_id k) pid syscall cap)) (numbered k).

Lemma emit_denied_run (k : K) (pid : Z) (s : Slot) (syscall cap : bytes) : running k pid s ->
  (length syscall <= 16)%nat -> (length cap <= 16)%nat ->
  emit_denied syscall cap k = (Val tt, denied pid syscall cap k).
Proof.
  intros H Hs Hc. unfold emit_denied. do 2 run_bind. rewrite send_run.
  - by rewrite fmt_text.
  - text_bound. unfold CAPACITY. lia.
Qed.

(** A syscall whose capability is missing, run. *)
Lemma denied_run (k : K) (f : TrapFrame) (pid : Z) (s : Slot) (c : Cap) (syscall cap : bytes) :
  running k pid s -> gate (a7 f) = Some (c, syscall, cap) -> Z.land (caps s) (cap_bit c) = 0 ->
  dispatch f k = (Val (Resume ENOCAP), denied pid syscall cap k).
Proof.
  intros H Hg Hc. assert (current_has c k = (Val false, k)) as Hno.
  { erewrite current_has_run by done. by rewrite Hc. }
  assert (forall m : M Z, (length syscall <= 16)%nat -> (length cap <= 16)%nat ->
    resume (let! ok := current_has c in if negb ok then emit_denied syscall cap ;;; ret ENOCAP else m) k =
    (Val (Resume ENOCAP), denied pid syscall cap k)) as Hd.
  { intros m Hs Ht. unfold resume. rewrite bind_assoc. rewrite (bind_val _ _ _ _ _ Hno). cbn [negb].
    rewrite bind_assoc. by rewrite (bind_val _ _ _ _ _ (emit_denied_run _ _ _ _ _ H Hs Ht)). }
  unfold gate in Hg. unfold dispatch. generalize dependent (a7 f). intros nr Hg.
  unfold SYS_EXIT, SYS_WRITE, SYS_YIELD, SYS_SPAWN, SYS_SNAPSHOT, SYS_BLIT, SYS_FRAME, SYS_GETKEY in *.
  repeat (destruct (nr =? _) eqn:E; [zbool; subst nr; injection Hg as <- <- <-; cbn [Z.eqb Pos.eqb]|clear E]).
  - apply Hd; vm_compute; lia.
  - apply Hd; vm_compute; lia.
  - unfold on_spawn, resume. rewrite bind_assoc. run_bind. apply (Hd _); vm_compute; lia.
  - apply Hd; vm_compute; lia.
  - destruct feat_doom; [|done]. cbn [andb] in Hg. destruct (nr =? 6) eqn:E; [|done]. zbool. subst nr.
    injection Hg as <- <- <-. cbn [Z.eqb Pos.eqb andb]. apply Hd; vm_compute; lia.
Qed.

(** C20: no syscall acts without its capability. If the running payload lacks
    the capability a syscall needs, the whole effect of the call is one
    [syscall_denied] event under the next id and ENOCAP in [a0]: table, pool,
    snapshots, rings and keys are untouched. *)
Theorem capability_gate (k : K) (f : TrapFrame) (pid : Z) (s : Slot) (c : Cap) (syscall cap : bytes) :
  running k pid s -> gate (a7 f) = Some (c, syscall, cap) -> Z.land (caps s) (cap_bit c) = 0 ->
  dispatch f k = (Val (Resume ENOCAP), denied pid syscall cap k).
Proof. apply denied_run. Qed.

(** ** Spawn *)

Lemma caps_json_length (cs : Z) : (length (text (caps_json cs)) <= 25)%nat.
Proof.
  unfold caps_json, cap_table. cbn [caps_names].
  repeat match goal with |- context [if ?b then _ else _] => destruct b end; vm_compute; lia.
Qed.

Lemma image_name_length (i : Z) (im : Image) : image_at i = Some im -> (length (im_name im) <= 12)%nat.
Proof.
  unfold image_at. destruct (i <? 0); [done|]. intros H.
  assert (Forall (fun im => (length (im_name im) <= 12)%nat) IMAGES) as Hall.
  { repeat constructor; cbn [im_name]; vm_compute; lia. }
  rewrite Forall_lookup in Hall. by eapply Hall.
Qed.

Definition spawn_event (ev par child : Z) (name : bytes) (parent_caps requested granted : Z) : bytes :=
  js "{'id':" ++ dec ev ++ js ",'type':'payload_spawn','parent':" ++ dec par ++ js ",'child':" ++ dec child ++
  js ",'name':'" ++ name ++ js "','parent_caps':" ++ text (caps_json parent_caps) ++
  js ",'requested':" ++ text (caps_json requested) ++ js ",'granted':" ++ text (caps_json granted) ++
  js ",'attenuated':" ++ dec_bool (negb (requested =? granted)) ++ lit "}".

Lemma emit_spawn_run (k : K) (par child i : Z) (im : Image) (pc rc gc : Z) : image_at i = Some im ->
  emit_spawn par child (im_name im) pc rc gc k =
  (Val tt, sent (frame_bytes (spawn_event (next_id k) par child (im_name im) pc rc gc)) (numbered k)).
Proof.
  intros Hi. unfold emit_spawn. run_bind. rewrite send_run.
  - cbn [text]. rewrite fmt_text. cbn [concat]. unfold spawn_event. by rewrite app_nil_r, <- !app_assoc.
  - pose proof (image_name_length _ _ Hi). pose proof (caps_json_length pc).
    pose proof (caps_json_length rc). pose proof (caps_json_length gc).
    remember (caps_json pc) as a. remember (caps_json rc) as b. remember (caps_json gc) as c.
    text_bound. unfold CAPACITY. lia.
Qed.

Lemma position_slot (p : Slot -> bool) (k : K) (j : Z) : position p (table (pay k)) = Some j ->
  exists s, slot_at j k = Some s /\ p s = true.
Proof.
  intros H. destruct (position_from_some _ _ _ _ H) as (Hle & s & Hs & Hp). exists s. split; [|done].
  unfold slot_at. destruct (j <? 0) eqn:E; zbool; [lia|]. by rewrite Z.sub_0_r in Hs.
Qed.

Lemma enqueue_run (k : K) (i cs par child : Z) (im : Image) : image_at i = Some im ->
  position (has_state EMPTY) (table (pay k)) = Some child ->
  enqueue i cs par k = (Val (Some child), stored child (fresh_slot i im cs par) k).
Proof.
  intros Hi Hp. unfold enqueue. run_bind. rewrite Hp. unfold get_image. rewrite Hi. run_bind.
  destruct (position_slot _ _ _ Hp) as (s & Hs & _). by run_bind.
Qed.

Lemma spawnable_image_at (selector image : Z) : spawnable_image selector = Some image ->
  exists im, image_at image = Some im.
Proof.
  unfold spawnable_image. repeat (destruct (selector =? _); [intros [= <-]; by eexists|]). done.
Qed.

Lemma land_idem_r (a b c : Z) : Z.land (Z.land (Z.land a b) c) c = Z.land (Z.land a b) c.
Proof. by rewrite <- Z.land_assoc, Z.land_diag. Qed.

(** [on_spawn] by a payload that may spawn, run. *)
Lemma spawn_run (k : K) (pid : Z) (s : Slot) (selector requested : Z) :
  running k pid s -> Z.land (caps s) CAP_SPAWN <> 0 ->
  match spawnable_image selector, position (has_state EMPTY) (table (pay k)) with
  | None, _ => on_spawn selector requested k = (Val EINVAL, k)
  | Some _, None => on_spawn selector requested k = (Val EAGAIN, k)
  | Some image, Some child => exists im new,
      image_at image = Some im /\ state new = PENDING /\ KState.image new = image /\ parent new = pid /\
      caps new = Z.land (Z.land requested (caps s)) (im_caps im) /\
      on_spawn selector requested k =
      (Val child,
       sent (frame_bytes (spawn_event (next_id k) pid child (im_name im) (caps s) requested (caps new)))
            (numbered (stored child new k)))
  end.
Proof.
  intros H Hc. unfold on_spawn. run_bind. run_bind. change (cap_bit CapSpawn) with CAP_SPAWN.
  destruct (_ =? 0) eqn:E; zbool; [done|]. cbn [negb].
  destruct (spawnable_image selector) as [image|] eqn:Es; [|done].
  destruct (spawnable_image_at _ _ Es) as [im Hi]. pose proof (proj2 (proj2 H)) as Hs. run_bind.
  unfold get_image. rewrite Hi. run_bind.
  destruct (position _ _) as [child|] eqn:Ep.
  - exists im, (fresh_slot image im (Z.land (Z.land requested (caps s)) (im_caps im)) pid). cbn [fresh_slot state KState.image parent caps].
    rewrite land_idem_r. split_and!; try done.
    erewrite bind_val by (by apply enqueue_run). cbv beta iota.
    erewrite bind_val by (by eapply emit_spawn_run). done.
  - unfold enqueue. rewrite bind_assoc. run_bind. rewrite Ep. done.
Qed.

(** C21: spawn grants exactly the intersection. A payload that may spawn gets,
    for a valid selector and a free slot, one pending child in the first free
    slot with itself as parent and with the capabilities requested, held by the
    parent and allowed to the image, no more and no less; the event reports the
    same three sets and whether any was cut. A full table gives EAGAIN and an
    unknown selector EINVAL, with no effect. *)
Theorem spawn_grants (k : K) (pid : Z) (s : Slot) (selector requested : Z) :
  running k pid s -> Z.land (caps s) CAP_SPAWN <> 0 ->
  match spawnable_image selector, position (has_state EMPTY) (table (pay k)) with
  | None, _ => on_spawn selector requested k = (Val EINVAL, k)
  | Some _, None => on_spawn selector requested k = (Val EAGAIN, k)
  | Some image, Some child => exists im new,
      image_at image = Some im /\ state new = PENDING /\ KState.image new = image /\ parent new = pid /\
      caps new = Z.land (Z.land requested (caps s)) (im_caps im) /\
      on_spawn selector requested k =
      (Val child,
       sent (frame_bytes (spawn_event (next_id k) pid child (im_name im) (caps s) requested (caps new)))
            (numbered (stored child new k)))
  end.
Proof. apply spawn_run. Qed.

(** ** Output *)

Definition output_event (ev pid caused_by n : Z) (buf : bytes) : bytes :=
  js "{'id':" ++ dec ev ++ js ",'type':'payload_output','pid':" ++ dec pid ++
  js ",'untrusted':true,'caused_by':" ++ dec caused_by ++ js ",'len':" ++ dec n ++ js ",'data':'" ++
  text (write_json_escaped_bytes buf) ++ js "'}".

Lemma copy_length (m : mem) (root va len : Z) (buf : bytes) : 0 <= len ->
  copy_from_user m root va len = Some buf -> Z.of_nat (length buf) = len.
Proof. intros Hl H. by apply (copy_loop_sound (Z.to_nat len) m root va 0 len) in H as [? _]. Qed.

Lemma output_fits (buf : bytes) (a b c d : Z) : (length buf <= 256)%nat ->
  (length (output_event a b c d buf) <= CAPACITY)%nat.
Proof.
  intros Hl. pose proof (escaped_length json_escape_raw buf escape_raw_ok) as He.
  rewrite <- escaped_bytes_text in He. unfold output_event. text_bound. unfold CAPACITY. lia.
Qed.

(** [sys_write] by a payload that may write, run. *)
Lemma write_run (k : K) (pid : Z) (s : Slot) (ptr len : Z) :
  running k pid s -> Z.land (caps s) CAP_WRITE <> 0 -> root s <> 0 -> 0 <= len ->
  let n := Z.min len 256 in
  match copy_from_user (pmem (pool k)) (root s) ptr n with
  | None => sys_write ptr len k = (Val EFAULT, k)
  | Some buf =>
      Z.of_nat (length buf) = n /\
      sys_write ptr len k =
      (Val n, sent (frame_bytes (output_event (next_id k) pid (start_event s) n buf)) (numbered k))
  end.
Proof.
  intros H Hc Hr Hl n. unfold sys_write. run_bind. change (cap_bit CapWrite) with CAP_WRITE.
  destruct (Z.land _ _ =? 0) eqn:E; zbool; [done|]. cbn [negb].
  change (Z.min len WRITE_QUOTA) with n. unfold emit_output. rewrite bind_assoc. run_bind.
  destruct (root s =? 0) eqn:Er; zbool; [done|]. rewrite bind_assoc.
  rewrite (bind_val (in_bounds _) _ k k tt) by (apply in_bounds_run, Z.leb_le, Z.le_min_r). rewrite bind_assoc. run_bind.
  replace (Z.min n WRITE_QUOTA) with n by (unfold WRITE_QUOTA; lia).
  destruct (copy_from_user _ _ _ _) as [buf|] eqn:Eb; [|done].
  assert (0 <= n) as Hn by lia. pose proof (copy_length _ _ _ _ _ Hn Eb) as Hb. split; [done|].
  rewrite bind_assoc. run_bind. rewrite bind_assoc. run_bind. rewrite (proj2 (proj2 H)).
  rewrite bind_assoc. run_bind. rewrite bind_assoc. erewrite bind_val; [reflexivity|].
  assert (forall w, text w = output_event (next_id k) pid (start_event s) n buf ->
    send w (numbered k) = (Val tt, sent (frame_bytes (output_event (next_id k) pid (start_event s) n buf)) (numbered k))) as Hs.
  { intros w Hw. rewrite send_run; rewrite Hw; [done|]. apply output_fits. lia. }
  apply Hs. cbn [text]. rewrite fmt_text. cbn [concat]. unfold output_event. by rewrite app_nil_r, <- !app_assoc.
Qed.

(** C36: a write is all or nothing within its quota. With the write capability
    the kernel takes at most 256 bytes; if the payload could read every one of
    them the result is that count and exactly one output event carrying them,
    which always fits its frame; otherwise the result is EFAULT, nothing is
    sent and no state changes. *)
Theorem write_quota (k : K) (pid : Z) (s : Slot) (ptr len : Z) :
  running k pid s -> Z.land (caps s) CAP_WRITE <> 0 -> root s <> 0 -> 0 <= len ->
  let n := Z.min len 256 in
  match copy_from_user (pmem (pool k)) (root s) ptr n with
  | None => sys_write ptr len k = (Val EFAULT, k)
  | Some buf =>
      Z.of_nat (length buf) = n /\
      sys_write ptr len k =
      (Val n, sent (frame_bytes (output_event (next_id k) pid (start_event s) n buf)) (numbered k))
  end.
Proof. apply write_run. Qed.

(** *** blit *)

(** The rows the payload could read, in order. *)
Fixpoint blit_read (n : nat) (m : mem) (space ptr w y : Z) : option (list bytes) :=
  match n with
  | O => Some []
  | S n' =>
      match copy_from_user m space (wrap64 (ptr + y * w)) w with
      | None => None
      | Some row => option_map (cons row) (blit_read n' m space ptr w (y + 1))
      end
  end.

Definition drawn (row : bytes) : bytes := x22 :: map shade row ++ [x22].

Lemma blit_row_text (row : bytes) : x22 :: text (drawn_row row) = drawn row.
Proof. by rewrite drawn_row_text. Qed.

Lemma blit_rows_text (n : nat) (m : mem) (space ptr w y sum : Z) : 0 <= y -> w <= BLIT_MAXW ->
  match blit_read n m space ptr w y with
  | None => blit_rows n m space ptr w y sum = BlitFault
  | Some rows => exists prog,
      blit_rows n m space ptr w y sum = BlitRows prog (fold_left fnv_step (concat rows) sum) /\
      text prog = if 0 <? y then concat (map (fun r => x2c :: drawn r) rows) else commas (map drawn rows)
  end.
Proof.
  intros Hy Hw. revert y sum Hy. induction n as [|n IH]; intros y sum Hy; cbn [blit_read blit_rows].
  - eexists. split; [done|]. by destruct (0 <? y).
  - rewrite (proj2 (Z.leb_le _ _) Hw). cbn [negb].
    destruct (copy_from_user m space (wrap64 (ptr + y * w)) w) as [row|]; [|done]. rewrite blit_row_drawn.
    specialize (IH (y + 1) (fold_left fnv_step row sum) ltac:(lia)).
    destruct (blit_read n m space ptr w (y + 1)) as [rows|]; cbn [option_map]; [|by rewrite IH].
    destruct IH as (prog & -> & Ht). eexists. split; [cbn [concat]; by rewrite fold_left_app|].
    cbn [text]. rewrite Ht. destruct (0 <? y + 1) eqn:E1; zbool; [|lia].
    cbn [map concat]. rewrite commas_cons, map_map.
    change (js "'") with [x22]. cbn [app]. rewrite <- blit_row_text. by destruct (0 <? y).
Qed.

Lemma blit_read_size (n : nat) (m : mem) (space ptr w y : Z) (rows : list bytes) : 0 <= w ->
  blit_read n m space ptr w y = Some rows ->
  length rows = n /\ Forall (fun r => Z.of_nat (length r) = w) rows.
Proof.
  intros Hw. revert y rows. induction n as [|n IH]; intros y rows; cbn [blit_read].
  - by intros [= <-].
  - destruct (copy_from_user _ _ _ _) as [row|] eqn:Ec; [|done].
    destruct (blit_read n m space ptr w (y + 1)) as [rest|] eqn:Er; [|done]. intros [= <-].
    destruct (IH _ _ Er) as [Hl Hf]. split; [cbn; lia|]. constructor; [|done].
    by apply (copy_length _ _ _ _ _ Hw Ec).
Qed.

Lemma drawn_length (row : bytes) : length (drawn row) = (length row + 2)%nat.
Proof.
  unfold drawn. cbn [length]. rewrite length_app, length_map. cbn [length]. lia.
Qed.

Lemma commas_length (l : list bytes) (n : nat) : Forall (fun x => (length x <= n)%nat) l ->
  (length (commas l) <= length l * (n + 1))%nat.
Proof.
  induction 1 as [|x l Hx Hl IH]; [done|]. rewrite commas_cons, length_app.
  assert (length (concat (map (fun y => x2c :: y) l)) <= length l * (n + 1))%nat as Hc.
  { clear IH. induction Hl as [|y l Hy Hl IH]; [done|]. cbn [map concat length app]. rewrite length_app. lia. }
  cbn [length]. lia.
Qed.

Definition frame_event (ev pid w h checksum : Z) (rows : list bytes) : bytes :=
  js "{'id':" ++ dec ev ++ js ",'type':'frame','pid':" ++ dec pid ++ js ",'untrusted':true,'w':" ++ dec w ++
  js ",'h':" ++ dec h ++ js ",'rows':[" ++ commas (map drawn rows) ++ js "],'checksum':'0x" ++
  hex checksum ++ js "'}".

Lemma frame_event_fits (rows : list bytes) (a b c d e : Z) :
  (length rows <= 24)%nat -> Forall (fun r => (length r <= 72)%nat) rows ->
  (length (frame_event a b c d e rows) <= CAPACITY)%nat.
Proof.
  intros Hl Hr. pose proof (commas_length (map drawn rows) 74) as Hc. rewrite length_map in Hc.
  assert (length (commas (map drawn rows)) <= length rows * 75)%nat as Hc'.
  { apply Hc, Forall_map, (Forall_impl _ _ _ Hr). intros r Hrl. cbv beta in *. rewrite drawn_length. lia. }
  unfold frame_event. text_bound. unfold CAPACITY. lia.
Qed.

(** A blit within bounds is never lost to its buffer. With the write
    capability and 1..72 by 1..24 pixels, the syscall answers EFAULT and sends
    nothing if some row is not readable by the payload; otherwise it sends
    exactly one frame event whose rows are the payload's pixels, one glyph
    each, with the FNV checksum of all of them, and returns 0. The overflow
    branch of the code is never taken. *)
Theorem blit_exact (k : K) (pid : Z) (s : Slot) (ptr w h : Z) :
  running k pid s -> Z.land (caps s) CAP_WRITE <> 0 -> root s <> 0 -> 0 < w <= 72 -> 0 < h <= 24 ->
  match blit_read (Z.to_nat h) (pmem (pool k)) (root s) ptr w 0 with
  | None => on_blit ptr w h k = (Val EFAULT, numbered k)
  | Some rows =>
      length rows = Z.to_nat h /\ Forall (fun r => Z.of_nat (length r) = w) rows /\
      on_blit ptr w h k =
      (Val 0, sent (frame_bytes (frame_event (next_id k) pid w h (fold_left fnv_step (concat rows) FNV_BASIS) rows))
                   (numbered k))
  end.
Proof.
  intros H Hc Hr Hw Hh. unfold on_blit. run_bind. change (cap_bit CapWrite) with CAP_WRITE.
  destruct (Z.land _ _ =? 0) eqn:E; zbool; [done|]. cbn [negb].
  destruct (_ || _) eqn:Ed; [unfold BLIT_MAXW, BLIT_MAXH in Ed; lia|]. clear Ed.
  run_bind. destruct (root s =? 0) eqn:Er; zbool; [done|]. do 3 run_bind. cbn [numbered pool].
  pose proof (blit_rows_text (Z.to_nat h) (pmem (pool k)) (root s) ptr w 0 FNV_BASIS ltac:(lia) (proj2 Hw)) as Ht.
  change (pool (numbered k)) with (pool k).
  destruct (blit_read _ _ _ _ _ _) as [rows|] eqn:Eb; [|by rewrite Ht].
  destruct (blit_read_size _ _ _ _ _ _ _ (Z.lt_le_incl _ _ (proj1 Hw)) Eb) as [Hl Hf]. split_and!; [done..|].
  destruct Ht as (prog & -> & Ht). cbn [Z.ltb Z.compare] in Ht.
  set (F := (_ +! _)%W). assert (text F = frame_event (next_id k) pid w h (fold_left fnv_step (concat rows) FNV_BASIS) rows) as EF.
  { unfold F. cbn [text]. rewrite !fmt_text, Ht. cbn [concat]. unfold frame_event. by rewrite !app_nil_r, <- !app_assoc. }
  assert (length (text F) <= CAPACITY)%nat as HF.
  { rewrite EF. apply frame_event_fits; [lia|]. apply (Forall_impl _ _ _ Hf). intros r. cbn. lia. }
  rewrite build_fits by done. cbn [overflowed overflow].
  erewrite bind_val by (by apply send_run). by rewrite EF.
Qed.

(** *** frame_rgb *)

Definition chunk_event (ev pid seq n : Z) (buf : bytes) : bytes :=
  js "{'id':" ++ dec ev ++ js ",'type':'fbchunk','pid':" ++ dec pid ++ js ",'untrusted':true,'seq':" ++ dec seq ++
  js ",'n':" ++ dec n ++ js ",'data':'" ++ text (write_base64 buf) ++ js "'}".

Lemma dec_small (n : Z) : 0 <= n < 1500 -> (length (dec n) <= if (n <? 12)%Z then 2 else 4)%nat.
Proof.
  intros Hn. assert (forallb (fun n => (length (dec n) <=? if (n <? 12)%Z then 2 else 4)%nat) (seqZ 0 1500) = true) as Hall
    by (vm_compute; reflexivity).
  rewrite forallb_forall in Hall. apply Nat.leb_le, Hall, list_elem_of_In, elem_of_seqZ. lia.
Qed.

Lemma chunk_event_fits (buf : bytes) (ev pid seq : Z) : 0 <= pid < 12 -> (length buf <= 1440)%nat ->
  (length (chunk_event ev pid seq (Z.of_nat (length buf)) buf) <= CAPACITY)%nat.
Proof.
  intros Hp Hl. pose proof (base64_length buf) as Hb.
  pose proof (dec_small pid ltac:(lia)) as Hd. destruct (pid <? 12) eqn:Ep; zbool; [|lia].
  pose proof (dec_small (Z.of_nat (length buf)) ltac:(lia)) as Hn.
  assert (length (dec (Z.of_nat (length buf))) <= 4)%nat as Hn' by (destruct (_ <? 12); lia).
  assert (length (text (write_base64 buf)) <= 1920)%nat as Hb'.
  { assert ((Z.of_nat (length buf) + 2) / 3 <= 480); [|lia]. dlia. }
  unfold chunk_event. text_bound. unfold CAPACITY. lia.
Qed.

(** A pixel chunk is never lost to its buffer. In reactive mode, with the
    write capability and 1..1440 readable bytes, [frame] sends exactly one
    event with their base64 and returns 0, for every event id and sequence
    number; unreadable bytes give EFAULT, a bad length EINVAL, and in
    autonomous mode nothing is sent at all. *)
Theorem frame_chunk_exact (k : K) (pid : Z) (s : Slot) (ptr len seq : Z) :
  running k pid s -> Z.land (caps s) CAP_WRITE <> 0 -> root s <> 0 ->
  length (table (pay k)) = MAX_PROC -> 0 <= len ->
  on_frame_rgb ptr len seq k =
  if autonomous (traps k) then (Val 0, k)
  else if (len =? 0) || (1440 <? len) then (Val EINVAL, k)
  else match copy_from_user (pmem (pool k)) (root s) ptr len with
       | None => (Val EFAULT, k)
       | Some buf => (Val 0, sent (frame_bytes (chunk_event (next_id k) pid seq len buf)) (numbered k))
       end.
Proof.
  intros H Hc Hr Ht Hl. unfold on_frame_rgb. run_bind. change (cap_bit CapWrite) with CAP_WRITE.
  destruct (Z.land _ _ =? 0) eqn:E; zbool; [done|]. cbn [negb]. run_bind.
  destruct (autonomous (traps k)); [done|]. change FB_CHUNK with 1440.
  destruct (_ || _) eqn:Ed; [done|]. zbool. run_bind.
  destruct (root s =? 0) eqn:Er; zbool; [done|].
  rewrite (bind_val (in_bounds _) _ k k tt) by (apply in_bounds_run; unfold FB_CHUNK; lia). run_bind.
  destruct (copy_from_user _ _ _ _) as [buf|] eqn:Eb; [|done].
  pose proof (copy_length _ _ _ _ _ Hl Eb) as Hb. do 2 run_bind.
  pose proof (running_range _ _ _ H) as Hp. rewrite Ht in Hp. change (Z.of_nat MAX_PROC) with 12 in Hp.
  set (F := (_ +! _)%W). assert (text F = chunk_event (next_id k) pid seq len buf) as EF.
  { unfold F. cbn [text]. rewrite !fmt_text. cbn [concat]. unfold chunk_event. by rewrite !app_nil_r, <- !app_assoc. }
  assert (length (text F) <= CAPACITY)%nat as HF.
  { rewrite EF, <- Hb. apply chunk_event_fits; lia. }
  rewrite build_fits by done. cbn [overflowed overflow].
  erewrite bind_val by (by apply send_run). by rewrite EF.
Qed.

(** ** Exit, deadlines *)

(** The deadline is exact. On a tick the running payload is killed, with
    one event, exactly when it has a deadline and more time units than that
    have passed since it started; in every other case the tick changes nothing
    but the clock. *)
Theorem deadline_exact (k k1 : K) (pid : Z) (s : Slot) (now : Z) :
  running k pid s -> read_time k = (Val now, k1) ->
  on_tick k =
  if has_state RUNNING s && negb (deadline s =? 0) then
    if deadline s <? saturating_sub now (started_at s) then
      let k2 := stored pid (with_state KILLED s) k1 in
      (Val true, sent (frame_bytes (concat
         [js "{'id':"; dec (next_id k); js ",'type':'payload_killed','pid':"; dec pid;
          js ",'reason':'deadline','elapsed':"; dec (saturating_sub now (started_at s)); js ",'deadline':";
          dec (deadline s); js ",'caused_by':"; dec (start_event s); js "}"])) (numbered k2))
    else (Val false, k1)
  else (Val false, k).
Proof.
  intros H Hr. unfold on_tick. run_bind. pose proof (proj2 (proj2 H)) as Hs. run_bind.
  destruct (has_state RUNNING s); [|done]. cbn [negb andb]. destruct (deadline s =? 0); [done|]. cbn [negb].
  erewrite bind_val by exact Hr. cbv beta.
  destruct (deadline s <? _); [|done].
  assert (pay k1 = pay k /\ next_id k1 = next_id k) as [Ep Ei].
  { unfold read_time in Hr. destruct (hw_dt (hw k)); by injection Hr as _ <-. }
  assert (slot_at pid k1 = Some s) as Hs1 by (rewrite <- Hs; apply slot_at_same; by rewrite Ep).
  run_bind. unfold emit_killed. rewrite bind_assoc. run_bind. rewrite bind_assoc.
  assert (slot_at pid (numbered (stored pid (with_state KILLED s) k1)) = Some (with_state KILLED s)) as Hs2
    by (by eapply slot_at_stored). run_bind.
  erewrite bind_val; [reflexivity|]. change (next_id (stored pid (with_state KILLED s) k1)) with (next_id k1). rewrite Ei. rewrite send_run.
  - by rewrite fmt_text.
  - text_bound. unfold CAPACITY. lia.
Qed.
End SyscallProofs.

(** ** Instances *)

Section Instances.
#[local] Existing Instance demo_build.

Lemma capability_gate_witness : exists k',
  dispatch (demo_call SYS_WRITE 0x10000) (demo_k demo_loaded [] 0 (demo_slot RUNNING CAP_YIELD)) = (Val (Resume ENOCAP), k').
Proof.
  eexists. refine (capability_gate _ _ 0 (demo_slot RUNNING CAP_YIELD) CapWrite (lit "write") (lit "write") (demo_running _ _ _ _) _ _);
    reflexivity.
Defined.

Lemma spawn_grants_witness : exists new k',
  caps new = CAP_WRITE /\
  on_spawn 0 (Z.lor CAP_WRITE CAP_SPAWN) (demo_k demo_loaded [] 0 (demo_slot RUNNING (Z.lor CAP_WRITE CAP_SPAWN))) = (Val 1, k').
Proof.
  destruct (spawn_grants (demo_k demo_loaded [] 0 (demo_slot RUNNING (Z.lor CAP_WRITE CAP_SPAWN))) 0 _ 0 (Z.lor CAP_WRITE CAP_SPAWN)
    (demo_running _ _ _ _) ltac:(discriminate)) as (im & new & Hi & _ & _ & _ & Hc & H).
  injection Hi as <-. eexists new, _. split; [exact Hc|exact H].
Defined.

Lemma write_quota_witness : exists k',
  sys_write 0x10000 4 (demo_k demo_loaded [] 0 (demo_slot RUNNING CAP_WRITE)) = (Val 4, k').
Proof.
  pose proof (write_quota (demo_k demo_loaded [] 0 (demo_slot RUNNING CAP_WRITE)) 0 _ 0x10000 4
    (demo_running _ _ _ _) ltac:(discriminate) ltac:(discriminate) ltac:(lia)) as H. cbv zeta in H.
  assert (copy_from_user (pmem demo_loaded) POOL_BASE 0x10000 (Z.min 4 256) = Some [x7f; x45; x4c; x46]) as E
    by (vm_compute; reflexivity).
  cbn [root demo_slot pool demo_k] in H. rewrite E in H. destruct H as [_ H]. eexists. exact H.
Defined.

Lemma blit_exact_witness : exists k',
  on_blit 0x10000 2 2 (demo_k demo_loaded [] 0 (demo_slot RUNNING CAP_WRITE)) = (Val 0, k').
Proof.
  pose proof (blit_exact (demo_k demo_loaded [] 0 (demo_slot RUNNING CAP_WRITE)) 0 _ 0x10000 2 2
    (demo_running _ _ _ _) ltac:(discriminate) ltac:(discriminate) ltac:(lia) ltac:(lia)) as H.
  assert (blit_read (Z.to_nat 2) (pmem demo_loaded) POOL_BASE 0x10000 2 0 = Some [[x7f; x45]; [x4c; x46]]) as E
    by (vm_compute; reflexivity).
  cbn [root demo_slot pool demo_k] in H. rewrite E in H. destruct H as (_ & _ & H). eexists. exact H.
Defined.

Lemma frame_chunk_exact_witness : exists k',
  on_frame_rgb 0x10000 4 9 (demo_k demo_loaded [] 0 (demo_slot RUNNING CAP_WRITE)) = (Val 0, k').
Proof.
  pose proof (frame_chunk_exact (demo_k demo_loaded [] 0 (demo_slot RUNNING CAP_WRITE)) 0 _ 0x10000 4 9
    (demo_running _ _ _ _) ltac:(discriminate) ltac:(discriminate) eq_refl ltac:(lia)) as H.
  assert (copy_from_user (pmem demo_loaded) POOL_BASE 0x10000 4 = Some [x7f; x45; x4c; x46]) as E
    by (vm_compute; reflexivity).
  cbn [root demo_slot pool demo_k] in H. rewrite E in H. eexists. exact H.
Defined.

Lemma deadline_exact_witness : exists k',
  on_tick (demo_k demo_loaded [] 151 (demo_slot RUNNING CAP_WRITE)) = (Val true, k') /\
  on_tick (demo_k demo_loaded [] 150 (demo_slot RUNNING CAP_WRITE)) = (Val false, demo_k demo_loaded [] 150 (demo_slot RUNNING CAP_WRITE)).
Proof.
  eexists. split.
  - exact (deadline_exact _ _ 0 _ 151 (demo_running _ _ _ _) eq_refl).
  - exact (deadline_exact _ _ 0 _ 150 (demo_running _ _ _ _) eq_refl).
Defined.
End Instances.
