(* ===== verification/PreemptProofs.v ===== *)
(** * Preemption and dispatch (kernel/src/payload.rs, kernel/src/traps.rs)

    What a preempted payload gets back, how a trap leaves a payload, and what
    the operator verbs may touch. *)

From S2P Require Import Prelude Hal Frames Mm Console RpcJson KState Traps TrapsProofs Payload Syscall Handler Rpc Sched KRun Elf ElfProofs Demo.

Section PreemptProofs.
Context {B : Build}.

(** ** Preemption *)

Lemma set_a0_id (f : TrapFrame) : length (regs f) = 31%nat -> set_a0 (a0 f) f = f.
Proof.
  intros Hl. unfold set_a0, a0, reg, with_regs. destruct f as [rs pc st]. cbn in *. f_equal.
  apply list_insert_id. destruct (lookup_lt_is_Some_2 rs X_A0) as [v Hv]; [unfold X_A0; lia|].
  by rewrite nth_lookup, Hv.
Qed.

Lemma frame_a0_ok (f : TrapFrame) : frame_ok f -> u64_ok (a0 f).
Proof.
  intros (Hl & Hr & _). unfold a0, reg. rewrite Forall_lookup in Hr.
  destruct (lookup_lt_is_Some_2 (regs f) X_A0) as [v Hv]; [unfold X_A0; lia|].
  rewrite nth_lookup, Hv. by eapply Hr.
Qed.

Lemma frame_addr_nonzero (pa : Z) : frame_addr pa -> pa <> 0.
Proof. intros [H _]. unfold POOL_BASE in H. lia. Qed.

(** The frame a preempted payload is saved in, and the slot that names it. *)
Lemma resume_slot_frame_run (k : K) (pid : Z) (s : Slot) (rf : Z) (k1 : K) :
  slot_at pid k = Some s -> pool_ok (pool k) -> resume_frame s = 0 \/ frame_addr (resume_frame s) ->
  resume_slot_frame pid k = (Val (Some rf), k1) ->
  frame_addr rf /\ slot_at pid k1 = Some (with_resume_frame rf s) /\
  pay k1 = (if resume_frame s =? 0 then pay (stored pid (with_resume_frame rf s) k) else pay k) /\
  hw k1 = hw k /\ next_id k1 = next_id k.
Proof.
  intros Hs Hok Hrf. unfold resume_slot_frame. run_bind. destruct (resume_frame s =? 0) eqn:E; cbn [negb]; zbool.
  - unfold pooled at 1, bind at 1. destruct (alloc (pool k)) as [[f|] p] eqn:Ea; [|done].
    erewrite bind_val by (by apply upd_slot_run). intros [= <- <-].
    pose proof (alloc_loop_some _ _ _ _ _ _ Hok Ea) as (Hf & _). split; [done|]. split; [|done].
    by eapply (slot_at_stored pid _ s (with_pool p k)).
  - intros [= <- <-]. split; [|split]; [tauto| |done]. rewrite Hs. f_equal. by destruct s.
Qed.

Lemma load_frame_ext (m m' : mem) (pa : Z) : (forall a, pa <= a < pa + 264 -> m a = m' a) ->
  load_frame m pa = load_frame m' pa.
Proof.
  intros H. unfold load_frame. f_equal.
  - apply map_ext_in. intros i Hi. apply list_elem_of_In, elem_of_seqZ in Hi. f_equal.
    apply load_ext. intros a Ha. apply H. lia.
  - f_equal. apply load_ext. intros a Ha. apply H. lia.
  - f_equal. apply load_ext. intros a Ha. apply H. lia.
Qed.

(** The slot of a preempted payload while it waits. *)
Definition parked (rf : Z) (s : Slot) : Slot :=
  with_state PENDING (with_preempted true (with_resume_frame rf s)).

Lemma maybe_preempt_run (k : K) (pid : Z) (s : Slot) (f : TrapFrame) (k1 : K) :
  running k pid s -> pool_ok (pool k) -> resume_frame s = 0 \/ frame_addr (resume_frame s) ->
  frame_ok f -> maybe_preempt f k = (Val true, k1) ->
  exists rf, frame_addr rf /\ state s = RUNNING /\ slot_at pid k1 = Some (parked rf s) /\
    load_frame (pmem (pool k1)) rf = f.
Proof.
  intros H Hok Hrf Hf. unfold maybe_preempt. run_bind. pose proof (proj2 (proj2 H)) as Hs. run_bind.
  unfold has_state. case_bool_decide as Hst; cbn [negb]; [|done].
  destruct (_ && _); [done|].
  unfold console_getchar at 1, bind at 1. destruct (hw_in (hw k)) as [|[b|] ins]; [done| |done].
  set (k0 := on_hw _ k). run_bind.
  match goal with |- context [bind (resume_slot_frame pid) _ ?x] => set (k2 := x) end.
  unfold bind at 1. destruct (resume_slot_frame pid k2) as [[[rf|]|x] k3] eqn:E; [|done..].
  assert (slot_at pid k2 = Some s) as Hs2 by done.
  destruct (resume_slot_frame_run k2 pid s rf k3 Hs2 Hok Hrf E) as (Hfa & Hs3 & _).
  run_bind. match goal with |- context [bind (upd_slot pid (with_preempted true)) _ ?x] => set (k4 := x) end.
  assert (slot_at pid k4 = Some (with_resume_frame rf s)) as Hs4 by done. run_bind.
  pose proof (slot_at_stored pid (with_preempted true (with_resume_frame rf s)) _ _ Hs4) as Hs5. run_bind.
  pose proof (slot_at_stored pid (parked rf s) _ _ Hs5) as Hs6. fold (parked rf s).
  unfold emit_sched_preempt. rewrite bind_assoc. run_bind. rewrite bind_assoc. run_bind.
  match goal with |- context [send ?w] => set (F := w) end.
  erewrite bind_val.
  2:{ apply send_run. unfold F. text_bound. unfold CAPACITY. lia. }
  intros [= <-]. exists rf. split_and!; [done..|].
  change (load_frame (pmem (save_frame_to f rf (a0 f) (pool k3))) rf = f).
  rewrite save_load_frame by (try done; by apply frame_a0_ok). apply set_a0_id, Hf.
Qed.

(** Resuming from a saved frame is one [XResume], and for a preempted payload
    nothing is announced and its clock is not restarted. *)
Lemma start_parked (k : K) (pid rf : Z) (s : Slot) :
  slot_at pid k = Some (parked rf s) -> rf <> 0 -> hw_irq (hw k) = [] ->
  exists k', start pid k = (Exit (XResume (satp_of (root s)) rf), k') /\
    slot_at pid k' = Some (with_state RUNNING (with_preempted false (with_resume_frame rf s))) /\
    current (pay k') = pid /\ pool k' = pool k /\ hw k' = hw k /\ next_id k' = next_id k.
Proof.
  intros Hs Hrf Hirq. unfold start. run_bind. change (resume_frame (parked rf s)) with rf.
  destruct (rf =? 0) eqn:E; zbool; [done|]. cbn [negb]. unfold start_saved. run_bind.
  change (preempted (parked rf s)) with true. cbv iota. do 2 run_bind.
  assert (forall k'', hw k'' = hw k -> irq_point k'' = (Val tt, k'')) as Hp.
  { intros k'' Eh. unfold irq_point. by rewrite Eh, Hirq. }
  erewrite bind_val by (apply Hp; reflexivity). run_bind.
  erewrite bind_val by (apply Hp; reflexivity). eexists. split; [reflexivity|].
  split_and!; try done. exact (slot_at_stored pid _ _ k Hs).
Qed.

(** C23: preemption is invisible to the payload. When a tick preempts the
    running payload to serve the console, its whole context is saved: from any
    later state that left its slot and its saved frame alone, and in which no
    interrupt is pending when it is dispatched, the scheduler resumes it under
    its own address space with exactly the registers, program counter and status
    it had at the tick, with no new start event and the deadline clock still
    running from its original start. The condition is needed: a tick that
    preempts inside the dispatch saves the kernel's frame over the payload's
    ([preempt_in_start_resumes_kernel] in [Traces]). *)
Theorem preempt_transparent (k k1 : K) (pid : Z) (s : Slot) (f : TrapFrame) :
  running k pid s -> pool_ok (pool k) -> resume_frame s = 0 \/ frame_addr (resume_frame s) -> frame_ok f ->
  maybe_preempt f k = (Val true, k1) ->
  exists rf, frame_addr rf /\ forall k2,
    slot_at pid k2 = slot_at pid k1 -> (forall a, rf <= a < rf + 264 -> pmem (pool k2) a = pmem (pool k1) a) ->
    hw_irq (hw k2) = [] ->
    exists k', start pid k2 = (Exit (XResume (satp_of (root s)) rf), k') /\
      load_frame (pmem (pool k')) rf = f /\ current (pay k') = pid /\
      slot_at pid k' = Some (with_state RUNNING (with_preempted false (with_resume_frame rf s))) /\
      hw_out (hw k') = hw_out (hw k2) /\ next_id k' = next_id k2.
Proof.
  intros H Hok Hrf Hf Hm.
  destruct (maybe_preempt_run _ _ _ _ _ H Hok Hrf Hf Hm) as (rf & Hfa & _ & Hs1 & Hl).
  exists rf. split; [done|]. intros k2 Hs2 Hmem Hirq.
  rewrite Hs1 in Hs2. destruct (start_parked _ _ _ _ Hs2 (frame_addr_nonzero _ Hfa) Hirq) as (k' & Hst & Hs' & Hc & Hp & Hh & Hi).
  exists k'. rewrite Hp, Hh, (load_frame_ext _ (pmem (pool k1))) by done. done.
Qed.
End PreemptProofs.

(** ** Instances *)

Section Instances.
#[local] Existing Instance demo_build.

(** A payload caught by a tick while a byte waits on the console. *)
Definition caught : K := demo_k (pool_init (fun _ => x00)) [Some x72] 120 (demo_slot RUNNING CAP_WRITE).

Lemma preempt_transparent_witness : exists rf k1 k',
  maybe_preempt demo_frame caught = (Val true, k1) /\
  start 0 k1 = (Exit (XResume (satp_of POOL_BASE) rf), k') /\ load_frame (pmem (pool k')) rf = demo_frame.
Proof.
  assert (fst (maybe_preempt demo_frame caught) = Val true) as Ev by (vm_compute; reflexivity).
  assert (hw_irq (hw (snd (maybe_preempt demo_frame caught))) = []) as Eq by (vm_compute; reflexivity).
  destruct (maybe_preempt demo_frame caught) as [r k1] eqn:E. cbn [fst snd] in *. subst r.
  destruct (preempt_transparent caught k1 0 (demo_slot RUNNING CAP_WRITE) demo_frame) as (rf & _ & H).
  - apply demo_running.
  - apply pool_init_ok.
  - left. reflexivity.
  - split; [reflexivity|]. split; [|vm_compute; repeat split; discriminate].
    cbn. repeat constructor; vm_compute; discriminate.
  - exact E.
  - destruct (H k1 eq_refl ltac:(done) Eq) as (k' & H1 & H2 & _). exists rf, k1, k'. done.
Defined.
End Instances.
