(* ===== verification/HandlerProofs.v ===== *)
(** * Faults and traps (kernel/src/traps.rs)

    Every fault produces exactly one report, a payload's fault is contained in
    its own slot, and a kernel fault ends the machine. *)

From S2P Require Import Prelude Hal Frames Mm Console RpcJson KState Traps TrapsProofs Payload Syscall Handler Rpc Sched KRun Elf ElfProofs Demo.

Section HandlerProofs.
Context {B : Build}.

(** ** The report *)

(** The page walk a report shows: only for a payload's page faults. *)
Definition fault_walk (k : K) (o : option Slot) (scause stval : Z) : wprog :=
  match o with
  | Some s =>
      if (scause =? 12) || (scause =? 13) || (scause =? 15)
      then write_pagewalk (if root s =? 0 then None else Some (walk (pmem (pool k)) (root s) stval))
      else Put (lit "null")
  | None => Put (lit "null")
  end.

Definition classic_line (frame : TrapFrame) (scause stval : Z) (who : bytes) : bytes :=
  lit "[FAULT] " ++ who ++ lit " " ++ cause_name scause ++ lit " pc=0x" ++ hex (sepc frame) ++
  lit " stval=0x" ++ hex stval ++ lit " ra=0x" ++ hex (x_ frame 1) ++ lit " sp=0x" ++ hex (x_ frame 2) ++ [x0a].

(** What goes over the wire for a fault: the classic line, the rich frame, or
    the minimal frame when the rich one does not fit. *)
Definition fault_burst (k : K) (frame : TrapFrame) (id scause stval : Z) (o : option (Z * Slot)) : bytes :=
  if classic_surface (traps k)
  then classic_line frame scause stval (match o with Some _ => lit "payload" | None => lit "kernel" end)
  else
    let pid := option_map fst o in
    let rich := text (fault_frame (traps k) frame id scause stval pid (option_map (fun '(_, s) => start_event s) o)
                        (fault_walk k (option_map snd o) scause stval)) in
    frame_bytes (if (length rich <=? CAPACITY)%nat then rich
                 else text (fault_minimal frame id scause stval pid)).

Lemma cause_name_length (c : Z) : (length (cause_name c) <= 30)%nat.
Proof.
  unfold cause_name. repeat match goal with |- context [if ?b then _ else _] => destruct b end; vm_compute; lia.
Qed.

Lemma fault_minimal_fits (frame : TrapFrame) (id scause stval : Z) (pid : option Z) :
  (length (text (fault_minimal frame id scause stval pid)) <= CAPACITY)%nat.
Proof.
  pose proof (cause_name_length scause). unfold fault_minimal, fault_origin.
  destruct pid; text_bound; unfold CAPACITY; lia.
Qed.

Lemma fault_burst_nonempty (k : K) (frame : TrapFrame) (id scause stval : Z) (o : option (Z * Slot)) :
  fault_burst k frame id scause stval o <> [].
Proof. unfold fault_burst. by destruct (classic_surface (traps k)). Qed.

Lemma emit_fault_payload (k : K) (pid : Z) (s : Slot) (frame : TrapFrame) (id scause stval : Z) :
  running k pid s ->
  emit_fault frame id scause stval (Some pid) k = (Val tt, sent (fault_burst k frame id scause stval (Some (pid, s))) k).
Proof.
  intros H. unfold emit_fault, fault_burst. run_bind. destruct (classic_surface (traps k)); [done|].
  run_bind. cbn [andb]. unfold fault_walk. cbn [option_map snd fst].
  destruct (_ || _).
  - rewrite bind_assoc. unfold current_pagewalk. rewrite bind_assoc. run_bind. rewrite bind_assoc. do 2 run_bind.
    rewrite (bind_val (ret _) _ _ _ _ eq_refl).
    cbv beta zeta. rewrite send_or by apply fault_minimal_fits. by destruct (root s =? 0).
  - run_bind. by rewrite send_or by apply fault_minimal_fits.
Qed.

Lemma emit_fault_kernel (k : K) (frame : TrapFrame) (id scause stval : Z) :
  (exists pid s, running k pid s) \/ current (pay k) = NO_PID ->
  emit_fault frame id scause stval None k = (Val tt, sent (fault_burst k frame id scause stval None) k).
Proof.
  intros H. unfold emit_fault, fault_burst. run_bind. destruct (classic_surface (traps k)); [done|].
  assert (exists c, current_cause k = (Val c, k)) as [c Hc].
  { destruct H as [(pid & s & H)|H]; [eexists; by eapply current_cause_run|].
    exists None. unfold current_cause, current_pid, bind, gets. by rewrite H. }
  rewrite (bind_val _ _ _ _ _ Hc). cbv beta zeta. cbn [andb]. run_bind.
  by rewrite send_or by apply fault_minimal_fits.
Qed.

(** ** Leaving a payload *)

(** The frame [sret] uses to enter the scheduler. *)
Definition to_scheduler (f : TrapFrame) : TrapFrame :=
  set_sp boot_stack_top
    (mkFrame (regs f) scheduler_resume_pc (Z.lor (Z.lor (sstatus f) SSTATUS_SPP) SSTATUS_SPIE)).

Definition vacated (k : K) : K := on_pay (with_current NO_PID) k.

Lemma redirect_run (f : TrapFrame) (k : K) : redirect_to_scheduler f k = (Val (to_scheduler f), vacated k).
Proof. done. Qed.

(** A property of frames that the handler's edits keep holds of what it returns. *)
Lemma handle_yields (P : TrapFrame -> Prop) (sc st : Z) (f : TrapFrame) : P f -> (forall g, P g -> P (advance_past_ecall g)) ->
  (forall v g, P g -> P (set_a0 (as_u64 v) g)) -> (forall g, P g -> P (to_scheduler g)) -> yields (handle sc st f) P.
Proof.
  intros H0 H1 H2 H3. assert (Hr : forall g, P g -> yields (redirect_to_scheduler g) P) by (intros g Hg k v; rewrite redirect_run; intros [= <-]; by apply H3).
  unfold handle, handle_tick, handle_ecall, handle_fault. cbv zeta.
  repeat first [ apply yields_bind; intros ? | apply yields_stop | apply Hr; auto | apply yields_ret; auto
    | match goal with |- yields (match ?x with _ => _ end) _ => destruct x end ].
Qed.

Lemma spp_set (st : Z) : Z.land (Z.lor (Z.lor st SSTATUS_SPP) SSTATUS_SPIE) SSTATUS_SPP <> 0.
Proof.
  intros H. apply (f_equal (fun z => Z.testbit z 8)) in H. rewrite Z.land_spec, !Z.lor_spec in H.
  change (Z.testbit SSTATUS_SPP 8) with true in H. by rewrite orb_true_r in H.
Qed.

Lemma sret_scheduler (f : TrapFrame) : sret (to_scheduler f) = CRun.
Proof.
  unfold sret, is_from_user, to_scheduler, set_sp. cbn [sstatus with_regs].
  destruct (_ =? 0) eqn:E; zbool; [by apply spp_set in E|]. cbn [sepc]. by rewrite Z.eqb_refl.
Qed.

(** The state once a trap has its event id and its place in the ring. *)
Definition recorded_trap (scause stval : Z) (f : TrapFrame) (k : K) : K :=
  on_traps (ring_record (next_id k) scause (sepc f) stval) (numbered k).

(** A fault trap out of a payload, run. *)
Lemma fault_run (k : K) (pid : Z) (s : Slot) (f : TrapFrame) (scause stval : Z) :
  running k pid s -> is_from_user f = true -> scause <> CAUSE_S_TIMER -> scause <> CAUSE_U_ECALL ->
  let k1 := recorded_trap scause stval f k in
  let burst := fault_burst k1 f (next_id k) scause stval (Some (pid, s)) in
  handle scause stval f k = (Val (to_scheduler f), vacated (stored pid (with_state FAULTED s) (sent burst k1))) /\
  burst <> [] /\ sret (to_scheduler f) = CRun.
Proof.
  intros H Hu Ht He k1 burst. split; [|split; [apply fault_burst_nonempty|apply sret_scheduler]].
  unfold handle. do 2 run_bind. fold (recorded_trap scause stval f k). fold k1.
  destruct (scause =? CAUSE_S_TIMER) eqn:E1; zbool; [done|].
  destruct (scause =? CAUSE_U_ECALL) eqn:E2; zbool; [done|].
  assert (running k1 pid s) as H1 by (by apply (running_same k)).
  unfold handle_fault. rewrite Hu. run_bind.
  erewrite bind_val by (by apply emit_fault_payload). cbv beta. fold burst.
  assert (running (sent burst k1) pid s) as H2 by (by apply (running_same k1)).
  unfold mark_faulted. rewrite bind_assoc. run_bind. pose proof (proj2 (proj2 H2)) as Hs. run_bind.
  apply redirect_run.
Qed.

(** C22: a payload's fault is contained. A fault trap out of the running
    payload costs one event id, one ring entry and exactly one report, rich or
    minimal but never silent; it marks that payload's slot FAULTED and nothing
    else in the table, leaves the frame pool untouched, and returns to the
    scheduler in supervisor mode on the boot stack with no payload current. *)
Theorem fault_contained (k : K) (pid : Z) (s : Slot) (f : TrapFrame) (scause stval : Z) :
  running k pid s -> is_from_user f = true -> scause <> CAUSE_S_TIMER -> scause <> CAUSE_U_ECALL ->
  let k1 := recorded_trap scause stval f k in
  let burst := fault_burst k1 f (next_id k) scause stval (Some (pid, s)) in
  handle scause stval f k = (Val (to_scheduler f), vacated (stored pid (with_state FAULTED s) (sent burst k1))) /\
  burst <> [] /\ sret (to_scheduler f) = CRun.
Proof. apply fault_run. Qed.

(** A fault in the kernel is fatal and reported. A fault trap taken in
    supervisor mode sends exactly one report with the kernel as its origin and
    shuts the machine down, whichever payload was current. *)
Theorem kernel_fault_fatal (k : K) (f : TrapFrame) (scause stval : Z) :
  (exists pid s, running k pid s) \/ current (pay k) = NO_PID ->
  is_from_user f = false -> scause <> CAUSE_S_TIMER -> scause <> CAUSE_U_ECALL ->
  let k1 := recorded_trap scause stval f k in
  let burst := fault_burst k1 f (next_id k) scause stval None in
  handle scause stval f k = (Exit XShutdown, sent burst k1) /\ burst <> [].
Proof.
  intros H Hu Ht He k1 burst. split; [|apply fault_burst_nonempty].
  unfold handle. do 2 run_bind. fold (recorded_trap scause stval f k). fold k1.
  destruct (scause =? CAUSE_S_TIMER) eqn:E1; zbool; [done|].
  destruct (scause =? CAUSE_U_ECALL) eqn:E2; zbool; [done|].
  unfold handle_fault. rewrite Hu. erewrite bind_val; [reflexivity|].
  apply emit_fault_kernel. destruct H as [(pid & s & H)|H]; [left|right; done]. exists pid, s. by apply (running_same k).
Qed.
End HandlerProofs.

(** ** Instances *)

Section Instances.
#[local] Existing Instance demo_build.

(** A load from an unmapped page. *)
Lemma fault_contained_witness : exists k',
  handle 13 0xdead000 demo_frame (demo_k demo_loaded [] 0 (demo_slot RUNNING CAP_WRITE)) =
  (Val (to_scheduler demo_frame), k') /\ sret (to_scheduler demo_frame) = CRun.
Proof.
  destruct (fault_contained (demo_k demo_loaded [] 0 (demo_slot RUNNING CAP_WRITE)) 0 _ demo_frame 13 0xdead000
    (demo_running _ _ _ _) eq_refl ltac:(discriminate) ltac:(discriminate)) as (H & _ & Hs).
  eexists. split; [exact H|exact Hs].
Defined.

Lemma kernel_fault_fatal_witness : exists k',
  handle CAUSE_ILLEGAL_INSTRUCTION 0 (with_sstatus SSTATUS_SPP demo_frame) (demo_k demo_loaded [] 0 (demo_slot RUNNING CAP_WRITE)) =
  (Exit XShutdown, k').
Proof.
  eexists. refine (proj1 (kernel_fault_fatal (demo_k demo_loaded [] 0 (demo_slot RUNNING CAP_WRITE)) (with_sstatus SSTATUS_SPP demo_frame) _ _ _ eq_refl _ _)).
  - left. eexists 0, _. apply demo_running.
  - discriminate.
  - discriminate.
Defined.
End Instances.
