(* ===== verification/UserlandProofs.v ===== *)
(** * The fixtures on the kernel

    What the acceptance payloads observe and what the operator sees of them,
    end to end: from [pmain] through the runtime's shims, the trap handler, the
    dispatch and the hooks, and back. *)

From S2P Require Import Prelude Hal Frames Mm MmSpec MmWalk Console RpcJson KState Hart Traps TrapsProofs Payload Syscall Handler Rpc Sched Userland KRun Elf ElfProofs Demo SyscallProofs HandlerProofs.

(** The runtime's constants are the kernel's. *)
Lemma abi_agrees :
  USER_EXIT = SYS_EXIT /\ USER_WRITE = SYS_WRITE /\ USER_YIELD = SYS_YIELD /\ USER_SPAWN = SYS_SPAWN /\
  USER_SNAPSHOT = SYS_SNAPSHOT /\ USER_CAP_WRITE = CAP_WRITE /\ USER_CAP_YIELD = CAP_YIELD /\
  USER_CAP_SPAWN = CAP_SPAWN /\ spawnable_image SPAWNABLE_CHILD = Some IMG_CHILD /\
  spawnable_image SPAWNABLE_REDELEGATOR = Some IMG_REDELEGATOR /\ spawnable_image SPAWNABLE_WORKER = Some IMG_WORKER.
Proof. split_and!; reflexivity. Qed.

(** An [isize] result survives the trip through [a0]. *)
Lemma result_roundtrip (v : Z) : - 2 ^ 63 <= v < 2 ^ 63 -> as_isize (as_u64 v) = v.
Proof.
  intros Hv. change (2 ^ 63) with 9223372036854775808 in Hv. unfold as_isize, as_u64, wrap64, W64.
  destruct (decide (0 <= v)) as [H|H].
  - rewrite Z.mod_small by lia. destruct (_ <? _) eqn:E; zbool; lia.
  - rewrite <- (Z.mod_add v 1), Z.mod_small by lia. destruct (_ <? _) eqn:E; zbool; lia.
Qed.

Section UserlandProofs.
Context {B : Build}.

(** ** Contexts *)

(** A context of a payload on the hart. *)
Definition on_hart (f : TrapFrame) : Prop := length (regs f) = 31%nat /\ is_from_user f = true.

Lemma call_frame_args (nr b0 b1 b2 : Z) (f : TrapFrame) : on_hart f ->
  let f' := advance_past_ecall (call_frame nr b0 b1 b2 f) in
  a7 f' = nr /\ a0 f' = b0 /\ a1 f' = b1 /\ a2 f' = b2 /\ on_hart f'.
Proof.
  intros [Hl Hu] f'. unfold a7, a0, a1, a2, reg, on_hart. cbn [f' regs with_sepc with_regs advance_past_ecall call_frame sstatus].
  rewrite !nth_lookup, !length_insert.
  repeat first [rewrite list_lookup_insert_eq by (rewrite ?length_insert, Hl; unfold X_A0, X_A1, X_A2, X_A7; lia)
               |rewrite list_lookup_insert_ne by (unfold X_A0, X_A1, X_A2, X_A7; lia)].
  split_and!; done.
Qed.

Lemma set_a0_reads (v : Z) (f : TrapFrame) : on_hart f -> a0 (set_a0 v f) = v /\ on_hart (set_a0 v f).
Proof.
  intros [Hl Hu]. unfold a0, reg, set_a0, on_hart. cbn [regs with_regs]. rewrite nth_lookup, list_lookup_insert_eq, length_insert.
  - done.
  - rewrite Hl. unfold X_A0. lia.
Qed.

(** ** Steps *)

(** The kernel between two moments of a payload's life: what was sent, how many
    event ids were taken; table, pool and the running payload are the same. *)
Record went (k k' : K) (out : list bytes) (n : Z) : Prop := {
  af_out : hw_out (hw k') = hw_out (hw k) ++ out;
  af_events : events k' = events k + n;
  af_table : table (pay k') = table (pay k);
  af_current : current (pay k') = current (pay k);
  af_pool : pool k' = pool k
}.

Lemma after_trap (c v : Z) (f : TrapFrame) (k : K) : went k (recorded_trap c v f k) [] 1.
Proof. split; try done. cbn. by rewrite app_nil_r. Qed.

Lemma after_sent (b : bytes) (k : K) : went k (sent b (numbered k)) [b] 1.
Proof. by split. Qed.

Lemma after_trans (k1 k2 k3 : K) (o1 o2 : list bytes) (n1 n2 : Z) :
  went k1 k2 o1 n1 -> went k2 k3 o2 n2 -> went k1 k3 (o1 ++ o2) (n1 + n2).
Proof. intros [H1 H2 H3 H4 H5] [G1 G2 G3 G4 G5]. split; try congruence; [by rewrite G1, H1, app_assoc|lia]. Qed.

Lemma after_running (k k' : K) (out : list bytes) (n pid : Z) (s : Slot) :
  went k k' out n -> running k pid s -> running k' pid s.
Proof. intros [_ _ Ht Hc _]. by apply running_same. Qed.

(** A system call the kernel answers. *)
Lemma sys_step {T} (nr b0 b1 b2 v : Z) (next : Z -> user T) (f : TrapFrame) (k k' : K) :
  on_hart f -> - 2 ^ 63 <= v < 2 ^ 63 ->
  (forall f1, a7 f1 = nr -> a0 f1 = b0 -> a1 f1 = b1 ->
    dispatch f1 (recorded_trap CAUSE_U_ECALL 0 (call_frame nr b0 b1 b2 f) k) = (Val (Resume v), k')) ->
  exists f', on_hart f' /\ user_run (Sys nr b0 b1 b2 next) f k = user_run (next v) f' k'.
Proof.
  intros Hf Hv Hd. destruct (call_frame_args nr b0 b1 b2 f Hf) as (H7 & H0 & H1 & _ & Hc).
  destruct (set_a0_reads (as_u64 v) _ Hc) as [Hr Ho].
  eexists. split; [exact Ho|]. cbn [user_run]. unfold handle. rewrite bind_assoc. run_bind. rewrite bind_assoc. run_bind.
  fold (recorded_trap CAUSE_U_ECALL 0 (call_frame nr b0 b1 b2 f) k).
  change (CAUSE_U_ECALL =? CAUSE_S_TIMER) with false. change (CAUSE_U_ECALL =? CAUSE_U_ECALL) with true. cbv iota.
  unfold handle_ecall. cbv zeta. rewrite bind_assoc. rewrite (bind_val _ _ _ _ _ (Hd _ H7 H0 H1)). cbv beta iota.
  run_bind. rewrite (proj2 Ho), Hr, result_roundtrip by done. done.
Qed.

Definition exit_event (ev pid code caused_by : Z) : bytes :=
  concat [js "{'id':"; dec ev; js ",'type':'payload_exit','pid':"; dec pid; js ",'code':"; dec_i code;
          js ",'caused_by':"; dec caused_by; js "}"].

(** The exit call, after which the payload is gone. *)
Lemma exit_step {T} (code : Z) (f : TrapFrame) (k : K) (pid : Z) (s : Slot) :
  on_hart f -> 0 <= code < 2 ^ 63 -> running k pid s ->
  exists f' k', user_run (exit_with (T := T) code) f k = (Val (Gone, f'), k') /\ sret f' = CRun /\
    hw_out (hw k') = hw_out (hw k) ++ [frame_bytes (exit_event (wrap64 (events k + 1)) pid code (start_event s))] /\
    table (pay k') = <[Z.to_nat pid := with_state EXITED (with_exit_code code s)]> (table (pay k)) /\
    current (pay k') = NO_PID /\ pool k' = pool k.
Proof.
  intros Hf Hcode H. destruct (call_frame_args USER_EXIT code 0 0 f Hf) as (H7 & H0 & _ & _ & Hc).
  set (k1 := recorded_trap CAUSE_U_ECALL 0 (call_frame USER_EXIT code 0 0 f) k).
  assert (H1 : running k1 pid s) by (by apply (running_same k)). pose proof (proj2 (proj2 H1)) as Hs.
  assert (Ed : as_isize code = code).
  { unfold as_isize. destruct (_ <? _) eqn:E; zbool; [done|]. change (2 ^ 63) with 9223372036854775808 in Hcode. lia. }
  set (s2 := with_state EXITED (with_exit_code code s)).
  assert (Hx : on_exit code k1 = (Val tt, sent (frame_bytes (exit_event (next_id k1) pid code (start_event s))) (numbered (stored pid s2 k1)))).
  { unfold on_exit. run_bind. rewrite (proj1 H1). destruct (pid =? NO_PID) eqn:E; zbool; [by destruct (proj1 (proj2 H1))|].
    rewrite Ed. run_bind. fold s2. unfold emit_exit. run_bind.
    erewrite bind_val by (apply get_slot_run; by apply (slot_at_stored pid s2 s k1)). cbv beta.
    rewrite send_run; [by rewrite fmt_text|]. text_bound. unfold CAPACITY. lia. }
  eexists _, _. split.
  - unfold exit_with, syscall. cbn [user_bind user_run]. unfold handle. rewrite bind_assoc. run_bind. rewrite bind_assoc. run_bind.
    fold (recorded_trap CAUSE_U_ECALL 0 (call_frame USER_EXIT code 0 0 f) k). fold k1.
    change (CAUSE_U_ECALL =? CAUSE_S_TIMER) with false. change (CAUSE_U_ECALL =? CAUSE_U_ECALL) with true. cbv iota.
    unfold handle_ecall. cbv zeta. rewrite bind_assoc. unfold dispatch. rewrite H7, H0. change (USER_EXIT =? SYS_EXIT) with true. cbv iota.
    rewrite bind_assoc. rewrite (bind_val _ _ _ _ _ Hx). run_bind. rewrite (bind_val _ _ _ _ _ (redirect_run _ _)). cbv beta.
    pose proof (sret_scheduler (advance_past_ecall (call_frame USER_EXIT code 0 0 f))) as Hsr.
    unfold sret in Hsr. destruct (is_from_user (to_scheduler _)); [done|]. reflexivity.
  - split; [apply sret_scheduler|]. done.
Qed.

(** What [dispatch] does with a write. *)
Lemma dispatch_write (f1 : TrapFrame) (b0 b1 : Z) : a7 f1 = USER_WRITE -> a0 f1 = b0 -> a1 f1 = b1 ->
  dispatch f1 = resume (sys_write b0 b1).
Proof. intros H7 H0 H1. unfold dispatch. by rewrite H7, H0, H1. Qed.

Lemma resume_run (m : M Z) (v : Z) (k k' : K) : m k = (Val v, k') -> resume m k = (Val (Resume v), k').
Proof. intros H. unfold resume. by rewrite (bind_val _ _ _ _ _ H). Qed.

(** The call [sys::write] by a payload that may write, of bytes it can read. *)
Lemma write_step {T} (ptr : Z) (b : bytes) (next : Z -> user T) (f : TrapFrame) (k : K) (pid : Z) (s : Slot) :
  on_hart f -> running k pid s -> Z.land (caps s) CAP_WRITE <> 0 -> root s <> 0 -> (length b <= 256)%nat ->
  copy_from_user (pmem (pool k)) (root s) ptr (Z.of_nat (length b)) = Some b ->
  exists f' k', on_hart f' /\
    user_run (Sys USER_WRITE ptr (Z.of_nat (length b)) 0 next) f k = user_run (next (Z.of_nat (length b))) f' k' /\
    went k k' [frame_bytes (output_event (wrap64 (events k + 1)) pid (start_event s) (Z.of_nat (length b)) b)] 2.
Proof.
  intros Hf H Hc Hr Hl Hb. set (k1 := recorded_trap CAUSE_U_ECALL 0 (call_frame USER_WRITE ptr (Z.of_nat (length b)) 0 f) k).
  assert (H1 : running k1 pid s) by (by apply (running_same k)).
  pose proof (write_run k1 pid s ptr (Z.of_nat (length b)) H1 Hc Hr ltac:(lia)) as Hw. cbv zeta in Hw.
  replace (Z.min (Z.of_nat (length b)) 256) with (Z.of_nat (length b)) in Hw by lia.
  change (pool k1) with (pool k) in Hw. rewrite Hb in Hw. destruct Hw as [_ Hw].
  edestruct (sys_step USER_WRITE ptr (Z.of_nat (length b)) 0 (Z.of_nat (length b)) next f k) as (f' & Hf' & Hrun); [done| | |].
  - change (2 ^ 63) with 9223372036854775808. lia.
  - intros f1 H7 H0 H1'. rewrite (dispatch_write f1 _ _ H7 H0 H1'). apply resume_run, Hw.
  - exists f'. eexists. split; [done|]. split; [exact Hrun|].
    apply (after_trans _ k1 _ [] _ 1 1); [apply after_trap|]. apply after_sent.
Qed.

(** Whatever becomes of a write, the payload goes on. *)
Lemma say_step {T} (ptr len : Z) (next : Z -> user T) (f : TrapFrame) (k : K) (pid : Z) (s : Slot) :
  on_hart f -> running k pid s -> 0 <= len ->
  exists v f' k' out n, on_hart f' /\ user_run (Sys USER_WRITE ptr len 0 next) f k = user_run (next v) f' k' /\ went k k' out n /\ (length out <= 1)%nat.
Proof.
  intros Hf H Hl. set (k1 := recorded_trap CAUSE_U_ECALL 0 (call_frame USER_WRITE ptr len 0 f) k).
  assert (H1 : running k1 pid s) by (by apply (running_same k)).
  assert (Hw : exists v k2 out n, - 2 ^ 63 <= v < 2 ^ 63 /\ sys_write ptr len k1 = (Val v, k2) /\ went k1 k2 out n /\ (length out <= 1)%nat).
  { destruct (decide (Z.land (caps s) CAP_WRITE = 0)) as [Ec|Ec].
    - pose proof (emit_denied_run k1 pid s (lit "write") (lit "write") H1 ltac:(vm_compute; lia) ltac:(vm_compute; lia)) as He.
      exists ENOCAP. eexists _, _, _. split; [done|]. split; [|split; [apply after_sent|done]]. unfold sys_write. run_bind.
      change (cap_bit CapWrite) with CAP_WRITE. rewrite Ec. cbn [Z.eqb negb].
      rewrite (bind_val _ _ _ _ _ He). unfold ret, denied. reflexivity.
    - destruct (decide (root s = 0)) as [Er|Er].
      + eexists EFAULT, k1, [], 0. split; [done|]. split; [|split; [split; try done; [by rewrite app_nil_r|lia]|cbn; lia]]. unfold sys_write. run_bind.
        change (cap_bit CapWrite) with CAP_WRITE. apply Z.eqb_neq in Ec. rewrite Ec. cbn [negb].
        unfold emit_output. rewrite bind_assoc. run_bind. by rewrite Er.
      + pose proof (write_run k1 pid s ptr len H1 Ec Er Hl) as Hw. cbv zeta in Hw. destruct (copy_from_user _ _ _ _) as [buf|].
        * destruct Hw as [_ Hw]. eexists _, _, _, _. split; [|split; [exact Hw|split; [apply after_sent|done]]].
          change (2 ^ 63) with 9223372036854775808. lia.
        * eexists EFAULT, k1, [], 0. split; [done|]. split; [exact Hw|]. split; [split; try done; [by rewrite app_nil_r|lia]|cbn; lia]. }
  destruct Hw as (v & k2 & out & n & Hv & Hw & Ha & Ho).
  destruct (sys_step USER_WRITE ptr len 0 v next f k k2 Hf Hv) as (f' & Hf' & Hrun).
  { intros f1 H7 H0 H1'. rewrite (dispatch_write f1 _ _ H7 H0 H1'). apply resume_run, Hw. }
  exists v, f', k2. eexists _, _. split; [done|]. split; [exact Hrun|]. split; [eapply after_trans; [apply after_trap|exact Ha]|done].
Qed.

(** An access the page table refuses. *)
Lemma read_fault {T} (va : Z) (next : byte -> user T) (f : TrapFrame) (k : K) (pid : Z) (s : Slot) :
  on_hart f -> running k pid s -> root s <> 0 -> translate_checked (pmem (pool k)) (root s) va (Z.lor U R) = None ->
  let k1 := recorded_trap 13 va f k in
  user_run (ReadVolatile va next) f k =
  (Val (Gone, to_scheduler f),
   vacated (stored pid (with_state FAULTED s) (sent (fault_burst k1 f (next_id k) 13 va (Some (pid, s))) k1))).
Proof.
  intros Hf H Hr Ht k1. cbn [user_run]. unfold mmu. rewrite bind_assoc. run_bind. rewrite bind_assoc. run_bind. run_bind.
  destruct (root s =? 0) eqn:E; zbool; [done|]. rewrite Ht. unfold raise_trap.
  destruct (fault_run k pid s f 13 va H (proj2 Hf) ltac:(discriminate) ltac:(discriminate)) as (Hh & _ & _).
  by rewrite (bind_val _ _ _ _ _ Hh).
Qed.

Lemma write_fault {T} (va : Z) (b : byte) (next : user T) (f : TrapFrame) (k : K) (pid : Z) (s : Slot) :
  on_hart f -> running k pid s -> root s <> 0 -> translate_checked (pmem (pool k)) (root s) va (Z.lor U W) = None ->
  let k1 := recorded_trap 15 va f k in
  user_run (WriteVolatile va b next) f k =
  (Val (Gone, to_scheduler f),
   vacated (stored pid (with_state FAULTED s) (sent (fault_burst k1 f (next_id k) 15 va (Some (pid, s))) k1))).
Proof.
  intros Hf H Hr Ht k1. cbn [user_run]. unfold mmu. rewrite bind_assoc. run_bind. rewrite bind_assoc. run_bind. run_bind.
  destruct (root s =? 0) eqn:E; zbool; [done|]. rewrite Ht. unfold raise_trap.
  destruct (fault_run k pid s f 15 va H (proj2 Hf) ltac:(discriminate) ltac:(discriminate)) as (Hh & _ & _).
  by rewrite (bind_val _ _ _ _ _ Hh).
Qed.

(** One it allows. *)
Definition poked (pa : Z) (b : byte) (k : K) : K := with_pool (with_mem (pool k) (store (pmem (pool k)) pa [b])) k.

Lemma write_goes {T} (va pa : Z) (b : byte) (next : user T) (f : TrapFrame) (k : K) (pid : Z) (s : Slot) :
  running k pid s -> root s <> 0 -> translate_checked (pmem (pool k)) (root s) va (Z.lor U W) = Some pa ->
  user_run (WriteVolatile va b next) f k = user_run next f (poked pa b k).
Proof.
  intros H Hr Ht. cbn [user_run]. unfold mmu. rewrite bind_assoc. run_bind. rewrite bind_assoc. run_bind. run_bind.
  destruct (root s =? 0) eqn:E; zbool; [done|]. by rewrite Ht.
Qed.

(** A program that is gone before its end does not see what follows. *)
Lemma gone_bind {S T} (u : user S) (g : S -> user T) (f f' : TrapFrame) (k k' : K) :
  user_run u f k = (Val (Gone, f'), k') -> user_run (user_bind u g) f k = (Val (Gone, f'), k').
Proof.
  revert f k. induction u as [v|nr b0 b1 b2 next IH|va next IH|va b next IH|va|c v|]; intros f k E; cbn [user_bind user_run] in *; try done.
  - unfold bind in *. destruct (handle _ _ _ k) as [[f1|x] k1]; [|done]. destruct (is_from_user f1); [by apply IH|done].
  - unfold bind in *. destruct (mmu va R k) as [[[pa|]|x] k1]; try done. by apply IH.
  - unfold bind in *. destruct (mmu va W k) as [[[pa|]|x] k1]; try done. by apply IH.
Qed.

(** ** The fixtures *)

Context {Bin : Binary}.

(** The payload's copy of a literal is where the linker put it. *)
Definition has_literal (k : K) (s : Slot) (b : bytes) : Prop :=
  copy_from_user (pmem (pool k)) (root s) (literal b) (Z.of_nat (length b)) = Some b.

(** The confused deputy is refused, end to end. The leaker fixture hands the
    kernel a pointer into kernel memory; whatever the kernel's state, its write
    comes back negative, so it exits 9, nothing but its exit event goes over
    the wire, and no other slot and no frame is touched. *)
Theorem leaker_refused (k : K) (pid : Z) (s : Slot) (f : TrapFrame) (sh : shape) :
  running k pid s -> on_hart f -> root s <> 0 -> Z.land (caps s) CAP_WRITE <> 0 ->
  space_wf (pool k) sh (root s) -> giga_of (pool k) sh 2 = Some kernel_leaf ->
  exists f' k', user_run (program leaker) f k = (Val (Gone, f'), k') /\ sret f' = CRun /\
    hw_out (hw k') = hw_out (hw k) ++ [frame_bytes (exit_event (wrap64 (events k + 2)) pid 9 (start_event s))] /\
    table (pay k') = <[Z.to_nat pid := with_state EXITED (with_exit_code 9 s)]> (table (pay k)) /\
    pool k' = pool k.
Proof.
  intros H Hf Hr Hc Hwf Hg. unfold program, leaker, write_raw, syscall. cbn [user_bind].
  set (k1 := recorded_trap CAUSE_U_ECALL 0 (call_frame USER_WRITE 0x80200000 32 0 f) k).
  assert (H1 : running k1 pid s) by (by apply (running_same k)).
  pose proof (write_run k1 pid s 0x80200000 32 H1 Hc Hr ltac:(lia)) as Hw. cbv zeta in Hw. change (pool k1) with (pool k) in Hw.
  rewrite (proj2 (kernel_unreachable (pool k) sh (root s) 0x80200000 1 (Z.min 32 256) Hwf Hg
    ltac:(vm_compute; split; congruence) ltac:(lia) ltac:(lia))) in Hw.
  match goal with |- context [user_run (Sys _ _ _ _ ?next) f k] =>
    destruct (sys_step USER_WRITE 0x80200000 32 0 EFAULT next f k k1 Hf ltac:(done)) as (f' & Hf' & Hrun) end.
  { intros f1 H7 H0 H1'. rewrite (dispatch_write f1 _ _ H7 H0 H1'). apply resume_run, Hw. }
  rewrite Hrun. change (EFAULT <? 0) with true. cbn [user_bind].
  destruct (exit_step (T := unit) 9 f' k1 pid s Hf' ltac:(done) H1) as (f2 & k2 & Hx & Hs & Ho & Ht & _ & Hp).
  exists f2, k2. split; [exact Hx|]. split; [exact Hs|]. split; [|by split].
  rewrite Ho. do 4 f_equal. change (events k1) with (events k + 1). f_equal. lia.
Qed.

(** The muzzled fixture holds no capability: its write is refused with one
    denial event, and it exits 7 to say that it noticed. *)
Theorem muzzled_notices (k : K) (pid : Z) (s : Slot) (f : TrapFrame) :
  running k pid s -> on_hart f -> Z.land (caps s) CAP_WRITE = 0 ->
  exists f' k', user_run (program muzzled) f k = (Val (Gone, f'), k') /\ sret f' = CRun /\
    hw_out (hw k') = hw_out (hw k) ++
      [frame_bytes (denied_event (wrap64 (events k + 1)) pid (lit "write") (lit "write"));
       frame_bytes (exit_event (wrap64 (events k + 3)) pid 7 (start_event s))] /\
    table (pay k') = <[Z.to_nat pid := with_state EXITED (with_exit_code 7 s)]> (table (pay k)) /\ pool k' = pool k.
Proof.
  intros H Hf Hc. unfold program, muzzled, write, syscall. set (msg := lit "i should not be able to say this"). cbn [user_bind].
  set (k1 := recorded_trap CAUSE_U_ECALL 0 (call_frame USER_WRITE (literal msg) (Z.of_nat (length msg)) 0 f) k).
  assert (H1 : running k1 pid s) by (by apply (running_same k)).
  set (k2 := denied pid (lit "write") (lit "write") k1).
  match goal with |- context [user_run (Sys _ _ _ _ ?next) f k] =>
    destruct (sys_step USER_WRITE (literal msg) (Z.of_nat (length msg)) 0 ENOCAP next f k k2 Hf ltac:(done)) as (f' & Hf' & Hrun) end.
  { intros f1 H7 _ _. apply (denied_run k1 f1 pid s CapWrite (lit "write") (lit "write") H1); [by rewrite H7|exact Hc]. }
  rewrite Hrun. change (ENOCAP <? 0) with true. cbn [user_bind].
  assert (H2 : running k2 pid s) by (by apply (running_same k1)).
  destruct (exit_step (T := unit) 7 f' k2 pid s Hf' ltac:(done) H2) as (f2 & k3 & Hx & Hs & Ho & Ht & _ & Hp).
  exists f2, k3. split; [exact Hx|]. split; [exact Hs|]. split; [|by split].
  rewrite Ho. change (hw_out (hw k2)) with (hw_out (hw k) ++ [frame_bytes (denied_event (next_id k1) pid (lit "write") (lit "write"))]).
  rewrite <- app_assoc. change (events k2) with (events k + 1 + 1). change (next_id k1) with (wrap64 (events k + 1)).
  replace (events k + 1 + 1 + 1) with (events k + 3) by lia. done.
Qed.

(** C27: kernel memory is out of reach, end to end. The wild fixture announces
    itself and reads a kernel address: it is gone before the next line of its
    source. The operator sees the announcement and one fault report, never the
    message after the read; only its own slot changes, to FAULTED, and every
    frame is as it was. *)
Theorem wild_contained (k : K) (pid : Z) (s : Slot) (f : TrapFrame) (sh : shape) :
  running k pid s -> on_hart f -> root s <> 0 -> Z.land (caps s) CAP_WRITE <> 0 ->
  space_wf (pool k) sh (root s) -> giga_of (pool k) sh 2 = Some kernel_leaf ->
  has_literal k s (lit "reaching into kernel memory...") ->
  exists f' k' report, user_run (program wild) f k = (Val (Gone, f'), k') /\ sret f' = CRun /\ report <> [] /\
    hw_out (hw k') = hw_out (hw k) ++
      [frame_bytes (output_event (wrap64 (events k + 1)) pid (start_event s) 30 (lit "reaching into kernel memory...")); report] /\
    table (pay k') = <[Z.to_nat pid := with_state FAULTED s]> (table (pay k)) /\
    current (pay k') = NO_PID /\ pool k' = pool k.
Proof.
  intros H Hf Hr Hc Hwf Hg Hl. unfold program, wild, say, write, syscall. set (msg := lit "reaching into kernel memory...") in *.
  cbn [user_bind].
  match goal with |- context [user_run (Sys _ _ _ _ ?next) f k] =>
    destruct (write_step (literal msg) msg next f k pid s Hf H Hc Hr ltac:(vm_compute; lia) Hl) as (f1 & k1 & Hf1 & Hrun & Ha) end.
  rewrite Hrun. cbn [user_bind]. pose proof (after_running _ _ _ _ _ _ Ha H) as H1.
  rewrite (read_fault 0x80200000 _ f1 k1 pid s Hf1 H1 Hr).
  - eexists _, _, _. split; [reflexivity|]. split; [apply sret_scheduler|]. split; [apply fault_burst_nonempty|]. destruct Ha as [A1 A2 A3 A4 A5].
    split; [|split; [|split; [done|exact A5]]].
    + cbn [hw_out hw vacated on_pay with_pay stored sent on_hw with_hw with_hw_out]. rewrite (af_out _ _ _ _ (after_trap 13 0x80200000 f1 k1)).
      rewrite A1, app_nil_r, <- app_assoc. done.
    + cbn [table pay vacated on_pay with_pay stored sent on_hw with_hw with_current with_table]. by rewrite (af_table _ _ _ _ (after_trap 13 0x80200000 f1 k1)), A3.
  - rewrite (af_pool _ _ _ _ Ha).
    exact (proj1 (kernel_unreachable (pool k) sh (root s) 0x80200000 (Z.lor U R) 1 Hwf Hg ltac:(vm_compute; split; congruence) ltac:(done) ltac:(lia))).
Qed.

(** ** Delegation *)

(** Asking for everything asks for exactly the 32 capability bits. *)
Lemma greedy_request (c ceiling : Z) : 0 <= ceiling < W32 ->
  Z.land (Z.land (wrap32 ALL_ONES) c) ceiling = Z.land c ceiling.
Proof.
  intros Hc. change (wrap32 ALL_ONES) with (Z.ones 32). rewrite (Z.land_comm (Z.ones 32)), <- Z.land_assoc, (Z.land_comm (Z.ones 32)).
  rewrite Z.land_ones, Z.mod_small by (done || lia). done.
Qed.

(** A payload that announces itself and spawns greedily: its child holds what
    it holds itself, cut to the image's ceiling. *)
Lemma delegates (msg : bytes) (selector image : Z) (im : Image) (k : K) (pid : Z) (s : Slot) (f : TrapFrame) (child : Z) :
  running k pid s -> state s = RUNNING -> on_hart f -> Z.land (caps s) CAP_SPAWN <> 0 ->
  spawnable_image selector = Some image -> image_at image = Some im -> 0 <= im_caps im < W32 ->
  length (table (pay k)) = MAX_PROC -> position (has_state EMPTY) (table (pay k)) = Some child ->
  exists f' k' new, user_run (program (say msg ;> spawn selector ALL_ONES ;> Done tt)%user) f k = (Val (Gone, f'), k') /\
    sret f' = CRun /\ slot_at child k' = Some new /\ state new = PENDING /\ KState.image new = image /\ parent new = pid /\
    caps new = Z.land (caps s) (im_caps im) /\ slot_at pid k' = Some (with_state EXITED (with_exit_code 0 s)).
Proof.
  intros H Hst Hf Hc Hsel Him Hceil Hlen Hpos. unfold program, say, write, spawn, syscall. cbn [user_bind].
  match goal with |- context [user_run (Sys _ _ _ _ ?next) f k] =>
    destruct (say_step (literal msg) (Z.of_nat (length msg)) next f k pid s Hf H ltac:(lia)) as (v & f1 & k1 & out & n & Hf1 & Hrun & Ha & _) end.
  rewrite Hrun. cbn [user_bind]. pose proof (after_running _ _ _ _ _ _ Ha H) as H1.
  set (k2 := recorded_trap CAUSE_U_ECALL 0 (call_frame USER_SPAWN selector ALL_ONES 0 f1) k1).
  assert (H2 : running k2 pid s) by (by apply (running_same k1)).
  pose proof (spawn_run k2 pid s selector (wrap32 ALL_ONES) H2 Hc) as Hsp. rewrite Hsel in Hsp.
  assert (Et : table (pay k2) = table (pay k)) by apply (af_table _ _ _ _ Ha). rewrite Et, Hpos in Hsp.
  destruct Hsp as (im' & new & Him' & Hns & Hni & Hnp & Hnc & Hrunsp). assert (im' = im) as -> by congruence.
  rewrite greedy_request in Hnc by done.
  destruct (position_slot _ k child Hpos) as (e & He & Hee). pose proof (slot_at_range _ _ _ He) as Hchr.
  assert (Hne : child <> pid).
  { intros ->. assert (e = s) as -> by (pose proof (proj2 (proj2 H)); congruence). unfold has_state in Hee. by rewrite Hst in Hee. }
  match type of Hrunsp with _ = (_, ?q) => set (k3 := q) in * end.
  match goal with |- context [user_run (Sys _ _ _ _ ?next) f1 k1] =>
    destruct (sys_step USER_SPAWN selector ALL_ONES 0 child next f1 k1 k3 Hf1) as (f2 & Hf2 & Hrun2) end.
  { rewrite Hlen in Hchr. change (Z.of_nat MAX_PROC) with 12 in Hchr. change (2 ^ 63) with 9223372036854775808. lia. }
  { intros g H7 H0 H1'. unfold dispatch. rewrite H7, H0, H1'. by apply resume_run. }
  rewrite Hrun2. cbn [user_bind].
  assert (Hs2 : slot_at child k2 = Some e) by (rewrite <- He; by apply slot_at_same).
  assert (H3 : running k3 pid s).
  { split; [apply H2|]. split; [apply H2|]. change (slot_at pid (stored child new k2) = Some s). rewrite slot_at_stored_ne by (lia || congruence). apply H2. }
  destruct (exit_step (T := unit) 0 f2 k3 pid s Hf2 ltac:(done) H3) as (f3 & k4 & Hx & Hsr & _ & Ht & _).
  assert (Hnew : slot_at child k3 = Some new) by (by apply (slot_at_stored child new e k2)).
  pose proof (slot_at_range _ _ _ (proj2 (proj2 H3))) as Hpr.
  exists f3, k4, new. split; [exact Hx|]. split; [done|]. split; [|split_and!; try done].
  - rewrite (slot_at_same child (stored pid (with_state EXITED (with_exit_code 0 s)) k3)) by exact Ht.
    rewrite slot_at_stored_ne by (lia || done). done.
  - rewrite (slot_at_same pid (stored pid (with_state EXITED (with_exit_code 0 s)) k3)) by exact Ht.
    eapply slot_at_stored. apply H3.
Qed.

(** C29: delegation only narrows, end to end. The delegator asks for every
    capability for its child and exits 0; the child it leaves pending holds
    exactly what the delegator held of {write, spawn}. When that child runs and,
    as the redelegator, asks for everything again, the worker it leaves pending
    holds exactly what is left of {write}: nothing is minted at either hop. *)
Theorem delegation_chain (k : K) (pid : Z) (s : Slot) (f : TrapFrame) (hop1 : Z) :
  running k pid s -> state s = RUNNING -> on_hart f -> Z.land (caps s) CAP_SPAWN <> 0 ->
  length (table (pay k)) = MAX_PROC -> position (has_state EMPTY) (table (pay k)) = Some hop1 ->
  exists f' k' new, user_run (program delegator) f k = (Val (Gone, f'), k') /\ sret f' = CRun /\
    slot_at pid k' = Some (with_state EXITED (with_exit_code 0 s)) /\
    slot_at hop1 k' = Some new /\ state new = PENDING /\ KState.image new = IMG_REDELEGATOR /\ parent new = pid /\
    caps new = Z.land (caps s) (Z.lor CAP_WRITE CAP_SPAWN) /\
    forall k2 s2 f2 hop2, running k2 hop1 s2 -> state s2 = RUNNING -> caps s2 = caps new -> on_hart f2 ->
      length (table (pay k2)) = MAX_PROC -> position (has_state EMPTY) (table (pay k2)) = Some hop2 ->
      exists f3 k3 new2, user_run (program redelegator) f2 k2 = (Val (Gone, f3), k3) /\ sret f3 = CRun /\
        slot_at hop2 k3 = Some new2 /\ state new2 = PENDING /\ KState.image new2 = IMG_WORKER /\ parent new2 = hop1 /\
        caps new2 = Z.land (caps s) CAP_WRITE.
Proof.
  intros H Hst Hf Hc Hlen Hpos.
  destruct (delegates (lit "delegator: spawning a redelegator, requesting all caps") SPAWNABLE_REDELEGATOR IMG_REDELEGATOR _ k pid s f hop1
    H Hst Hf Hc eq_refl eq_refl ltac:(done) Hlen Hpos) as (f' & k' & new & Hrun & Hsr & Hn & Hp & Hi & Hpar & Hcap & Hself).
  exists f', k', new. split; [exact Hrun|]. split; [exact Hsr|]. split; [exact Hself|]. split; [exact Hn|]. split; [exact Hp|].
  split; [exact Hi|]. split; [exact Hpar|]. split; [exact Hcap|]. cbn [im_caps] in Hcap.
  intros k2 s2 f2 hop2 H2 Hst2 Hc2 Hf2 Hlen2 Hpos2.
  assert (Hsp : Z.land (caps s2) CAP_SPAWN <> 0) by (rewrite Hc2, Hcap, <- Z.land_assoc; exact Hc).
  destruct (delegates (lit "redelegator: re-delegating to a worker, requesting all caps") SPAWNABLE_WORKER IMG_WORKER _ k2 hop1 s2 f2 hop2
    H2 Hst2 Hf2 Hsp eq_refl eq_refl ltac:(done) Hlen2 Hpos2) as (f3 & k3 & new2 & Hrun2 & Hsr2 & Hn2 & Hp2 & Hi2 & Hpar2 & Hcap2 & _).
  exists f3, k3, new2. split; [exact Hrun2|]. split; [exact Hsr2|]. split; [exact Hn2|]. split; [exact Hp2|].
  split; [exact Hi2|]. split; [exact Hpar2|]. cbn [im_caps] in Hcap2. by rewrite Hcap2, Hc2, Hcap, <- Z.land_assoc.
Qed.

(** [_start] around a [pmain]: the stack, the call, and on return the exit
    call with code 0, whatever [pmain] left in the registers. *)
Lemma user_start_calls {I : Isa} (h : hart) : exists h', exec 8 user_start_asm 0 h = Called PMAIN 2 h' /\ gpr h' SP = user_stack_top.
Proof. eexists. split; reflexivity. Qed.

Lemma user_start_exits {I : Isa} (h : hart) :
  exists h', exec 8 user_start_asm 2 h = Ecalls 5 h' /\ gpr h' RA7 = SYS_EXIT /\ gpr h' RA0 = 0.
Proof. eexists. split_and!; reflexivity. Qed.

End UserlandProofs.

(** ** Instances *)

Section Instances.
#[local] Existing Instance demo_build.

(** The message of the wild fixture, in an image of its own right behind the headers. *)
Definition wild_message : bytes := lit "reaching into kernel memory...".
Definition wild_image : bytes := demo_image 5 0 0x10000 150 150 ++ wild_message.
Definition wild_space : fpool := snd (load_elf false wild_image POOL_BASE demo_space).

#[local] Instance demo_binary : Binary :=
  {| literal := fun _ => 0x10078; DATA := 0x11000; BUF := 0x11000; pmain_addr := 0x10004; user_stack_top := 0x20000;
     illegal_stval := 0; ebreak_stval := 0; amo_misaligned := 4; pmain_frame := 16; recurse_frame := 288; recurse_array := 16 |}.

Lemma wild_space_wf : exists sh, space_wf wild_space sh POOL_BASE /\ giga_of wild_space sh 2 = Some kernel_leaf.
Proof.
  unfold wild_space. assert (fst (load_elf false wild_image POOL_BASE demo_space) = EOk 0x10000) as E by (vm_compute; reflexivity).
  destruct (load_elf false wild_image POOL_BASE demo_space) as [r p] eqn:El. cbn [fst] in E. subst r.
  destruct (load_elf_space _ _ _ _ _ _ (demo_space_inv wx_page) El) as (sh & Hinv & Hk). exists sh. cbn [snd]. split; [apply Hinv|].
  rewrite (kp_giga _ _ _ _ Hk) by lia. apply demo_space_wf.
Qed.

Lemma wild_message_readable (n : Z) (s : Slot) : root s = POOL_BASE ->
  has_literal (demo_k wild_space [] n s) s wild_message.
Proof. intros E. unfold has_literal. rewrite E. vm_compute. reflexivity. Qed.

Lemma leaker_refused_witness : exists f' k',
  user_run (program leaker) demo_frame (demo_k wild_space [] 0 (demo_slot RUNNING CAP_WRITE)) = (Val (Gone, f'), k') /\
  slot_at 0 k' = Some (with_state EXITED (with_exit_code 9 (demo_slot RUNNING CAP_WRITE))).
Proof.
  destruct wild_space_wf as (sh & Hwf & Hg).
  destruct (leaker_refused (demo_k wild_space [] 0 (demo_slot RUNNING CAP_WRITE)) 0 (demo_slot RUNNING CAP_WRITE) demo_frame sh
    (demo_running _ _ _ _) (conj eq_refl eq_refl) ltac:(discriminate) ltac:(discriminate) Hwf Hg) as (f' & k' & Hr & _ & _ & Ht & _).
  exists f', k'. split; [exact Hr|]. unfold slot_at. rewrite Ht. reflexivity.
Defined.

Lemma wild_contained_witness : exists f' k',
  user_run (program wild) demo_frame (demo_k wild_space [] 0 (demo_slot RUNNING CAP_WRITE)) = (Val (Gone, f'), k') /\
  slot_at 0 k' = Some (with_state FAULTED (demo_slot RUNNING CAP_WRITE)).
Proof.
  destruct wild_space_wf as (sh & Hwf & Hg).
  destruct (wild_contained (demo_k wild_space [] 0 (demo_slot RUNNING CAP_WRITE)) 0 (demo_slot RUNNING CAP_WRITE) demo_frame sh
    (demo_running _ _ _ _) (conj eq_refl eq_refl) ltac:(discriminate) ltac:(discriminate) Hwf Hg (wild_message_readable 0 (demo_slot RUNNING CAP_WRITE) eq_refl))
    as (f' & k' & report & Hr & _ & _ & _ & Ht & _).
  exists f', k'. split; [exact Hr|]. unfold slot_at. rewrite Ht. reflexivity.
Defined.

(** A delegator with all three capabilities: its grandchild may only write. *)
Lemma delegation_chain_witness :
  let s := demo_slot RUNNING 7 in let s2 := demo_slot RUNNING 5 in
  exists f' k' new f3 k3 new2,
    user_run (program delegator) demo_frame (demo_k demo_loaded [] 0 s) = (Val (Gone, f'), k') /\ slot_at 1 k' = Some new /\ caps new = 5 /\
    user_run (program redelegator) demo_frame
      (on_pay (fun p => with_current 1 (with_table (slot_new :: s2 :: replicate 10 slot_new) p)) (demo_k demo_loaded [] 0 s)) = (Val (Gone, f3), k3) /\
    slot_at 0 k3 = Some new2 /\ caps new2 = 1.
Proof.
  intros s s2.
  destruct (delegation_chain (demo_k demo_loaded [] 0 s) 0 s demo_frame 1 (demo_running _ _ _ _) eq_refl (conj eq_refl eq_refl)
    ltac:(discriminate) eq_refl eq_refl) as (f' & k' & new & Hr & _ & _ & Hn & _ & _ & _ & Hc & Hnext).
  destruct (Hnext (on_pay (fun p => with_current 1 (with_table (slot_new :: s2 :: replicate 10 slot_new) p)) (demo_k demo_loaded [] 0 s))
    s2 demo_frame 0) as (f3 & k3 & new2 & Hr2 & _ & Hn2 & _ & _ & _ & Hc2).
  - split; [reflexivity|]. split; [discriminate|reflexivity].
  - reflexivity.
  - rewrite Hc. reflexivity.
  - split; reflexivity.
  - reflexivity.
  - reflexivity.
  - exists f', k', new, f3, k3, new2. split; [exact Hr|]. split; [exact Hn|]. split; [exact Hc|]. split; [exact Hr2|]. split; [exact Hn2|exact Hc2].
Defined.
End Instances.
