(* ===== verification/KSpec.v ===== *)
(** * Reasoning about kernel code

    Two ways to state what a run of the monad does. [quiet] code leaves the
    process table, the snapshots and the running payload alone, whatever it
    sends or allocates. A [triple] describes the process state before and after,
    for a value and for an exit. *)

From S2P Require Import Prelude Hal Frames Mm Elf Console RpcJson KState Traps Payload Syscall Handler Rpc Sched.

(** ** The process state *)

Record view := mkView { v_table : list Slot; v_snaps : list Snapshot; v_cur : Z }.
Definition view_of (k : K) : view := mkView (table (pay k)) (snaps (pay k)) (current (pay k)).

Definition triple {T} (P : view -> Prop) (m : M T) (Q : T -> view -> Prop) (E : exit -> view -> Prop) : Prop :=
  forall k, P (view_of k) ->
  match m k with
  | (Val v, k') => Q v (view_of k')
  | (Exit x, k') => E x (view_of k')
  end.

Lemma triple_ret {T} (v : T) (P : view -> Prop) (Q : T -> view -> Prop) E :
  (forall w, P w -> Q v w) -> triple P (ret v) Q E.
Proof. intros H k Hk. by apply H. Qed.

Lemma triple_stop {T} (x : exit) (P : view -> Prop) (Q : T -> view -> Prop) (E : exit -> view -> Prop) :
  (forall w, P w -> E x w) -> triple P (stop x) Q E.
Proof. intros H k Hk. by apply H. Qed.

Lemma triple_bind {S T} (m : M S) (f : S -> M T) P R Q E :
  triple P m R E -> (forall v, triple (R v) (f v) Q E) -> triple P (bind m f) Q E.
Proof.
  intros Hm Hf k Hk. unfold bind. specialize (Hm k Hk). destruct (m k) as [[v|x] k']; [|done].
  by apply Hf.
Qed.

Lemma triple_conseq {T} (m : M T) (P P' : view -> Prop) (Q Q' : T -> view -> Prop) (E E' : exit -> view -> Prop) :
  triple P' m Q' E' -> (forall w, P w -> P' w) -> (forall v w, Q' v w -> Q v w) ->
  (forall x w, E' x w -> E x w) -> triple P m Q E.
Proof.
  intros Hm HP HQ HE k Hk. specialize (Hm k (HP _ Hk)). destruct (m k) as [[v|x] k']; auto.
Qed.

(** A read of the state: what it returns is known of the state. *)
Lemma triple_gets {T} (g : K -> T) (P : view -> Prop) (Q : T -> view -> Prop) E :
  (forall k, P (view_of k) -> Q (g k) (view_of k)) -> triple P (gets g) Q E.
Proof. intros H k Hk. by apply H. Qed.

Lemma triple_modify (f : K -> K) (P : view -> Prop) (Q : unit -> view -> Prop) E :
  (forall k, P (view_of k) -> Q tt (view_of (f k))) -> triple P (modify f) Q E.
Proof. intros H k Hk. by apply H. Qed.

Definition look (pid : Z) (w : view) : option Slot :=
  if pid <? 0 then None else v_table w !! Z.to_nat pid.

Lemma slot_at_look (pid : Z) (k : K) : slot_at pid k = look pid (view_of k).
Proof. done. Qed.

Lemma triple_get_slot (pid : Z) (P : view -> Prop) (Q : Slot -> view -> Prop) (E : exit -> view -> Prop) :
  (forall w s, P w -> look pid w = Some s -> Q s w) -> (forall w, E XPanic w) ->
  triple P (get_slot pid) Q E.
Proof.
  intros HQ HE k Hk. unfold get_slot. rewrite slot_at_look.
  destruct (look pid (view_of k)) eqn:El; [by apply HQ|apply HE].
Qed.

Definition put (pid : Z) (s : Slot) (w : view) : view :=
  mkView (<[Z.to_nat pid := s]> (v_table w)) (v_snaps w) (v_cur w).

Lemma triple_upd_slot (pid : Z) (f : Slot -> Slot) (P : view -> Prop) (Q : unit -> view -> Prop)
    (E : exit -> view -> Prop) :
  (forall w s, P w -> look pid w = Some s -> Q tt (put pid (f s) w)) -> (forall w, E XPanic w) ->
  triple P (upd_slot pid f) Q E.
Proof.
  intros HQ HE k Hk. unfold upd_slot. rewrite slot_at_look.
  destruct (look pid (view_of k)) eqn:El; [|apply HE]. by apply (HQ _ _ Hk El).
Qed.

(** ** Quiet code *)

Definition quiet {T} (m : M T) : Prop := forall k, view_of (snd (m k)) = view_of k.

(** Quiet code that exits only by a panic. *)
Definition calm {T} (m : M T) : Prop :=
  quiet m /\ forall k, match fst (m k) with Exit x => x = XPanic | Val _ => True end.

Lemma calm_ret {T} (v : T) : calm (ret v).
Proof. done. Qed.

Lemma calm_panic {T} : calm (@stop T XPanic).
Proof. done. Qed.

Lemma calm_gets {T} (g : K -> T) : calm (gets g).
Proof. done. Qed.

Lemma calm_bind {S T} (m : M S) (f : S -> M T) : calm m -> (forall v, calm (f v)) -> calm (bind m f).
Proof.
  intros [Hm Em] Hf. split.
  - intros k. unfold bind. specialize (Hm k). destruct (m k) as [[v|x] k']; [|done].
    rewrite (proj1 (Hf v) k'). done.
  - intros k. unfold bind. specialize (Em k). destruct (m k) as [[v|x] k']; [|done].
    apply (proj2 (Hf v)).
Qed.

Lemma calm_if {T} (b : bool) (m1 m2 : M T) : calm m1 -> calm m2 -> calm (if b then m1 else m2).
Proof. by destruct b. Qed.

Lemma triple_calm {T} (m : M T) (P : view -> Prop) (Q : T -> view -> Prop) (E : exit -> view -> Prop) :
  calm m -> (forall v w, P w -> Q v w) -> (forall w, E XPanic w) -> triple P m Q E.
Proof.
  intros [Hm Em] HQ HE k Hk. specialize (Hm k). specialize (Em k).
  destruct (m k) as [[v|x] k']; cbn in *; [apply HQ|subst x; apply HE]. by rewrite Hm.
Qed.

Lemma calm_next_event : calm next_event.
Proof. done. Qed.
Lemma calm_read_time : calm read_time.
Proof. split; intros k; unfold read_time; by destruct (hw_dt (hw k)). Qed.
Lemma calm_getchar : calm console_getchar.
Proof. split; intros k; unfold console_getchar; by destruct (hw_in (hw k)). Qed.
Lemma calm_in_bounds (b : bool) : calm (in_bounds b).
Proof. destruct b; [apply calm_ret|apply calm_panic]. Qed.
Lemma calm_put_wire (b : bytes) : calm (put_wire b).
Proof. split; intros k; unfold put_wire, modify; by destruct b. Qed.
Lemma calm_send (w : wprog) : calm (send w).
Proof. apply calm_put_wire. Qed.
Lemma calm_set_timer (t : Z) : calm (set_timer t).
Proof. done. Qed.
Lemma calm_write_satp (t : Z) : calm (write_satp t).
Proof. done. Qed.
Lemma calm_on_traps (f : TrapState -> TrapState) : calm (modify (on_traps f)).
Proof. done. Qed.
Lemma calm_on_hw (f : Hw -> Hw) : calm (modify (on_hw f)).
Proof. done. Qed.
Lemma calm_pooled {T} (f : fpool -> T * fpool) : calm (pooled f).
Proof. split; intros k; unfold pooled; by destruct (f (pool k)). Qed.
Lemma calm_pool_do (f : fpool -> fpool) : calm (pool_do f).
Proof. done. Qed.
Lemma calm_get_slot (pid : Z) : calm (get_slot pid).
Proof. split; intros k; unfold get_slot; by destruct (slot_at pid k). Qed.
Lemma calm_get_snap (sid : Z) : calm (get_snap sid).
Proof. split; intros k; unfold get_snap; by destruct (snap_at sid k). Qed.
Lemma calm_on_pay (f : PayState -> PayState) :
  (forall p, table (f p) = table p /\ snaps (f p) = snaps p /\ current (f p) = current p) ->
  calm (modify (on_pay f)).
Proof.
  intros H. split; [|done]. intros k. destruct (H (pay k)) as (E1 & E2 & E3).
  unfold view_of. cbn. by rewrite E1, E2, E3.
Qed.
Lemma calm_ops (f : K -> opring) : calm (modify (fun k => with_ops (f k) k)).
Proof. done. Qed.

Create HintDb calm discriminated.
#[export] Hint Constants Opaque : calm.
#[export] Hint Variables Opaque : calm.
#[export] Hint Resolve calm_ret calm_panic calm_in_bounds calm_gets calm_next_event calm_read_time calm_getchar
  calm_put_wire calm_send calm_set_timer calm_write_satp calm_on_traps calm_on_hw calm_pooled
  calm_pool_do calm_get_slot calm_get_snap calm_ops : calm.

(** Walk the code: binds, branches and matches down to the operations above. *)
Ltac calm_go :=
  repeat first
    [ solve [eauto with calm]
    | match goal with |- calm (match ?x with _ => _ end) => destruct x eqn:? end
    | lazymatch goal with |- calm (bind _ _) => apply calm_bind; [|intros ?] end
    | apply calm_on_pay; intros ?; solve [repeat split | repeat break_match; repeat split]
    | progress intros ].

Section Calm.
Context {B : Build}.

Lemma calm_get_image (i : Z) : calm (get_image i).
Proof. unfold get_image. calm_go. Qed.
Hint Resolve calm_get_image : calm.

Lemma calm_current_pid : calm current_pid.
Proof. apply calm_gets. Qed.
Hint Resolve calm_current_pid : calm.

Lemma calm_current_has (c : Cap) : calm (current_has c).
Proof. unfold current_has. calm_go. Qed.
Lemma calm_current_space : calm current_space.
Proof. unfold current_space. calm_go. Qed.
Lemma calm_pid_or_none : calm pid_or_none.
Proof. unfold pid_or_none. calm_go. Qed.
Lemma calm_current_cause : calm current_cause.
Proof. unfold current_cause. calm_go. Qed.
Hint Resolve calm_current_has calm_current_space calm_pid_or_none calm_current_cause : calm.

Lemma calm_emit_denied (a b : bytes) : calm (emit_denied a b).
Proof. unfold emit_denied. calm_go. Qed.
Lemma calm_emit_exit (pid code : Z) : calm (emit_exit pid code).
Proof. unfold emit_exit. calm_go. Qed.
Lemma calm_emit_snapshot (pid id : Z) : calm (emit_snapshot pid id).
Proof. unfold emit_snapshot. calm_go. Qed.
Lemma calm_emit_load_fault (pid : Z) (a b : bytes) : calm (emit_load_fault pid a b).
Proof. unfold emit_load_fault. calm_go. Qed.
Lemma calm_emit_yield (pid : Z) : calm (emit_yield pid).
Proof. unfold emit_yield. calm_go. Qed.
Lemma calm_emit_spawn (a b : Z) (n : bytes) (c d e : Z) : calm (emit_spawn a b n c d e).
Proof. unfold emit_spawn. calm_go. Qed.
Lemma calm_emit_killed (a b c : Z) : calm (emit_killed a b c).
Proof. unfold emit_killed. calm_go. Qed.
Lemma calm_emit_suite_done : calm emit_suite_done.
Proof. unfold emit_suite_done. calm_go. Qed.
Lemma calm_emit_sched_preempt (pid : Z) : calm (emit_sched_preempt pid).
Proof. unfold emit_sched_preempt. calm_go. Qed.
Lemma calm_elapsed_since (t : Z) : calm (elapsed_since t).
Proof. unfold elapsed_since. calm_go. Qed.
Hint Resolve calm_elapsed_since : calm.
Lemma calm_emit_killed_operator (pid : Z) : calm (emit_killed_operator pid).
Proof. unfold emit_killed_operator. calm_go. Qed.
Lemma calm_emit_ring_dump : calm emit_ring_dump.
Proof. unfold emit_ring_dump. calm_go. Qed.
Lemma calm_release_space (r : Z) : calm (release_space r).
Proof. unfold release_space. calm_go. Qed.
Lemma calm_release_frame (r : Z) : calm (release_frame r).
Proof. unfold release_frame. calm_go. Qed.
Hint Resolve calm_emit_denied calm_emit_exit calm_emit_snapshot calm_emit_load_fault calm_emit_yield
  calm_emit_spawn calm_emit_killed calm_emit_suite_done calm_emit_sched_preempt
  calm_emit_killed_operator calm_emit_ring_dump calm_release_space calm_release_frame : calm.

Lemma calm_emit_output (p n : Z) : calm (emit_output p n).
Proof. unfold emit_output. calm_go. Qed.
Hint Resolve calm_emit_output : calm.
Lemma calm_sys_write (p n : Z) : calm (sys_write p n).
Proof. unfold sys_write. calm_go. Qed.
Lemma calm_on_yield : calm on_yield.
Proof. unfold on_yield. calm_go. Qed.
Lemma calm_on_blit (p w h : Z) : calm (on_blit p w h).
Proof. unfold on_blit. calm_go. Qed.
Lemma calm_on_frame_rgb (p n s : Z) : calm (on_frame_rgb p n s).
Proof. unfold on_frame_rgb. calm_go. Qed.
Lemma calm_on_getkey : calm on_getkey.
Proof. unfold on_getkey. calm_go. Qed.
Lemma calm_swallow_stray_key (b : byte) : calm (swallow_stray_key b).
Proof. unfold swallow_stray_key. calm_go. Qed.
Lemma calm_rearm : calm rearm.
Proof. unfold rearm. calm_go. Qed.
Lemma calm_count_tick : calm count_tick.
Proof. done. Qed.
Lemma calm_emit_tick (a b : Z) : calm (emit_tick a b).
Proof. unfold emit_tick. calm_go. Qed.
Lemma calm_emit_fault (f : TrapFrame) (a b c : Z) (o : option Z) : calm (emit_fault f a b c o).
Proof. unfold emit_fault, emit_fault_classic, current_pagewalk. calm_go. Qed.
Lemma calm_emit_rpc (w : wprog) : calm (emit_rpc w).
Proof. unfold emit_rpc. calm_go. Qed.
Hint Resolve calm_emit_rpc : calm.
Lemma calm_respond_result (i : bytes) (w : wprog) : calm (respond_result i w).
Proof. apply calm_emit_rpc. Qed.
Lemma calm_respond_error (i : bytes) (c : Z) (m : bytes) : calm (respond_error i c m).
Proof. apply calm_emit_rpc. Qed.
Lemma calm_build_space (i : Z) (im : Image) : calm (build_space i im).
Proof. unfold build_space. calm_go. Qed.
Lemma calm_next_command : calm next_command.
Proof. unfold next_command. calm_go. Qed.

End Calm.

#[export] Hint Resolve calm_get_image calm_current_pid calm_current_has calm_current_space
  calm_pid_or_none calm_current_cause calm_elapsed_since calm_emit_denied calm_emit_exit
  calm_emit_snapshot calm_emit_load_fault calm_emit_yield calm_emit_spawn calm_emit_killed
  calm_emit_suite_done calm_emit_sched_preempt calm_emit_killed_operator calm_emit_ring_dump
  calm_release_space calm_release_frame calm_emit_output calm_sys_write calm_on_yield calm_on_blit
  calm_on_frame_rgb calm_on_getkey calm_swallow_stray_key calm_rearm calm_count_tick calm_emit_tick
  calm_emit_fault calm_emit_rpc calm_respond_result calm_respond_error calm_build_space
  calm_next_command : calm.
