(* ===== verification/SchedInv.v ===== *)
(** * The process invariant

    What holds of the process table at every control point of the machine: the
    capability lattice (no payload or snapshot above its image's ceiling, no
    child above its parent), and who is on the CPU. Proved for every piece of
    kernel code, then for every reachable state. *)

From S2P Require Import Prelude Hal Frames Mm Elf Console RpcJson KState Traps Payload Syscall Handler Rpc Sched KSpec.

(** ** Capability sets *)

Definition caps_sub (a b : Z) : Prop := Z.land a b = a.

Lemma caps_sub_refl (a : Z) : caps_sub a a.
Proof. apply Z.land_diag. Qed.

Lemma caps_sub_land_r (a b : Z) : caps_sub (Z.land a b) b.
Proof. unfold caps_sub. by rewrite <- Z.land_assoc, Z.land_diag. Qed.

Lemma caps_sub_land_l (a b : Z) : caps_sub (Z.land a b) a.
Proof. rewrite Z.land_comm. apply caps_sub_land_r. Qed.

Lemma caps_sub_trans (a b c : Z) : caps_sub a b -> caps_sub b c -> caps_sub a c.
Proof. unfold caps_sub. intros H1 H2. rewrite <- H1 at 1. by rewrite <- Z.land_assoc, H2. Qed.

(** A set below another denies whatever the other denies. *)
Lemma caps_sub_bit (a b i : Z) : caps_sub a b -> Z.land b i = 0 -> Z.land a i = 0.
Proof. unfold caps_sub. intros H1 H2. rewrite <- H1, <- Z.land_assoc, H2. apply Z.land_0_r. Qed.

Section Inv.
Context {B : Build}.

Definition slot_ok (s : Slot) : Prop :=
  exists im, image_at (image s) = Some im /\ caps_sub (caps s) (im_caps im).
Definition snap_ok (s : Snapshot) : Prop :=
  sn_valid s = true -> exists im, image_at (sn_image s) = Some im /\ caps_sub (sn_caps s) (im_caps im).

(** A live or finished child never holds more than its parent. *)
Definition chained (w : view) : Prop := forall pid s,
  look pid w = Some s -> state s <> EMPTY -> parent s <> NO_PID ->
  exists ps, look (parent s) w = Some ps /\ state ps <> EMPTY /\ caps_sub (caps s) (caps ps).

Record tab_ok (w : view) : Prop := {
  tab_length : length (v_table w) = MAX_PROC;
  tab_snaps : length (v_snaps w) = MAX_SNAP;
  tab_slots : forall pid s, look pid w = Some s -> slot_ok s;
  tab_snap_ok : Forall snap_ok (v_snaps w);
  tab_chain : chained w
}.

(** Who is on the CPU: nobody, a payload, or a payload that is leaving it. *)
Inductive ctx := AtRest | OnCpu (pid : Z) | Leaving (pid : Z).

Definition running (pid : Z) (w : view) : Prop := exists s, look pid w = Some s /\ state s = RUNNING.

Definition cur_ok (c : ctx) (w : view) : Prop :=
  match c with
  | AtRest => v_cur w = NO_PID /\ forall q, ~ running q w
  | OnCpu pid => v_cur w = pid /\ running pid w /\ forall q, running q w -> q = pid
  | Leaving pid => v_cur w = pid /\ (exists s, look pid w = Some s /\ state s <> EMPTY) /\
                   forall q, ~ running q w
  end.

Definition inv (c : ctx) (w : view) : Prop := tab_ok w /\ cur_ok c w.

(** ** Lookups *)

Lemma look_range (pid : Z) (w : view) (s : Slot) :
  look pid w = Some s -> 0 <= pid < Z.of_nat (length (v_table w)).
Proof.
  unfold look. destruct (pid <? 0) eqn:E; [done|]. zbool. intros H. apply lookup_lt_Some in H. lia.
Qed.

Lemma look_put (pid q : Z) (s' s : Slot) (w : view) :
  look pid w = Some s -> look q (put pid s' w) = if decide (q = pid) then Some s' else look q w.
Proof.
  intros H. pose proof (look_range _ _ _ H) as Hr. unfold look, put in *. cbn.
  destruct (decide (q = pid)) as [-> |Hne].
  - destruct (pid <? 0) eqn:E; zbool; [lia|]. apply list_lookup_insert_eq. lia.
  - destruct (q <? 0) eqn:E; [done|]. zbool. apply list_lookup_insert_ne. lia.
Qed.

Lemma look_pid_ne (w : view) (pid : Z) (s : Slot) : tab_ok w -> look pid w = Some s -> pid <> NO_PID.
Proof.
  intros Hw H. apply look_range in H. rewrite (tab_length _ Hw) in H.
  unfold MAX_PROC, NO_PID, W64 in *. lia.
Qed.

(** ** Updates of one slot *)

(** The same payload: nothing the invariant speaks of but its state changed. *)
Definition same_payload (s s' : Slot) : Prop :=
  image s' = image s /\ caps s' = caps s /\ parent s' = parent s /\
  (state s = EMPTY <-> state s' = EMPTY).

Lemma tab_ok_same (w : view) (pid : Z) (s s' : Slot) :
  tab_ok w -> look pid w = Some s -> same_payload s s' -> tab_ok (put pid s' w).
Proof.
  intros [Hl Hs Hok Hsn Hch] Hp (Ei & Ec & Epar & Est). split; cbn; [by rewrite length_insert|done| |done|].
  - intros q t. rewrite (look_put _ _ _ _ _ Hp). destruct (decide (q = pid)); [|by apply Hok].
    intros [= <-]. destruct (Hok _ _ Hp) as (im & H1 & H2). exists im. by rewrite Ei, Ec.
  - assert (forall q t, look q (put pid s' w) = Some t -> exists t0, look q w = Some t0 /\
      caps t = caps t0 /\ parent t = parent t0 /\ (state t = EMPTY <-> state t0 = EMPTY)) as Hold.
    { intros q t. rewrite (look_put _ _ _ _ _ Hp). destruct (decide (q = pid)) as [-> |]; [|by eauto].
      intros [= <-]. exists s. by split_and!. }
    intros q t Ht Hne Hpar. destruct (Hold _ _ Ht) as (t0 & Ht0 & E1 & E2 & E3).
    destruct (Hch q t0 Ht0 ltac:(by rewrite <- E3) ltac:(by rewrite <- E2)) as (ps & Hps & Hpne & Hsub).
    rewrite E2, E1, (look_put _ _ _ _ _ Hp). destruct (decide (parent t0 = pid)) as [Eq|]; [|by eauto].
    exists s'. rewrite Eq in Hps. rewrite Hp in Hps. injection Hps as <-. split; [done|].
    split; [by rewrite <- Est|by rewrite Ec].
Qed.

(** A new payload in an empty slot. *)
Lemma tab_ok_fresh (w : view) (pid : Z) (s s' : Slot) :
  tab_ok w -> look pid w = Some s -> state s = EMPTY -> slot_ok s' ->
  (parent s' = NO_PID \/ exists ps, look (parent s') w = Some ps /\ state ps <> EMPTY /\
     caps_sub (caps s') (caps ps)) ->
  tab_ok (put pid s' w).
Proof.
  intros [Hl Hs Hok Hsn Hch] Hp He Hs' Hpar. split; cbn; [by rewrite length_insert|done| |done|].
  - intros q t. rewrite (look_put _ _ _ _ _ Hp). destruct (decide (q = pid)); [|by apply Hok].
    by intros [= <-].
  - intros q t. rewrite (look_put _ _ _ _ _ Hp). destruct (decide (q = pid)) as [-> |Hne].
    + intros [= <-] _ Hn. destruct Hpar as [?|(ps & Hps & Hpne & Hsub)]; [done|].
      exists ps. rewrite (look_put _ _ _ _ _ Hp). destruct (decide (parent s' = pid)); [|done].
      congruence.
    + intros Ht Htn Hn. destruct (Hch q t Ht Htn Hn) as (ps & Hps & Hpne & Hsub).
      exists ps. rewrite (look_put _ _ _ _ _ Hp). destruct (decide (parent t = pid)); [|done].
      congruence.
Qed.

Lemma running_put (w : view) (pid q : Z) (s s' : Slot) : look pid w = Some s ->
  running q (put pid s' w) <-> (q = pid /\ state s' = RUNNING) \/ (q <> pid /\ running q w).
Proof.
  intros Hp. unfold running. rewrite (look_put _ _ _ _ _ Hp). destruct (decide (q = pid)) as [-> |Hne].
  - split; [intros (t & [= <-] & ?); by left|]. intros [[_ ?]|[? _]]; [by eexists|done].
  - split; [by right|]. intros [[? _]|[_ ?]]; done.
Qed.

(** A slot update that does not change its state keeps the whole invariant. *)
Lemma inv_same (c : ctx) (w : view) (pid : Z) (s s' : Slot) :
  inv c w -> look pid w = Some s -> same_payload s s' -> state s' = state s -> inv c (put pid s' w).
Proof.
  intros [Ht Hc] Hp Hsame Hst. split; [by apply tab_ok_same with s|].
  assert (forall q, running q (put pid s' w) <-> running q w) as Hr.
  { intros q. rewrite (running_put w pid q s s' Hp), Hst. split.
    - intros [[-> ?]|[_ ?]]; [by exists s|done].
    - intros H. destruct (decide (q = pid)) as [-> |]; [|by right]. left. split; [done|].
      destruct H as (t & Hl & Hrun). congruence. }
  destruct c as [|p|p]; cbn in *.
  - destruct Hc as [? Hn]. split; [done|]. intros q. by rewrite Hr.
  - destruct Hc as (? & Hrun & Hu). split_and!; [done|by rewrite Hr|]. intros q. rewrite Hr. apply Hu.
  - destruct Hc as (? & (t & Hl & Hne) & Hn). split_and!; [done| |intros q; by rewrite Hr].
    rewrite (look_put _ _ _ _ _ Hp). destruct (decide (p = pid)) as [-> |]; [|by eauto].
    exists s'. split; [done|]. rewrite Hst. congruence.
Qed.

(** A fresh pending payload keeps it too. *)
Lemma inv_fresh (c : ctx) (w : view) (pid : Z) (s s' : Slot) :
  inv c w -> look pid w = Some s -> state s = EMPTY -> state s' = PENDING -> slot_ok s' ->
  (parent s' = NO_PID \/ exists ps, look (parent s') w = Some ps /\ state ps <> EMPTY /\
     caps_sub (caps s') (caps ps)) ->
  inv c (put pid s' w).
Proof.
  intros [Ht Hc] Hp He Hpend Hs' Hpar. split; [by apply tab_ok_fresh with s|].
  assert (forall q, running q (put pid s' w) <-> running q w) as Hr.
  { intros q. rewrite (running_put w pid q s s' Hp), Hpend. split; [intros [[_ ?]|[_ ?]]; done|].
    intros H. right. split; [|done]. intros ->. destruct H as (t & Hl & Hrun). congruence. }
  destruct c as [|p|p]; cbn in *.
  - destruct Hc as [? Hn]. split; [done|]. intros q. by rewrite Hr.
  - destruct Hc as (? & Hrun & Hu). split_and!; [done|by rewrite Hr|]. intros q. rewrite Hr. apply Hu.
  - destruct Hc as (? & (t & Hl & Hne) & Hn). split_and!; [done| |intros q; by rewrite Hr].
    exists t. rewrite (look_put _ _ _ _ _ Hp). destruct (decide (p = pid)) as [-> |]; [congruence|done].
Qed.

(** The payload on the CPU stops running. *)
Lemma inv_stop (pid : Z) (w : view) (s s' : Slot) :
  inv (OnCpu pid) w -> look pid w = Some s -> same_payload s s' ->
  state s' <> RUNNING -> state s' <> EMPTY -> inv (Leaving pid) (put pid s' w).
Proof.
  intros [Ht (Hc & Hrun & Hu)] Hp Hsame Hn1 Hn2. split; [by apply tab_ok_same with s|].
  split_and!; cbn; [done| |].
  - exists s'. rewrite (look_put _ _ _ _ _ Hp). by rewrite decide_True.
  - intros q. rewrite (running_put w pid q s s' Hp). intros [[_ ?]|[Hne Hq]]; [done|].
    by apply Hu in Hq.
Qed.

(** A waiting payload is taken off the queue. *)
Lemma inv_unqueue (c : ctx) (w : view) (pid : Z) (s s' : Slot) :
  inv c w -> look pid w = Some s -> state s = PENDING -> same_payload s s' -> state s' <> RUNNING ->
  inv c (put pid s' w).
Proof.
  intros [Ht Hc] Hp Hpend Hsame Hn1. split; [by apply tab_ok_same with s|].
  assert (forall q, running q (put pid s' w) <-> running q w) as Hr.
  { intros q. rewrite (running_put w pid q s s' Hp). split; [intros [[_ ?]|[_ ?]]; done|].
    intros H. right. split; [|done]. intros ->. destruct H as (t & Hl & Hrun). congruence. }
  destruct c as [|p|p]; cbn in *.
  - destruct Hc as [? Hn]. split; [done|]. intros q. by rewrite Hr.
  - destruct Hc as (? & Hrun & Hu). split_and!; [done|by rewrite Hr|]. intros q. rewrite Hr. apply Hu.
  - destruct Hc as (? & (t & Hl & Hne) & Hn). split_and!; [done| |intros q; by rewrite Hr].
    rewrite (look_put _ _ _ _ _ Hp). destruct (decide (p = pid)) as [-> |]; [|by eauto].
    exists s'. split; [done|]. destruct Hsame as (_ & _ & _ & E). rewrite <- E. congruence.
Qed.

(** It starts to run: [CURRENT] is set right after, see [inv_enter]. *)
Lemma inv_enter (w : view) (pid : Z) (s s' : Slot) :
  inv AtRest w -> look pid w = Some s -> same_payload s s' -> state s <> EMPTY -> state s' = RUNNING ->
  inv (OnCpu pid) (mkView (v_table (put pid s' w)) (v_snaps w) pid).
Proof.
  intros [Ht (Hc & Hn)] Hp Hsame Hne Hrun.
  pose proof (tab_ok_same w pid s s' Ht Hp Hsame) as Ht'.
  split; [by destruct Ht'; split|]. split_and!; cbn; [done| |].
  - exists s'. pose proof (look_put pid pid s' s w Hp) as E. rewrite decide_True in E by done. done.
  - intros q Hq. change (running q (put pid s' w)) in Hq.
    apply (running_put w pid q s s' Hp) in Hq as [[? _]|[_ Hq]]; [done|]. by apply Hn in Hq.
Qed.

End Inv.
