(* ===== verification/SchedProofs.v ===== *)
(** * Every piece of kernel code keeps the process invariant

    The trap handler from a running payload and from the kernel, the request
    reader, the suites, the scheduler and the command loop, each as a [triple]
    over the contexts of [SchedInv]; then the machine's reachable states. *)

From S2P Require Import Prelude Hal Frames Mm Elf Console RpcJson KState Traps Payload Syscall Handler Rpc Sched KRun KSpec SchedInv.

Section Proofs.
Context {B : Build}.

(** What holds when kernel code leaves the monad. *)
Definition exit_ok (x : exit) (w : view) : Prop :=
  match x with
  | XPanic | XShutdown => True
  | XResume _ _ => exists pid, inv (OnCpu pid) w
  | XRun | XIdle | XIllegal => inv AtRest w
  end.

(** Code that stays in its context. *)
Definition stays {T} (c : ctx) (m : M T) : Prop := triple (inv c) m (fun _ => inv c) exit_ok.

Lemma tri_calm {S T} (m : M S) (f : S -> M T) P Q :
  calm m -> (forall v, triple P (f v) Q exit_ok) -> triple P (bind m f) Q exit_ok.
Proof.
  intros Hm Hf. apply triple_bind with (R := fun _ => P); [|done].
  by apply triple_calm.
Qed.

Lemma tri_end {T} (m : M T) (P : view -> Prop) (Q : T -> view -> Prop) :
  calm m -> (forall v w, P w -> Q v w) -> triple P m Q exit_ok.
Proof. intros Hm HQ. by apply triple_calm. Qed.

Lemma stays_calm {T} (c : ctx) (m : M T) : calm m -> stays c m.
Proof. intros Hm. by apply tri_end. Qed.

Lemma stays_bind {S T} (c : ctx) (m : M S) (f : S -> M T) :
  stays c m -> (forall v, stays c (f v)) -> stays c (bind m f).
Proof. intros Hm Hf. by apply triple_bind with (R := fun _ => inv c). Qed.

Lemma tri_slot {T} (pid : Z) (f : Slot -> M T) P Q :
  (forall s, triple (fun w => P w /\ look pid w = Some s) (f s) Q exit_ok) ->
  triple P (bind (get_slot pid) f) Q exit_ok.
Proof.
  intros Hf. apply triple_bind with (R := fun s w => P w /\ look pid w = Some s); [|done].
  by apply triple_get_slot.
Qed.

Lemma tri_pure {T} (phi : Prop) (m : M T) (P : view -> Prop) Q :
  (phi -> triple P m Q exit_ok) -> triple (fun w => phi /\ P w) m Q exit_ok.
Proof. intros H k [Hphi Hk]. by apply H. Qed.

Lemma tri_pre {T} (m : M T) (P P' : view -> Prop) Q :
  (forall w, P w -> P' w) -> triple P' m Q exit_ok -> triple P m Q exit_ok.
Proof. intros HP H k Hk. apply H. auto. Qed.

(** The payload a context is about. *)
Definition ctx_pid (c : ctx) : option Z :=
  match c with AtRest => None | OnCpu pid | Leaving pid => Some pid end.

Lemma inv_cur (c : ctx) (w : view) : inv c w ->
  (if v_cur w =? NO_PID then None else Some (v_cur w)) = ctx_pid c.
Proof.
  intros [Ht Hc]. destruct c as [|pid|pid]; cbn in *.
  - destruct Hc as [-> _]. done.
  - destruct Hc as (-> & (s & Hs & _) & _). apply look_pid_ne in Hs; [|done].
    destruct (pid =? NO_PID) eqn:E; zbool; [lia|done].
  - destruct Hc as (-> & (s & Hs & _) & _). apply look_pid_ne in Hs; [|done].
    destruct (pid =? NO_PID) eqn:E; zbool; [lia|done].
Qed.

Lemma tri_current {T} (c : ctx) (P : view -> Prop) (f : option Z -> M T) Q :
  (forall w, P w -> inv c w) -> triple P (f (ctx_pid c)) Q exit_ok ->
  triple P (bind current_pid f) Q exit_ok.
Proof.
  intros HP Hf k Hk. unfold bind, current_pid, gets.
  pose proof (inv_cur c (view_of k) (HP _ Hk)) as E. cbn in E. rewrite E. by apply Hf.
Qed.

(** ** Process-table operations *)

Lemma position_look (p : Slot -> bool) (w : view) (pid : Z) :
  position p (v_table w) = Some pid -> exists s, look pid w = Some s /\ p s = true.
Proof.
  intros H. apply position_from_some in H as (Hi & s & Hs & Hp). exists s. split; [|done].
  unfold look. destruct (pid <? 0) eqn:E; zbool; [lia|]. by rewrite Z.sub_0_r in Hs.
Qed.

Lemma tri_ret {S T} (v : S) (f : S -> M T) P Q :
  triple P (f v) Q exit_ok -> triple P (bind (ret v) f) Q exit_ok.
Proof. intros H k Hk. by apply H. Qed.

Lemma tri_upd {T} (pid : Z) (g : Slot -> Slot) (f : unit -> M T) (P R : view -> Prop) Q :
  (forall w s, P w -> look pid w = Some s -> R (put pid (g s) w)) ->
  triple R (f tt) Q exit_ok -> triple P (bind (upd_slot pid g) f) Q exit_ok.
Proof.
  intros HR Hf. apply triple_bind with (R := fun _ => R); [|by intros []].
  by apply triple_upd_slot.
Qed.

(** Reading the process table first. *)
Lemma tri_table {T} (f : list Slot -> M T) (P : view -> Prop) Q :
  (forall t, triple (fun w => P w /\ v_table w = t) (f t) Q exit_ok) ->
  triple P (bind (gets (fun k => table (pay k))) f) Q exit_ok.
Proof.
  intros Hf. apply triple_bind with (R := fun t w => P w /\ v_table w = t); [|done].
  by apply triple_gets.
Qed.

Lemma has_state_true (st : pstate) (s : Slot) : has_state st s = true -> state s = st.
Proof. apply bool_decide_eq_true. Qed.

Lemma enqueue_stays (c : ctx) (img cs par : Z) (P : view -> Prop) :
  (forall w, P w -> inv c w /\
    (par = NO_PID \/ exists ps, look par w = Some ps /\ state ps <> EMPTY /\ caps_sub cs (caps ps))) ->
  triple P (enqueue img cs par) (fun _ => inv c) exit_ok.
Proof.
  intros HP. unfold enqueue. apply tri_table. intros t.
  destruct (position (has_state EMPTY) t) as [pid|] eqn:Epos.
  2: { apply triple_ret. intros w [Hw _]. by apply HP. }
  unfold get_image. destruct (image_at img) as [im|] eqn:Eim; [|by intros k Hk].
  apply tri_ret, tri_upd with (R := inv c); [|by apply triple_ret].
  intros w s [Hw <-] Hs. destruct (HP w Hw) as [Hi Hpar].
  destruct (position_look _ w pid Epos) as (s0 & Hs0 & He).
  rewrite Hs in Hs0. injection Hs0 as <-. apply has_state_true in He.
  apply inv_fresh with s; [done|done|done|done| |].
  - exists im. split; [done|]. apply caps_sub_land_r.
  - destruct Hpar as [?|(ps & ? & ? & ?)]; [by left|]. right. exists ps. split_and!; [done|done|].
    apply caps_sub_trans with cs; [apply caps_sub_land_l|done].
Qed.

(** ** Checkpoints *)

Lemma inv_snaps (c : ctx) (w : view) (sn : list Snapshot) :
  inv c w -> length sn = MAX_SNAP -> Forall snap_ok sn -> inv c (mkView (v_table w) sn (v_cur w)).
Proof.
  intros [[Hl Hs Hok Hsn Hch] Hc] Hl' Hsn'. split; [by split|]. by destruct c.
Qed.

Lemma upd_snap_stays (c : ctx) (sid : Z) (f : Snapshot -> Snapshot) (P : view -> Prop) :
  (forall w s, P w -> In s (v_snaps w) -> inv c w /\ snap_ok (f s)) ->
  triple P (upd_snap sid f) (fun _ => inv c) exit_ok.
Proof.
  intros HP k Hk. unfold upd_snap, snap_at. destruct (sid <? 0); [done|].
  destruct (snaps (pay k) !! Z.to_nat sid) as [s|] eqn:E; [|done].
  destruct (HP (view_of k) s Hk) as [Hi Hf].
  { apply list_elem_of_In. by apply list_elem_of_lookup_2 with (Z.to_nat sid). }
  apply (inv_snaps c (view_of k) (<[Z.to_nat sid := f s]> (snaps (pay k)))); [done| |].
  - rewrite length_insert. apply (tab_snaps _ (proj1 Hi)).
  - apply Forall_insert; [apply (tab_snap_ok _ (proj1 Hi))|done].
Qed.

Lemma snap_in (c : ctx) (w : view) (s : Snapshot) : inv c w -> In s (v_snaps w) -> snap_ok s.
Proof.
  intros [Ht _] Hs. pose proof (tab_snap_ok _ Ht) as Hf. rewrite Forall_forall in Hf.
  apply Hf. by apply list_elem_of_In.
Qed.

Lemma tri_then {T} (m : M unit) (f : unit -> M T) (c : ctx) (P : view -> Prop) Q :
  triple P m (fun _ => inv c) exit_ok -> triple (inv c) (f tt) Q exit_ok ->
  triple P (bind m f) Q exit_ok.
Proof. intros H1 H2. apply triple_bind with (R := fun _ => inv c); [done|by intros []]. Qed.

Lemma for_each_stays {T} (c : ctx) (l : list T) (f : T -> M unit) :
  (forall x, stays c (f x)) -> stays c (for_each l f).
Proof.
  intros Hf. induction l as [|x l IH]; cbn [for_each]; [apply (stays_calm c), calm_ret|].
  by apply stays_bind.
Qed.

Lemma free_snapshots_stays (c : ctx) : stays c free_snapshots.
Proof.
  apply for_each_stays. intros sid. apply tri_calm; [auto with calm|]. intros s.
  destruct (sn_valid s); [|apply (stays_calm c), calm_ret].
  apply tri_then with c; [apply upd_snap_stays; intros w t Hw Ht; split; [done|by intros [=]]|].
  apply tri_calm; [auto with calm|]. intros _.
  apply tri_then with c; [|apply stays_calm; auto with calm].
  apply upd_snap_stays. intros w t Hw Ht. split; [done|]. exact (snap_in c w t Hw Ht).
Qed.

Lemma on_snapshot_stays (pid : Z) (f : TrapFrame) : stays (OnCpu pid) (on_snapshot f).
Proof.
  unfold stays, on_snapshot. apply tri_current with (OnCpu pid); [done|]. cbn [ctx_pid].
  apply tri_calm; [auto with calm|]. intros [space|]; [|by apply triple_ret].
  apply tri_calm; [auto with calm|]. intros sn. destruct (position _ sn) as [sid|]; [|by apply triple_ret].
  apply tri_calm; [auto with calm|]. intros [snap_as|]; [|by apply triple_ret].
  apply tri_calm; [auto with calm|]. intros [fr|].
  2: { apply tri_end; [calm_go|done]. }
  apply tri_calm; [auto with calm|]. intros _. apply tri_slot. intros s.
  apply tri_then with (OnCpu pid).
  - apply upd_snap_stays. intros w t [Hw Hs] _. split; [done|]. intros _.
    apply (tab_slots _ (proj1 Hw) pid s Hs).
  - apply tri_end; [|done]. calm_go.
Qed.

(** A payload that can be started. *)
Definition queued (c : ctx) (o : option Z) (w : view) : Prop :=
  inv c w /\ match o with
            | Some pid => exists s, look pid w = Some s /\ state s = PENDING
            | None => True
            end.

Lemma enqueue_restore_stays (c : ctx) (sid : Z) :
  triple (inv c) (enqueue_restore sid) (queued c) exit_ok.
Proof.
  assert (forall P : view -> Prop, (forall w, P w -> inv c w) -> triple P (ret None) (queued c) exit_ok) as Hnone.
  { intros P HP. apply triple_ret. intros w Hw. split; auto. }
  assert (forall (P : view -> Prop) a fr, (forall w, P w -> inv c w) ->
    triple P (pool_do (destroy a) ;;; pool_do (free fr) ;;; ret None) (queued c) exit_ok) as Hback.
  { intros P a fr HP. do 2 (apply tri_calm; [auto with calm|]; intros _). by apply Hnone. }
  unfold enqueue_restore.
  apply triple_bind with (R := fun s w => inv c w /\ (sn_valid s = true -> snap_ok s)).
  { intros k Hk. unfold get_snap, snap_at. destruct (sid <? 0); [done|].
    destruct (_ !! _) as [s|] eqn:E; [|done]. split; [done|]. intros _. apply (snap_in c (view_of k)); [done|].
    apply list_elem_of_In. by apply list_elem_of_lookup_2 with (Z.to_nat sid). }
  intros s. destruct (sn_valid s) eqn:Ev; cbn [negb]; [|apply Hnone; by intros w [? _]].
  apply tri_calm; [auto with calm|]. intros [new_as|]; [|apply Hnone; by intros w [? _]].
  apply tri_calm; [auto with calm|]. intros [fr|].
  2: { apply tri_calm; [auto with calm|]. intros _. apply Hnone. by intros w [? _]. }
  apply tri_calm; [auto with calm|]. intros copied.
  destruct copied; cbn [negb]; [|apply Hback; by intros w [? _]].
  apply tri_table. intros t. destruct (position _ t) as [pid|] eqn:Epos; [|apply Hback; by intros w [[? _] _]].
  unfold get_image. destruct (image_at (sn_image s)) as [im|] eqn:Eim; [|by intros k Hk].
  apply tri_ret, tri_upd with (R := queued c (Some pid)); [|by apply triple_ret].
  intros w s0 [[Hw Hsn] <-] Hs0. destruct (position_look _ w pid Epos) as (s1 & Hs1 & He).
  rewrite Hs0 in Hs1. injection Hs1 as <-. apply has_state_true in He.
  split; [apply inv_fresh with s0; [done|done|done|done| |by left]|].
  - exists im. split; [done|]. apply caps_sub_land_r.
  - eexists. rewrite (look_put _ _ _ _ _ Hs0), decide_True by done. by split.
Qed.

(** ** System calls *)

Lemma same_state (s : Slot) (st : pstate) : state s <> EMPTY -> st <> EMPTY ->
  same_payload s (with_state st s).
Proof. intros H1 H2. by split_and!. Qed.

Lemma inv_nonempty (pid : Z) (w : view) (s : Slot) :
  inv (OnCpu pid) w -> look pid w = Some s -> state s <> EMPTY.
Proof. intros [_ (_ & (t & Ht & Hr) & _)] Hs. rewrite Hs in Ht. injection Ht as ->. by rewrite Hr. Qed.

Lemma on_exit_leaves (pid code : Z) :
  triple (inv (OnCpu pid)) (on_exit code) (fun _ => inv (Leaving pid)) exit_ok.
Proof.
  unfold on_exit. apply triple_bind with (R := fun cur w => inv (OnCpu pid) w /\ cur = v_cur w); [by apply triple_gets|].
  intros cur. intros k [Hk Ecur]. pose proof (inv_cur _ _ Hk) as E. cbn in E. cbn in Ecur. rewrite <- Ecur in E.
  destruct (cur =? NO_PID); [done|]. injection E as ->. revert k Hk Ecur.
  assert (triple (inv (OnCpu pid)) (upd_slot pid (fun s => with_state EXITED (with_exit_code (as_isize code) s)) ;;;
    emit_exit pid (as_isize code)) (fun _ => inv (Leaving pid)) exit_ok) as Ht; [|intros k Hk _; by apply Ht].
  apply tri_upd with (R := inv (Leaving pid)); [|apply tri_end; [auto with calm|done]].
  intros w s Hw Hs. apply inv_stop with s; try done.
  pose proof (inv_nonempty _ _ _ Hw Hs). by split_and!.
Qed.

Lemma on_spawn_stays (pid sel req : Z) : stays (OnCpu pid) (on_spawn sel req).
Proof.
  unfold stays, on_spawn. apply tri_current with (OnCpu pid); [done|]. cbn [ctx_pid].
  apply tri_calm; [auto with calm|]. intros ok.
  destruct (negb ok); [apply tri_end; [calm_go|done]|].
  destruct (spawnable_image sel) as [img|]; [|by apply triple_ret].
  apply tri_slot. intros s. apply tri_calm; [auto with calm|]. intros im.
  apply triple_bind with (R := fun _ => inv (OnCpu pid)).
  - apply enqueue_stays. intros w [Hw Hs]. split; [done|]. right. exists s. split_and!; [done| |].
    + by apply inv_nonempty with pid w.
    + apply caps_sub_trans with (Z.land req (caps s)); [apply caps_sub_land_l|apply caps_sub_land_r].
  - intros [child|]; [|by apply triple_ret]. apply tri_end; [calm_go|done].
Qed.

Lemma dispatch_ok (pid : Z) (f : TrapFrame) :
  triple (inv (OnCpu pid)) (dispatch f)
    (fun out => match out with Resume _ => inv (OnCpu pid) | Leave => inv (Leaving pid) end) exit_ok.
Proof.
  assert (forall m : M Z, stays (OnCpu pid) m -> triple (inv (OnCpu pid)) (resume m)
    (fun out => match out with Resume _ => inv (OnCpu pid) | Leave => inv (Leaving pid) end) exit_ok) as Hres.
  { intros m Hm. apply triple_bind with (R := fun _ => inv (OnCpu pid)); [done|]. intros v. by apply triple_ret. }
  unfold dispatch. repeat match goal with |- triple _ (if ?b then _ else _) _ _ => destruct b end;
    try (apply Hres; first [apply on_spawn_stays|apply on_snapshot_stays|apply stays_calm; auto with calm]).
  - apply triple_bind with (R := fun _ => inv (Leaving pid)); [apply on_exit_leaves|]. intros _. by apply triple_ret.
  - by apply triple_ret.
Qed.

(** ** The timer *)

Lemma drain_byte_ok (pid : Z) (killed : bool) (b : byte) :
  let I (killed : bool) := if killed then inv (Leaving pid) else inv (OnCpu pid) in
  triple (I killed) (drain_byte pid killed b) (fun killed' => I killed') exit_ok.
Proof.
  cbn. unfold drain_byte. apply tri_calm; [auto with calm|]. intros pend.
  destruct (negb pend); [apply tri_calm; [calm_go|]; intros _; by apply triple_ret|].
  apply tri_calm; [calm_go|]. intros _.
  destruct (beq b KEY_OP_KILL).
  - apply tri_slot. intros s. destruct killed.
    + apply tri_pre with (fun w => inv (Leaving pid) w /\ state s <> RUNNING).
      { intros w [Hw Hs]. split; [done|]. intros Hr. destruct Hw as [_ (_ & _ & Hn)].
        apply (Hn pid). by exists s. }
      intros k [Hk Hne]. unfold has_state. rewrite (bool_decide_false (state s = RUNNING)) by done.
      revert k Hk. change (triple (inv (Leaving pid)) (ret tt ;;; ret true) (fun killed' => if killed' then inv (Leaving pid) else inv (OnCpu pid)) exit_ok).
      apply tri_ret. by apply triple_ret.
    + destruct (has_state RUNNING s) eqn:Er.
      * apply triple_bind with (R := fun _ => inv (Leaving pid)); [|intros _; by apply triple_ret].
        apply tri_upd with (R := inv (Leaving pid)); [|apply tri_end; [auto with calm|done]].
        intros w t [Hw Hs] Ht. apply inv_stop with t; try done. apply same_state; [|done].
        by apply inv_nonempty with pid w.
      * intros k [Hk Hs]. exfalso. destruct Hk as [_ (_ & (t & Ht & Hr) & _)].
        rewrite Hs in Ht. injection Ht as ->. unfold has_state in Er. by rewrite bool_decide_true in Er.
  - destruct killed; [by apply triple_ret|]. apply tri_calm; [|intros _; by apply triple_ret].
    apply calm_on_pay. intros p. unfold push_key. destruct (_ <=? _); by split_and!.
Qed.

Lemma drain_loop_ok (fuel : nat) (pid : Z) (killed : bool) :
  let I (killed : bool) := if killed then inv (Leaving pid) else inv (OnCpu pid) in
  triple (I killed) (drain_loop fuel pid killed) (fun killed' => I killed') exit_ok.
Proof.
  revert killed. induction fuel as [|f IH]; intros killed; cbn [drain_loop]; [by apply triple_ret|].
  apply tri_calm; [auto with calm|]. intros [b|]; [|by apply triple_ret].
  apply triple_bind with (R := fun killed' : bool => if killed' then inv (Leaving pid) else inv (OnCpu pid));
    [apply drain_byte_ok|apply IH].
Qed.

Lemma drain_keys_ok (pid : Z) :
  triple (inv (OnCpu pid)) drain_keys
    (fun killed => if killed : bool then inv (Leaving pid) else inv (OnCpu pid)) exit_ok.
Proof.
  unfold drain_keys. apply tri_current with (OnCpu pid); [done|]. cbn [ctx_pid].
  apply tri_calm; [auto with calm|]. intros s.
  destruct (_ || _); [by apply triple_ret|]. apply tri_calm; [auto with calm|]. intros n.
  apply (drain_loop_ok (S n) pid false).
Qed.

Lemma on_tick_ok (pid : Z) :
  triple (inv (OnCpu pid)) on_tick
    (fun over => if over : bool then inv (Leaving pid) else inv (OnCpu pid)) exit_ok.
Proof.
  unfold on_tick. apply tri_current with (OnCpu pid); [done|]. cbn [ctx_pid].
  apply tri_slot. intros s. destruct (negb _); [by apply triple_ret; intros w [? _]|].
  destruct (deadline s =? 0); [by apply triple_ret; intros w [? _]|].
  apply tri_calm; [auto with calm|]. intros now.
  destruct (deadline s <? _); [|by apply triple_ret; intros w [? _]].
  apply tri_upd with (R := inv (Leaving pid)).
  - intros w t [Hw Hs] Ht. apply inv_stop with t; try done. apply same_state; [|done].
    by apply inv_nonempty with pid w.
  - apply tri_calm; [auto with calm|]. intros _. by apply triple_ret.
Qed.

(** A payload that is already leaving is not looked at again. *)
Lemma on_tick_leaving (pid : Z) :
  triple (inv (Leaving pid)) on_tick (fun _ => inv (Leaving pid)) exit_ok.
Proof.
  unfold on_tick. apply tri_current with (Leaving pid); [done|]. cbn [ctx_pid].
  apply tri_slot. intros s.
  apply tri_pre with (fun w => inv (Leaving pid) w /\ state s <> RUNNING).
  { intros w [Hw Hs]. split; [done|]. intros Hr. destruct Hw as [_ (_ & _ & Hn)]. apply (Hn pid). by exists s. }
  intros k [Hk Hne]. unfold has_state. by rewrite (bool_decide_false (state s = RUNNING)).
Qed.

Lemma resume_slot_frame_stays (pid : Z) : stays (OnCpu pid) (resume_slot_frame pid).
Proof.
  unfold stays, resume_slot_frame. apply tri_calm; [auto with calm|]. intros s.
  destruct (negb _); [by apply triple_ret|]. apply tri_calm; [auto with calm|]. intros [fr|]; [|by apply triple_ret].
  apply tri_upd with (R := inv (OnCpu pid)); [|by apply triple_ret].
  intros w t Hw Ht. apply inv_same with t; [done|done|by split_and!|done].
Qed.

Lemma maybe_preempt_ok (pid : Z) (f : TrapFrame) :
  triple (inv (OnCpu pid)) (maybe_preempt f)
    (fun pre => if pre : bool then inv (Leaving pid) else inv (OnCpu pid)) exit_ok.
Proof.
  unfold maybe_preempt. apply tri_current with (OnCpu pid); [done|]. cbn [ctx_pid].
  apply tri_calm; [auto with calm|]. intros s.
  destruct (negb _); [by apply triple_ret|]. destruct (_ && _); [by apply triple_ret|].
  apply tri_calm; [auto with calm|]. intros [b|]; [|by apply triple_ret].
  apply tri_calm; [calm_go|]. intros _.
  apply triple_bind with (R := fun _ => inv (OnCpu pid)); [apply resume_slot_frame_stays|].
  intros [rf|]; [|by apply triple_ret].
  apply tri_calm; [auto with calm|]. intros _.
  apply tri_upd with (R := inv (OnCpu pid)); [intros w t Hw Ht; apply inv_same with t; [done|done|by split_and!|done]|].
  apply tri_upd with (R := inv (Leaving pid)).
  - intros w t Hw Ht. apply inv_stop with t; try done. apply same_state; [|done].
    by apply inv_nonempty with pid w.
  - apply tri_calm; [auto with calm|]. intros _. by apply triple_ret.
Qed.

(** ** The trap handler *)

(** The frame sends the CPU to the scheduler. *)
Definition redirected (f : TrapFrame) : Prop :=
  is_from_user f = false /\ sepc f = scheduler_resume_pc.

Lemma lor_spp (z : Z) : Z.land (Z.lor (Z.lor z SSTATUS_SPP) SSTATUS_SPIE) SSTATUS_SPP <> 0.
Proof.
  intros H. apply (f_equal (fun z => Z.testbit z 8)) in H.
  rewrite Z.land_spec, !Z.lor_spec in H. cbn in H. rewrite orb_true_r in H. done.
Qed.

Lemma redirect_ok (pid : Z) (f : TrapFrame) :
  triple (inv (Leaving pid)) (redirect_to_scheduler f)
    (fun f' w => redirected f' /\ inv AtRest w) exit_ok.
Proof.
  unfold redirect_to_scheduler.
  apply triple_bind with (R := fun _ => inv AtRest).
  - apply triple_modify. intros k [Ht (_ & _ & Hn)]. split; [by destruct Ht; split|]. by split.
  - intros _. apply triple_ret. intros w Hw. split; [|done]. split; [|done].
    unfold is_from_user. cbn. apply Z.eqb_neq. apply lor_spp.
Qed.

(** After a trap out of a payload: it goes on, or the scheduler takes over. *)
Definition trap_post (pid : Z) (f f' : TrapFrame) (w : view) : Prop :=
  (is_from_user f' = is_from_user f /\ inv (OnCpu pid) w) \/ (redirected f' /\ inv AtRest w).

Lemma handle_tick_ok (pid id : Z) (f : TrapFrame) :
  triple (inv (OnCpu pid)) (handle_tick id f)
    (fun f' w => (f' = f /\ inv (OnCpu pid) w) \/ (redirected f' /\ inv AtRest w)) exit_ok.
Proof.
  assert (forall f, triple (inv (Leaving pid)) (redirect_to_scheduler f)
    (fun f' w => (f' = f /\ inv (OnCpu pid) w) \/ (redirected f' /\ inv AtRest w)) exit_ok) as Hred.
  { intros g. eapply triple_conseq; [apply redirect_ok|done| |done]. intros f' w H. by right. }
  unfold handle_tick. do 3 (apply tri_calm; [auto with calm|]; intros ?).
  apply triple_bind with (R := fun (killed : bool) => if killed then inv (Leaving pid) else inv (OnCpu pid)).
  { destruct feat_doom; [apply drain_keys_ok|by apply triple_ret]. }
  intros killed. apply triple_bind with
    (R := fun (over : bool) => if over || killed then inv (Leaving pid) else inv (OnCpu pid)).
  { destruct killed.
    - eapply triple_conseq; [apply on_tick_leaving|done| |done]. intros over w. by rewrite orb_true_r.
    - eapply triple_conseq; [apply on_tick_ok|done| |done]. intros over w. by rewrite orb_false_r. }
  intros over. destruct (over || killed); [apply Hred|].
  apply triple_bind with (R := fun (pre : bool) => if pre then inv (Leaving pid) else inv (OnCpu pid));
    [apply maybe_preempt_ok|].
  intros pre. destruct pre; [apply Hred|]. apply triple_ret. intros w Hw. by left.
Qed.

Lemma handle_ok (pid scause stval : Z) (f : TrapFrame) :
  triple (inv (OnCpu pid)) (handle scause stval f) (trap_post pid f) exit_ok.
Proof.
  assert (forall f f0, triple (inv (Leaving pid)) (redirect_to_scheduler f) (trap_post pid f0) exit_ok) as Hred.
  { intros g g0. eapply triple_conseq; [apply redirect_ok|done| |done]. intros f' w H. by right. }
  unfold handle. do 2 (apply tri_calm; [auto with calm|]; intros ?).
  destruct (scause =? CAUSE_S_TIMER).
  { eapply triple_conseq; [apply handle_tick_ok|done| |done]. intros f' w [[-> ?]|?]; [by left|by right]. }
  destruct (scause =? CAUSE_U_ECALL).
  - eapply triple_bind; [apply dispatch_ok|]. intros [val|]; [|apply Hred].
    apply triple_ret. intros w Hw. by left.
  - unfold handle_fault. destruct (is_from_user f) eqn:Eu.
    + apply tri_current with (OnCpu pid); [done|]. cbn [ctx_pid].
      apply tri_calm; [auto with calm|]. intros _.
      apply triple_bind with (R := fun _ => inv (Leaving pid)); [|intros _; apply Hred].
      unfold mark_faulted. apply tri_current with (OnCpu pid); [done|]. cbn [ctx_pid].
      apply triple_upd_slot; [|done]. intros w s Hw Hs. apply inv_stop with s; try done.
      apply same_state; [|done]. by apply inv_nonempty with pid w.
    + apply tri_calm; [auto with calm|]. intros _. by apply triple_stop.
Qed.

(** A tick while the kernel itself runs and no payload is on the CPU. *)
Lemma handle_tick_rest (id : Z) (f : TrapFrame) :
  triple (inv AtRest) (handle_tick id f) (fun f' w => f' = f /\ inv AtRest w) exit_ok.
Proof.
  assert (forall T (m : option Z -> M T) Q, triple (inv AtRest) (m None) Q exit_ok ->
    triple (inv AtRest) (bind current_pid m) Q exit_ok) as Hcur.
  { intros T m Q H. by apply tri_current with AtRest. }
  unfold handle_tick. do 3 (apply tri_calm; [auto with calm|]; intros ?).
  apply triple_bind with (R := fun (killed : bool) w => killed = false /\ inv AtRest w).
  { destruct feat_doom; [unfold drain_keys; apply Hcur|]; by apply triple_ret. }
  intros killed. apply tri_pure. intros ->.
  apply triple_bind with (R := fun (over : bool) w => over || false = false /\ inv AtRest w).
  { unfold on_tick. apply Hcur. by apply triple_ret. }
  intros over. apply tri_pure. intros ->.
  apply triple_bind with (R := fun (pre : bool) w => pre = false /\ inv AtRest w).
  { unfold maybe_preempt. apply Hcur. by apply triple_ret. }
  intros pre. apply tri_pure. intros ->. by apply triple_ret.
Qed.

Lemma kernel_tick_ok (c : ctx) (f : TrapFrame) : (forall pid, c <> Leaving pid) -> stays c (kernel_tick f).
Proof.
  intros Hc k1 Hk. unfold kernel_tick. destruct (sepc f =? scheduler_resume_pc) eqn:Epc; [done|]. zbool.
  set (g := with_sstatus _ f).
  unfold handle. change (CAUSE_S_TIMER =? CAUSE_S_TIMER) with true. unfold bind at 1 2, next_event, modify. cbn iota beta.
  set (k2 := on_traps _ _). change (inv c (view_of k2)) in Hk.
  destruct c as [|pid|pid]; [| |by destruct (Hc pid)].
  - pose proof (handle_tick_rest (next_id k1) g k2 Hk) as H.
    destruct (handle_tick _ g k2) as [[f'|x] k3]; [|done]. destruct H as [-> H].
    replace (sepc g =? scheduler_resume_pc) with false; [done|]. symmetry. by apply Z.eqb_neq.
  - pose proof (handle_tick_ok pid (next_id k1) g k2 Hk) as H.
    destruct (handle_tick _ g k2) as [[f'|x] k3]; [|done]. destruct H as [[-> H]|[[_ ->] H]].
    + replace (sepc g =? scheduler_resume_pc) with false; [done|]. symmetry. by apply Z.eqb_neq.
    + by rewrite Z.eqb_refl.
Qed.

Lemma irq_point_ok (c : ctx) : (forall pid, c <> Leaving pid) -> stays c irq_point.
Proof.
  intros Hc k Hk. unfold irq_point. destruct (hw_irq (hw k)) as [|[f|] r]; [done| |done]. by apply (kernel_tick_ok c f Hc).
Qed.

Lemma wait_ok (c : ctx) : (forall pid, c <> Leaving pid) -> stays c wait_for_interrupt.
Proof.
  intros Hc k Hk. unfold wait_for_interrupt. destruct (next_irq _) as [[f r]|]; by apply (kernel_tick_ok c _ Hc).
Qed.

(** ** The control plane, with no payload on the CPU *)

Lemma getc_loop_stays (n : nat) : stays AtRest (getc_loop n).
Proof.
  induction n as [|n IH]; cbn [getc_loop]; (apply tri_calm; [auto with calm|]; intros [b|]); try by apply triple_ret.
  apply stays_bind; [by apply wait_ok|done].
Qed.

Lemma read_bytes_stays (n : nat) : stays AtRest (read_bytes n).
Proof.
  induction n as [|n IH]; cbn [read_bytes]; [by apply triple_ret|].
  apply stays_bind; [apply getc_loop_stays|]. intros [b|]; [|by apply triple_ret].
  apply stays_bind; [done|]. intros o. by apply triple_ret.
Qed.

Lemma clear_table_stays : stays AtRest clear_table.
Proof.
  unfold clear_table. apply stays_bind.
  { apply triple_modify. intros k [[Hl Hs Hok Hsn Hch] (Hcur & Hn)].
    assert (forall q t, look q (view_of (on_pay (fun p => with_table (map (with_state EMPTY) (table p)) p) k)) = Some t ->
      exists t0, look q (view_of k) = Some t0 /\ t = with_state EMPTY t0) as Hlook.
    { intros q t. unfold look. destruct (q <? 0); [done|]. cbn. rewrite list_lookup_fmap.
      destruct (_ !! _) as [t0|]; [|done]. intros [= <-]. by exists t0. }
    split; [split; cbn; [by rewrite length_map|done| |done|]|split; [done|]].
    - intros q t Ht. destruct (Hlook q t Ht) as (t0 & Ht0 & ->). exact (Hok q t0 Ht0).
    - intros q t Ht He. by destruct (Hlook q t Ht) as (t0 & Ht0 & ->).
    - intros q (t & Ht & Hr). by destruct (Hlook q t Ht) as (t0 & Ht0 & ->). }
  intros _. apply stays_bind; [apply free_snapshots_stays|]. intros _. apply stays_calm.
  unfold clear_keys. calm_go.
Qed.

Lemma seed_stays (imgs : list Z) : stays AtRest (seed imgs).
Proof.
  unfold seed. apply stays_bind; [apply clear_table_stays|]. intros _. apply for_each_stays. intros img.
  apply tri_calm; [auto with calm|]. intros im. apply stays_bind; [|intros ?; by apply triple_ret].
  apply enqueue_stays. intros w Hw. split; [done|by left].
Qed.

Lemma suite_seed_stays (s : bytes) (m : M unit) : suite_seed s = Some m -> stays AtRest m.
Proof.
  assert (forall imgs n, stays AtRest (seed imgs ;;; modify (on_pay (with_auto_fork n)))) as Hfork.
  { intros imgs n. apply stays_bind; [apply seed_stays|]. intros _. apply stays_calm. calm_go. }
  unfold suite_seed. intros H. repeat (destruct (_ || _) in H || destruct (bool_decide _) in H || destruct (_ && _) in H);
    simplify_eq; first [apply seed_stays|apply Hfork].
Qed.

Lemma kill_pid_stays (pid : Z) : stays AtRest (kill_pid pid).
Proof.
  unfold kill_pid. apply triple_bind with (R := fun o w => inv AtRest w /\ o = look pid w); [by apply triple_gets|].
  intros [s|]; [|by apply triple_ret; intros w [? _]].
  destruct (has_state PENDING s) eqn:Ep; [|by apply triple_ret; intros w [? _]]. cbn [negb].
  apply has_state_true in Ep.
  apply tri_upd with (R := inv AtRest); [|apply stays_calm; calm_go].
  intros w t [Hw Hs] Ht. rewrite Ht in Hs. injection Hs as ->.
  apply inv_unqueue with t; try done. apply same_state; [by rewrite Ep|done].
Qed.

Lemma set_deadline_stays (pid units : Z) : stays AtRest (set_deadline pid units).
Proof.
  unfold set_deadline. apply tri_calm; [auto with calm|]. intros [s|]; [|by apply triple_ret].
  destruct (negb _); [by apply triple_ret|].
  apply tri_upd with (R := inv AtRest); [|by apply triple_ret].
  intros w t Hw Ht. apply inv_same with t; [done|done|by split_and!|done].
Qed.

Lemma once_stays (id : bytes) (op : option bytes) (m : M unit) : stays AtRest m -> stays AtRest (once id op m).
Proof.
  intros Hm. destruct op as [op|]; [|done]. apply tri_calm; [auto with calm|]. intros o.
  destruct (op_seen _ o); [apply stays_calm; unfold respond_duplicate; auto with calm|].
  apply tri_calm; [auto with calm|]. intros _. apply Hm.
Qed.

Ltac responder := apply (stays_calm AtRest); unfold respond_initialize, respond_tools_list,
  respond_resources_list, respond_accepted, respond_duplicate, busy; solve [auto with calm | calm_go].

Lemma handle_tools_call_stays (json id : bytes) : stays AtRest (handle_tools_call json id).
Proof.
  unfold handle_tools_call.
  repeat match goal with |- stays _ (if ?b then _ else _) => destruct b end.
  - unfold tool_run_suite. destruct (suite_seed _) as [m|] eqn:Es; [|responder].
    apply tri_calm; [unfold any_alive; auto with calm|]. intros [|]; [responder|].
    apply once_stays. apply stays_bind; [responder|]. intros _.
    apply stays_bind; [by apply suite_seed_stays in Es|]. intros _. by apply triple_stop.
  - unfold tool_crash. apply tri_calm; [unfold any_alive; auto with calm|]. intros [|]; [responder|].
    apply once_stays. apply stays_bind; [responder|]. intros _. by apply triple_stop.
  - unfold tool_kill. destruct (get_u32 _ _) as [pid|]; [|responder]. apply once_stays.
    apply stays_bind; [apply kill_pid_stays|]. intros [e|e]; responder.
  - unfold tool_set_budget. destruct (get_u32 _ _) as [pid|]; [|responder].
    destruct (get_u32 _ _) as [dl|]; [|responder]. apply once_stays.
    apply stays_bind; [apply set_deadline_stays|]. intros [e|e]; responder.
  - responder.
  - unfold tool_set_surface. repeat (destruct (is_ _ _)); responder.
  - unfold tool_set_autonomy. repeat (destruct (is_ _ _)); responder.
  - responder.
  - responder.
Qed.

Lemma read_request_stays : stays AtRest read_request.
Proof.
  unfold read_request. apply stays_bind; [apply getc_loop_stays|]. intros ob.
  destruct (negb _); [by apply triple_ret|]. apply stays_bind; [apply read_bytes_stays|].
  intros [lenb|]; [|by apply triple_ret]. destruct (_ || _); [by apply triple_ret|].
  apply stays_bind; [apply read_bytes_stays|]. intros [body|]; [|by apply triple_ret].
  apply tri_calm; [auto with calm|]. intros _. change (stays AtRest (accept_body body)). unfold accept_body. destruct (negb _); [by apply triple_ret|]. destruct (bool_decide _); [|by apply triple_ret].
  unfold dispatch_request.
  repeat match goal with |- stays _ (if ?b then _ else _) => destruct b end; try responder.
  - apply handle_tools_call_stays.
  - unfold handle_resources_read. responder.
Qed.

(** ** The scheduler *)

Lemma service_loop_stays (n : nat) : stays AtRest (service_loop n).
Proof.
  induction n as [|n IH]; cbn [service_loop]; [by apply triple_ret|].
  apply tri_calm; [auto with calm|]. intros [b|]; [|by apply triple_ret].
  apply stays_bind; [|done]. unfold serve_byte.
  destruct (beq b xaa); [apply read_request_stays|]. destruct (beq b x72); responder.
Qed.

Lemma reap_stays : stays AtRest reap_terminated.
Proof.
  apply for_each_stays. intros pid. apply tri_calm; [auto with calm|]. intros s.
  destruct (terminal (state s)); [|by apply triple_ret].
  assert (forall m : M unit, calm m -> stays AtRest m) as Hcalm by (intros; by apply stays_calm).
  apply tri_upd with (R := inv AtRest); [intros w t Hw Ht; apply inv_same with t; [done|done|by split_and!|done]|].
  apply tri_calm; [auto with calm|]. intros _.
  apply tri_upd with (R := inv AtRest); [intros w t Hw Ht; apply inv_same with t; [done|done|by split_and!|done]|].
  apply Hcalm. auto with calm.
Qed.

(** The view once [CURRENT] names [pid]. *)
Definition entered (pid : Z) (w : view) : view := mkView (v_table w) (v_snaps w) pid.

Lemma entered_put (pid : Z) (s : Slot) (w : view) :
  entered pid (put pid s w) = put pid s (entered pid w).
Proof. done. Qed.

(** The tail of both kinds of start: CURRENT is set, the start is announced
    (or not), and the payload is resumed. *)
Lemma enter_ok (pid satp fr : Z) (announce : M unit) (P : view -> Prop) :
  stays (OnCpu pid) announce -> (forall w, P w -> inv (OnCpu pid) (entered pid w)) ->
  triple P (modify (on_pay (with_current pid)) ;;; irq_point ;;; announce ;;; irq_point ;;;
            @stop unit (XResume satp fr)) (fun _ _ => False) exit_ok.
Proof.
  intros Ha HP. apply triple_bind with (R := fun _ => inv (OnCpu pid)); [apply triple_modify; intros k Hk; exact (HP _ Hk)|].
  intros _. apply triple_bind with (R := fun _ => inv (OnCpu pid)); [by apply irq_point_ok|].
  intros _. apply triple_bind with (R := fun _ => inv (OnCpu pid)); [done|].
  intros _. apply triple_bind with (R := fun _ => inv (OnCpu pid)); [by apply irq_point_ok|].
  intros _. apply triple_stop. intros w Hw. by exists pid.
Qed.

Lemma emit_start_stays (c : ctx) (pid : Z) (n : bytes) (cs e : Z) (r : bool) : stays c (emit_start pid n cs e r).
Proof.
  unfold emit_start. apply tri_calm; [auto with calm|]. intros ev.
  apply tri_upd with (R := inv c); [intros w t Hw Ht; apply inv_same with t; [done|done|by split_and!|done]|].
  apply stays_calm. calm_go.
Qed.

Lemma upd_entered (pid : Z) (f : Slot -> Slot) (P : view -> Prop) :
  (forall w s, P w -> look pid w = Some s -> inv (OnCpu pid) (entered pid (put pid (f s) w))) ->
  triple P (upd_slot pid f) (fun _ w => inv (OnCpu pid) (entered pid w)) exit_ok.
Proof. intros HP. by apply triple_upd_slot. Qed.

Lemma touch_started (pid now : Z) :
  triple (fun w => inv (OnCpu pid) (entered pid w)) (upd_slot pid (with_started_at now))
    (fun _ w => inv (OnCpu pid) (entered pid w)) exit_ok.
Proof.
  apply upd_entered. intros w s Hw Hs. rewrite entered_put.
  apply inv_same with s; [done|done|by split_and!|done].
Qed.

Lemma start_ok (pid : Z) : triple (queued AtRest (Some pid)) (start pid) (fun _ _ => False) exit_ok.
Proof.
  unfold start. apply tri_slot. intros s.
  apply tri_pre with (fun w => state s = PENDING /\ (inv AtRest w /\ look pid w = Some s)).
  { intros w [[Hw (t & Ht & Hp)] Hs]. rewrite Hs in Ht. by injection Ht as ->. }
  apply tri_pure. intros Hpend.
  assert (forall f, (forall t, same_payload t (f t) \/ state t = EMPTY) -> (forall t, state (f t) = RUNNING) ->
    triple (fun w => inv AtRest w /\ look pid w = Some s) (upd_slot pid f)
      (fun _ w => inv (OnCpu pid) (entered pid w)) exit_ok) as Hrun.
  { intros f Hf Hst. apply upd_entered. intros w t [Hw Hs] Ht. rewrite Hs in Ht. injection Ht as <-.
    apply (inv_enter w pid s (f s)); [done|done| |by rewrite Hpend|done].
    destruct (Hf s) as [?|?]; [done|congruence]. }
  destruct (negb _).
  - unfold start_saved. apply triple_bind with (R := fun _ w => inv (OnCpu pid) (entered pid w)).
    { apply Hrun; [|done]. intros t. destruct (decide (state t = EMPTY)); [by right|left; by split_and!]. }
    intros _. apply triple_bind with (R := fun _ w => inv (OnCpu pid) (entered pid w)).
    { destruct (preempted s); [by apply triple_ret|]. apply tri_calm; [auto with calm|]. intros now. apply touch_started. }
    intros _. apply enter_ok; [|done]. destruct (preempted s); [by apply triple_ret|].
    do 2 (apply tri_calm; [auto with calm|]; intros ?). apply emit_start_stays.
  - unfold start_fresh. apply tri_calm; [auto with calm|]. intros im. apply tri_calm; [auto with calm|].
    assert (forall name reason, triple (fun w => inv AtRest w /\ look pid w = Some s)
      (load_failed pid name reason) (fun _ _ => False) exit_ok) as Hfail.
    { intros name reason. apply tri_upd with (R := inv AtRest).
      - intros w t [Hw Hs] Ht. rewrite Hs in Ht. injection Ht as <-. apply inv_unqueue with s; try done.
        apply same_state; [by rewrite Hpend|done].
      - apply tri_calm; [auto with calm|]. intros _. by apply triple_stop. }
    intros [reason|[space entry]]; [apply Hfail|].
    apply tri_calm; [auto with calm|]. intros [fr|]; [|apply tri_calm; [auto with calm|]; intros _; apply Hfail].
    apply tri_calm; [auto with calm|]. intros _.
    apply triple_bind with (R := fun _ w => inv (OnCpu pid) (entered pid w)).
    { apply Hrun; [|done]. intros t. destruct (decide (state t = EMPTY)); [by right|left; by split_and!]. }
    intros _. apply tri_calm; [auto with calm|]. intros now.
    apply triple_bind with (R := fun _ w => inv (OnCpu pid) (entered pid w)); [apply touch_started|]. intros _.
    apply triple_bind with (R := fun _ => inv (OnCpu pid)); [apply triple_modify; intros k Hk; exact Hk|]. intros _.
    apply triple_bind with (R := fun _ => inv (OnCpu pid)); [by apply irq_point_ok|]. intros _.
    apply tri_calm; [auto with calm|]. intros s'.
    apply triple_bind with (R := fun _ => inv (OnCpu pid)); [apply emit_start_stays|]. intros _.
    apply triple_bind with (R := fun _ => inv (OnCpu pid)); [by apply irq_point_ok|]. intros _.
    apply triple_stop. intros w Hw. by exists pid.
Qed.


Lemma run_ok : triple (inv AtRest) run (fun _ _ => False) exit_ok.
Proof.
  unfold run. apply triple_bind with (R := fun _ => inv AtRest).
  { apply triple_modify. intros k [Ht (_ & Hn)]. split; [by destruct Ht; split|]. by split. }
  intros _. do 2 (apply tri_calm; [unfold kernel_satp; auto with calm|]; intros ?).
  apply triple_bind with (R := fun _ => inv AtRest); [by apply irq_point_ok|]. intros _.
  apply triple_bind with (R := fun _ => inv AtRest); [apply reap_stays|]. intros _.
  apply triple_bind with (R := fun _ => inv AtRest).
  { unfold service_console. apply tri_calm; [auto with calm|]. intros n. apply service_loop_stays. }
  intros _. apply triple_bind with (R := fun _ => inv AtRest); [by apply irq_point_ok|]. intros _.
  apply triple_bind with (R := fun _ => inv AtRest); [apply reap_stays|]. intros _.
  apply triple_bind with (R := queued AtRest).
  { unfold take_next_pending. apply triple_gets. intros k Hk. split; [done|].
    destruct (position _ _) as [pid|] eqn:Epos; [|done].
    destruct (position_look _ (view_of k) pid Epos) as (s & Hs & Hp). exists s. split; [done|].
    by apply has_state_true. }
  intros [pid|]; [apply start_ok|].
  apply triple_bind with (R := queued AtRest).
  { unfold owed_fork. apply tri_pre with (inv AtRest); [by intros w [? _]|].
    apply tri_calm; [auto with calm|]. intros p. destruct (_ && _); [|by apply triple_ret].
    apply tri_calm; [calm_go|]. intros _. apply enqueue_restore_stays. }
  intros [pid|]; [apply start_ok|]. apply tri_pre with (inv AtRest); [by intros w [? _]|].
  apply tri_calm; [auto with calm|]. intros _. by apply triple_stop.
Qed.

Lemma idle_ok : stays AtRest idle_step.
Proof.
  unfold idle_step. apply tri_calm; [auto with calm|]. intros ob.
  apply tri_calm; [calm_go|]. intros [b|]; [|by apply wait_ok].
  assert (forall m, stays AtRest m -> stays AtRest (seed_and_run m)) as Hseed.
  { intros m Hm. apply stays_bind; [done|]. intros _. by apply triple_stop. }
  assert (forall imgs n, stays AtRest (seed imgs ;;; modify (on_pay (with_auto_fork n)))) as Hfork.
  { intros imgs n. apply stays_bind; [apply seed_stays|]. intros _. apply stays_calm. calm_go. }
  destruct (beq b xaa); [apply read_request_stays|]. destruct (beq b x72); [responder|].
  destruct (beq b x78); [by apply triple_stop|].
  repeat match goal with |- triple _ (if ?b then _ else _) _ _ => destruct b end;
    first [by apply wait_ok|apply Hseed; first [apply seed_stays|apply Hfork]].
Qed.

(** ** The machine *)

(** What holds at every control point. *)
Definition machine_inv (s : control * K) : Prop :=
  match fst s with
  | CRun | CIdle | CIllegal => inv AtRest (view_of (snd s))
  | CUser f => is_from_user f = true /\ exists pid, inv (OnCpu pid) (view_of (snd s))
  | CKernel _ => exists pid, inv (OnCpu pid) (view_of (snd s))
  | COff => True
  end.

Lemma after_inv (x : exit) (k : K) : exit_ok x (view_of k) -> machine_inv (after x k).
Proof.
  intros Hx. destruct x; try done. cbn in *. unfold resume_sret. by destruct (is_from_user _) eqn:Eu.
Qed.

Lemma step_inv (s s' : control * K) : machine_inv s -> step s s' -> machine_inv s'.
Proof.
  intros Hs H. destruct H as [k x k' E|k k' E|k x k' E|k f x k' stval Hf E|k f f' m' Hf' Hw
    |k f scause stval f' k' _ _ E|k f scause stval x k' _ _ E|k c ins irqs dts]; cbn in Hs.
  - pose proof (run_ok k Hs) as Hr. rewrite E in Hr. by apply after_inv.
  - pose proof (idle_ok k Hs) as Hr. by rewrite E in Hr.
  - pose proof (idle_ok k Hs) as Hr. rewrite E in Hr. by apply after_inv.
  - apply after_inv. unfold handle in E. change (CAUSE_ILLEGAL_INSTRUCTION =? CAUSE_S_TIMER) with false in E.
    change (CAUSE_ILLEGAL_INSTRUCTION =? CAUSE_U_ECALL) with false in E. unfold handle_fault in E. rewrite Hf in E.
    revert E. unfold bind at 1 2, next_event, modify. cbn iota beta. unfold bind.
    destruct (emit_fault _ _ _ _ _ _) as [[v|y] k1] eqn:Ee.
    + by intros [= <- <-].
    + intros [= <- <-]. pose proof (proj2 (calm_emit_fault f (next_id k) CAUSE_ILLEGAL_INSTRUCTION stval None)) as Hp.
      match type of Ee with emit_fault _ _ _ _ _ ?k0 = _ => specialize (Hp k0) end.
      rewrite Ee in Hp. cbn in Hp. by subst y.
  - destruct Hs as [_ Hs]. split; [apply Hf'|done].
  - destruct Hs as [Hu (pid & Hs)]. pose proof (handle_ok pid scause stval f k Hs) as Hr. rewrite E in Hr.
    unfold sret. destruct Hr as [[Eu Hi]|[[Eu Epc] Hi]].
    + rewrite Eu, Hu. cbn. split; [congruence|by exists pid].
    + by rewrite Eu, Epc, Z.eqb_refl.
  - destruct Hs as [Hu (pid & Hs)]. pose proof (handle_ok pid scause stval f k Hs) as Hr. rewrite E in Hr.
    by apply after_inv.
  - by destruct c.
Qed.

Lemma init_inv (h : Hw) (m : mem) : inv AtRest (view_of (k_init h m)).
Proof.
  assert (forall q t, look q (view_of (k_init h m)) = Some t -> t = slot_new) as Hl.
  { intros q t. unfold look. destruct (q <? 0); [done|]. cbn [k_init pay pay_init table v_table view_of].
    intros H. by apply lookup_replicate in H as [-> _]. }
  split; [split|split]; cbn [view_of k_init pay pay_init table snaps current v_table v_snaps v_cur].
  - apply length_replicate.
  - apply length_replicate.
  - intros q t Ht. apply Hl in Ht as ->. by eexists.
  - apply Forall_replicate. by intros [=].
  - intros q t Ht He. by apply Hl in Ht as ->.
  - done.
  - intros q (t & Ht & Hr). by apply Hl in Ht as ->.
Qed.

Lemma boot_inv (s : control * K) : booted s -> machine_inv s.
Proof.
  intros (h & m & x & k & _ & _ & E & ->). apply after_inv.
  assert (triple (inv AtRest) kmain (fun _ _ => False) exit_ok) as Hk.
  { unfold kmain. do 2 (apply tri_calm; [auto with calm|]; intros ?).
    apply tri_calm; [unfold assert_pool_clear; calm_go|]. intros _.
    apply tri_calm; [unfold init_paging; calm_go|]. intros _.
    apply tri_calm; [unfold arm_first_tick; calm_go|]. intros _. by apply triple_stop. }
  specialize (Hk _ (init_inv h m)). by rewrite E in Hk.
Qed.

Lemma reachable_inv (s : control * K) : reachable s -> machine_inv s.
Proof.
  intros (s0 & Hb & Hs). apply boot_inv in Hb.
  induction Hs as [|s1 s2 s3 _ IH Hstep]; [done|]. apply step_inv with s2; auto.
Qed.

Lemma machine_tab_ok (c : control) (k : K) : machine_inv (c, k) -> c <> COff -> tab_ok (view_of k).
Proof. unfold machine_inv. cbn. destruct c; try done; [intros [H _]..| |]; try done; [intros [_ (pid & H & _)]|intros (pid & H & _)]; done. Qed.

(** C1: capabilities only ever attenuate. In every reachable state, whatever
    the payloads, the operator and the interrupts did, no payload and no
    checkpoint holds a capability outside the ceiling of its image, and no
    spawned payload holds a capability its parent does not hold: a chain of
    delegations can never widen a grant. *)
Theorem capabilities_attenuate (c : control) (k : K) : reachable (c, k) -> c <> COff ->
  (forall pid s, slot_at pid k = Some s ->
     exists im, image_at (image s) = Some im /\ caps_sub (caps s) (im_caps im)) /\
  (forall sid s, snap_at sid k = Some s -> sn_valid s = true ->
     exists im, image_at (sn_image s) = Some im /\ caps_sub (sn_caps s) (im_caps im)) /\
  (forall pid s, slot_at pid k = Some s -> state s <> EMPTY -> parent s <> NO_PID ->
     exists ps, slot_at (parent s) k = Some ps /\ state ps <> EMPTY /\ caps_sub (caps s) (caps ps)).
Proof.
  intros Hr Hc. apply reachable_inv in Hr. apply machine_tab_ok in Hr as [_ _ Hok Hsn Hch]; [|done].
  split_and!; [apply Hok| |apply Hch].
  intros sid s Hs Hv. unfold snap_at in Hs. destruct (sid <? 0); [done|].
  apply (Forall_lookup_1 _ _ _ _ Hsn Hs Hv).
Qed.

(** C6: one payload at a time. In every reachable state at most one slot is
    RUNNING and it is the one CURRENT names; while the scheduler or the command
    loop is about to run no slot is RUNNING and CURRENT is empty, and while the
    hart is in a payload CURRENT names a RUNNING one. *)
Theorem one_payload_runs (c : control) (k : K) : reachable (c, k) -> c <> COff ->
  (forall pid s, slot_at pid k = Some s -> state s = RUNNING -> current (pay k) = pid) /\
  (c = CRun \/ c = CIdle \/ c = CIllegal ->
     current (pay k) = NO_PID /\ forall pid s, slot_at pid k = Some s -> state s <> RUNNING) /\
  (forall f, c = CUser f -> exists s, slot_at (current (pay k)) k = Some s /\ state s = RUNNING).
Proof.
  intros Hr Hc. apply reachable_inv in Hr. unfold machine_inv in Hr. cbn in Hr.
  assert (inv AtRest (view_of k) -> (forall pid s, slot_at pid k = Some s -> state s <> RUNNING) /\
    current (pay k) = NO_PID) as Hrest.
  { intros [_ (H1 & H2)]. split; [|done]. intros pid s Hs Hst. apply (H2 pid). by exists s. }
  assert (forall pid, inv (OnCpu pid) (view_of k) ->
    (forall q s, slot_at q k = Some s -> state s = RUNNING -> current (pay k) = q) /\
    exists s, slot_at (current (pay k)) k = Some s /\ state s = RUNNING) as Hcpu.
  { intros pid [_ (H1 & (s & Hs & Hst) & H3)]. cbn in H1. split; [|rewrite H1; by exists s].
    intros q t Ht Hq. rewrite H1. symmetry. apply H3. by exists t. }
  destruct c as [| | |f|f|]; try done.
  1-3: destruct (Hrest Hr) as [H1 H2]; split_and!; [intros pid s Hs Hst; by destruct (H1 pid s)|done|by intros].
  - destruct Hr as [_ (pid & Hi)]. destruct (Hcpu pid Hi) as [H1 H2].
    split_and!; [done|intros [?|[?|?]]; done|done].
  - destruct Hr as (pid & Hi). destruct (Hcpu pid Hi) as [H1 H2].
    split_and!; [done|intros [?|[?|?]]; done|by intros].
Qed.

End Proofs.
