(* ===== verification/Isolation.v ===== *)
(** * Payloads are isolated

    The invariant of the machine: at every control point the frames of the
    kernel's table, of every slot and of every checkpoint are distinct, and the
    address space the hart uses in a payload is the running payload's. A payload
    in user mode therefore changes bytes of its own pages and nothing else. *)

From S2P Require Import Prelude Hal Frames Mm MmSpec MmWalk Elf PoolAcct ElfProofs CopySpec Console RpcJson KState Traps TrapsProofs Payload Syscall Handler Rpc Sched KRun KSpec SchedInv SchedProofs Owner LoadOwn Iso IsoCode HandlerProofs.

(** ** The tables a satp names *)

Lemma satp_inj (r r' : Z) : frame_addr r -> frame_addr r' -> satp_of r' = satp_of r -> r' = r.
Proof.
  assert (H : forall x, frame_addr x -> Z.land (satp_of x) (Z.ones 60) = x / 4096 /\ x = x / 4096 * 4096).
  { intros x Hx. unfold satp_of. rewrite Z.land_lor_distr_l, Z.shiftr_div_pow2 by lia. change (Z.land (Z.shiftl 8 60) (Z.ones 60)) with 0.
    rewrite Z.lor_0_l, Z.land_ones by lia. change (2 ^ 12) with 4096. destruct Hx as [H1 H2].
    unfold POOL_BASE, POOL_END, FRAME_SIZE in *. rewrite Z.mod_small; Z.to_euclidean_division_equations; lia. }
  intros Hr Hr' E. destruct (H r Hr) as [E1 E2], (H r' Hr') as [E1' E2']. rewrite E in E1'. lia.
Qed.

(** No table outside the pool. *)
Lemma translate_foreign (m : mem) (r va need : Z) : r mod PAGE_SIZE = 0 -> ~ frame_addr r -> translate_checked m r va need = None.
Proof.
  intros Hm Hf. unfold translate_checked. cbn [translate_levels]. pose proof (vpn_range va 2) as Hv.
  assert (E : read_pte m (r + vpn va 2 * 8) = 0); [|by rewrite E].
  unfold read_pte, phys_read_u64. destruct (negb _); [done|]. unfold pool_ptr, checked_add. destruct (_ <? W64); [|done].
  destruct (_ || _) eqn:E; [done|]. zbool. destruct Hf. unfold frame_addr, PAGE_SIZE, POOL_BASE, POOL_END, FRAME_SIZE in *.
  Z.to_euclidean_division_equations. lia.
Qed.

(** ** A payload at work *)

Section Confined.
Context (p : fpool) (r : Z) (sh : shape) (l : list tenant) (m' : mem) (Hp : pool_ok p) (Hs : sep p (TSpace r sh :: l)).

(** Every byte changed is in a writable page of the space. *)
Definition confined : Prop := forall a, m' a <> pmem p a ->
  exists i2 i1 i0 e, 0 <= i0 < 512 /\ page_of p sh i2 i1 i0 = Some e /\ frame_addr (pte_pa e) /\ pte_pa e <= a < pte_pa e + FRAME_SIZE.

Context (Hc : confined).

(** A frame that is not one of its pages keeps its bytes. *)
Lemma confined_frame (g a : Z) : frame_addr g -> g <= a < g + FRAME_SIZE ->
  (forall i2 i1 i0 e, 0 <= i0 < 512 -> page_of p sh i2 i1 i0 = Some e -> pte_pa e <> g) -> m' a = pmem p a.
Proof.
  intros Hg Ha Hn. destruct (decide (m' a = pmem p a)) as [|Hne]; [done|]. destruct (Hc a Hne) as (i2 & i1 & i0 & e & Hi & He & Hf & Hr).
  exfalso. apply (frames_disjoint (pte_pa e) g a); [done|done|by apply (Hn i2 i1 i0)|done|done].
Qed.

Lemma confined_table (k : list Z) (t a : Z) : sh !! k = Some t -> t <= a < t + FRAME_SIZE -> m' a = pmem p a.
Proof.
  pose proof (proj1 Hs) as Hok. cbn in Hok. intros Hk Ha.
  apply (confined_frame t); [eapply wf_frame; [apply (so_wf _ _ _ (ok_src _ _ _ Hok))|done]|done|].
  intros i2 i1 i0 e Hi He Eg. apply (ok_tabs _ _ _ Hok i2 i1 i0 e Hi He k). congruence.
Qed.

(** Its tables stay as they are: no new mapping, no new permission. *)
Lemma confined_space : space_ok (with_mem p m') sh r /\
  (forall i2 i1 i0, 0 <= i0 < 512 -> page_of (with_mem p m') sh i2 i1 i0 = page_of p sh i2 i1 i0) /\
  forall va need, translate_checked m' r va need = translate_checked (pmem p) r va need.
Proof.
  pose proof (proj1 Hs) as Hok. cbn in Hok. apply (space_tables p (with_mem p m')); [exact Hp|done| |].
  - intros k t Hk. split; [by apply (wf_own _ _ _ (so_wf _ _ _ (ok_src _ _ _ Hok)) k)|]. intros a. by apply (confined_table k).
  - apply (so_page _ _ _ (ok_src _ _ _ Hok)).
Qed.

Lemma confined_sep : sep (with_mem p m') (TSpace r sh :: l) /\ unmoved p (with_mem p m') (map claim_of l).
Proof.
  destruct confined_space as (Hok & Hpg & _).
  destruct (sep_change p (with_mem p m') (TSpace r sh) (TSpace r sh) l) as [H1 H2]; [done|exact Hp|done| | |].
  - intros g [Hf Hg]. left. split; [done|]. destruct Hg as [Hg|(i2 & i1 & i0 & e & Hi & He & Hg)]; [by left|].
    rewrite Hpg in He by done. right. eauto 10.
  - intros g Ho Hn. split; [exact Ho|]. intros a Ha. apply (confined_frame g); [apply Ho|done|].
    intros i2 i1 i0 e Hi He Eg. apply Hn. split; [apply Ho|]. right. eauto 10.
  - split; [done|]. apply agrees_unmoved; [exact Hp|apply Hs|done].
Qed.

End Confined.

(** The running payload's tenant among those of the state. *)
Lemma running_tenant {fz : froz} (w : Z) (k : K) (s : Slot) (m' : mem) : kept w (Some w) [] k -> current (pay k) <> NO_PID ->
  slot_at (current (pay k)) k = Some s -> state s = RUNNING -> user_writes k m' ->
  root s <> 0 /\ exists sh l, sep (pool k) (TSpace (root s) sh :: l) /\ CSpace (root s) :: map claim_of l ≡ₚ pay_claims (pay k) /\
    (forall sid sn c, snap_is sid sn (pay k) -> c ∈ snap_claims sn -> c ∈ map claim_of l) /\ confined (pool k) sh m'.
Proof.
  intros Hk Hn Hs Hr Hw. apply slot_at_is in Hs as Hi. assert (Hz : root s <> 0).
  { destruct Hi as [_ Hi]. apply (Forall_lookup_1 _ _ _ _ (kp_slots _ _ _ _ Hk) Hi). by left. }
  destruct (slot_claim_split _ s (pay k) (CSpace (root s)) Hi) as (cs & Hp & Hrest); [apply elem_of_app; left; by apply nz_in|].
  pose proof (kp_housed _ _ _ _ Hk) as Hh. cbn [app] in Hh. rewrite Hp in Hh.
  apply housed_cons in Hh as (t & l & Ht & Hl & Hsep). destruct t as [r0 sh|]; [|done]. injection Ht as ->.
  split; [done|]. exists sh, l. split; [done|]. split; [by rewrite Hl, Hp|]. split; [by rewrite Hl|]. pose proof (proj1 Hsep) as Hok. cbn in Hok.
  assert (Hf : frame_addr (root s)).
  { eapply wf_frame; [apply (so_wf _ _ _ (ok_src _ _ _ Hok))|apply (wf_root _ _ _ (so_wf _ _ _ (ok_src _ _ _ Hok)))]. }
  intros a Ha. destruct (Hw a Ha) as (r' & va & Esatp & Hal & Htr).
  assert (Et : satp_of (root s) = satp_of r') by (rewrite <- Esatp, (kp_satp _ _ _ _ Hk); by apply (kp_tied _ _ _ _ Hk s)).
  destruct (decide (frame_addr r')) as [Hf'|Hnf]; [|by rewrite translate_foreign in Htr].
  assert (r' = root s) as -> by (by apply satp_inj).
  apply (user_access (pool k) sh) in Htr as (i2 & i1 & i0 & e & Hi0 & He & Hu & Hra); [|done|done].
  exists i2, i1, i0, e. split; [done|]. split; [done|]. split; [|done]. apply (ok_win _ _ _ Hok i2 i1 i0 e Hi0 He).
  unfold has. apply negb_true_iff, Z.eqb_neq. intros E0. assert (E : Z.land (Z.land e (Z.lor U W)) W = W) by (by rewrite Hu).
  rewrite <- Z.land_assoc in E. change (Z.land (Z.lor U W) W) with W in E. rewrite E0 in E. done.
Qed.

(** ** The machine *)

Section Machine.
Context {B : Build}.

Definition isolated {fz : froz} (s : control * K) : Prop :=
  let '(c, k) := s in
  match c with
  | CUser f => length (regs f) = 31%nat /\ kept (hw_satp (hw k)) (Some (hw_satp (hw k))) [] k
  | _ => exists w t, kept w t [] k
  end.

Lemma after_isolated {fz : froz} (x : exit) (k : K) : leaving x k -> isolated (after x k).
Proof.
  intros (w & t & Hk & Hx). destruct x as [| | | | |satp fr]; cbn; try by exists w, t.
  subst t. set (k' := on_hw _ k). assert (Hk' : kept satp (Some satp) [] k') by (by destruct Hk; split).
  unfold resume_sret. destruct (is_from_user _); [|by exists satp, (Some satp)]. split; [|done]. cbn. by rewrite length_map, length_seqZ.
Qed.

(** A frame out of the trap handler has as many registers as the one it got. *)
Lemma handle_regs (sc st : Z) (f : TrapFrame) : length (regs f) = 31%nat -> yields (handle sc st f) (fun f' => length (regs f') = 31%nat).
Proof. intros Hl. apply handle_yields; cbn; intros; by rewrite ?length_insert. Qed.

Lemma init_kept (h : Hw) (m : mem) : irqs_ok (hw_irq h) -> kept (fz := Loose) (hw_satp h) None [] (k_init h m).
Proof.
  intros Hi. split.
  - apply pool_init_ok.
  - exists []. done.
  - apply Forall_replicate. by intros [=].
  - apply Forall_replicate. by intros [?|[? _]].
  - reflexivity.
  - reflexivity.
  - exact Hi.
  - done.
Qed.

Lemma boot_isolated (s : control * K) : booted s -> isolated (fz := Loose) s.
Proof.
  intros (h & m & x & k & _ & Hi & E & ->). apply after_isolated. pose proof (boot_leaves (hw_satp h) _ (init_kept h m Hi)) as H. by rewrite E in H.
Qed.

(** Who runs while the hart is in a payload. *)
Lemma user_runs (f : TrapFrame) (k : K) : reachable (CUser f, k) ->
  exists s, current (pay k) <> NO_PID /\ slot_at (current (pay k)) k = Some s /\ state s = RUNNING.
Proof.
  intros Hr. apply reachable_inv in Hr as [_ (pid & Ht & Hc & (s & Hs & Hst) & _)]. cbn in Hc. subst pid.
  exists s. split; [by eapply look_pid_ne|done].
Qed.

(** A payload's step changes nothing but its own pages. *)
Lemma user_step_kept {fz : froz} (k : K) (s : Slot) (m' : mem) : kept (hw_satp (hw k)) (Some (hw_satp (hw k))) [] k ->
  current (pay k) <> NO_PID -> slot_at (current (pay k)) k = Some s -> state s = RUNNING -> user_writes k m' ->
  kept (hw_satp (hw k)) (Some (hw_satp (hw k))) [] (with_pool (with_mem (pool k) m') k).
Proof.
  intros Hk Hn Hs Hr Hw. destruct (running_tenant _ k s m' Hk Hn Hs Hr Hw) as (_ & sh & l & Hsep & Hp & Hsn & Hc).
  destruct (confined_sep (pool k) (root s) sh l m' (kp_pool _ _ _ _ Hk) Hsep Hc) as [Hsep' Hu].
  apply (kept_pool_snaps _ _ []); [done|apply Hk| |].
  - cbn [app]. apply (housed_perm _ _ _ Hp). by exists (TSpace (root s) sh :: l).
  - intros sid sn Hi. unfold unmoved in *. rewrite Forall_forall in *. intros c Hin. by eapply Hu, Hsn.
Qed.

(** Traps take checkpoints, the scheduler and the command loop discard them. *)
Definition lawful (fz : froz) (c : control) : Prop := match c with CUser _ => can_snap fz | _ => can_free fz end.

Lemma step_isolated {fz : froz} (s s' : control * K) : reachable s -> lawful fz (fst s) -> isolated s -> step s s' -> isolated s'.
Proof.
  intros Hreach Hlaw Hs Hst.
  destruct Hst as [k x k' E|k k' E|k x k' E|k f x k' st Hf E|k f f' m' Hf' Hw|k f sc st f' k' _ _ E|k f sc st x k' _ _ E|k c ins irqs dts Hq]; cbn [fst lawful] in Hlaw.
  - destruct Hs as (w & t & Hk). apply after_isolated. pose proof (run_leaves w t Hlaw k Hk) as H. by rewrite E in H.
  - destruct Hs as (w & t & Hk). pose proof (steady_idle Hlaw w t [] k Hk) as H. rewrite E in H. by exists w, t.
  - destruct Hs as (w & t & Hk). apply after_isolated. pose proof (steady_idle Hlaw w t [] k Hk) as H. by rewrite E in H.
  - destruct Hs as (w & t & Hk). apply after_isolated. pose proof (steady_illegal st f w t [] k Hk) as H. by rewrite E in H.
  - destruct Hs as [_ Hk]. destruct (user_runs f k Hreach) as (s & Hn & Hsl & Hrun). split; [apply Hf'|]. by apply (user_step_kept k s m').
  - destruct Hs as [Hl Hk]. pose proof (steady_handle sc st f Hlaw Hl _ _ _ k Hk) as H. rewrite E in H.
    unfold sret. destruct (is_from_user f'); [|destruct (_ =? _); by do 2 eexists]. split; [apply (handle_regs sc st f Hl k); by rewrite E|].
    by rewrite (kp_satp _ _ _ _ H).
  - destruct Hs as [Hl Hk]. apply after_isolated. pose proof (steady_handle sc st f Hlaw Hl _ _ _ k Hk) as H. by rewrite E in H.
  - assert (Hin : forall w t, kept w t [] k -> kept w t [] (on_hw (fun h => with_hw_in ins (with_hw_irq irqs (with_hw_dt dts h))) k)).
    { intros w t [H1 H2 H3 H4 H5 H6 H7 H8]. by split. }
    destruct c; cbn in *; try (destruct Hs as (w & t & Hk); exists w, t; by apply Hin). destruct Hs as [Hl Hk]. split; [done|by apply Hin].
Qed.

Lemma reachable_isolated (s : control * K) : reachable s -> isolated (fz := Loose) s.
Proof.
  intros (s0 & Hb & Hs). induction Hs as [s|s1 s2 s3 Hs IH Hst]; [by apply boot_isolated|].
  apply (step_isolated (fz := Loose) s2); [by exists s1|by destruct s2 as [[] ?]|by apply IH|done].
Qed.

Lemma reachable_kept (c : control) (k : K) : reachable (c, k) -> exists w t, kept (fz := Loose) w t [] k.
Proof. intros Hr%reachable_isolated. destruct c; try done. destruct Hr. by do 2 eexists. Qed.

(** C3: memory is never shared. In every reachable state, whatever the
    payloads, the operator and the interrupts did, the kernel's own table, the
    address space and the saved context of every slot, and those of every
    checkpoint are tenants of the frame pool: well-formed, on allocated frames
    only, with no page among its own tables, nothing writable outside the pool,
    and no frame belonging to two of them. *)
Theorem memory_isolated (c : control) (k : K) : reachable (c, k) ->
  pool_ok (pool k) /\ exists l, map claim_of l = pay_claims (pay k) /\ sep (pool k) l.
Proof.
  intros Hr%reachable_kept. destruct Hr as (w & t & Hk). split; [apply (kp_pool _ _ _ _ Hk)|apply (kp_housed _ _ _ _ Hk)].
Qed.

(** C2: a payload reaches its own pages and nothing else. Whatever a payload
    does in user mode in a reachable state, its own address space translates as
    before (it cannot forge a mapping or a permission), and everything else
    that lives in the pool is untouched: the kernel's table, its own saved
    context, the address space and the saved context of every other slot and
    of every checkpoint. *)
Theorem payload_confined (f : TrapFrame) (k : K) (m' : mem) : reachable (CUser f, k) -> user_writes k m' ->
  exists s, slot_at (current (pay k)) k = Some s /\ state s = RUNNING /\ root s <> 0 /\
  (forall va need, translate_checked m' (root s) va need = translate_checked (pmem (pool k)) (root s) va need) /\
  exists others, CSpace (root s) :: others ≡ₚ pay_claims (pay k) /\ Forall (untouched (pmem (pool k)) m') others.
Proof.
  intros Hr Hw. destruct (user_runs f k Hr) as (s & Hn & Hs & Hst). apply reachable_isolated in Hr as [_ Hk].
  destruct (running_tenant _ k s m' Hk Hn Hs Hst Hw) as (Hz & sh & l & Hsep & Hp & _ & Hc).
  pose proof (kp_pool _ _ _ _ Hk) as Hpool. exists s. split; [done|]. split; [done|]. split; [done|].
  split; [by apply (confined_space (pool k) (root s) sh l m' Hpool Hsep Hc)|].
  exists (map claim_of l). split; [done|]. by apply (confined_sep (pool k) (root s) sh l m' Hpool Hsep Hc).
Qed.

End Machine.
