(* ===== verification/TrapMachine.v ===== *)
(** * Traps of the machine, down to the instructions

    [Vector] proves the assembly for any handler, [Handler] and [Sched] model
    the handler on frames as values. Here the two meet: a hart whose memory
    holds the kernel's pool takes a trap out of a payload through the vector,
    the Rust handler works on the frame the vector left on the trap stack and on
    the pool, and what the hart resumes is the step of the machine. *)

From S2P Require Import Prelude Hal Frames Mm Console KState Hart Vector VectorProofs Traps TrapsProofs Payload Syscall Handler Rpc Sched KRun HandlerProofs PreemptProofs KSpec SchedInv SchedProofs Owner Iso IsoCode Isolation.

(** ** A frame in memory *)

(** The [TrapFrame] as the struct the handler has by reference: 33 words. *)
Fixpoint store_words (m : mem) (b : Z) (ws : list Z) : mem :=
  match ws with
  | [] => m
  | w :: r => store_words (store m b (le_bytes 8 w)) (b + 8) r
  end.

Definition store_frame (m : mem) (b : Z) (f : TrapFrame) : mem := store_words m b (regs f ++ [sepc f; sstatus f]).

Lemma store_words_before (m : mem) (b q : Z) (ws : list Z) : q + 8 <= b -> word (store_words m b ws) q = word m q.
Proof.
  revert m b. induction ws as [|w ws IH]; intros m b H; [done|]. cbn [store_words]. rewrite IH by lia. apply word_store_other. lia.
Qed.

Lemma store_words_at (m : mem) (b w : Z) (ws : list Z) (i : nat) : Forall u64_ok ws -> ws !! i = Some w ->
  word (store_words m b ws) (b + Z.of_nat i * 8) = w.
Proof.
  intros Hw. revert m b i. induction Hw as [|v ws Hv Hw IH]; intros m b i Hi; [done|]. cbn [store_words]. destruct i as [|i].
  - injection Hi as ->. rewrite Z.add_0_r, store_words_before by lia. by apply word_store_same.
  - rewrite <- (IH (store m b (le_bytes 8 v)) (b + 8) i Hi). f_equal. lia.
Qed.

Lemma store_words_outside (m : mem) (b a : Z) (ws : list Z) : ~ (b <= a < b + 8 * Z.of_nat (length ws)) -> store_words m b ws a = m a.
Proof.
  revert m b. induction ws as [|w ws IH]; intros m b H; [done|]. cbn [store_words length] in *. rewrite IH by lia.
  apply store_other. rewrite le_bytes_length. lia.
Qed.

Lemma load_store_frame (m : mem) (b : Z) (f : TrapFrame) : frame_ok f -> load_frame (store_frame m b f) b = f.
Proof.
  intros (Hl & Hr & Hp & Hs). rewrite load_frame_words. unfold store_frame.
  assert (Hw : Forall u64_ok (regs f ++ [sepc f; sstatus f])) by (apply Forall_app; split; [done|constructor; [done|constructor; [done|constructor]]]).
  change (b + 31 * 8) with (b + Z.of_nat 31 * 8). change (b + 32 * 8) with (b + Z.of_nat 32 * 8).
  rewrite (store_words_at m b (sepc f) _ 31 Hw), (store_words_at m b (sstatus f) _ 32 Hw) by (by rewrite lookup_app_r, Hl by lia).
  destruct f as [rs pc ss]. cbn [regs sepc sstatus] in *. f_equal. apply list_eq. intros i.
  destruct (decide (i < 31)%nat) as [Hi|Hi].
  - rewrite list_lookup_fmap, lookup_seqZ_lt by lia. cbn [fmap option_fmap option_map]. rewrite Z.add_0_l.
    destruct (lookup_lt_is_Some_2 rs i ltac:(lia)) as [v Hv]. rewrite Hv. f_equal.
    apply (store_words_at m b v _ i Hw). by apply lookup_app_l_Some.
  - rewrite !lookup_ge_None_2; [done|lia|rewrite length_fmap, length_seqZ; lia].
Qed.

(** ** Frames stay frames of words *)

Lemma lor_u64 (a b : Z) : u64_ok a -> u64_ok b -> u64_ok (Z.lor a b).
Proof.
  unfold u64_ok. change W64 with (2 ^ 64). intros Ha Hb. pose proof (proj2 (Z.lor_nonneg a b) (conj (proj1 Ha) (proj1 Hb))) as Hn.
  apply (Z.bounded_iff_bits_nonneg' 64); [lia|done|]. intros l Hl. rewrite Z.lor_spec.
  rewrite (proj1 (Z.bounded_iff_bits_nonneg' 64 a ltac:(lia) (proj1 Ha)) Ha l Hl).
  by rewrite (proj1 (Z.bounded_iff_bits_nonneg' 64 b ltac:(lia) (proj1 Hb)) Hb l Hl).
Qed.

Section TrapMachine.
Context {B : Build} {I : Isa} {HI : IsaLaws I} {L : Link}.

(** Link-time addresses are addresses. *)
Context (Hpc : u64_ok scheduler_resume_pc) (Hsp : u64_ok boot_stack_top).

Lemma handle_frame_ok (sc st : Z) (f : TrapFrame) : frame_ok f -> yields (handle sc st f) frame_ok.
Proof.
  intros Hf. apply handle_yields; [done| | |].
  - intros g (H1 & H2 & H3 & H4). split_and!; try done; apply wrap64_range.
  - intros v g (H1 & H2 & H3 & H4). split_and!; try done; cbn; [by rewrite length_insert|].
    apply Forall_insert; [done|apply wrap64_range].
  - intros g (H1 & H2 & H3 & H4). split_and!; cbn; [by rewrite length_insert|by apply Forall_insert|done|].
    repeat apply lor_u64; [done| |]; split; vm_compute; [discriminate|reflexivity|discriminate|reflexivity].
Qed.

(** ** The handler on the hart *)

(** Memory with the pool's part taken from [p]. *)
Definition overlay (m p : mem) : mem := fun a => if (POOL_BASE <=? a) && (a <? POOL_END) then p a else m a.

(** [traps::handle], called by reference on the frame at [a0], in the kernel
    state [k]: it reads the two CSRs, changes the pool and the frame in place.
    A handler that exits does not return. *)
Definition rust_handle (k : K) (g : hart) : hart :=
  match handle (read_scause g) (read_stval g) (load_frame (hmem g) (gpr g RA0)) k with
  | (Val f', k') => set_mem (store_frame (overlay (hmem g) (pmem (pool k'))) (gpr g RA0) f') g
  | (Exit _, _) => g
  end.

(** The hart's memory holds the pool, its satp is the kernel's. *)
Definition agrees (h : hart) (k : K) : Prop :=
  (forall a, POOL_BASE <= a < POOL_END -> hmem h a = pmem (pool k) a) /\ csrs h SATP = hw_satp (hw k).

Lemma hart_frame_ok (h : hart) : hart_ok h -> frame_ok (hart_frame h).
Proof.
  intros [Hg Hc]. split_and!; [by cbn; rewrite length_map, length_seqZ| |apply Hc|apply Hc].
  apply List.Forall_forall. intros v (i & <- & _)%in_map_iff. apply Hg.
Qed.

Lemma handle_satp (f f' : TrapFrame) (k k' : K) (sc st : Z) : reachable (CUser f, k) -> handle sc st f k = (Val f', k') ->
  hw_satp (hw k') = hw_satp (hw k).
Proof.
  intros Hr E. destruct (reachable_isolated _ Hr) as [Hl Hk].
  pose proof (steady_handle (fz := Loose) sc st f Logic.I Hl _ _ _ k Hk) as H. rewrite E in H. apply (kp_satp _ _ _ _ H).
Qed.

(** What the handler does to the hart it is called on, below the pool. *)
Lemma rust_handle_run (k k' : K) (g : hart) (f f' : TrapFrame) : load_frame (hmem g) (gpr g RA0) = f -> frame_ok f ->
  gpr g RA0 + 264 <= POOL_BASE -> handle (csrs g SCAUSE) (csrs g STVAL) f k = (Val f', k') ->
  let g' := rust_handle k g in
  gpr g' SP = gpr g SP /\ csrs g' SATP = csrs g SATP /\ load_frame (hmem g') (gpr g RA0) = f' /\
  forall a, POOL_BASE <= a < POOL_END -> hmem g' a = pmem (pool k') a.
Proof.
  intros Hf Hok Hb E. assert (Hok' : frame_ok f') by (apply (handle_frame_ok (csrs g SCAUSE) (csrs g STVAL) f Hok k); by rewrite E).
  unfold rust_handle, read_scause, read_stval. rewrite Hf, E. cbn [hmem set_mem].
  split; [done|]. split; [done|]. split; [by apply load_store_frame|]. intros a Ha. unfold store_frame.
  rewrite store_words_outside by (rewrite length_app, (proj1 Hok'); cbn [length]; lia). unfold overlay.
  destruct ((_ <=? a) && (a <? _)) eqn:Ea; [done|]. apply andb_false_iff in Ea as [Ea|Ea]; zbool; lia.
Qed.

(** C26: a trap of the machine is a trap of the hart. A hart that runs a payload
    (its registers are the payload's context, its memory holds the kernel's
    pool, sscratch is armed with the trap stack) traps through the vector; the
    Rust handler works on the frame the vector pushed. When the handler of the
    kernel model returns, the hart ends at the [sret] with the context the model
    resumes, as the CSRs keep it, its memory holds the pool of the new kernel
    state, satp is still the kernel's and sscratch is ready for the next trap:
    one instruction-level trap is the machine's step. *)
Theorem trap_refines_step (h : hart) (k k' : K) (f' : TrapFrame) :
  reachable (CUser (hart_frame h), k) -> agrees h k -> hart_ok h -> csrs h SSCRATCH = trap_stack_top ->
  272 <= trap_stack_top <= POOL_BASE ->
  handle (csrs h SCAUSE) (csrs h STVAL) (hart_frame h) k = (Val f', k') ->
  step (CUser (hart_frame h), k) (sret f', k') /\
  exists h', trap_once 60 (rust_handle k) h = Srets h' /\ hart_frame h' = legal f' /\ agrees h' k' /\ convention h'.
Proof.
  intros Hr [Hm Hsatp] Hok Hsc Hts E. split; [apply step_trap with (csrs h SCAUSE) (csrs h STVAL); [apply Hok|apply Hok|done]|].
  assert (Hu : is_from_user (hart_frame h) = true) by (apply reachable_inv in Hr; apply Hr).
  assert (Hb : frame_base h = trap_stack_top - 272) by (unfold frame_base; rewrite Hsc; destruct (_ =? 0) eqn:E0; zbool; lia).
  assert (Hconv : convention h).
  { unfold is_from_user in Hu. cbn [sstatus hart_frame] in Hu. red. rewrite Hsc. change SSTATUS_SPP with 0x100 in Hu. rewrite spp_clear in Hu.
    apply negb_true_iff in Hu. rewrite Hu. split; [intros Hz; exfalso; lia|done]. }
  destruct (trap_run h ltac:(intros Hz; rewrite Hz in Hts; lia) Hconv Hok) as (h1 & Hl & Ha & Hc & Ho & Htrap).
  { rewrite Hb. unfold frame_room, POOL_BASE, W64 in *. lia. }
  destruct (rust_handle_run k k' h1 (hart_frame h) f') as (G1 & G2 & G3 & G4); [by rewrite Ha|by apply hart_frame_ok|rewrite Ha, Hb; lia| |].
  { by rewrite !Hc. }
  destruct (Htrap (rust_handle k) G1) as (h' & Hrun & Hfr & Hmem & Hcs & Hconv'). exists h'.
  split; [exact Hrun|]. split; [by rewrite Hfr, <- Ha, G3|]. split; [|exact Hconv']. split.
  - intros a Hp. rewrite Hmem. by apply G4.
  - rewrite Hcs, G2, Hc, Hsatp by discriminate. symmetry. by apply (handle_satp _ _ _ _ _ _ Hr E).
Qed.

(** [resume_user] of the scheduler, on such a hart. *)
Theorem resume_refines_step (h : hart) (k : K) (satp frame : Z) : (forall a, POOL_BASE <= a < POOL_END -> hmem h a = pmem (pool k) a) ->
  gpr h RA0 = satp -> gpr h RA1 = frame -> POOL_BASE <= frame -> frame + 264 <= POOL_END -> warl SATP satp = satp ->
  exists h', exec 48 resume_user_asm 0 h = Srets h' /\ hart_frame h' = legal (load_frame (pmem (pool k)) frame) /\
    agrees h' (snd (after (XResume satp frame) k)) /\ csrs h' SSCRATCH = trap_stack_top.
Proof.
  intros Hm H0 H1 Hlo Hhi Hw. destruct (resume_run_asm h) as (h' & Hrun & Hfr & Hmem & Hs & Hsc).
  { rewrite H1. unfold frame_room, POOL_BASE, POOL_END, W64 in *. lia. }
  exists h'. split; [exact Hrun|]. split; [|split; [split|exact Hsc]].
  - rewrite Hfr, H1. f_equal. apply load_frame_ext. intros a Ha. apply Hm. lia.
  - intros a Ha. rewrite Hmem. by apply Hm.
  - by rewrite Hs, H0, Hw.
Qed.

End TrapMachine.
