(* ===== verification/Checkpoint.v ===== *)
(** * Checkpoints

    A checkpoint stays as it was taken for as long as it is not discarded,
    whatever runs in between, and a continuation queued from it starts with the
    memory and the registers the payload had at the snapshot call. *)

From S2P Require Import Prelude Hal Frames Mm MmSpec MmWalk Elf PoolAcct ElfProofs CopySpec Console RpcJson KState Traps TrapsProofs Payload Syscall Handler Rpc Sched KRun KSpec SchedInv SchedProofs Owner LoadOwn Iso IsoCode Isolation.

(** ** Observation *)

Lemma kept_observe (fz : froz) (w : Z) (t : option Z) (cs : list claim) (k : K) : kept (fz := Loose) w t cs k -> frozen fz k -> kept (fz := fz) w t cs k.
Proof. intros [H1 H2 H3 H4 H5 H6 H7 _] Hf. by split. Qed.

Lemma isolated_observe {B : Build} (fz : froz) (c : control) (k : K) : isolated (fz := Loose) (c, k) -> frozen fz k -> isolated (fz := fz) (c, k).
Proof.
  intros Hi Hf. destruct c; cbn in *; try (destruct Hi as (w & t & Hk); exists w, t; by apply kept_observe).
  destruct Hi as [Hl Hk]. split; [done|by apply kept_observe].
Qed.

Lemma isolated_frozen {B : Build} (fz : froz) (c : control) (k : K) : isolated (fz := fz) (c, k) -> frozen fz k.
Proof. destruct c; cbn; try (intros (w & t & Hk); apply Hk). intros [_ Hk]. apply Hk. Qed.

Section Checkpoint.
Context {B : Build}.

(** The machine runs on, and the checkpoint is there in every state it passes. *)
Inductive steps_keeping (sid : Z) (sn : Snapshot) : control * K -> control * K -> Prop :=
  | keeping_refl s : steps_keeping sid sn s s
  | keeping_step s1 s2 s3 : steps_keeping sid sn s1 s2 -> step s2 s3 -> snap_at sid (snd s3) = Some sn -> steps_keeping sid sn s1 s3.

Lemma keeping_reachable (sid : Z) (sn : Snapshot) (s s' : control * K) : reachable s -> steps_keeping sid sn s s' -> reachable s'.
Proof.
  intros Hr H. induction H as [|s1 s2 s3 _ IH Hst _]; [done|]. destruct (IH Hr) as (s0 & Hb & Hs). exists s0. split; [done|]. by eapply steps_step.
Qed.

Lemma step_intact (sid : Z) (sn : Snapshot) (s s' : control * K) : reachable s -> step s s' -> sn_valid sn = true ->
  snap_at sid (snd s) = Some sn -> snap_at sid (snd s') = Some sn -> intact sn (pmem (pool (snd s))) (snd s').
Proof.
  intros Hr Hst Hv H1 H2. destruct s as [c k], s' as [c' k']. cbn [snd] in *. apply snap_at_is in H1, H2.
  assert (Hself : intact sn (pmem (pool k)) k) by (apply Forall_true; intros x; apply untouched_refl).
  pose proof (reachable_isolated _ Hr) as Hi.
  assert (Hfz : exists fz, lawful fz c /\ frozen fz k /\ (frozen fz k' -> intact sn (pmem (pool k)) k')).
  { destruct c; try (exists (Watch sid sn (pmem (pool k))); split_and!; [done|by intros _|by intros H; apply H]).
    exists (Hold sid sn (pmem (pool k))). split_and!; [done|done|by intros [_ ?]]. }
  destruct Hfz as (fz & Hl & Hf & Hout). apply Hout, (isolated_frozen fz c'). apply (step_isolated (c, k) (c', k')); [done|done| |done].
  by apply isolated_observe.
Qed.

Lemma keeping_intact (sid : Z) (sn : Snapshot) (s s' : control * K) : reachable s -> sn_valid sn = true -> snap_at sid (snd s) = Some sn ->
  steps_keeping sid sn s s' -> snap_at sid (snd s') = Some sn /\ intact sn (pmem (pool (snd s))) (snd s').
Proof.
  intros Hr Hv H1 H. induction H as [s|s1 s2 s3 Hs IH Hst H3].
  - split; [done|]. apply Forall_true. intros x. apply untouched_refl.
  - destruct (IH Hr H1) as [H2 Hi]. split; [done|].
    pose proof (step_intact sid sn s2 s3 (keeping_reachable sid sn s1 s2 Hr Hs) Hst Hv H2 H3) as Hn. unfold intact in *. rewrite Forall_forall in *.
    intros c Hc. eapply untouched_trans; [by apply Hi|by apply Hn].
Qed.


(** ** Taking one *)

(** The tenant behind a claim of the state. *)
Lemma housed_space_in (p : fpool) (cs : list claim) (r : Z) : housed p cs -> CSpace r ∈ cs -> exists sh, space_ok p sh r.
Proof.
  intros (l & <- & Hs) Hin. apply list_elem_of_fmap in Hin as (t & Ht & Hin). destruct t as [r0 sh|]; [|done]. injection Ht as <-.
  exists sh. by apply (sep_in p (TSpace r sh) l).
Qed.
Lemma housed_frame_in (p : fpool) (cs : list claim) (f : Z) : housed p cs -> CFrame f ∈ cs -> owned p f.
Proof.
  intros (l & <- & Hs) Hin. apply list_elem_of_fmap in Hin as (t & Ht & Hin). destruct t as [|f0]; [done|]. injection Ht as <-.
  by apply (sep_in p (TFrame f) l).
Qed.

(** A copy and a frame taken after it: the copy still reads like its source. *)
Lemma copied_reads (p p1 p2 : fpool) (r d f : Z) (sh : shape) (m : mem) : space_ok p sh r -> deep_copy p r = (Some d, p1) -> alloc p1 = (Some f, p2) ->
  (forall a, ~ (f <= a < f + FRAME_SIZE) -> m a = pmem p2 a) ->
  frame_addr d /\ frame_addr f /\ (forall va len, 0 <= len -> copy_from_user m d va len = copy_from_user (pmem p) r va len) /\
  (forall g a, owned p g -> g <= a < g + FRAME_SIZE -> m a = pmem p a).
Proof.
  intros Hok Hd Ha Hm. pose proof (deep_copy_spec p sh r (ok_src _ _ _ Hok)) as Hs. rewrite Hd in Hs. destruct Hs as (sh' & Hc & Hr).
  pose proof (wf_pool _ _ _ (co_wf _ _ _ _ _ Hc)) as Hp1. destruct (alloc_keeps p1 p2 f m Hp1 Ha Hm) as (Hk & Hf & _ & Ho).
  split; [eapply wf_frame; [apply (co_wf _ _ _ _ _ Hc)|apply (wf_root _ _ _ (co_wf _ _ _ _ _ Hc))]|]. split; [apply Hf|]. split.
  - intros va len Hl. rewrite <- Hr by done. pose proof (copy_space_ok p p1 sh sh' r d Hok Hc) as Hok1.
    apply (space_reads p1 (with_mem p2 m) d sh'); [done|done| |done]. intros g Hg. apply Ho. by apply (foot_owned p1 (TSpace d sh')).
  - intros g a Hg Hag. assert (Hg1 : owned p1 g) by (apply (co_own _ _ _ _ _ Hc); by left).
    rewrite (proj2 (Ho g Hg1) a Hag). by apply (co_mem _ _ _ _ _ Hc g).
Qed.

Lemma emit_snapshot_run (pid id : Z) (k : K) : exists k', emit_snapshot pid id k = (Val tt, k') /\ pool k' = pool k /\ pay k' = pay k.
Proof. eexists. split; [reflexivity|]. cbn. by destruct (emit _). Qed.

(** What a checkpoint holds: the payload's memory, and its registers with the
    result 0. *)
Lemma snapshot_run (w : Z) (t : option Z) (k k1 : K) (pid v : Z) (s : Slot) (f : TrapFrame) : kept (fz := Loose) w t [] k -> KRun.running k pid s ->
  frame_ok f -> on_snapshot f k = (Val v, k1) ->
  -6 <= v < 0 \/ 0 < v <= Z.of_nat (length (snaps (pay k))) /\
  exists sn, snap_at (v - 1) k1 = Some sn /\ sn_valid sn = true /\ sn_caps sn = caps s /\ sn_image sn = image s /\ sn_root sn <> 0 /\ sn_frame sn <> 0 /\
    (forall va len, 0 <= len -> copy_from_user (pmem (pool k1)) (sn_root sn) va len = copy_from_user (pmem (pool k)) (root s) va len) /\
    load_frame (pmem (pool k1)) (sn_frame sn) = set_a0 0 f.
Proof.
  intros Hk Hr Hf E. unfold on_snapshot in E. erewrite bind_val in E by (by eapply current_pid_run). cbv beta iota in E.
  erewrite bind_val in E by (by eapply current_space_run). destruct (root s =? 0) eqn:Ez; cbv beta iota in E; [injection E as <- _; left; unfold EINVAL; lia|]. zbool.
  erewrite bind_val in E by done. destruct (position _ _) as [sid|] eqn:Ep; [|injection E as <- _; left; unfold EAGAIN; lia].
  apply position_is in Ep as (H0 & s0 & Hs0 & _).
  assert (Hin : CSpace (root s) ∈ pay_claims (pay k)).
  { eapply (slot_claims_in pid s); [apply slot_at_is, Hr|]. apply elem_of_app. left. by apply nz_in. }
  destruct (housed_space_in _ _ _ (kp_housed _ _ _ _ Hk) Hin) as [sh Hok].
  unfold bind at 1, pooled at 1 in E. destruct (deep_copy (pool k) (root s)) as [[d|] p1] eqn:Ed; [|injection E as <- _; left; unfold ENOMEM; lia].
  unfold bind at 1, pooled at 1 in E. cbn [pool with_pool] in E. destruct (alloc p1) as [[fr|] p2] eqn:Ea; [|injection E as <- _; left; unfold ENOMEM; lia].
  unfold bind at 1, pool_do, modify at 1 in E. cbn [pool with_pool] in E.
  assert (Hfr : frame_addr fr) by (by eapply (copied_reads (pool k) p1 p2 (root s) d fr sh (pmem p2))).
  destruct (copied_reads (pool k) p1 p2 (root s) d fr sh (pmem (save_frame_to f fr 0 p2)) Hok Ed Ea) as (Hd & _ & Hrd & _).
  { intros a Ha. apply save_frame_outside; [done|apply Hf|]. unfold FRAME_SIZE in Ha. lia. }
  set (K0 := with_pool _ _) in E. rewrite (bind_val (get_slot pid) _ K0 K0 s) in E by (apply get_slot_run, Hr).
  unfold bind at 1, upd_snap in E. assert (Hs : snap_at sid K0 = Some s0) by (by apply snap_at_is). rewrite Hs in E.
  unfold bind at 1, modify at 1 in E. set (K1 := on_pay (with_last_snap _) _) in E.
  destruct (emit_snapshot_run pid (sid + 1) K1) as (k' & Ee & Epool & Epay). rewrite (bind_val _ _ _ _ _ Ee) in E. injection E as <- <-.
  right. split; [apply lookup_lt_Some in Hs0; lia|]. exists (mkSnap true d fr (caps s) (image s)). cbn [sn_valid sn_caps sn_image sn_root sn_frame]. rewrite Epool. change (pool K1) with (save_frame_to f fr 0 p2).
  assert (Hz : forall x, frame_addr x -> x <> 0) by (intros x Hx; unfold frame_addr, POOL_BASE in Hx; lia).
  split_and!; try done; [|by apply Hz|by apply Hz|by apply save_load_frame].
  apply snap_at_is. rewrite Epay. replace (sid + 1 - 1) with sid by lia. split; [done|]. cbn.
  apply list_lookup_insert_eq. by eapply lookup_lt_Some.
Qed.

(** ** Continuing one *)

Lemma continuation_run (w : Z) (t : option Z) (k k1 : K) (sid pid : Z) (sn : Snapshot) : kept (fz := Loose) w t [] k -> snap_at sid k = Some sn ->
  sn_valid sn = true -> sn_frame sn <> 0 -> enqueue_restore sid k = (Val (Some pid), k1) ->
  exists im s, image_at (sn_image sn) = Some im /\ slot_at pid k1 = Some s /\ s = restored_slot sn im (root s) (resume_frame s) /\
    (forall va len, 0 <= len -> copy_from_user (pmem (pool k1)) (root s) va len = copy_from_user (pmem (pool k)) (sn_root sn) va len) /\
    load_frame (pmem (pool k1)) (resume_frame s) = load_frame (pmem (pool k)) (sn_frame sn).
Proof.
  intros Hk Hs Hv Hn E. unfold enqueue_restore in E. rewrite (bind_val (get_snap sid) _ k k sn) in E by (unfold get_snap; by rewrite Hs).
  rewrite Hv in E. cbn [negb] in E. apply snap_at_is in Hs.
  assert (Hz : sn_root sn <> 0) by (by apply (Forall_lookup_1 _ _ _ _ (kp_snaps _ _ _ _ Hk) (proj2 Hs))).
  assert (Hin : CSpace (sn_root sn) ∈ pay_claims (pay k)) by (eapply snap_claims_in; [done|]; apply elem_of_app; left; by apply nz_in).
  assert (Hfr : owned (pool k) (sn_frame sn)).
  { eapply housed_frame_in; [apply (kp_housed _ _ _ _ Hk)|]. eapply snap_claims_in; [done|]. apply elem_of_app; right; by apply nz_in. }
  destruct (housed_space_in _ _ _ (kp_housed _ _ _ _ Hk) Hin) as [sh Hok].
  unfold bind at 1, pooled at 1 in E. destruct (deep_copy (pool k) (sn_root sn)) as [[d|] p1] eqn:Ed; [|done].
  unfold bind at 1, pooled at 1 in E. cbn [pool with_pool] in E. destruct (alloc p1) as [[fr|] p2] eqn:Ea; [|done].
  unfold bind at 1, pooled at 1 in E. cbn [pool with_pool] in E.
  destruct (phys_read (pmem p2) (sn_frame sn) _) as [buf|] eqn:E1; [|done]. destruct (phys_write (pmem p2) fr buf) as [m|] eqn:E2; [|done].
  cbn [negb] in E. erewrite bind_val in E by done.
  cbn [pay with_pool] in E. destruct (position _ _) as [q|] eqn:Ep; [|done]. apply position_is in Ep as (H0 & s0 & Hs0 & _).
  unfold get_image in E. destruct (image_at (sn_image sn)) as [im|] eqn:Ei; [|done]. erewrite bind_val in E by done.
  set (K0 := with_pool _ _) in E. assert (Hsl : slot_at q K0 = Some s0) by (by apply slot_at_is).
  rewrite (bind_val _ _ _ _ _ (upd_slot_run q _ s0 K0 Hsl)) in E. injection E as <- <-.
  exists im, (restored_slot sn im d fr). split; [done|]. split; [by eapply slot_at_stored|]. split; [done|].
  change (pool (stored q (restored_slot sn im d fr) K0)) with (with_mem p2 m). cbn [pmem with_mem root resume_frame restored_slot].
  unfold phys_read in E1. destruct (pool_ptr (sn_frame sn) _) as [src|] eqn:Eq; [|done]. apply pool_ptr_inv in Eq as [-> _]; [|done].
  injection E1 as <-. unfold phys_write in E2. rewrite load_length in E2. destruct (pool_ptr fr _) as [dst|] eqn:Eq; [|done].
  apply pool_ptr_inv in Eq as [-> _]; [|done]. injection E2 as <-.
  destruct (copied_reads (pool k) p1 p2 (sn_root sn) d fr sh (store (pmem p2) fr (load (pmem p2) (sn_frame sn) (Z.to_nat PAGE_SIZE))) Hok Ed Ea)
    as (_ & _ & Hrd & _).
  { intros a Ha. apply store_other. by rewrite load_length. }
  split; [done|]. destruct (copied_reads (pool k) p1 p2 (sn_root sn) d fr sh (pmem p2) Hok Ed Ea ltac:(done)) as (_ & _ & _ & Hkeep).
  apply load_frame_moved. intros i Hi. rewrite <- (Hkeep (sn_frame sn) (sn_frame sn + i) Hfr) by lia. by apply copy_byte.
Qed.


(** ** From the call to the continuation *)

(** The trap of a snapshot call. *)
Lemma snapshot_trap (k k1 : K) (st : Z) (f f1 : TrapFrame) : a7 f = SYS_SNAPSHOT -> handle CAUSE_U_ECALL st f k = (Val f1, k1) ->
  exists v k0, k0 = on_traps (ring_record (next_id k) CAUSE_U_ECALL (sepc f) st) (numbered k) /\
    on_snapshot (advance_past_ecall f) k0 = (Val v, k1) /\ f1 = set_a0 (as_u64 v) (advance_past_ecall f).
Proof.
  intros Ha E. unfold handle in E. erewrite bind_val in E by apply next_event_run. erewrite bind_val in E by done.
  change (CAUSE_U_ECALL =? CAUSE_S_TIMER) with false in E. change (CAUSE_U_ECALL =? CAUSE_U_ECALL) with true in E. cbn iota in E.
  unfold handle_ecall, dispatch in E. change (a7 (advance_past_ecall f)) with (a7 f) in E. rewrite Ha in E.
  change (SYS_SNAPSHOT =? SYS_EXIT) with false in E. change (SYS_SNAPSHOT =? SYS_WRITE) with false in E.
  change (SYS_SNAPSHOT =? SYS_YIELD) with false in E. change (SYS_SNAPSHOT =? SYS_SPAWN) with false in E.
  change (SYS_SNAPSHOT =? SYS_SNAPSHOT) with true in E. cbn iota zeta in E. unfold resume in E.
  set (k0 := on_traps _ _) in E. rewrite bind_assoc in E. unfold bind at 1 in E.
  destruct (on_snapshot (advance_past_ecall f) k0) as [[v|x] k'] eqn:Es; [|done].
  injection E as <- <-. by exists v, k0.
Qed.

(** C5: a checkpoint does not change. From the state in which it is seen,
    whatever payloads, operator and interrupts do, and through every scheduling
    decision, as long as the checkpoint has not been discarded its address space
    translates and reads as it did and its saved context is the same. *)
Theorem checkpoint_frozen (sid : Z) (sn : Snapshot) (c c' : control) (k k' : K) : reachable (c, k) -> snap_at sid k = Some sn -> sn_valid sn = true ->
  steps_keeping sid sn (c, k) (c', k') -> Forall (untouched (pmem (pool k)) (pmem (pool k'))) (snap_claims sn).
Proof. intros Hr Hs Hv Hk. by apply (keeping_intact sid sn (c, k) (c', k') Hr Hv Hs). Qed.


End Checkpoint.
