(* ===== verification/Sound.v ===== *)
(** * The kernel does not panic

    A type discipline for the kernel's state: table and snapshot arrays have
    their sizes, every index stored in the state (the running pid, a parent, an
    image number, the last snapshot) is in range, and the allocator's books are
    in order. [sound m Q] says that [m], started in such a state, ends in one,
    returns a value satisfying [Q] if it returns, and never panics. It is proved
    for every function of the kernel by a walk over its code. *)

From S2P Require Import Prelude Hal Frames Mm Elf PoolAcct Console RpcJson Walkers KState Traps TrapsProofs Payload Syscall Handler Rpc Sched Docs.

(** ** Sane states *)

Definition valid_pid (p : Z) : Prop := 0 <= p < 12.
Definition valid_sid (s : Z) : Prop := 0 <= s < 4.
Definition valid_img (i : Z) : Prop := 0 <= i < 24.

Definition slot_sane (s : Slot) : Prop := valid_img (image s) /\ (parent s = NO_PID \/ valid_pid (parent s)).
Definition snap_sane (s : Snapshot) : Prop := valid_img (sn_image s).

Record sane (k : K) : Prop := {
  sane_pool : pool_ok (pool k);
  sane_table : length (table (pay k)) = MAX_PROC;
  sane_slots : Forall slot_sane (table (pay k));
  sane_snaps : length (snaps (pay k)) = MAX_SNAP;
  sane_images : Forall snap_sane (snaps (pay k));
  sane_current : current (pay k) = NO_PID \/ valid_pid (current (pay k));
  sane_last : 0 <= last_snap (pay k) <= 4
}.

(** Only the pool and the process state matter. *)
Lemma sane_ext (k k' : K) : sane k -> pool k' = pool k -> pay k' = pay k -> sane k'.
Proof. intros [H1 H2 H3 H4 H5 H6 H7] E1 E2. split; rewrite ?E1, ?E2; done. Qed.

Definition sound {T} (m : M T) (Q : T -> Prop) : Prop := forall k, sane k ->
  match m k with
  | (Val v, k') => sane k' /\ Q v
  | (Exit x, k') => sane k' /\ x <> XPanic
  end.

Definition any {T} (_ : T) : Prop := True.

(** ** Composition *)

Lemma sound_ret {T} (v : T) (Q : T -> Prop) : Q v -> sound (ret v) Q.
Proof. intros H k Hk. done. Qed.

Lemma sound_stop {T} (x : exit) (Q : T -> Prop) : x <> XPanic -> sound (stop x) Q.
Proof. intros H k Hk. done. Qed.

(** A bounds check that holds. *)
Lemma sound_in_bounds (b : bool) : b = true -> sound (in_bounds b) any.
Proof. intros ->. by apply sound_ret. Qed.

Lemma sound_bind {S T} (m : M S) (f : S -> M T) (R : S -> Prop) (Q : T -> Prop) :
  sound m R -> (forall v, R v -> sound (f v) Q) -> sound (bind m f) Q.
Proof.
  intros Hm Hf k Hk. unfold bind. specialize (Hm k Hk). destruct (m k) as [[v|x] k']; [|done].
  destruct Hm as [Hk' Hv]. by apply (Hf v Hv).
Qed.

Lemma sound_weaken {T} (m : M T) (Q Q' : T -> Prop) : sound m Q -> (forall v, Q v -> Q' v) -> sound m Q'.
Proof.
  intros Hm H k Hk. specialize (Hm k Hk). destruct (m k) as [[v|x] k']; [|done].
  destruct Hm as [? ?]. split; [done|by apply H].
Qed.

Lemma sound_gets {T} (g : K -> T) (Q : T -> Prop) : (forall k, sane k -> Q (g k)) -> sound (gets g) Q.
Proof. intros H k Hk. split; [done|by apply H]. Qed.

Lemma sound_gets_any {T} (g : K -> T) : sound (gets g) any.
Proof. by apply sound_gets. Qed.

Lemma sound_modify (f : K -> K) : (forall k, sane k -> sane (f k)) -> sound (modify f) any.
Proof. intros H k Hk. split; [by apply H|done]. Qed.

Lemma sound_for_each {T} (l : list T) (body : T -> M unit) :
  (forall x, x ∈ l -> sound (body x) any) -> sound (for_each l body) any.
Proof.
  induction l as [|x l IH]; intros H; cbn [for_each]; [by apply sound_ret|].
  eapply sound_bind; [apply H; left|]. intros _ _. apply IH. intros y Hy. apply H. by right.
Qed.

(** ** The machine and the arrays *)

(** Code that touches neither the pool nor the process state. *)
Lemma sound_frame {T} (m : M T) : (forall k, exists v k', m k = (Val v, k') /\ pool k' = pool k /\ pay k' = pay k) ->
  sound m any.
Proof.
  intros H k Hk. destruct (H k) as (v & k' & -> & E1 & E2). split; [by apply (sane_ext k)|done].
Qed.

Lemma sound_next_event : sound next_event any.
Proof. apply sound_frame. intros k. by do 2 eexists. Qed.
Lemma sound_read_time : sound read_time any.
Proof. apply sound_frame. intros k. unfold read_time. destruct (hw_dt (hw k)); by do 2 eexists. Qed.
Lemma sound_getchar : sound console_getchar any.
Proof. apply sound_frame. intros k. unfold console_getchar. destruct (hw_in (hw k)); by do 2 eexists. Qed.
Lemma sound_put_wire (b : bytes) : sound (put_wire b) any.
Proof. apply sound_frame. intros k. unfold put_wire, modify. destruct b; by do 2 eexists. Qed.
Lemma sound_send (w : wprog) : sound (send w) any.
Proof. apply sound_put_wire. Qed.
Lemma sound_on_hw (f : Hw -> Hw) : sound (modify (on_hw f)) any.
Proof. apply sound_frame. intros k. by do 2 eexists. Qed.
Lemma sound_on_traps (f : TrapState -> TrapState) : sound (modify (on_traps f)) any.
Proof. apply sound_frame. intros k. by do 2 eexists. Qed.
Lemma sound_ops (f : K -> opring) : sound (modify (fun k => with_ops (f k) k)) any.
Proof. apply sound_frame. intros k. by do 2 eexists. Qed.
Lemma sound_count_tick : sound count_tick any.
Proof. apply sound_frame. intros k. by do 2 eexists. Qed.

Lemma sound_pool_do (f : fpool -> fpool) : (forall p, pool_ok p -> pool_ok (f p)) -> sound (pool_do f) any.
Proof. intros H. apply sound_modify. intros k [H1 H2 H3 H4 H5 H6 H7]. split; try done. by apply H. Qed.

Lemma sound_pooled {T} (f : fpool -> T * fpool) : (forall p, pool_ok p -> pool_ok (snd (f p))) -> sound (pooled f) any.
Proof.
  intros H k [H1 H2 H3 H4 H5 H6 H7]. unfold pooled. specialize (H _ H1). destruct (f (pool k)) as [v p].
  split; [by split|done].
Qed.

(** An update of the process state that keeps the arrays and their indices. *)
Lemma sound_on_pay (f : PayState -> PayState) :
  (forall p, table (f p) = table p /\ snaps (f p) = snaps p) ->
  (forall p, current p = NO_PID \/ valid_pid (current p) -> current (f p) = NO_PID \/ valid_pid (current (f p))) ->
  (forall p, 0 <= last_snap p <= 4 -> 0 <= last_snap (f p) <= 4) -> sound (modify (on_pay f)) any.
Proof.
  intros H Hc Hl. apply sound_modify. intros k [H1 H2 H3 H4 H5 H6 H7]. destruct (H (pay k)) as [E1 E2].
  split; cbn; rewrite ?E1, ?E2; auto.
Qed.

Lemma slot_at_valid (pid : Z) (k : K) : sane k -> valid_pid pid -> exists s, slot_at pid k = Some s /\ slot_sane s.
Proof.
  intros Hk Hp. unfold valid_pid in Hp. unfold slot_at. destruct (pid <? 0) eqn:E; zbool; [lia|].
  destruct (lookup_lt_is_Some_2 (table (pay k)) (Z.to_nat pid)) as [s Hs].
  { rewrite (sane_table _ Hk). unfold MAX_PROC. lia. }
  exists s. split; [done|]. eapply Forall_lookup_1; [apply (sane_slots _ Hk)|done].
Qed.

Lemma slot_at_sane (pid : Z) (k : K) (s : Slot) : sane k -> slot_at pid k = Some s -> valid_pid pid /\ slot_sane s.
Proof.
  intros Hk. unfold slot_at. destruct (pid <? 0) eqn:E; zbool; [done|]. intros Hs. split.
  - apply lookup_lt_Some in Hs. rewrite (sane_table _ Hk) in Hs. unfold MAX_PROC, valid_pid in *. lia.
  - eapply Forall_lookup_1; [apply (sane_slots _ Hk)|done].
Qed.

Lemma sound_get_slot (pid : Z) : valid_pid pid -> sound (get_slot pid) slot_sane.
Proof. intros Hp k Hk. unfold get_slot. by destruct (slot_at_valid pid k Hk Hp) as (s & -> & Hs). Qed.

Lemma sound_slot_at (pid : Z) : sound (gets (slot_at pid)) (fun o => match o with Some s => valid_pid pid /\ slot_sane s | None => True end).
Proof. apply sound_gets. intros k Hk. destruct (slot_at pid k) eqn:E; [by eapply slot_at_sane|done]. Qed.

Lemma sound_upd_slot (pid : Z) (f : Slot -> Slot) : valid_pid pid -> (forall s, slot_sane s -> slot_sane (f s)) ->
  sound (upd_slot pid f) any.
Proof.
  intros Hp Hf k Hk. unfold upd_slot. destruct (slot_at_valid pid k Hk Hp) as (s & -> & Hs). split; [|done].
  destruct Hk as [H1 H2 H3 H4 H5 H6 H7]. split; cbn; try done; [by rewrite length_insert|].
  apply Forall_insert; [done|by apply Hf].
Qed.

Lemma sound_get_snap (sid : Z) : valid_sid sid -> sound (get_snap sid) snap_sane.
Proof.
  intros Hp k Hk. unfold get_snap, snap_at. unfold valid_sid in Hp. destruct (sid <? 0) eqn:E; zbool; [lia|].
  destruct (lookup_lt_is_Some_2 (snaps (pay k)) (Z.to_nat sid)) as [s Hs].
  { rewrite (sane_snaps _ Hk). unfold MAX_SNAP. lia. }
  rewrite Hs. split; [done|]. eapply Forall_lookup_1; [apply (sane_images _ Hk)|done].
Qed.

Lemma sound_upd_snap (sid : Z) (f : Snapshot -> Snapshot) : valid_sid sid ->
  (forall s, snap_sane s -> snap_sane (f s)) -> sound (upd_snap sid f) any.
Proof.
  intros Hp Hf k Hk. unfold upd_snap, snap_at. unfold valid_sid in Hp. destruct (sid <? 0) eqn:E; zbool; [lia|].
  destruct (lookup_lt_is_Some_2 (snaps (pay k)) (Z.to_nat sid)) as [s Hs].
  { rewrite (sane_snaps _ Hk). unfold MAX_SNAP. lia. }
  rewrite Hs. split; [|done]. assert (Hss : snap_sane s) by (eapply Forall_lookup_1; [apply (sane_images _ Hk)|done]).
  destruct Hk as [H1 H2 H3 H4 H5 H6 H7]. split; cbn; try done; [by rewrite length_insert|].
  apply Forall_insert; [done|by apply Hf].
Qed.

Lemma position_valid {T} (p : T -> bool) (l : list T) (i : Z) : position p l = Some i ->
  0 <= i < Z.of_nat (length l).
Proof.
  unfold position. assert (H : forall j, position_from j p l = Some i -> j <= i < j + Z.of_nat (length l)).
  { induction l as [|x l IH]; intros j; cbn [position_from length]; [done|].
    destruct (p x); [intros [= <-]; lia|]. intros H%IH. lia. }
  intros H0%H. lia.
Qed.

Lemma image_at_valid {B : Build} (i : Z) : valid_img i -> exists im, image_at i = Some im.
Proof.
  intros Hi. unfold valid_img in Hi. unfold image_at. destruct (i <? 0) eqn:E; zbool; [lia|].
  apply lookup_lt_is_Some_2. change (length IMAGES) with 24%nat. lia.
Qed.

Lemma sound_get_image {B : Build} (i : Z) : valid_img i -> sound (get_image i) any.
Proof. intros Hi. unfold get_image. destruct (image_at_valid i Hi) as [im ->]. by apply sound_ret. Qed.

(** ** Automation *)

(** A pid that an operation may return. *)
Definition pid_option (o : option Z) : Prop := match o with Some p => valid_pid p | None => True end.

Create HintDb sound discriminated.
#[export] Hint Constants Opaque : sound.
#[export] Hint Variables Opaque : sound.
#[export] Hint Resolve sound_gets_any sound_next_event sound_read_time sound_getchar sound_put_wire sound_send
  sound_on_hw sound_on_traps sound_ops sound_count_tick sound_get_slot sound_slot_at sound_get_snap
  sound_get_image : sound.

(** Index and record side conditions. *)
Ltac in_range :=
  unfold slot_sane, snap_sane, pid_option, any, MAX_PROC, MAX_SNAP in *; unfold valid_pid, valid_sid, valid_img in *;
  repeat match goal with
  | H : _ /\ _ |- _ => destruct H
  | H : position _ _ = Some _ |- _ => apply position_valid in H
  end;
  try solve [ assumption | exact I | lia | split; [assumption|assumption] | left; assumption | right; assumption
            | intuition lia ].

Ltac slot_side := intros ? ?; unfold slot_sane, snap_sane in *; cbn; in_range.

Lemma alloc_pool_ok (p : fpool) : pool_ok p -> pool_ok (snd (alloc p)).
Proof. intros H. apply (proj1 (alloc_charged p _ _ H (surjective_pairing (alloc p)))). Qed.

Lemma map_kernel_pool_ok (p : fpool) (root : Z) : pool_ok p -> pool_ok (snd (map_kernel p root)).
Proof. intros H. apply (proj1 (map_kernel_charged p root H)). Qed.

Lemma save_frame_pool_ok (f : TrapFrame) (pa v : Z) (p : fpool) : pool_ok p -> pool_ok (save_frame_to f pa v p).
Proof.
  intros (H1 & H2 & H3). destruct (poke_regs_meta (regs f) pa 0 p) as (E1 & E2 & E3).
  unfold pool_ok, save_frame_to; cbn. by rewrite E1, E2, E3.
Qed.

Ltac pool_side := intros ? ?;
  first [ assumption | apply free_pool_ok; assumption | apply destroy_pool_ok; assumption | apply alloc_pool_ok; assumption
        | apply save_frame_pool_ok; assumption | solve [repeat case_match; assumption]
        | apply map_kernel_pool_ok; assumption | apply deep_copy_pool_ok; assumption | apply load_elf_kept; assumption ].

#[export] Hint Extern 1 (valid_pid _) => in_range : sound.
#[export] Hint Extern 1 (valid_sid _) => in_range : sound.
#[export] Hint Extern 1 (valid_img _) => in_range : sound.
(** The operations whose lemma has a condition on a function argument. *)
Ltac sound_leaf :=
  lazymatch goal with
  | |- sound (upd_slot _ _) _ => apply sound_upd_slot; [in_range|slot_side]
  | |- sound (upd_snap _ _) _ => apply sound_upd_snap; [in_range|slot_side]
  | |- sound (in_bounds _) _ => apply sound_in_bounds, Z.leb_le; zbool; lia
  | |- sound (pool_do _) _ => apply sound_pool_do; pool_side
  | |- sound (pooled _) _ => apply sound_pooled; pool_side
  | |- sound (modify (on_pay _)) _ =>
      apply sound_on_pay; [intros ?; split; reflexivity|intros ? ?; cbn; in_range|intros ? ?; cbn; in_range]
  | |- _ => eauto with sound
  end.

(** Walk the code: a known operation by its lemma, the rest by its structure. *)
Ltac sound_step :=
  lazymatch goal with
  | |- sound (bind _ _) _ =>
      first [ eapply sound_bind; [solve [sound_leaf]|intros ? ?]
            | apply (sound_bind _ _ any); [|intros ? _] ]
  | |- sound (ret _) _ => apply sound_ret; in_range
  | |- sound (stop _) _ => apply sound_stop; discriminate
  | |- sound (match ?x with _ => _ end) _ => destruct x eqn:?
  | |- sound (for_each _ _) _ => apply sound_for_each; intros ? ?
  | |- sound _ _ => eapply sound_weaken; [solve [sound_leaf]|intros ? ?; in_range]
  end; zbool.
Ltac sound_go := repeat sound_step.

Section Functions.
Context {B : Build}.

Lemma sound_current_pid : sound current_pid pid_option.
Proof.
  apply sound_gets. intros k Hk. destruct (current (pay k) =? NO_PID) eqn:E; zbool; [done|].
  destruct (sane_current _ Hk); [done|done].
Qed.
Lemma sound_table : sound (gets (fun k => table (pay k))) (fun t => length t = MAX_PROC /\ Forall slot_sane t).
Proof. apply sound_gets. intros k Hk. split; [apply (sane_table _ Hk)|apply (sane_slots _ Hk)]. Qed.
Lemma sound_snaps : sound (gets (fun k => snaps (pay k))) (fun t => length t = MAX_SNAP).
Proof. apply sound_gets. intros k Hk. apply (sane_snaps _ Hk). Qed.
#[local] Hint Resolve sound_current_pid sound_table sound_snaps | 0 : sound.

Lemma sound_current_has (c : Cap) : sound (current_has c) any.
Proof. unfold current_has. sound_go. Qed.
Lemma sound_current_space : sound current_space any.
Proof. unfold current_space. sound_go. Qed.
Lemma sound_current_cause : sound current_cause any.
Proof. unfold current_cause. sound_go. Qed.
Lemma sound_pid_or_none : sound pid_or_none any.
Proof. unfold pid_or_none. sound_go. Qed.
Hint Resolve sound_current_has sound_current_space sound_current_cause sound_pid_or_none : sound.
Lemma sound_emit_start (pid : Z) (n : bytes) (cs e : Z) (r : bool) : valid_pid pid -> sound (emit_start pid n cs e r) any.
Proof. intros Hp. unfold emit_start. sound_go. Qed.

#[local] Hint Resolve sound_emit_start : sound.
Lemma sound_emit_snapshot (a b : Z) : sound (emit_snapshot a b) any.
Proof. unfold emit_snapshot. sound_go. Qed.
Lemma sound_emit_exit (pid c : Z) : valid_pid pid -> sound (emit_exit pid c) any.
Proof. intros Hp. unfold emit_exit. sound_go. Qed.
Lemma sound_emit_load_fault (pid : Z) (a b : bytes) : sound (emit_load_fault pid a b) any.
Proof. unfold emit_load_fault. sound_go. Qed.
Lemma sound_emit_yield (pid : Z) : sound (emit_yield pid) any.
Proof. unfold emit_yield. sound_go. Qed.
Lemma sound_emit_spawn (a b : Z) (n : bytes) (c d e : Z) : sound (emit_spawn a b n c d e) any.
Proof. unfold emit_spawn. sound_go. Qed.
Lemma sound_emit_killed (pid a b : Z) : valid_pid pid -> sound (emit_killed pid a b) any.
Proof. intros Hp. unfold emit_killed. sound_go. Qed.
Lemma sound_emit_suite_done : sound emit_suite_done any.
Proof. unfold emit_suite_done. sound_go. Qed.
Lemma sound_emit_sched_preempt (pid : Z) : valid_pid pid -> sound (emit_sched_preempt pid) any.
Proof. intros Hp. unfold emit_sched_preempt. sound_go. Qed.
Lemma sound_elapsed_since (t : Z) : sound (elapsed_since t) any.
Proof. unfold elapsed_since. sound_go. Qed.
#[local] Hint Resolve sound_elapsed_since : sound.
Lemma sound_emit_killed_operator (pid : Z) : valid_pid pid -> sound (emit_killed_operator pid) any.
Proof. intros Hp. unfold emit_killed_operator. sound_go. Qed.
Lemma sound_emit_denied (a b : bytes) : sound (emit_denied a b) any.
Proof. unfold emit_denied. sound_go. Qed.
Lemma sound_emit_ring_dump : sound emit_ring_dump any.
Proof. unfold emit_ring_dump. sound_go. Qed.
#[local] Hint Resolve sound_emit_snapshot sound_emit_exit sound_emit_load_fault sound_emit_yield sound_emit_spawn
  sound_emit_killed sound_emit_suite_done sound_emit_sched_preempt sound_emit_killed_operator sound_emit_denied
  sound_emit_ring_dump : sound.

(** *** The process table *)

Lemma sound_release_space (r : Z) : sound (release_space r) any.
Proof. unfold release_space. sound_go. Qed.
Lemma sound_release_frame (f : Z) : sound (release_frame f) any.
Proof. unfold release_frame. sound_go. Qed.
#[local] Hint Resolve sound_release_space sound_release_frame : sound.

Lemma seq_valid (n i : Z) : i ∈ seqZ 0 n -> 0 <= i < n.
Proof. rewrite elem_of_seqZ. lia. Qed.

Lemma sound_free_snapshots : sound free_snapshots any.
Proof.
  unfold free_snapshots. apply sound_for_each. intros sid Hs%seq_valid.
  assert (valid_sid sid) by (unfold valid_sid, MAX_SNAP in *; lia). sound_go.
Qed.
Lemma sound_reap : sound reap_terminated any.
Proof.
  unfold reap_terminated. apply sound_for_each. intros pid Hs%seq_valid.
  assert (valid_pid pid) by (unfold valid_pid, MAX_PROC in *; lia). sound_go.
Qed.
#[local] Hint Resolve sound_free_snapshots sound_reap : sound.

Lemma sound_clear_table : sound clear_table any.
Proof.
  unfold clear_table, clear_keys. apply (sound_bind _ _ any).
  { apply sound_modify. intros k [H1 H2 H3 H4 H5 H6 H7]. split; cbn; try done; [by rewrite length_map|].
    apply Forall_fmap. eapply Forall_impl; [exact H3|]. intros s Hs. exact Hs. }
  intros _ _. sound_go.
Qed.
#[local] Hint Resolve sound_clear_table : sound.

Lemma sound_enqueue (img cs par : Z) : valid_img img -> par = NO_PID \/ valid_pid par -> sound (enqueue img cs par) pid_option.
Proof. intros Hi Hp. unfold enqueue. sound_go. Qed.
#[local] Hint Resolve sound_enqueue : sound.

Lemma sound_seed (imgs : list Z) : Forall valid_img imgs -> sound (seed imgs) any.
Proof.
  intros H. unfold seed, seed_one. eapply sound_bind; [apply sound_clear_table|]. intros _ _.
  apply sound_for_each. intros i Hi. rewrite Forall_forall in H. specialize (H i Hi). sound_go.
Qed.

Lemma sound_suite (imgs : list Z) (m : M unit) : Forall valid_img imgs -> (m = seed imgs \/
  m = (seed imgs ;;; modify (on_pay (with_auto_fork 2)))) -> sound m any.
Proof. intros H [-> | ->]; [by apply sound_seed|]. eapply sound_bind; [by apply sound_seed|]. intros _ _. sound_go. Qed.

Ltac suite :=
  eapply sound_suite; [|first [left; reflexivity | right; reflexivity]];
  repeat first [apply List.Forall_nil | apply List.Forall_cons; [vm_compute; split; congruence|]].

Lemma sound_suite_seed (n : bytes) (m : M unit) : suite_seed n = Some m -> sound m any.
Proof.
  unfold suite_seed. intros H.
  repeat match type of H with (if ?b then _ else _) = _ => destruct b; [injection H as <-; suite|] end. done.
Qed.

(** *** Syscalls *)

Lemma sound_emit_output (p n : Z) : sound (emit_output p n) any.
Proof. unfold emit_output. sound_go. Qed.
#[local] Hint Resolve sound_emit_output : sound.
Lemma sound_sys_write (p n : Z) : sound (sys_write p n) any.
Proof. unfold sys_write. sound_go. Qed.
Lemma sound_on_exit (c : Z) : sound (on_exit c) any.
Proof.
  unfold on_exit. eapply sound_bind.
  { apply (sound_gets _ (fun c => c = NO_PID \/ valid_pid c)). intros k Hk. apply (sane_current _ Hk). }
  intros cur Hc. sound_go.
Qed.
Lemma sound_on_yield : sound on_yield any.
Proof. unfold on_yield. sound_go. Qed.
Lemma spawnable_valid (sel i : Z) : spawnable_image sel = Some i -> valid_img i.
Proof.
  unfold spawnable_image, valid_img, IMG_CHILD, IMG_REDELEGATOR, IMG_WORKER.
  repeat (destruct (sel =? _); [intros [= <-]; lia|]). done.
Qed.
Lemma sound_on_spawn (sel req : Z) : sound (on_spawn sel req) any.
Proof.
  unfold on_spawn. eapply sound_bind; [apply sound_current_pid|]. intros [par|] Hp; [|sound_go].
  cbn in Hp. eapply sound_bind; [apply sound_current_has|]. intros ok _. destruct (negb ok); [sound_go|].
  destruct (spawnable_image sel) as [i|] eqn:E; [apply spawnable_valid in E|]; sound_go.
Qed.
Lemma sound_on_snapshot (f : TrapFrame) : sound (on_snapshot f) any.
Proof. unfold on_snapshot. sound_go. Qed.
Lemma sound_on_blit (a b c : Z) : sound (on_blit a b c) any.
Proof.
  unfold on_blit. apply (sound_bind _ _ any); [sound_go|]. intros ok _. destruct (negb ok); [sound_go|].
  destruct (_ || _) eqn:Ed; [sound_go|]. zbool. apply (sound_bind _ _ any); [sound_go|]. intros [space|] _; [|sound_go].
  apply (sound_bind _ _ any); [sound_go|]. intros pid _. apply (sound_bind _ _ any); [sound_go|]. intros id _.
  apply (sound_bind _ _ any); [sound_go|]. intros m _.
  pose proof (blit_rows_in (Z.to_nat c) m space a b 0 FNV_BASIS ltac:(lia)) as Hp.
  destruct (blit_rows _ _ _ _ _ _ _); [sound_go|sound_go|done].
Qed.
Lemma sound_on_frame_rgb (a b c : Z) : sound (on_frame_rgb a b c) any.
Proof. unfold on_frame_rgb. sound_go. Qed.
Lemma sound_on_getkey : sound on_getkey any.
Proof. unfold on_getkey. sound_go. Qed.

#[local] Hint Resolve sound_sys_write sound_on_exit sound_on_yield sound_on_spawn sound_on_snapshot sound_on_blit
  sound_on_frame_rgb sound_on_getkey : sound.
Lemma sound_dispatch (f : TrapFrame) : sound (dispatch f) any.
Proof. unfold dispatch, resume. sound_go. Qed.

Lemma sound_enqueue_restore (sid : Z) : valid_sid sid -> sound (enqueue_restore sid) pid_option.
Proof. intros Hs. unfold enqueue_restore. sound_go. Qed.
Lemma sound_on_tick : sound on_tick any.
Proof. unfold on_tick. sound_go. Qed.
Lemma sound_resume_slot_frame (pid : Z) : valid_pid pid -> sound (resume_slot_frame pid) any.
Proof. intros Hp. unfold resume_slot_frame. sound_go. Qed.
#[local] Hint Resolve sound_dispatch sound_enqueue_restore sound_on_tick sound_resume_slot_frame : sound.
Lemma sound_maybe_preempt (f : TrapFrame) : sound (maybe_preempt f) any.
Proof. unfold maybe_preempt. sound_go. Qed.

Lemma sound_kill_pid (pid : Z) : sound (kill_pid pid) any.
Proof. unfold kill_pid. sound_go. Qed.
Lemma sound_set_deadline (pid u : Z) : sound (set_deadline pid u) any.
Proof. unfold set_deadline. sound_go. Qed.
Lemma sound_push_key (b : byte) : sound (modify (on_pay (push_key b))) any.
Proof.
  assert (H : forall p, table (push_key b p) = table p /\ snaps (push_key b p) = snaps p /\
    current (push_key b p) = current p /\ last_snap (push_key b p) = last_snap p).
  { intros p. unfold push_key. by destruct (_ <=? _). }
  apply sound_on_pay; intros p; destruct (H p) as (E1 & E2 & E3 & E4); rewrite ?E1, ?E2, ?E3, ?E4; done.
Qed.
#[local] Hint Resolve sound_maybe_preempt sound_kill_pid sound_set_deadline : sound.
Lemma sound_drain_byte (pid : Z) (k : bool) (b : byte) : valid_pid pid -> sound (drain_byte pid k b) any.
Proof.
  intros Hp. unfold drain_byte. sound_go. apply sound_push_key.
Qed.
#[local] Hint Resolve sound_drain_byte : sound.
Lemma sound_drain_loop (n : nat) (pid : Z) (k : bool) : valid_pid pid -> sound (drain_loop n pid k) any.
Proof. intros Hp. revert k. induction n as [|n IH]; intros k; cbn [drain_loop]; sound_go. Qed.
#[local] Hint Resolve sound_drain_loop : sound.
Lemma sound_drain_keys : sound drain_keys any.
Proof. unfold drain_keys. sound_go. Qed.
Lemma sound_swallow (b : byte) : sound (swallow_stray_key b) any.
Proof. unfold swallow_stray_key. sound_go. Qed.

(** *** Traps *)

Lemma sound_rearm : sound rearm any.
Proof. unfold rearm, set_timer. sound_go. Qed.
Lemma sound_emit_tick (a b : Z) : sound (emit_tick a b) any.
Proof. unfold emit_tick. sound_go. Qed.
Lemma sound_redirect (f : TrapFrame) : sound (redirect_to_scheduler f) any.
Proof. unfold redirect_to_scheduler, leave_current. sound_go. Qed.
Lemma sound_pagewalk (va : Z) : sound (current_pagewalk va) any.
Proof. unfold current_pagewalk. sound_go. Qed.
#[local] Hint Resolve sound_drain_keys sound_swallow sound_rearm sound_emit_tick sound_redirect sound_pagewalk : sound.
Lemma sound_emit_fault (f : TrapFrame) (a b c : Z) (o : option Z) : sound (emit_fault f a b c o) any.
Proof. unfold emit_fault, emit_fault_classic. sound_go. Qed.
Lemma sound_mark_faulted : sound mark_faulted any.
Proof. unfold mark_faulted. sound_go. Qed.
#[local] Hint Resolve sound_emit_fault sound_mark_faulted : sound.
Lemma sound_handle (sc st : Z) (f : TrapFrame) : sound (handle sc st f) any.
Proof. unfold handle, handle_tick, handle_ecall, handle_fault. sound_go. Qed.
#[local] Hint Resolve sound_handle : sound.

Lemma sound_kernel_tick (f : TrapFrame) : sound (kernel_tick f) any.
Proof.
  intros k Hk. unfold kernel_tick. destruct (sepc f =? scheduler_resume_pc); [done|].
  pose proof (sound_handle CAUSE_S_TIMER 0 (with_sstatus (Z.lor (sstatus f) SSTATUS_SPP) f) k Hk) as H.
  destruct (handle _ _ _ k) as [[f'|x] k2]; [|done]. destruct H as [H _].
  destruct (sepc f' =? scheduler_resume_pc); split; done.
Qed.

Lemma sound_irq_point : sound irq_point any.
Proof.
  intros k Hk. unfold irq_point. destruct (hw_irq (hw k)) as [|[f|] r]; [done| |].
  - apply sound_kernel_tick. by apply (sane_ext k).
  - split; [by apply (sane_ext k)|done].
Qed.
Lemma sound_wait_for_interrupt : sound wait_for_interrupt any.
Proof.
  intros k Hk. unfold wait_for_interrupt. destruct (next_irq _) as [[f r]|]; apply sound_kernel_tick; by apply (sane_ext k).
Qed.
#[local] Hint Resolve sound_irq_point sound_wait_for_interrupt : sound.

(** *** The control plane *)

Lemma sound_getc_loop (n : nat) : sound (getc_loop n) any.
Proof. induction n as [|n IH]; cbn [getc_loop]; sound_go. Qed.
Lemma sound_read_bytes (n : nat) : sound (read_bytes n) any.
Proof.
  assert (H : sound getc_stall any) by apply sound_getc_loop.
  induction n as [|n IH]; cbn [read_bytes]; sound_go.
Qed.
Lemma sound_emit_rpc (w : wprog) : sound (emit_rpc w) any.
Proof. unfold emit_rpc. sound_go. Qed.
#[local] Hint Resolve sound_read_bytes sound_emit_rpc : sound.
Lemma sound_respond_result (i : bytes) (w : wprog) : sound (respond_result i w) any.
Proof. apply sound_emit_rpc. Qed.
Lemma sound_respond_error (i : bytes) (c : Z) (m : bytes) : sound (respond_error i c m) any.
Proof. apply sound_emit_rpc. Qed.
#[local] Hint Resolve sound_respond_result sound_respond_error : sound.
Lemma sound_once (i : bytes) (op : option bytes) (m : M unit) : sound m any -> sound (once i op m) any.
Proof. intros H. unfold once, respond_duplicate. sound_go. Qed.

Lemma sound_tools_call (json id : bytes) : sound (handle_tools_call json id) any.
Proof.
  unfold handle_tools_call, tool_run_suite, tool_crash, tool_kill, tool_set_budget, tool_set_surface, tool_set_autonomy,
    busy, any_alive, respond_accepted. cbv zeta.
  repeat match goal with |- sound (if ?b then _ else _) _ => destruct b end; try (sound_go; fail).
  - destruct (suite_seed _) as [m|] eqn:Es; [|sound_go]. apply sound_suite_seed in Es.
    sound_step. destruct v; [sound_go|]. apply sound_once. sound_go.
  - sound_step. destruct v; [sound_go|]. apply sound_once. sound_go.
  - destruct (get_u32 _ _); [|sound_go]. apply sound_once. sound_go.
  - destruct (get_u32 _ _); [|sound_go]. destruct (get_u32 _ _); [|sound_go]. apply sound_once. sound_go.
Qed.

Lemma sound_resources_read (json id : bytes) : sound (handle_resources_read json id) any.
Proof.
  unfold handle_resources_read. cbv zeta. eapply sound_bind; [apply sound_gets_any|]. intros k _.
  repeat match goal with |- sound (if ?b then _ else _) _ => destruct b; [solve [sound_go]|] end. sound_go.
Qed.
#[local] Hint Resolve sound_tools_call sound_resources_read : sound.
Lemma sound_dispatch_request (json : bytes) : sound (dispatch_request json) any.
Proof.
  unfold dispatch_request, respond_initialize, respond_tools_list, respond_resources_list. cbv zeta.
  repeat match goal with |- sound (if ?b then _ else _) _ => destruct b; [solve [sound_go]|] end. sound_go.
Qed.
#[local] Hint Resolve sound_dispatch_request : sound.
Lemma sound_read_request : sound read_request any.
Proof.
  assert (H : sound getc_stall any) by apply sound_getc_loop.
  unfold read_request, accept_body. cbv zeta. sound_go.
Qed.
#[local] Hint Resolve sound_read_request : sound.

(** *** The scheduler *)

Lemma sound_service_console : sound service_console any.
Proof.
  unfold service_console. sound_step. generalize (S (S v)). intros n.
  induction n as [|n IH]; cbn [service_loop]; [sound_go|]. unfold next_command, serve_byte. sound_go.
Qed.
#[local] Hint Resolve sound_service_console : sound.

Lemma window_pool_ok (n : nat) (root va pa off : Z) (p : fpool) : pool_ok p -> pool_ok (snd (window_loop n root va pa off p)).
Proof.
  revert off p. induction n as [|n IH]; intros off p Hp; [done|]. cbn [window_loop].
  pose proof (proj1 (map_page_charged p root (va + off) (pa + off) (Z.lor R U) Hp)) as H.
  destruct (map_page _ _ _ _ _) as [[?|?] p1]; [done|by apply IH].
Qed.

Context (release : dev_profile = false).

Lemma sound_build_space (i : Z) (im : Image) : sound (build_space i im) any.
Proof.
  unfold build_space. sound_step. destruct v as [space|]; [|sound_go]. sound_step. destruct v; [sound_go|].
  apply (sound_bind _ _ answered).
  { intros k Hk. unfold pooled. destruct (load_elf_kept dev_profile (im_elf im) space (pool k) (sane_pool _ Hk)) as [H1 H2].
    destruct (load_elf _ _ _ _) as [r p]. destruct Hk. split; [by split|]. apply H2. intros ? ? ? ? _ _ ? _. by left. }
  intros [entry|e| |] Ha; try done; [|sound_go]. destruct (image_window i) as [[[va pa] len]|]; [|sound_go].
  apply (sound_bind _ _ any); [|intros ok _; sound_go].
  apply sound_pooled. intros p Hp. by apply window_pool_ok.
Qed.
#[local] Hint Resolve sound_build_space : sound.

Lemma sound_load_failed (pid : Z) (a b : bytes) : valid_pid pid -> sound (load_failed pid a b) any.
Proof. intros Hp. unfold load_failed. sound_go. Qed.
#[local] Hint Resolve sound_load_failed : sound.

Lemma sound_start (pid : Z) : valid_pid pid -> sound (start pid) any.
Proof. intros Hp. unfold start, start_saved, start_fresh. sound_go. Qed.
#[local] Hint Resolve sound_start : sound.

Lemma sound_owed_fork : sound owed_fork pid_option.
Proof.
  unfold owed_fork. eapply sound_bind.
  { apply (sound_gets _ (fun p => 0 <= last_snap p <= 4)). intros k Hk. apply (sane_last _ Hk). }
  intros p Hp. sound_go.
Qed.
#[local] Hint Resolve sound_owed_fork : sound.

Lemma sound_take_next : sound take_next_pending pid_option.
Proof.
  apply sound_gets. intros k Hk. destruct (position _ _) eqn:E; [|done].
  apply position_valid in E. rewrite (sane_table _ Hk) in E. in_range.
Qed.
#[local] Hint Resolve sound_take_next : sound.

Lemma sound_run : sound run any.
Proof. unfold run, kernel_satp, write_satp. sound_go. Qed.

Lemma sound_idle : sound idle_step any.
Proof.
  unfold idle_step, seed_and_run.
  eapply sound_bind; [apply sound_getchar|]. intros ob _. apply (sound_bind _ _ any); [sound_go|]. intros [b|] _; [|sound_go].
  repeat match goal with
  | |- sound (if ?c then _ else _) _ => destruct c; [first [solve [sound_go] | apply (sound_bind _ _ any); [suite|intros _ _; sound_go]]|]
  end. sound_go.
Qed.

End Functions.

(** ** The machine *)

Section Machine.
Context {B : Build} (release : dev_profile = false).

Lemma sane_after (x : exit) (k : K) : sane k -> sane (snd (after x k)).
Proof. destruct x; try done. intros H. by apply (sane_ext k). Qed.

Lemma sane_init (h : Hw) (m : mem) : sane (k_init h m).
Proof.
  split; [apply pool_init_ok|reflexivity| |reflexivity| |by left|cbn; lia].
  - apply Forall_replicate. split; [cbn; unfold valid_img; lia|by left].
  - apply Forall_replicate. unfold snap_sane, valid_img. cbn. lia.
Qed.

(** Boot may panic (no frame for the root table, an image that overlaps the
    pool), but what it leaves is sane. *)
Definition keeps_sane {T} (m : M T) : Prop := forall k, sane k -> sane (snd (m k)).

Lemma sound_keeps {T} (m : M T) (Q : T -> Prop) : sound m Q -> keeps_sane m.
Proof. intros H k Hk. specialize (H k Hk). destruct (m k) as [[v|x] k']; apply H. Qed.

Lemma keeps_bind {S T} (m : M S) (f : S -> M T) : keeps_sane m -> (forall v, keeps_sane (f v)) -> keeps_sane (bind m f).
Proof. intros Hm Hf k Hk. unfold bind. specialize (Hm k Hk). destruct (m k) as [[v|x] k']; [by apply Hf|done]. Qed.

Lemma kmain_keeps : keeps_sane kmain.
Proof.
  assert (Hs : forall T (x : exit), keeps_sane (@stop T x)) by (intros T x k Hk; exact Hk).
  unfold kmain. apply keeps_bind; [apply (sound_keeps _ _ sound_next_event)|]. intros id.
  apply keeps_bind; [apply (sound_keeps _ _ (sound_send _))|]. intros _.
  apply keeps_bind; [unfold assert_pool_clear; destruct (_ <=? _); [by apply (sound_keeps _ any), sound_ret|apply Hs]|].
  intros _. apply keeps_bind; [|intros _; apply keeps_bind; [apply (sound_keeps _ any); unfold arm_first_tick, set_timer; sound_go|intros _; apply Hs]].
  unfold init_paging. apply keeps_bind; [apply (sound_keeps _ any), sound_pooled; pool_side|]. intros [root|]; [|apply Hs].
  apply keeps_bind; [apply (sound_keeps _ any), sound_pooled; pool_side|]. intros [e|?]; [apply Hs|].
  apply (sound_keeps _ any). unfold write_satp. sound_go.
Qed.

Lemma sane_boot (s : control * K) : booted s -> sane (snd s).
Proof.
  intros (h & m & x & k & _ & _ & Hrun & ->). apply sane_after.
  pose proof (kmain_keeps _ (sane_init h m)) as H. by rewrite Hrun in H.
Qed.

Lemma sane_step (s s' : control * K) : sane (snd s) -> step s s' -> sane (snd s').
Proof.
  intros Hs Hst.
  assert (Hk : forall T (m : M T) k x k', sound m any -> sane k -> m k = (x, k') -> sane k').
  { intros T m k [v|x] k' Hm Hk E; specialize (Hm k Hk); rewrite E in Hm; apply Hm. }
  destruct Hst; cbn [snd] in *.
  - apply sane_after. eapply Hk; [by apply sound_run|exact Hs|eassumption].
  - eapply Hk; [by apply sound_idle|exact Hs|eassumption].
  - apply sane_after. eapply Hk; [by apply sound_idle|exact Hs|eassumption].
  - apply sane_after. eapply Hk; [by apply sound_handle|exact Hs|eassumption].
  - destruct Hs. by split.
  - eapply Hk; [by apply sound_handle|exact Hs|eassumption].
  - apply sane_after. eapply Hk; [by apply sound_handle|exact Hs|eassumption].
  - by apply (sane_ext k).
Qed.

Lemma sane_reachable (s : control * K) : reachable s -> sane (snd s).
Proof.
  intros (s0 & Hb & Hst). induction Hst; [by apply sane_boot|].
  eapply sane_step; eauto.
Qed.


End Machine.
