(* ===== verification/Progress.v ===== *)
(** * The scheduler makes progress

    With a quiet console and no interrupt pending, the scheduler reaches a
    payload or the command loop in boundedly many rounds: every round that only
    reports a load failure takes a payload out of the queue. *)

From S2P Require Import Prelude Hal Frames Mm Elf PoolAcct Console RpcJson KState Traps Payload Syscall Handler Rpc Sched KRun KSpec SchedInv SchedProofs Sound.

(** ** Code that leaves the queue alone *)

(** The console, the interrupts, the states of the slots and the forks owed are
    as before. *)
Record rest (k k' : K) : Prop := {
  r_in : hw_in (hw k') = hw_in (hw k);
  r_irq : hw_irq (hw k') = hw_irq (hw k);
  r_stash : stashed_byte (pay k') = stashed_byte (pay k);
  r_states : map state (table (pay k')) = map state (table (pay k));
  r_fork : auto_fork (pay k') = auto_fork (pay k)
}.

Lemma rest_trans (k1 k2 k3 : K) : rest k1 k2 -> rest k2 k3 -> rest k1 k3.
Proof. intros [? ? ? ? ?] [? ? ? ? ?]. split; congruence. Qed.

(** Code that rests, and exits only by a panic. *)
Definition mild {T} (m : M T) : Prop := forall k,
  rest k (snd (m k)) /\ match fst (m k) with Exit x => x = XPanic | Val _ => True end.

Lemma mild_bind {S T} (m : M S) (f : S -> M T) : mild m -> (forall v, mild (f v)) -> mild (bind m f).
Proof.
  intros Hm Hf k. unfold bind. destruct (Hm k) as [H1 H2]. destruct (m k) as [[v|x] k']; [|done].
  destruct (Hf v k') as [H3 H4]. split; [by eapply rest_trans|done].
Qed.

Lemma mild_run {T} (m : M T) (Q : T -> Prop) (k : K) : mild m -> sound m Q -> sane k ->
  exists v k', m k = (Val v, k') /\ sane k' /\ rest k k' /\ Q v.
Proof.
  intros Hm Hs Hk. destruct (Hm k) as [H1 H2]. specialize (Hs k Hk). destruct (m k) as [[v|x] k']; cbn in *.
  - exists v, k'. by destruct Hs.
  - by destruct Hs as [_ []].
Qed.

Lemma mild_ret {T} (v : T) : mild (ret v).
Proof. done. Qed.
Lemma mild_panic {T} : mild (@stop T XPanic).
Proof. done. Qed.
Lemma mild_gets {T} (g : K -> T) : mild (gets g).
Proof. done. Qed.
Lemma mild_next_event : mild next_event.
Proof. done. Qed.
Lemma mild_read_time : mild read_time.
Proof. intros k. unfold read_time. by destruct (hw_dt (hw k)). Qed.
Lemma mild_in_bounds (b : bool) : mild (in_bounds b).
Proof. by destruct b. Qed.
Lemma mild_put_wire (b : bytes) : mild (put_wire b).
Proof. intros k. unfold put_wire, modify. by destruct b. Qed.
Lemma mild_send (w : wprog) : mild (send w).
Proof. apply mild_put_wire. Qed.
Lemma mild_satp (v : Z) : mild (write_satp v).
Proof. done. Qed.
Lemma mild_pooled {T} (f : fpool -> T * fpool) : mild (pooled f).
Proof. intros k. unfold pooled. by destruct (f (pool k)). Qed.
Lemma mild_pool_do (f : fpool -> fpool) : mild (pool_do f).
Proof. done. Qed.
Lemma mild_current (v : Z) : mild (modify (on_pay (with_current v))).
Proof. done. Qed.
Lemma mild_get_slot (pid : Z) : mild (get_slot pid).
Proof. intros k. unfold get_slot. by destruct (slot_at pid k). Qed.
Lemma mild_get_snap (sid : Z) : mild (get_snap sid).
Proof. intros k. unfold get_snap. by destruct (snap_at sid k). Qed.

Lemma states_insert (t : list Slot) (i : nat) (s s' : Slot) : t !! i = Some s ->
  map state (<[i := s']> t) = <[i := state s']> (map state t).
Proof. intros _. apply list_fmap_insert. Qed.

Lemma mild_upd_slot (pid : Z) (f : Slot -> Slot) : (forall s, state (f s) = state s) -> mild (upd_slot pid f).
Proof.
  intros Hf k. unfold upd_slot. destruct (slot_at pid k) as [s|] eqn:E; [|done]. cbn. split; [|done]. split; cbn; try done.
  unfold slot_at in E. destruct (pid <? 0); [done|]. rewrite (states_insert _ _ s) by done.
  apply list_insert_id. rewrite list_lookup_fmap, E. cbn. by rewrite Hf.
Qed.

Create HintDb mild discriminated.
#[export] Hint Constants Opaque : mild.
#[export] Hint Variables Opaque : mild.
#[export] Hint Resolve mild_ret mild_panic mild_in_bounds mild_gets mild_next_event mild_read_time mild_put_wire mild_send mild_satp
  mild_pooled mild_pool_do mild_current mild_get_slot mild_get_snap : mild.

Ltac mild_go :=
  repeat first
    [ solve [eauto with mild]
    | match goal with |- mild (match ?x with _ => _ end) => destruct x eqn:? end
    | lazymatch goal with |- mild (bind _ _) => apply mild_bind; [|intros ?] end
    | apply mild_upd_slot; intros ?; reflexivity
    | progress intros ].

Section Mild.
Context {B : Build}.

Lemma mild_get_image (i : Z) : mild (get_image i).
Proof. unfold get_image. mild_go. Qed.
Hint Resolve mild_get_image : mild.
Lemma mild_for_each {T} (l : list T) (f : T -> M unit) : (forall x, mild (f x)) -> mild (for_each l f).
Proof. intros H. induction l as [|x l IH]; cbn [for_each]; [apply mild_ret|]. by apply mild_bind. Qed.
Lemma mild_reap : mild reap_terminated.
Proof. unfold reap_terminated, release_space, release_frame. apply mild_for_each. intros x. mild_go. Qed.
Lemma mild_emit_start (p : Z) (n : bytes) (c e : Z) (r : bool) : mild (emit_start p n c e r).
Proof. unfold emit_start. mild_go. Qed.
Lemma mild_emit_load_fault (p : Z) (a b : bytes) : mild (emit_load_fault p a b).
Proof. unfold emit_load_fault. mild_go. Qed.
Lemma mild_emit_suite_done : mild emit_suite_done.
Proof. unfold emit_suite_done. mild_go. Qed.
Lemma mild_build_space (i : Z) (im : Image) : mild (build_space i im).
Proof. unfold build_space. mild_go. Qed.

End Mild.

(** ** The state of the queue *)

(** Nothing to read, no interrupt pending. *)
Definition idle_world (k : K) : Prop := hw_in (hw k) = [] /\ hw_irq (hw k) = [] /\ stashed_byte (pay k) = 0.

Definition states_of (k : K) : list pstate := map state (table (pay k)).
Definition pendings (l : list pstate) : nat := length (List.filter (fun st => bool_decide (st = PENDING)) l).

(** The rounds the scheduler may still spend on payloads that do not load. *)
Definition queue_length (k : K) : nat := (pendings (states_of k) + Z.to_nat (auto_fork (pay k)))%nat.

Record at_queue (l : list pstate) (fork : Z) (k : K) : Prop := {
  aq_sane : sane k;
  aq_idle : idle_world k;
  aq_states : states_of k = l;
  aq_fork : auto_fork (pay k) = fork
}.

Lemma at_queue_rest (l : list pstate) (fork : Z) (k k' : K) : at_queue l fork k -> sane k' -> rest k k' -> at_queue l fork k'.
Proof.
  intros [_ (H1 & H2 & H3) H4 H5] Hs [E1 E2 E3 E4 E5]. split; [done| |unfold states_of in *; congruence|congruence].
  split; [congruence|]. split; congruence.
Qed.

(** How a round may end, for a queue of length [n] at its start. *)
Definition settled (n : nat) (r : res unit * K) : Prop :=
  match r with
  | (Exit XRun, k') => idle_world k' /\ (queue_length k' < n)%nat
  | (Exit XIdle, k') => pendings (states_of k') = 0%nat
  | (Exit (XResume _ _), _) => True
  | _ => False
  end.

Section Round.
Context {B : Build} (release : dev_profile = false).

Lemma settled_bind {S T} (m : M S) (f : S -> M T) (R : S -> Prop) (P : res T * K -> Prop) (l : list pstate) (fork : Z) (k : K) :
  at_queue l fork k -> mild m -> sound m R ->
  (forall v k', R v -> at_queue l fork k' -> P (f v k')) -> P (bind m f k).
Proof.
  intros Hq Hm Hs Hf. destruct (mild_run m R k Hm Hs (aq_sane _ _ _ Hq)) as (v & k' & E & Hk' & Hr & Hv).
  rewrite (bind_val _ _ _ _ _ E). apply Hf; [done|]. by eapply at_queue_rest.
Qed.

Lemma settled_irq (f : unit -> M unit) (n : nat) (l : list pstate) (fork : Z) (k : K) :
  at_queue l fork k -> settled n (f tt k) -> settled n (bind irq_point f k).
Proof.
  intros Hq H. destruct (aq_idle _ _ _ Hq) as (_ & Hi & _).
  erewrite bind_val; [exact H|]. unfold irq_point. by rewrite Hi.
Qed.

(** A slot changes its state. *)
Lemma settled_upd {T} (pid : Z) (g : Slot -> Slot) (st : pstate) (f : unit -> M T) (P : res T * K -> Prop) (l : list pstate) (fork : Z) (k : K) :
  at_queue l fork k -> valid_pid pid -> (forall s, slot_sane s -> slot_sane (g s)) -> (forall s, state (g s) = st) ->
  (forall k', at_queue (<[Z.to_nat pid := st]> l) fork k' -> P (f tt k')) -> P (bind (upd_slot pid g) f k).
Proof.
  intros [Hs Hi Hl Hf] Hp Hg Hst H. destruct (slot_at_valid pid k Hs Hp) as (s & Es & _).
  pose proof (sound_upd_slot pid g Hp Hg k Hs) as Hs'. rewrite (upd_slot_run _ _ _ _ Es) in Hs'.
  rewrite (bind_val _ _ _ _ _ (upd_slot_run _ _ _ _ Es)). apply H. split; [apply Hs'|exact Hi| |exact Hf].
  unfold states_of, stored. cbn. rewrite list_fmap_insert. cbn. rewrite Hst. by rewrite <- Hl.
Qed.

Lemma pendings_insert (l : list pstate) (i : nat) (st : pstate) : l !! i = Some PENDING -> st <> PENDING ->
  (S (pendings (<[i := st]> l)) = pendings l)%nat.
Proof.
  revert i. induction l as [|x l IH]; intros [|i] Hl Hn; try done.
  - injection Hl as ->. unfold pendings. cbn. by rewrite bool_decide_eq_false_2 by done.
  - change (<[S i := st]> (x :: l)) with (x :: <[i := st]> l). specialize (IH i Hl Hn).
    unfold pendings in *. cbn [List.filter]. destruct (bool_decide (x = PENDING)); cbn [length]; lia.
Qed.

Lemma load_failed_settles (pid : Z) (a b : bytes) (l : list pstate) (fork : Z) (k : K) :
  at_queue l fork k -> valid_pid pid -> l !! Z.to_nat pid = Some PENDING ->
  settled (pendings l + Z.to_nat fork) (load_failed pid a b k).
Proof.
  intros Hq Hp Hl. unfold load_failed.
  apply (settled_upd _ _ FAULTED _ _ l fork); [exact Hq|exact Hp|intros s Hs; exact Hs|intros ?; reflexivity|]. intros k1 Hq1.
  eapply settled_bind; [exact Hq1|apply mild_emit_load_fault|apply sound_emit_load_fault|]. intros _ k2 _ [_ Hi E1 E2].
  cbn. split; [done|]. unfold queue_length. rewrite E1, E2.
  pose proof (pendings_insert l (Z.to_nat pid) FAULTED Hl ltac:(done)). lia.
Qed.

Lemma sound_current (pid : Z) : valid_pid pid -> sound (modify (on_pay (with_current pid))) any.
Proof. intros Hp. apply sound_on_pay; [by intros p|intros p _; by right|by intros p]. Qed.

Lemma start_saved_settles (pid : Z) (s : Slot) (n : nat) (l : list pstate) (fork : Z) (k : K) :
  at_queue l fork k -> valid_pid pid -> valid_img (image s) -> settled n (start_saved pid s k).
Proof.
  intros Hq Hp Himg. unfold start_saved.
  apply (settled_upd _ _ RUNNING _ _ l fork); [exact Hq|exact Hp|intros t Ht; exact Ht|intros ?; reflexivity|]. intros k1 Hq1.
  eapply settled_bind; [exact Hq1| |apply (sound_weaken _ any); [|done]|].
  { destruct (preempted s); mild_go. }
  { destruct (preempted s); sound_go. }
  intros _ k2 _ Hq2. eapply settled_bind; [exact Hq2|apply mild_current|by apply sound_current|]. intros _ k3 _ Hq3.
  eapply settled_irq; [exact Hq3|].
  eapply settled_bind; [exact Hq3| |apply (sound_weaken _ any); [|done]|].
  { destruct (preempted s); [apply mild_ret|]. pose proof mild_get_image. pose proof mild_emit_start. mild_go. }
  { destruct (preempted s); sound_go. eapply sound_weaken; [by apply sound_emit_start|done]. }
  intros _ k4 _ Hq4. by eapply settled_irq.
Qed.

Lemma start_settles (pid : Z) (l : list pstate) (fork : Z) (k : K) :
  at_queue l fork k -> valid_pid pid -> l !! Z.to_nat pid = Some PENDING ->
  settled (pendings l + Z.to_nat fork) (start pid k).
Proof.
  intros Hq Hp Hl. unfold start.
  eapply settled_bind; [exact Hq|apply mild_get_slot|by apply sound_get_slot|]. intros s k1 [Himg Hpar] Hq1.
  destruct (negb _).
  - by apply (start_saved_settles pid s _ l fork).
  - unfold start_fresh. eapply settled_bind; [exact Hq1|apply mild_get_image|by apply sound_get_image|]. intros im k2 _ Hq2.
    eapply settled_bind; [exact Hq2|apply mild_build_space|by apply sound_build_space|]. intros [reason|[space entry]] k3 _ Hq3;
      [by apply load_failed_settles|].
    eapply settled_bind; [exact Hq3|apply mild_pooled|apply sound_pooled; pool_side|]. intros [frame|] k4 _ Hq4.
    + eapply settled_bind; [exact Hq4|apply mild_pool_do|apply sound_pool_do; pool_side|]. intros _ k5 _ Hq5.
      apply (settled_upd _ _ RUNNING _ _ l fork); [exact Hq5|done|intros t Ht; exact Ht|intros ?; reflexivity|]. intros k6 Hq6.
      eapply settled_bind; [exact Hq6|apply mild_read_time|apply sound_read_time|]. intros now k7 _ Hq7.
      eapply settled_bind; [exact Hq7|by apply mild_upd_slot|by apply sound_upd_slot|]. intros _ k8 _ Hq8.
      eapply settled_bind; [exact Hq8|apply mild_current|by apply sound_current|]. intros _ k9 _ Hq9.
      eapply settled_irq; [exact Hq9|].
      eapply settled_bind; [exact Hq9|apply mild_get_slot|by apply sound_get_slot|]. intros s' k10 _ Hq10.
      eapply settled_bind; [exact Hq10|apply mild_emit_start|by apply sound_emit_start|]. intros _ k11 _ Hq11.
      by eapply settled_irq.
    + eapply settled_bind; [exact Hq4|apply mild_pool_do|apply sound_pool_do; pool_side|]. intros _ k5 _ Hq5.
      by apply load_failed_settles.
Qed.

(** With nothing to read the console service returns at once. *)
Lemma service_idle (k : K) (l : list pstate) (fork : Z) : at_queue l fork k ->
  exists k', service_console k = (Val tt, k') /\ at_queue l fork k'.
Proof.
  intros Hq. destruct (aq_idle _ _ _ Hq) as (Hi & _ & Hs). exists (on_pay (with_stashed_byte 0) k). split.
  - unfold service_console. run_bind. rewrite Hi. cbn [length service_loop]. unfold next_command.
    rewrite bind_assoc. run_bind. rewrite Hs. change (0 =? 0) with true. cbv iota. rewrite bind_assoc. run_bind.
    assert (Eg : console_getchar (on_pay (with_stashed_byte 0) k) = (Val None, on_pay (with_stashed_byte 0) k))
      by (unfold console_getchar; cbn [hw on_pay with_pay]; by rewrite Hi).
    by rewrite (bind_val _ _ _ _ _ Eg).
  - destruct Hq as [[H1 H2 H3 H4 H5 H6 H7] (E1 & E2 & E3) H8 H9].
    split; [by split|split; [exact E1|split; [exact E2|reflexivity]]|exact H8|exact H9].
Qed.

Lemma position_states (st : pstate) (k : K) :
  match position (has_state st) (table (pay k)) with
  | Some pid => states_of k !! Z.to_nat pid = Some st
  | None => st ∉ states_of k
  end.
Proof.
  unfold states_of, position. generalize (table (pay k)). intros t.
  assert (H : forall i, match position_from i (has_state st) t with
    | Some pid => i <= pid /\ map state t !! Z.to_nat (pid - i) = Some st
    | None => st ∉ map state t end).
  { induction t as [|s t IH]; intros i; cbn [position_from map]; [apply not_elem_of_nil|].
    unfold has_state. case_bool_decide as E.
    - split; [lia|]. rewrite Z.sub_diag. cbn. by rewrite E.
    - specialize (IH (i + 1)). destruct (position_from (i + 1) _ t) as [pid|]; [|rewrite not_elem_of_cons; split; [congruence|exact IH]].
      destruct IH as [Hle IH]. split; [lia|]. by replace (Z.to_nat (pid - i)) with (S (Z.to_nat (pid - (i + 1)))) by lia. }
  specialize (H 0). destruct (position_from 0 _ t) as [pid|]; [|done]. rewrite Z.sub_0_r in H. apply H.
Qed.

Lemma pendings_none (l : list pstate) : PENDING ∉ l -> pendings l = 0%nat.
Proof.
  intros H. unfold pendings. induction l as [|x l IH]; [done|]. cbn [List.filter].
  rewrite bool_decide_eq_false_2 by set_solver. apply IH. set_solver.
Qed.

Lemma settled_le (n m : nat) (r : res unit * K) : settled n r -> (n <= m)%nat -> settled m r.
Proof. destruct r as [[v|x] k]; [done|]. destruct x; cbn; try done. intros [? ?] ?. split; [done|lia]. Qed.

(** A restore queues one new payload in an empty slot, or nothing. *)
Definition restored (l : list pstate) (fork : Z) (r : res (option Z) * K) : Prop :=
  match r with
  | (Val None, k') => at_queue l fork k'
  | (Val (Some pid), k') => valid_pid pid /\ l !! Z.to_nat pid = Some EMPTY /\ at_queue (<[Z.to_nat pid := PENDING]> l) fork k'
  | _ => False
  end.

Lemma restore_queues (sid : Z) (l : list pstate) (fork : Z) (k : K) : at_queue l fork k -> valid_sid sid ->
  restored l fork (enqueue_restore sid k).
Proof.
  intros Hq Hs. unfold enqueue_restore.
  eapply settled_bind; [exact Hq|apply mild_get_snap|by apply sound_get_snap|]. intros sn k1 Hsn Hq1.
  destruct (negb _); [exact Hq1|].
  eapply settled_bind; [exact Hq1|apply mild_pooled|apply sound_pooled; pool_side|]. intros [new_as|] k2 _ Hq2; [|exact Hq2].
  eapply settled_bind; [exact Hq2|apply mild_pooled|apply sound_pooled; pool_side|]. intros [new_frame|] k3 _ Hq3.
  2: { eapply settled_bind; [exact Hq3|apply mild_pool_do|apply sound_pool_do; pool_side|]. intros _ k4 _ Hq4. exact Hq4. }
  eapply settled_bind; [exact Hq3|apply mild_pooled|apply sound_pooled; pool_side|]. intros copied k4 _ Hq4.
  assert (Hab : forall k5, at_queue l fork k5 -> restored l fork
    ((pool_do (destroy new_as) ;;; pool_do (free new_frame) ;;; ret None) k5)).
  { intros k5 Hq5. eapply settled_bind; [exact Hq5|apply mild_pool_do|apply sound_pool_do; pool_side|]. intros _ k6 _ Hq6.
    eapply settled_bind; [exact Hq6|apply mild_pool_do|apply sound_pool_do; pool_side|]. intros _ k7 _ Hq7. exact Hq7. }
  destruct (negb copied); [by apply Hab|]. run_bind.
  pose proof (position_states EMPTY k4) as Hpos. rewrite (aq_states _ _ _ Hq4) in Hpos.
  destruct (position (has_state EMPTY) (table (pay k4))) as [pid|] eqn:Ep; [|by apply Hab].
  apply position_valid in Ep. rewrite (sane_table _ (aq_sane _ _ _ Hq4)) in Ep.
  assert (Hp : valid_pid pid) by (unfold valid_pid, MAX_PROC in *; lia).
  eapply settled_bind; [exact Hq4|apply mild_get_image|by apply sound_get_image|]. intros im k5 _ Hq5.
  apply (settled_upd _ _ PENDING _ _ l fork); [exact Hq5|exact Hp| |intros ?; reflexivity|].
  - intros t _. split; [exact Hsn|by left].
  - intros k6 Hq6. by split.
Qed.

Lemma pendings_add (l : list pstate) (i : nat) : l !! i = Some EMPTY -> pendings (<[i := PENDING]> l) = S (pendings l).
Proof.
  intros H. assert (H' : <[i := PENDING]> l !! i = Some PENDING) by (apply list_lookup_insert_eq; by eapply lookup_lt_Some).
  rewrite <- (pendings_insert _ i EMPTY H') by done. by rewrite list_insert_insert_eq, list_insert_id.
Qed.

(** A round with an empty queue: a checkpoint continuation is started, or the
    suite is done. *)
Lemma drained_settles (l : list pstate) (fork : Z) (k : K) : at_queue l fork k -> PENDING ∉ l ->
  settled (Z.to_nat fork) ((let! f := owed_fork in
    match f with Some pid => start pid | None => emit_suite_done ;;; stop XIdle end) k).
Proof.
  intros Hq Hl. assert (Hdone : forall fk k', at_queue l fk k' -> settled (Z.to_nat fork) ((emit_suite_done ;;; stop XIdle) k')).
  { intros fk k' Hq'. eapply settled_bind; [exact Hq'|apply mild_emit_suite_done|apply sound_emit_suite_done|].
    intros _ k2 _ Hq2. cbn. rewrite (aq_states _ _ _ Hq2). by apply pendings_none. }
  unfold owed_fork. rewrite bind_assoc. run_bind. destruct (_ && _) eqn:E; [|by apply (Hdone fork)].
  apply andb_true_iff in E as [Ef%Z.ltb_lt El%Z.ltb_lt]. rewrite (aq_fork _ _ _ Hq) in Ef. pose proof (sane_last _ (aq_sane _ _ _ Hq)) as Hlast.
  rewrite bind_assoc. run_bind. rewrite (aq_fork _ _ _ Hq).
  set (k1 := on_pay (with_auto_fork (fork - 1)) k).
  assert (Hq1 : at_queue l (fork - 1) k1).
  { destruct Hq as [[H1 H2 H3 H4 H5 H6 H7] H8 H9 H10]. split; [by split|exact H8|exact H9|reflexivity]. }
  pose proof (restore_queues (last_snap (pay k) - 1) l (fork - 1) k1 Hq1 ltac:(unfold valid_sid; lia)) as Hr.
  destruct (enqueue_restore (last_snap (pay k) - 1) k1) as [[[pid|]|x] k2] eqn:Ee; cbn [restored] in Hr; [| |done];
    rewrite (bind_val _ _ _ _ _ Ee).
  - destruct Hr as (Hp & Hempty & Hq2). eapply settled_le; [apply start_settles; [exact Hq2|done|]|].
    + apply list_lookup_insert_eq. by eapply lookup_lt_Some.
    + rewrite pendings_add, pendings_none by done. lia.
  - by apply (Hdone (fork - 1)).
Qed.

Lemma round_settles (l : list pstate) (fork : Z) (k : K) : at_queue l fork k -> settled (queue_length k) (run k).
Proof.
  intros Hq. unfold queue_length. rewrite (aq_states _ _ _ Hq), (aq_fork _ _ _ Hq). unfold run.
  eapply settled_bind; [exact Hq|apply mild_current|apply sound_on_pay; [done|by left|done]|]. intros _ k1 _ Hq1.
  eapply settled_bind; [exact Hq1|apply mild_gets|apply sound_gets_any|]. intros satp k2 _ Hq2.
  eapply settled_bind; [exact Hq2|apply mild_satp|apply sound_on_hw|]. intros _ k3 _ Hq3.
  eapply settled_irq; [exact Hq3|].
  eapply settled_bind; [exact Hq3|apply mild_reap|apply sound_reap|]. intros _ k4 _ Hq4.
  destruct (service_idle k4 l fork Hq4) as (k5 & E5 & Hq5). rewrite (bind_val _ _ _ _ _ E5).
  eapply settled_irq; [exact Hq5|].
  eapply settled_bind; [exact Hq5|apply mild_reap|apply sound_reap|]. intros _ k6 _ Hq6.
  pose proof (position_states PENDING k6) as Hpos. rewrite (aq_states _ _ _ Hq6) in Hpos.
  unfold take_next_pending. run_bind. destruct (position (has_state PENDING) (table (pay k6))) as [pid|] eqn:Ep.
  - apply position_valid in Ep. rewrite (sane_table _ (aq_sane _ _ _ Hq6)) in Ep.
    eapply settled_le; [apply start_settles; [exact Hq6|unfold valid_pid, MAX_PROC in *; lia|exact Hpos]|lia].
  - eapply settled_le; [by apply (drained_settles l fork)|]. rewrite pendings_none by done. lia.
Qed.

(** ** The machine settles *)

(** Rounds of the scheduler, one after the other with nothing in between, until
    one of them gives the hart away; [n] rounds at most. *)
Fixpoint rounds (n : nat) (k : K) : control * K :=
  match n with
  | O => (CRun, k)
  | S n' =>
      match run k with
      | (Val _, k') => (CRun, k')
      | (Exit x, k') => match after x k' with (CRun, k2) => rounds n' k2 | s => s end
      end
  end.

(** The hart is in the command loop with no payload pending, or in a payload. *)
Definition placed (s : control * K) : Prop :=
  (fst s = CIdle /\ pendings (states_of (snd s)) = 0%nat) \/ exists f, fst s = CUser f \/ fst s = CKernel f.

Lemma settles (n : nat) (k : K) : sane k -> idle_world k -> (queue_length k < n)%nat -> placed (rounds n k).
Proof.
  revert k. induction n as [|n IH]; intros k Hs Hi Hn; [lia|]. cbn [rounds].
  assert (Hq : at_queue (states_of k) (auto_fork (pay k)) k) by done.
  pose proof (round_settles _ _ k Hq) as Hr. pose proof (sound_run release k Hs) as Hsr.
  destruct (run k) as [[v|x] k']; [done|].
  destruct x as [| | | | |satp frame]; cbn [settled] in Hr; try done; cbn [after].
  - destruct Hr as [Hi' Hlt]. apply IH; [apply Hsr|done|lia].
  - by left.
  - right. unfold resume_sret. destruct (is_from_user _); eexists; [by left|by right].
Qed.

Lemma rounds_inv (n : nat) (k : K) : machine_inv (CRun, k) -> machine_inv (rounds n k).
Proof.
  revert k. induction n as [|n IH]; intros k Hm; cbn [rounds]; [done|].
  destruct (run k) as [[v|x] k'] eqn:E.
  - exfalso. pose proof (run_ok k Hm) as H. by rewrite E in H.
  - pose proof (step_inv _ _ Hm (step_run k x k' E)) as Hm'. destruct (after x k') as [c k2]. destruct c; [by apply IH|done..].
Qed.

Lemma pendings_zero (k : K) (pid : Z) (s : Slot) : pendings (states_of k) = 0%nat -> slot_at pid k = Some s -> state s <> PENDING.
Proof.
  intros H Hs E. unfold slot_at in Hs. destruct (pid <? 0); [done|].
  assert (Hl : states_of k !! Z.to_nat pid = Some PENDING) by (unfold states_of; rewrite list_lookup_fmap, Hs; cbn; by rewrite E).
  pose proof (pendings_insert _ _ EMPTY Hl ltac:(done)). lia.
Qed.


End Round.
