(* ===== verification/Events.v ===== *)
(** * The events on the wire

    Every frame the kernel sends carries the next id of a single counter. For
    each piece of kernel code: the frames it adds to the wire carry ids taken
    from the counter during that code, in increasing order, and each is one JSON
    document. *)

From S2P Require Import Prelude Hal Frames Mm Elf Console Utf8 Framing JsonDoc JsonText Docs RpcJson KState Traps Payload Syscall Handler Rpc Sched KRun KSpec.

(** The frame's JSON starts with its event id. *)
Definition carries (b : bytes) (id : Z) : Prop :=
  exists rest, b = frame_bytes (js "{'id':" ++ dec id ++ x2c :: rest).

(** The frame holds one JSON document, but for the zeros of an echoed id. *)
Definition json_frame (b : bytes) : Prop := exists s, b = frame_bytes s /\ frame_text s /\ (length s <= CAPACITY)%nat.

Definition event (b : bytes) (id : Z) : Prop := carries b id /\ json_frame b.

(** An unframed line of the classic surface: the report of a fault. *)
Definition raw_line (b : bytes) : Prop := exists frame scause stval pid, b = classic_line frame scause stval pid.

(** It holds no byte of a magic. *)
Definition quiet_bytes (b : bytes) : Prop := Forall (fun c => c <> xaa) b.

(** The bursts [l] carry ids [n + o] for increasing offsets [o] in [lo, hi). *)
Inductive tagged (n : Z) : Z -> Z -> list bytes -> Prop :=
  | tag_nil lo hi : lo <= hi -> tagged n lo hi []
  | tag_frame lo hi o b l : lo <= o -> event b (wrap64 (n + o)) -> tagged n (o + 1) hi l ->
      tagged n lo hi (b :: l)
  | tag_raw lo hi b l : raw_line b -> tagged n lo hi l -> tagged n lo hi (b :: l).

Definition out (k : K) : list bytes := hw_out (hw k).

Lemma tagged_le (n lo hi : Z) (l : list bytes) : tagged n lo hi l -> lo <= hi.
Proof. induction 1; lia. Qed.

Lemma tagged_weaken (n lo lo' hi hi' : Z) (l : list bytes) :
  tagged n lo hi l -> lo' <= lo -> hi <= hi' -> tagged n lo' hi' l.
Proof.
  intros H. revert lo'. induction H as [lo hi Hle|lo hi o b l Ho Hb Hl IH|lo hi b l Hb Hl IH]; intros lo' H1 H2.
  - constructor. lia.
  - apply tag_frame with o; [lia|done|]. apply IH; lia.
  - apply tag_raw; auto.
Qed.

Lemma tagged_app (n lo mid hi : Z) (l1 l2 : list bytes) :
  tagged n lo mid l1 -> tagged n mid hi l2 -> tagged n lo hi (l1 ++ l2).
Proof.
  intros H. induction H as [lo mid Hle|lo mid o b l Ho Hb Hl IH|lo mid b l Hb Hl IH]; intros H2; cbn [app].
  - by apply tagged_weaken with mid hi; [|lia|].
  - apply tag_frame with o; auto.
  - apply tag_raw; auto.
Qed.

(** Offsets counted from an earlier value of the counter. *)
Lemma tagged_shift (n d lo hi : Z) (l : list bytes) :
  tagged (n + d) lo hi l -> tagged n (d + lo) (d + hi) l.
Proof.
  intros H. induction H as [lo hi Hle|lo hi o b l Ho Hb Hl IH|lo hi b l Hb Hl IH].
  - constructor. lia.
  - apply tag_frame with (d + o); [lia|by rewrite Z.add_assoc|].
    replace (d + o + 1) with (d + (o + 1)) by lia. done.
  - by apply tag_raw.
Qed.

(** ** Specifications *)

(** Neither the counter nor the wire moves. *)
Definition silent {T} (m : M T) : Prop :=
  forall k, events (snd (m k)) = events k /\ out (snd (m k)) = out k.

(** At most one burst, for an event id allocated earlier. *)
Definition burst (id : Z) (l : list bytes) : Prop :=
  l = [] \/ exists b, l = [b] /\ (event b id \/ raw_line b).
Definition speaks (id : Z) {T} (m : M T) : Prop :=
  forall k, events (snd (m k)) = events k /\ exists l, out (snd (m k)) = out k ++ l /\ burst id l.

(** The wire grows by frames with fresh increasing ids. *)
Definition evt {T} (m : M T) : Prop := forall k, exists d l,
  events (snd (m k)) = events k + d /\ out (snd (m k)) = out k ++ l /\ tagged (events k) 0 d l.

(** A burst for the allocated id first, then fresh ones. *)
Definition evt_after (id : Z) {T} (m : M T) : Prop := forall k, exists d l0 l,
  events (snd (m k)) = events k + d /\ out (snd (m k)) = out k ++ l0 ++ l /\
  burst id l0 /\ tagged (events k) 0 d l.

Lemma burst_tagged (n : Z) (l0 : list bytes) : burst (wrap64 n) l0 -> tagged n 0 1 l0.
Proof.
  intros [-> |(b & -> & [Hb|Hb])]; [constructor; lia| |].
  - apply tag_frame with 0; [lia|by rewrite Z.add_0_r|constructor; lia].
  - apply tag_raw; [done|constructor; lia].
Qed.

Section Rules.
Context {S T : Type} (m : M S) (f : S -> M T).

Lemma evt_silent : silent m -> evt m.
Proof.
  intros H k. destruct (H k) as [E1 E2]. exists 0, []. rewrite E1, E2, app_nil_r, Z.add_0_r.
  split_and!; [done|done|constructor; lia].
Qed.

Lemma silent_bind : silent m -> (forall v, silent (f v)) -> silent (bind m f).
Proof.
  intros Hm Hf k. unfold bind. specialize (Hm k). destruct (m k) as [[v|x] k1]; [|done].
  cbn in Hm. destruct Hm as [<- <-]. apply Hf.
Qed.

Lemma evt_bind_yields (P : S -> Prop) : evt m -> yields m P -> (forall v, P v -> evt (f v)) -> evt (bind m f).
Proof.
  intros Hm Hp Hf k. specialize (Hp k). destruct (Hm k) as (d1 & l1 & E1 & O1 & T1). unfold bind.
  destruct (m k) as [[v|x] k1]; cbn in *; [|by exists d1, l1].
  destruct (Hf v (Hp v eq_refl) k1) as (d2 & l2 & E2 & O2 & T2).
  exists (d1 + d2), (l1 ++ l2). rewrite E2, E1, Z.add_assoc, O2, O1, app_assoc. split_and!; [done|done|].
  apply tagged_app with d1; [done|]. rewrite E1 in T2. apply tagged_shift in T2. by rewrite Z.add_0_r in T2.
Qed.

Lemma evt_bind : evt m -> (forall v, evt (f v)) -> evt (bind m f).
Proof. intros Hm Hf. by apply (evt_bind_yields (fun _ => True)). Qed.

Lemma speaks_bind_yields (P : S -> Prop) (id : Z) : silent m -> yields m P -> (forall v, P v -> speaks id (f v)) -> speaks id (bind m f).
Proof.
  intros Hm Hp Hf k. unfold bind. specialize (Hm k). specialize (Hp k). destruct (m k) as [[v|x] k1]; cbn in Hm, Hp; destruct Hm as [E1 E2].
  - rewrite <- E1, <- E2. by apply Hf, Hp.
  - split; [done|]. exists []. rewrite app_nil_r. split; [done|by left].
Qed.

Lemma speaks_silent_bind (id : Z) : silent m -> (forall v, speaks id (f v)) -> speaks id (bind m f).
Proof. intros Hm Hf. by apply (speaks_bind_yields (fun _ => True)). Qed.

Lemma evt_after_evt (id : Z) : evt m -> evt_after id m.
Proof. intros H k. destruct (H k) as (d & l & ? & ? & ?). exists d, [], l. split_and!; try done. by left. Qed.

Lemma evt_after_speaks (id : Z) : speaks id m -> evt_after id m.
Proof.
  intros H k. destruct (H k) as (E & l & O & Hl). exists 0, l, []. rewrite app_nil_r, Z.add_0_r, E.
  split_and!; try done. constructor. lia.
Qed.

Lemma evt_after_silent_bind (id : Z) : silent m -> (forall v, evt_after id (f v)) -> evt_after id (bind m f).
Proof.
  intros Hm Hf k. unfold bind. specialize (Hm k). destruct (m k) as [[v|x] k1]; cbn in Hm; destruct Hm as [E1 E2].
  - destruct (Hf v k1) as (d & l0 & l & ? & ? & ? & ?). rewrite E1, E2 in *. by exists d, l0, l.
  - exists 0, [], []. cbn. rewrite E1, E2, app_nil_r, Z.add_0_r.
    split_and!; [done|done|by left|constructor; lia].
Qed.

Lemma evt_after_bind (id : Z) : speaks id m -> (forall v, evt (f v)) -> evt_after id (bind m f).
Proof.
  intros Hm Hf k. unfold bind. destruct (Hm k) as (E & l0 & O & Hl). destruct (m k) as [[v|x] k1]; cbn in *.
  - destruct (Hf v k1) as (d & l & E2 & O2 & T2). exists d, l0, l.
    rewrite E2, O2, O, E, app_assoc in *. done.
  - exists 0, l0, []. rewrite O, E, app_nil_r, Z.add_0_r. split_and!; try done. constructor; lia.
Qed.

End Rules.

(** Allocating the id and then using it. *)
Lemma evt_next {T} (f : Z -> M T) : (forall id, evt_after id (f id)) -> evt (bind next_event f).
Proof.
  intros Hf k. unfold bind, next_event. cbn.
  set (k1 := with_events _ k).
  destruct (Hf (next_id k) k1) as (d & l0 & l & E & O & Hl & Ht).
  assert (events k1 = events k + 1 /\ out k1 = out k) as [En Eo] by done.
  rewrite En in *. exists (1 + d), (l0 ++ l). rewrite E, O, Eo, Z.add_assoc. split_and!; [done|done|].
  apply tagged_app with 1; [by apply burst_tagged|].
  apply tagged_shift in Ht. by rewrite Z.add_0_r in Ht.
Qed.

Lemma evt_next1 {T} (f : Z -> M T) : (forall id, speaks id (f id)) -> evt (bind next_event f).
Proof. intros H. apply evt_next. intros id. by apply evt_after_speaks. Qed.

(** ** Primitive operations *)

Lemma silent_ret {T} (v : T) : silent (ret v).
Proof. done. Qed.
Lemma silent_stop {T} (x : exit) : silent (@stop T x).
Proof. done. Qed.
Lemma silent_gets {T} (g : K -> T) : silent (gets g).
Proof. done. Qed.
Lemma silent_in_bounds (b : bool) : silent (in_bounds b).
Proof. by destruct b. Qed.
Lemma silent_read_time : silent read_time.
Proof. intros k. unfold read_time. by destruct (hw_dt (hw k)). Qed.
Lemma silent_getchar : silent console_getchar.
Proof. intros k. unfold console_getchar. by destruct (hw_in (hw k)). Qed.
Lemma silent_set_timer (t : Z) : silent (set_timer t).
Proof. done. Qed.
Lemma silent_write_satp (t : Z) : silent (write_satp t).
Proof. done. Qed.
Lemma silent_on_traps (f : TrapState -> TrapState) : silent (modify (on_traps f)).
Proof. done. Qed.
Lemma silent_on_pay (f : PayState -> PayState) : silent (modify (on_pay f)).
Proof. done. Qed.
Lemma silent_ops (f : K -> opring) : silent (modify (fun k => with_ops (f k) k)).
Proof. done. Qed.
Lemma silent_pooled {T} (f : fpool -> T * fpool) : silent (pooled f).
Proof. intros k. unfold pooled. by destruct (f (pool k)). Qed.
Lemma silent_pool_do (f : fpool -> fpool) : silent (pool_do f).
Proof. done. Qed.
Lemma silent_get_slot (pid : Z) : silent (get_slot pid).
Proof. intros k. unfold get_slot. by destruct (slot_at pid k). Qed.
Lemma silent_upd_slot (pid : Z) (f : Slot -> Slot) : silent (upd_slot pid f).
Proof. intros k. unfold upd_slot. by destruct (slot_at pid k). Qed.
Lemma silent_get_snap (pid : Z) : silent (get_snap pid).
Proof. intros k. unfold get_snap. by destruct (snap_at pid k). Qed.
Lemma silent_upd_snap (pid : Z) (f : Snapshot -> Snapshot) : silent (upd_snap pid f).
Proof. intros k. unfold upd_snap. by destruct (snap_at pid k). Qed.
Lemma silent_count_tick : silent count_tick.
Proof. done. Qed.

(** A frame whose text starts with its id. *)
Definition id_text (id : Z) (w : wprog) : Prop :=
  exists rest, text w = js "{'id':" ++ dec id ++ x2c :: rest.

Lemma speaks_send (id : Z) (w : wprog) : id_text id w -> frame_text (text w) -> speaks id (send w).
Proof.
  intros (rest & Ht) Hd k. unfold send, put_wire, modify.
  destruct (decide (length (text w) <= CAPACITY)%nat) as [Hl|Hl].
  - rewrite emit_fits by done. cbn. split; [done|]. exists [frame_bytes (text w)]. split; [done|]. right.
    exists (frame_bytes (text w)). split; [done|]. left.
    split; [exists rest; by rewrite Ht|]. by exists (text w).
  - assert (emit (build w) = []) as ->.
    { unfold emit. replace (overflow (build w)) with true; [done|]. symmetry. apply build_overflow. lia. }
    cbn. split; [done|]. exists []. rewrite app_nil_r. split; [done|by left].
Qed.

Create HintDb silent discriminated.
#[export] Hint Constants Opaque : silent.
#[export] Hint Variables Opaque : silent.
#[export] Hint Resolve silent_ret silent_stop silent_in_bounds silent_gets silent_read_time silent_getchar silent_set_timer
  silent_write_satp silent_on_traps silent_on_pay silent_ops silent_pooled silent_pool_do silent_get_slot
  silent_upd_slot silent_get_snap silent_upd_snap silent_count_tick : silent.

Create HintDb evt discriminated.
#[export] Hint Constants Opaque : evt.
#[export] Hint Variables Opaque : evt.

Ltac silent_go :=
  repeat first
    [ solve [eauto with silent]
    | match goal with |- silent (match ?x with _ => _ end) => destruct x eqn:? end
    | lazymatch goal with |- silent (bind _ _) => apply silent_bind; [|intros ?] end
    | progress intros ].

(** The text of a frame whose format string starts with the id. *)
Ltac id_go := eexists; cbn [text]; rewrite ?fmt_text; cbn [concat]; rewrite <- ?app_assoc; reflexivity.

Ltac speaks_go :=
  repeat first
    [ match goal with |- speaks _ (send ?w) => match w with context [if ?b then _ else _] => destruct b end end
    | apply speaks_send; [id_go|solve [apply doc_text; doc_go]]
    | match goal with |- speaks _ (match ?x with _ => _ end) => destruct x eqn:? end
    | apply speaks_silent_bind; [silent_go|intros ?]
    | progress intros ].

(** A plain name in the call of an event. *)
#[export] Hint Extern 1 (all_plain _ = true) => plain : evt.

Lemma evt_bind_image {B : Build} {T} (i : Z) (f : Image -> M T) :
  (forall im, all_plain (im_name im) = true -> evt (f im)) -> evt (bind (get_image i) f).
Proof.
  intros Hf. unfold get_image. destruct (image_at i) as [im|] eqn:E.
  - apply (evt_bind_yields _ _ (fun im => all_plain (im_name im) = true)); [by apply evt_silent| |done].
    intros k v [= <-]. by apply image_plain in E.
  - apply evt_silent. by intros k.
Qed.

(** Event code: silent steps, events already proved, and new events. *)
Ltac evt_go :=
  repeat first
    [ solve [eauto with evt]
    | match goal with |- evt (match ?x with _ => _ end) => destruct x eqn:? end
    | lazymatch goal with |- evt (bind (get_image _) _) => apply evt_bind_image; intros ? ? end
    | lazymatch goal with |- evt (bind next_event _) => apply evt_next1; intros ?; solve [speaks_go] end
    | lazymatch goal with |- evt (bind _ _) => apply evt_bind; [|intros ?] end
    | apply evt_silent; solve [silent_go]
    | progress intros ].

(** ** Kernel code *)

Section Kernel.
Context {B : Build}.

Lemma silent_get_image (i : Z) : silent (get_image i).
Proof. unfold get_image. silent_go. Qed.
Hint Resolve silent_get_image : silent.
Lemma silent_current_pid : silent current_pid.
Proof. apply silent_gets. Qed.
Hint Resolve silent_current_pid : silent.
Lemma silent_current_has (c : Cap) : silent (current_has c).
Proof. unfold current_has. silent_go. Qed.
Lemma silent_current_space : silent current_space.
Proof. unfold current_space. silent_go. Qed.
Lemma silent_pid_or_none : silent pid_or_none.
Proof. unfold pid_or_none. silent_go. Qed.
Lemma silent_current_cause : silent current_cause.
Proof. unfold current_cause. silent_go. Qed.
Lemma silent_elapsed_since (t : Z) : silent (elapsed_since t).
Proof. unfold elapsed_since. silent_go. Qed.
Lemma silent_release_space (r : Z) : silent (release_space r).
Proof. unfold release_space. silent_go. Qed.
Lemma silent_release_frame (r : Z) : silent (release_frame r).
Proof. unfold release_frame. silent_go. Qed.
Hint Resolve silent_current_has silent_current_space silent_pid_or_none silent_current_cause
  silent_elapsed_since silent_release_space silent_release_frame : silent.
Lemma silent_for_each {T} (l : list T) (f : T -> M unit) : (forall x, silent (f x)) -> silent (for_each l f).
Proof. intros H. induction l as [|x l IH]; cbn [for_each]; [silent_go|]. by apply silent_bind. Qed.
Lemma silent_enqueue (a b c : Z) : silent (enqueue a b c).
Proof. unfold enqueue. silent_go. Qed.
Hint Resolve silent_enqueue : silent.
Lemma silent_enqueue_restore (s : Z) : silent (enqueue_restore s).
Proof. unfold enqueue_restore. silent_go. Qed.
Lemma silent_free_snapshots : silent free_snapshots.
Proof. apply silent_for_each. intros s. silent_go. Qed.
Hint Resolve silent_free_snapshots : silent.
Lemma silent_clear_table : silent clear_table.
Proof. unfold clear_table, clear_keys. silent_go. Qed.
Hint Resolve silent_clear_table : silent.
Lemma silent_seed (l : list Z) : silent (seed l).
Proof.
  unfold seed. apply silent_bind; [auto with silent|]. intros _. apply silent_for_each. intros i.
  unfold seed_one. silent_go.
Qed.
Hint Resolve silent_seed silent_enqueue_restore : silent.
Lemma silent_reap : silent reap_terminated.
Proof. apply silent_for_each. intros s. silent_go. Qed.
Lemma silent_rearm : silent rearm.
Proof. unfold rearm. silent_go. Qed.
Lemma silent_leave_current : silent leave_current.
Proof. apply silent_on_pay. Qed.
Lemma silent_mark_faulted : silent mark_faulted.
Proof. unfold mark_faulted. silent_go. Qed.
Hint Resolve silent_reap silent_rearm silent_leave_current silent_mark_faulted : silent.
Lemma silent_redirect (f : TrapFrame) : silent (redirect_to_scheduler f).
Proof. unfold redirect_to_scheduler. silent_go. Qed.
Lemma silent_resume_slot_frame (p : Z) : silent (resume_slot_frame p).
Proof. unfold resume_slot_frame. silent_go. Qed.
Lemma silent_swallow (b : byte) : silent (swallow_stray_key b).
Proof. unfold swallow_stray_key. silent_go. Qed.
Lemma silent_getkey : silent on_getkey.
Proof. unfold on_getkey. silent_go. Qed.
Lemma silent_build_space (i : Z) (im : Image) : silent (build_space i im).
Proof. unfold build_space. silent_go. Qed.
Lemma silent_next_command : silent next_command.
Proof. unfold next_command. silent_go. Qed.
Lemma silent_pagewalk (va : Z) : silent (current_pagewalk va).
Proof. unfold current_pagewalk. silent_go. Qed.
Hint Resolve silent_redirect silent_resume_slot_frame silent_swallow silent_getkey silent_build_space
  silent_next_command silent_pagewalk : silent.

(** *** Events about payloads *)

Lemma evt_emit_denied (a b : bytes) : all_plain a = true -> all_plain b = true -> evt (emit_denied a b).
Proof. unfold emit_denied. evt_go. Qed.
Lemma evt_emit_exit (a b : Z) : evt (emit_exit a b).
Proof. unfold emit_exit. evt_go. Qed.
Lemma evt_emit_snapshot (a b : Z) : evt (emit_snapshot a b).
Proof. unfold emit_snapshot. evt_go. Qed.
Lemma evt_emit_load_fault (p : Z) (a b : bytes) : all_plain a = true -> all_plain b = true -> evt (emit_load_fault p a b).
Proof. unfold emit_load_fault. evt_go. Qed.
Lemma evt_emit_yield (p : Z) : evt (emit_yield p).
Proof. unfold emit_yield. evt_go. Qed.
Lemma evt_emit_spawn (a b : Z) (n : bytes) (c d e : Z) : all_plain n = true -> evt (emit_spawn a b n c d e).
Proof. unfold emit_spawn. evt_go. Qed.
Lemma evt_emit_killed (a b c : Z) : evt (emit_killed a b c).
Proof. unfold emit_killed. evt_go. Qed.
Lemma evt_emit_suite_done : evt emit_suite_done.
Proof. unfold emit_suite_done. evt_go. Qed.
Lemma evt_emit_sched_preempt (p : Z) : evt (emit_sched_preempt p).
Proof. unfold emit_sched_preempt. evt_go. Qed.
Lemma evt_emit_killed_operator (p : Z) : evt (emit_killed_operator p).
Proof. unfold emit_killed_operator. evt_go. Qed.
Lemma evt_emit_start (p : Z) (n : bytes) (c e : Z) (r : bool) : all_plain n = true -> evt (emit_start p n c e r).
Proof.
  intros Hn. unfold emit_start. apply evt_next1. intros id. do 2 (apply speaks_silent_bind; [silent_go|]; intros ?).
  apply (speaks_bind_yields _ _ (fun w => w = Put (lit "null") \/ exists z, w = fmt [dec z])); [silent_go| |].
  - destruct (_ =? _); [|apply yields_bind; intros ps]; intros k w [= <-]; [by left|by right; eexists].
  - intros w [-> |[z ->]]; speaks_go.
Qed.
Lemma evt_emit_ring_dump : evt emit_ring_dump.
Proof. unfold emit_ring_dump. evt_go. Qed.
Hint Resolve evt_emit_denied evt_emit_exit evt_emit_snapshot evt_emit_load_fault evt_emit_yield evt_emit_spawn
  evt_emit_killed evt_emit_suite_done evt_emit_sched_preempt evt_emit_killed_operator evt_emit_start
  evt_emit_ring_dump : evt.

(** *** System calls *)

Lemma evt_emit_output (p n : Z) : evt (emit_output p n).
Proof. unfold emit_output. evt_go. Qed.
Hint Resolve evt_emit_output : evt.
Lemma evt_sys_write (p n : Z) : evt (sys_write p n).
Proof. unfold sys_write. evt_go. Qed.
Lemma evt_on_exit (c : Z) : evt (on_exit c).
Proof. unfold on_exit. evt_go. Qed.
Lemma evt_on_yield : evt on_yield.
Proof. unfold on_yield. evt_go. Qed.
Lemma evt_on_spawn (a b : Z) : evt (on_spawn a b).
Proof. unfold on_spawn. evt_go. Qed.
Lemma evt_on_snapshot (f : TrapFrame) : evt (on_snapshot f).
Proof. unfold on_snapshot. evt_go. Qed.
Lemma evt_on_blit (a b c : Z) : evt (on_blit a b c).
Proof.
  unfold on_blit. apply evt_bind; [evt_go|]. intros ok. destruct (negb ok); [evt_go|].
  destruct (_ || _); [evt_go|]. apply evt_bind; [evt_go|]. intros [space|]; [|evt_go].
  apply evt_bind; [evt_go|]. intros pid. apply evt_next. intros id.
  apply evt_after_silent_bind; [silent_go|]. intros m.
  destruct (blit_rows _ _ _ _ _ _ _) as [rows sum| |] eqn:Er;
    [|apply evt_after_evt, evt_silent, silent_ret|apply evt_after_evt, evt_silent, silent_stop].
  destruct (overflowed _); [apply evt_after_evt, evt_silent, silent_ret|].
  apply blit_rows_items in Er as (l & Hl & Ht); [|lia].
  apply evt_after_bind; [|intros _; apply evt_silent, silent_ret]. apply speaks_send; [id_go|].
  apply doc_text. unfold doc. pieces. rewrite Ht. feed_go. by list_go.
Qed.
Lemma evt_on_frame_rgb (a b c : Z) : evt (on_frame_rgb a b c).
Proof.
  unfold on_frame_rgb. apply evt_bind; [evt_go|]. intros ok. destruct (negb ok); [evt_go|].
  apply evt_bind; [evt_go|]. intros [|]; [evt_go|].
  destruct (_ || _); [evt_go|]. apply evt_bind; [evt_go|]. intros [space|]; [|evt_go].
  apply evt_bind; [evt_go|]. intros _. apply evt_bind; [evt_go|]. intros m. destruct (copy_from_user _ _ _ _) as [buf|]; [|evt_go].
  apply evt_bind; [evt_go|]. intros pid. apply evt_next. intros id.
  destruct (overflowed _); [apply evt_after_evt, evt_silent, silent_ret|].
  apply evt_after_bind; [speaks_go|]. intros _. apply evt_silent, silent_ret.
Qed.
Hint Resolve evt_sys_write evt_on_exit evt_on_yield evt_on_spawn evt_on_snapshot evt_on_blit evt_on_frame_rgb : evt.
Lemma evt_dispatch (f : TrapFrame) : evt (dispatch f).
Proof. unfold dispatch, resume. evt_go. Qed.

(** *** Ticks and faults *)

Lemma evt_drain_loop (n : nat) (p : Z) (b : bool) : evt (drain_loop n p b).
Proof. revert b. induction n as [|n IH]; intros b; cbn [drain_loop]; [evt_go|]. unfold drain_byte. evt_go. Qed.
Hint Resolve evt_drain_loop : evt.
Lemma evt_drain_keys : evt drain_keys.
Proof. unfold drain_keys. evt_go. Qed.
Lemma evt_on_tick : evt on_tick.
Proof. unfold on_tick. evt_go. Qed.
Lemma evt_maybe_preempt (f : TrapFrame) : evt (maybe_preempt f).
Proof. unfold maybe_preempt. evt_go. Qed.
Hint Resolve evt_dispatch evt_drain_keys evt_on_tick evt_maybe_preempt : evt.

Lemma speaks_silent (id : Z) {T} (m : M T) : silent m -> speaks id m.
Proof. intros H k. destruct (H k) as [E1 E2]. split; [done|]. exists []. rewrite app_nil_r. split; [done|by left]. Qed.

Lemma speaks_emit_tick (id seq : Z) : speaks id (emit_tick id seq).
Proof.
  unfold emit_tick. apply speaks_silent_bind; [silent_go|]. intros [|]; [apply speaks_silent; silent_go|]. speaks_go.
Qed.

Lemma fault_origin_text (id : Z) (pid : option Z) (w : wprog) : id_text id (fault_origin id pid +! w)%W.
Proof. destruct pid as [pid|]; unfold fault_origin; id_go. Qed.

Lemma quiet_check (b : bytes) : forallb (fun c => negb (beq c xaa)) b = true -> quiet_bytes b.
Proof.
  intros H. apply List.Forall_forall. intros c Hc. rewrite forallb_forall in H. apply beq_neq, negb_true_iff. by apply H.
Qed.
Lemma quiet_hex (n : Z) : quiet_bytes (hex n).
Proof.
  apply digits_forall; [lia| |constructor]. intros d Hd E. apply (f_equal bz) in E. unfold digit in E.
  rewrite bz_of_Z in E by (destruct (d <? 10) eqn:E'; zbool; lia). change (bz xaa) with 170 in E. destruct (d <? 10); lia.
Qed.
Lemma quiet_cause (c : Z) : quiet_bytes (cause_name c).
Proof. apply quiet_check. unfold cause_name. repeat match goal with |- context [if ?b then _ else _] => destruct b end; reflexivity. Qed.

Lemma raw_quiet (b : bytes) : raw_line b -> quiet_bytes b.
Proof.
  intros (f & sc & st & o & ->). unfold classic_line, quiet_bytes. cbn [concat]. repeat rewrite Forall_app.
  split_and!; try apply quiet_hex; try apply quiet_cause; apply quiet_check; destruct o; reflexivity.
Qed.
Lemma raw_bracket (b : bytes) : raw_line b -> hd_error b = Some x5b.
Proof. by intros (f & sc & st & o & ->). Qed.

Lemma speaks_emit_fault (f : TrapFrame) (id sc st : Z) (o : option Z) : speaks id (emit_fault f id sc st o).
Proof.
  unfold emit_fault. apply speaks_silent_bind; [silent_go|]. intros t. destruct (classic_surface t).
  - unfold emit_fault_classic, put_wire, modify. intros k. cbn [snd fst].
    split; [done|]. exists [classic_line f sc st o]. split; [by unfold classic_line|]. right. exists (classic_line f sc st o).
    split; [done|]. right. by exists f, sc, st, o.
  - apply speaks_silent_bind; [silent_go|]. intros cause.
    apply (speaks_bind_yields _ _ (fun w => element (text w))); [silent_go| |].
    { destruct (_ && _); [apply yields_bind; intros w|]; intros k v [= <-]; [apply write_pagewalk_element|intros q st' [-> | ->]; by apply feeds_scan]. }
    intros w Hw. destruct (overflowed _); apply speaks_send; try apply fault_origin_text; apply doc_text; [apply fault_minimal_doc|by apply fault_frame_doc].
Qed.

Lemma evt_handle (sc st : Z) (f : TrapFrame) : evt (handle sc st f).
Proof.
  unfold handle. apply evt_next. intros id. apply evt_after_silent_bind; [silent_go|]. intros _.
  destruct (sc =? CAUSE_S_TIMER); [|destruct (sc =? CAUSE_U_ECALL)].
  - unfold handle_tick. do 2 (apply evt_after_silent_bind; [silent_go|]; intros ?).
    apply evt_after_bind; [apply speaks_emit_tick|]. intros _. evt_go.
  - apply evt_after_evt. unfold handle_ecall. evt_go.
  - unfold handle_fault. destruct (is_from_user f).
    + apply evt_after_silent_bind; [silent_go|]. intros pid.
      apply evt_after_bind; [apply speaks_emit_fault|]. intros _. evt_go.
    + apply evt_after_bind; [apply speaks_emit_fault|]. intros _. evt_go.
Qed.
Hint Resolve evt_handle : evt.

Lemma evt_kernel_tick (f : TrapFrame) : evt (kernel_tick f).
Proof.
  intros k. unfold kernel_tick. destruct (sepc f =? _).
  - exists 0, []. rewrite app_nil_r, Z.add_0_r. split_and!; [done|done|constructor; lia].
  - destruct (evt_handle CAUSE_S_TIMER 0 (with_sstatus (Z.lor (sstatus f) SSTATUS_SPP) f) k) as (d & l & H1 & H2 & H3).
    exists d, l. destruct (handle _ _ _ k) as [[f'|x] k2]; [destruct (_ =? _)|]; done.
Qed.

Lemma evt_irq_point : evt irq_point.
Proof.
  intros k. unfold irq_point. destruct (hw_irq (hw k)) as [|[f|] r]; [| |].
  1, 3: exists 0, []; rewrite app_nil_r, Z.add_0_r; split_and!; [done|done|constructor; lia].
  apply (evt_kernel_tick f (on_hw (with_hw_irq r) k)).
Qed.
Lemma evt_wait_for_interrupt : evt wait_for_interrupt.
Proof. intros k. unfold wait_for_interrupt. destruct (next_irq _) as [[f r]|]; refine (evt_kernel_tick _ _). Qed.
Hint Resolve evt_irq_point evt_wait_for_interrupt : evt.

(** *** The control plane *)

Lemma evt_emit_rpc (w : wprog) : response w -> evt (emit_rpc w).
Proof.
  intros Hw. unfold emit_rpc. apply evt_next1. intros id.
  destruct (overflowed _); apply speaks_send; [id_go|apply doc_text; doc_go|id_go|by apply rpc_doc].
Qed.

(** Requests are UTF-8, and so is everything read out of them. *)
Lemma utf8_member (fuel : nat) (obj key v : bytes) (i : nat) :
  utf8_valid obj = true -> member_loop fuel obj key i = Some v -> utf8_valid v = true.
Proof.
  intros Hu. revert i. induction fuel as [|fuel IH]; intros i; cbn [member_loop]; [done|].
  destruct (negb _); [done|]. destruct (str_get obj _ _); [|done]. destruct (negb _); [done|]. destruct (bool_decide (_ = key)).
  - destruct (str_get obj _ _) as [t|] eqn:E; [|done]. intros [= <-]. by eapply trim_valid, str_get_valid.
  - destruct (bool_decide _); [apply IH|done].
Qed.
Lemma utf8_object_get (obj key v : bytes) : utf8_valid obj = true -> object_get obj key = Some v -> utf8_valid v = true.
Proof. intros Hu. unfold object_get. destruct (bool_decide _); [by apply utf8_member|done]. Qed.
Lemma utf8_get_object (obj key : bytes) : utf8_valid obj = true -> utf8_valid (get_object obj key) = true.
Proof. intros Hu. unfold get_object. destruct (object_get obj key) eqn:E; [by eapply utf8_object_get|done]. Qed.
Lemma utf8_get_string (obj key v : bytes) : utf8_valid obj = true -> get_string obj key = Some v -> utf8_valid v = true.
Proof.
  intros Hu. unfold get_string. destruct (object_get obj key) eqn:E; [|done]. by apply as_string_valid, (utf8_object_get obj key).
Qed.
Lemma utf8_id (json : bytes) : utf8_valid json = true -> utf8_valid (default (lit "null") (object_get json (lit "id"))) = true.
Proof. intros Hu. destruct (object_get json (lit "id")) eqn:E; [by eapply utf8_object_get|done]. Qed.
Lemma utf8_suite (obj key : bytes) : utf8_valid obj = true -> utf8_valid (default [] (get_string obj key)) = true.
Proof. intros Hu. destruct (get_string obj key) eqn:E; [by eapply utf8_get_string|done]. Qed.
Hint Resolve utf8_get_object utf8_get_string utf8_id utf8_suite : evt.
Hint Extern 1 (utf8_valid (lit _) = true) => reflexivity : evt.

Section Responders.
Context (i : bytes) (Hi : utf8_valid i = true).

Lemma evt_respond_result (w : wprog) : element (text w) -> evt (respond_result i w).
Proof. intros Hw. by apply evt_emit_rpc, result_response. Qed.
Lemma evt_respond_error (c : Z) (m : bytes) : utf8_valid m = true -> evt (respond_error i c m).
Proof. intros Hm. by apply evt_emit_rpc, error_response. Qed.
Lemma evt_respond_duplicate (op : bytes) : utf8_valid op = true -> evt (respond_duplicate i op).
Proof. intros Ho. unfold respond_duplicate. apply evt_respond_result. element_go. Qed.
Lemma evt_respond_accepted (op : bytes) : utf8_valid op = true -> evt (respond_accepted i op).
Proof. intros Ho. unfold respond_accepted. apply evt_respond_result. element_go. Qed.
Lemma evt_respond_initialize : evt (respond_initialize i).
Proof. unfold respond_initialize. apply evt_respond_result. element_go. Qed.
Lemma evt_respond_tools_list : evt (respond_tools_list i).
Proof. unfold respond_tools_list. apply evt_respond_result. apply tools_body_element. Qed.
Lemma evt_respond_resources_list : evt (respond_resources_list i).
Proof. unfold respond_resources_list. apply evt_respond_result. apply resources_body_element. Qed.
Lemma evt_busy : evt (busy i).
Proof. unfold busy. by apply evt_respond_error. Qed.
Lemma evt_once (op : option bytes) (m : M unit) :
  (forall o, op = Some o -> utf8_valid o = true) -> evt m -> evt (once i op m).
Proof.
  intros Ho Hm. unfold once. destruct op as [o|]; [|done]. apply evt_bind; [evt_go|]. intros w.
  destruct (op_seen _ _); [by apply evt_respond_duplicate, Ho|]. apply evt_bind; [evt_go|done].
Qed.

End Responders.
Hint Resolve evt_respond_error evt_respond_duplicate evt_respond_accepted evt_respond_initialize evt_respond_tools_list
  evt_respond_resources_list evt_busy : evt.

(** A result written on the spot, or by a resource writer. *)
Ltac result_go :=
  lazymatch goal with |- evt (respond_result _ ?w) =>
    apply evt_respond_result; [solve [eauto with evt]|];
    first [ solve [eauto with json]
          | repeat match goal with |- context [if ?b then _ else _] => destruct b end; solve [element_go] ]
  end.
Hint Extern 1 (evt (respond_result _ _)) => result_go : evt.

(** Why an operator verb was refused. *)
Definition reason_valid {T} (r : bytes + T) : Prop := match r with inl reason => utf8_valid reason = true | inr _ => True end.

Lemma evt_kill_pid (p : Z) : evt (kill_pid p).
Proof. unfold kill_pid. evt_go. Qed.
Lemma silent_set_deadline (p u : Z) : silent (set_deadline p u).
Proof. unfold set_deadline. silent_go. Qed.
Lemma kill_pid_reason (p : Z) : yields (kill_pid p) reason_valid.
Proof.
  unfold kill_pid. apply yields_bind. intros [s|]; [|by intros k v [= <-]]. destruct (negb _); [by intros k v [= <-]|].
  apply yields_bind. intros _. apply yields_bind. intros _. apply yields_bind. by intros e k v [= <-].
Qed.
Lemma set_deadline_reason (p u : Z) : yields (set_deadline p u) reason_valid.
Proof.
  unfold set_deadline. apply yields_bind. intros [s|]; [|by intros k v [= <-]]. destruct (negb _); [by intros k v [= <-]|].
  apply yields_bind. by intros _ k v [= <-].
Qed.
Lemma silent_suite_seed (s : bytes) (m : M unit) : suite_seed s = Some m -> silent m.
Proof.
  assert (forall imgs n, silent (seed imgs ;;; modify (on_pay (with_auto_fork n)))) as Hfork
    by (intros imgs n; silent_go).
  unfold suite_seed. intros H. repeat (destruct (_ || _) in H || destruct (bool_decide _) in H || destruct (_ && _) in H);
    simplify_eq; first [apply silent_seed|apply Hfork].
Qed.
Hint Resolve evt_kill_pid : evt.
Hint Resolve silent_set_deadline : silent.

Lemma evt_tool_kill (p i : bytes) (op : option bytes) : utf8_valid i = true -> (forall o, op = Some o -> utf8_valid o = true) ->
  evt (tool_kill p i op).
Proof.
  intros Hi Ho. unfold tool_kill. destruct (get_u32 _ _); [|evt_go]. apply evt_once; [done|done|].
  apply (evt_bind_yields _ _ _ (evt_kill_pid _) (kill_pid_reason _)). intros [reason|e] Hr; evt_go.
Qed.
Lemma evt_tool_set_budget (p i : bytes) (op : option bytes) : utf8_valid i = true -> (forall o, op = Some o -> utf8_valid o = true) ->
  evt (tool_set_budget p i op).
Proof.
  intros Hi Ho. unfold tool_set_budget. destruct (get_u32 _ _); [|evt_go]. destruct (get_u32 _ _); [|evt_go]. apply evt_once; [done|done|].
  apply (evt_bind_yields _ _ _ (evt_silent _ (silent_set_deadline _ _)) (set_deadline_reason _ _)). intros [reason|e] Hr; evt_go.
Qed.
Lemma evt_tool_run_suite (p i : bytes) (op : option bytes) : utf8_valid p = true -> utf8_valid i = true ->
  (forall o, op = Some o -> utf8_valid o = true) -> evt (tool_run_suite p i op).
Proof.
  intros Hp Hi Ho. unfold tool_run_suite. cbv zeta.
  pose proof (utf8_suite _ (lit "suite") (utf8_get_object p (lit "arguments") Hp)) as Hs.
  destruct (suite_seed _) as [m|] eqn:E; [|evt_go]. unfold any_alive. apply evt_bind; [evt_go|]. intros [|]; [evt_go|].
  apply evt_once; [done|done|]. apply silent_suite_seed in E. apply evt_bind; [evt_go|]. intros _.
  apply evt_bind; [by apply evt_silent|]. intros _. evt_go.
Qed.
Lemma evt_tool_crash (i : bytes) (op : option bytes) : utf8_valid i = true -> (forall o, op = Some o -> utf8_valid o = true) ->
  evt (tool_crash i op).
Proof.
  intros Hi Ho. unfold tool_crash, any_alive. apply evt_bind; [evt_go|]. intros [|]; [evt_go|]. apply evt_once; [done|done|]. evt_go.
Qed.
Hint Resolve evt_tool_kill evt_tool_set_budget evt_tool_run_suite evt_tool_crash : evt.

Lemma evt_tools_call (j i : bytes) : utf8_valid j = true -> utf8_valid i = true -> evt (handle_tools_call j i).
Proof.
  intros Hj Hi. unfold handle_tools_call. cbv zeta. pose proof (utf8_get_object j (lit "params") Hj) as Hp.
  assert (Ho : forall o, get_string (get_object j (lit "params")) (lit "opId") = Some o -> utf8_valid o = true)
    by (intros o; by apply utf8_get_string).
  unfold tool_set_surface, tool_set_autonomy. evt_go.
Qed.
Hint Resolve evt_tools_call : evt.
Lemma evt_resources_read (j i : bytes) : utf8_valid i = true -> evt (handle_resources_read j i).
Proof. intros Hi. unfold handle_resources_read. evt_go. Qed.
Hint Resolve evt_resources_read : evt.
Lemma evt_dispatch_request (j : bytes) : utf8_valid j = true -> evt (dispatch_request j).
Proof. intros Hj. unfold dispatch_request. cbv zeta. pose proof (utf8_id j Hj) as Hi. evt_go. Qed.
Hint Resolve evt_dispatch_request : evt.
Lemma evt_accept_body (body : bytes) : evt (accept_body body).
Proof. unfold accept_body. destruct (utf8_valid body) eqn:E; cbn [negb]; evt_go. Qed.
Hint Resolve evt_accept_body : evt.
Lemma evt_getc_loop (n : nat) : evt (getc_loop n).
Proof. induction n as [|n IH]; cbn [getc_loop]; evt_go. Qed.
Hint Resolve evt_getc_loop : evt.
Lemma evt_read_bytes (n : nat) : evt (read_bytes n).
Proof. induction n as [|n IH]; cbn [read_bytes]; unfold getc_stall; evt_go. Qed.
Hint Resolve evt_read_bytes : evt.
Lemma evt_read_request : evt read_request.
Proof. unfold read_request, getc_stall. evt_go. Qed.
Hint Resolve evt_read_request : evt.

(** *** Scheduler, command loop, boot *)

Lemma evt_service_loop (n : nat) : evt (service_loop n).
Proof. induction n as [|n IH]; cbn [service_loop]; unfold serve_byte; evt_go. Qed.
Hint Resolve evt_service_loop : evt.
Lemma evt_start_saved (p : Z) (s : Slot) : evt (start_saved p s).
Proof. unfold start_saved. evt_go. Qed.
Lemma build_space_reason (i : Z) (im : Image) :
  yields (build_space i im) (fun r => match r with inl reason => all_plain reason = true | inr _ => True end).
Proof.
  unfold build_space. apply yields_bind. intros [space|]; [|by intros k v [= <-]].
  apply yields_bind. intros [e|u]; [apply yields_bind; by intros u k v [= <-]|]. apply yields_bind. intros [entry|e| |]; try done; cycle 1.
  { apply yields_bind. intros u' k v [= <-]. apply elf_error_plain. }
  destruct (image_window i) as [[[va pa] len]|]; [|by intros k v [= <-]]. apply yields_bind. intros [|]; [by intros k v [= <-]|].
  apply yields_bind. by intros u' k v [= <-].
Qed.
Lemma evt_load_failed (p : Z) (a b : bytes) : all_plain a = true -> all_plain b = true -> evt (load_failed p a b).
Proof. intros Ha Hb. unfold load_failed. evt_go. Qed.
Hint Resolve evt_start_saved evt_load_failed : evt.
Lemma evt_start_fresh (p : Z) (s : Slot) : evt (start_fresh p s).
Proof.
  unfold start_fresh. apply evt_bind_image. intros im Hn.
  apply (evt_bind_yields _ _ _ (evt_silent _ (silent_build_space _ _)) (build_space_reason _ _)). intros [reason|[space entry]] Hr; evt_go.
Qed.
Hint Resolve evt_start_fresh : evt.
Lemma evt_start (p : Z) : evt (start p).
Proof. unfold start. evt_go. Qed.
Hint Resolve evt_start : evt.
Lemma evt_run : evt run.
Proof. unfold run, kernel_satp, service_console, take_next_pending, owed_fork. evt_go. Qed.
Lemma evt_idle : evt idle_step.
Proof.
  unfold idle_step, seed_and_run, seed_suite_m3, seed_suite_m4, seed_suite_m5, seed_suite_m6,
    seed_suite_m10, seed_suite_eval, seed_suite_craycast, seed_suite_doom. evt_go.
Qed.
Lemma evt_kmain : evt kmain.
Proof.
  unfold kmain, assert_pool_clear, init_paging, arm_first_tick. apply evt_next. intros id.
  apply evt_after_bind; [speaks_go|]. intros _. evt_go.
Qed.

End Kernel.

(** ** The wire of the whole machine *)

Section Wire.
Context {B : Build}.

Definition wire_ok (k : K) : Prop := tagged 0 0 (events k) (out k).

Lemma evt_wire {T} (m : M T) (k : K) : evt m -> wire_ok k -> wire_ok (snd (m k)).
Proof.
  intros Hm Ht. destruct (Hm k) as (d' & l & E' & O & Ht'). unfold wire_ok. rewrite E', O.
  apply tagged_app with (events k); [done|]. rewrite <- (Z.add_0_l (events k)) in Ht' at 1. apply tagged_shift in Ht'.
  by rewrite Z.add_0_r in Ht'.
Qed.

Lemma after_wire (x : exit) (k : K) : wire_ok k -> wire_ok (snd (after x k)).
Proof. by destruct x. Qed.

Lemma step_wire (s s' : control * K) : wire_ok (snd s) -> step s s' -> wire_ok (snd s').
Proof.
  intros Hs H. destruct H as [k x k' E|k k' E|k x k' E|k f x k' stval Hf E|k f f' m' Hf' Hw
    |k f scause stval f' k' _ _ E|k f scause stval x k' _ _ E|k c ins irqs dts]; cbn in Hs; try done;
    try apply after_wire.
  - pose proof (evt_wire _ k evt_run Hs) as H. by rewrite E in H.
  - pose proof (evt_wire _ k evt_idle Hs) as H. by rewrite E in H.
  - pose proof (evt_wire _ k evt_idle Hs) as H. by rewrite E in H.
  - pose proof (evt_wire _ k (evt_handle CAUSE_ILLEGAL_INSTRUCTION stval f) Hs) as H. by rewrite E in H.
  - pose proof (evt_wire _ k (evt_handle scause stval f) Hs) as H. by rewrite E in H.
  - pose proof (evt_wire _ k (evt_handle scause stval f) Hs) as H. by rewrite E in H.
Qed.

Lemma reachable_wire (s : control * K) : reachable s -> wire_ok (snd s).
Proof.
  intros (s0 & (h & m & x & k & Eout & _ & E & Es) & Hs). assert (wire_ok (snd s0)) as H0.
  { subst s0. apply after_wire. pose proof (evt_wire _ (k_init h m) evt_kmain) as H. rewrite E in H. apply H.
    unfold wire_ok, out. cbn. rewrite Eout. constructor. lia. }
  clear Es. induction Hs as [|s1 s2 s3 _ IH Hstep]; [done|]. apply step_wire with s2; auto.
Qed.

Lemma tagged_bounds (n lo hi : Z) (l : list bytes) (i : nat) (b : bytes) :
  tagged n lo hi l -> l !! i = Some b ->
  raw_line b \/ exists o, lo <= o < hi /\ event b (wrap64 (n + o)) /\ tagged n (o + 1) hi (drop (S i) l).
Proof.
  intros H. revert i. induction H as [lo hi Hle|lo hi o c l Ho Hc Hl IH|lo hi c l Hc Hl IH]; intros i Hi; [done| |].
  - destruct i as [|i].
    + injection Hi as ->. right. exists o. pose proof (tagged_le _ _ _ _ Hl). split_and!; try done; lia.
    + destruct (IH i Hi) as [?|(o' & Hb & ? & ?)]; [by left|]. right. exists o'. split_and!; try done; lia.
  - destruct i as [|i]; [injection Hi as ->; by left|]. apply (IH i Hi).
Qed.

(** C32: event ids are a strictly increasing spine. In every reachable state in
    which at most 2^64 ids have been taken since boot, all frames on the wire,
    in the order they were sent, carry strictly increasing event ids, each one
    already taken from the counter; the only other output is the classic
    surface's unframed fault lines. *)
Theorem event_ids_increase (c : control) (k : K) : reachable (c, k) -> events k <= W64 ->
  (forall i b, hw_out (hw k) !! i = Some b -> raw_line b \/ exists id, carries b id /\ 0 <= id < events k) /\
  (forall i j bi bj, (i < j)%nat ->
     hw_out (hw k) !! i = Some bi -> hw_out (hw k) !! j = Some bj -> ~ raw_line bi -> ~ raw_line bj ->
     exists idi idj, carries bi idi /\ carries bj idj /\ idi < idj).
Proof.
  intros Hr Hd. pose proof (reachable_wire _ Hr : tagged 0 0 (events k) (hw_out (hw k))) as Ht. split.
  - intros i b Hi. destruct (tagged_bounds _ _ _ _ _ _ Ht Hi) as [Hb|(o & Ho & [Hc _] & _)]; [by left|right].
    rewrite Z.add_0_l, wrap64_small in Hc by lia. by exists o.
  - intros i j bi bj Hij Hi Hj Hri Hrj.
    destruct (tagged_bounds _ _ _ _ _ _ Ht Hi) as [?|(oi & Hoi & [Ci _] & Ht')]; [done|].
    destruct (tagged_bounds _ _ _ _ (j - S i) bj Ht') as [?|(oj & Hoj & [Cj _] & _)]; [|done|].
    { rewrite lookup_drop. by replace (S i + (j - S i))%nat with j by lia. }
    rewrite !Z.add_0_l, !wrap64_small in * by lia.
    exists oi, oj. split_and!; try done; lia.
Qed.

Lemma tagged_json (n lo hi : Z) (l : list bytes) : tagged n lo hi l -> Forall (fun b => raw_line b \/ json_frame b) l.
Proof. induction 1 as [|lo hi o b l _ [_ Hb]|]; constructor; auto. Qed.

Lemma reachable_json (c : control) (k : K) : reachable (c, k) -> Forall (fun b => raw_line b \/ json_frame b) (hw_out (hw k)).
Proof. intros Hr. by apply (tagged_json 0 0 (events k)), (reachable_wire (c, k)). Qed.

(** C30: the wire speaks JSON. In every reachable state everything the kernel has
    ever sent is, frame by frame, the magic, the length and exactly one JSON
    document (RFC 8259, in UTF-8), whatever payloads wrote, named or crashed with
    and whatever the operator asked, with one exception: an rpc response echoes
    an integer id with the superfluous leading zeros the request gave it, and is
    a JSON document once they are dropped. The only other output is the classic
    surface's fault lines, each one as [emit_fault_classic] formats it. *)
Theorem wire_json (c : control) (k : K) : reachable (c, k) -> Forall (fun b => raw_line b \/ json_frame b) (hw_out (hw k)).
Proof. apply reachable_json. Qed.

(** C31: the host reads what the kernel says. Take any reachable state, any
    banner of the firmware in front that has no byte 0xAA, and any way the
    serial line cuts the stream into chunks: the host's decoder returns exactly
    the bodies of the frames the kernel has sent, in order, keeps everything
    else as noise, and is left with nothing pending; each body is a JSON
    document, up to the superfluous zeros of an echoed id. *)
Theorem wire_decodes (c : control) (k : K) (banner : bytes) (chunks : list bytes) : reachable (c, k) -> quiet_bytes banner ->
  concat chunks = banner ++ concat (hw_out (hw k)) ->
  feed_all chunks decoder_new = (mkDecoder [] (banner ++ noise_of (hw_out (hw k))), frames_of (hw_out (hw k))) /\
  Forall frame_text (frames_of (hw_out (hw k))).
Proof.
  intros Hr Hb Hc. pose proof (reachable_json c k Hr) as Hj. split.
  - rewrite feed_all_concat, Hc, feed_app by apply settled_new. unfold decoder_new. rewrite (feed_noise banner []) by done. rewrite feed_bursts; [done|].
    eapply Forall_impl; [exact Hj|]. intros b [Hq|(s & -> & _ & Hl)]; [left; by apply raw_quiet|right]. exists s. split; [done|].
    unfold CAPACITY in Hl. change MAX_FRAME_LEN with 1048576. lia.
  - unfold frames_of. apply List.Forall_forall. intros s Hs. apply in_map_iff in Hs as (b & <- & Hb'). apply filter_In in Hb' as [Hb' Hf].
    rewrite Forall_forall in Hj. apply list_elem_of_In, Hj in Hb' as [Hr'|(s & -> & Hv & _)].
    + unfold framed in Hf. rewrite bool_decide_eq_true in Hf. apply raw_bracket in Hr'. congruence.
    + by rewrite frame_body.
Qed.

End Wire.
