(* ===== verification/RpcProofs.v ===== *)
(** * The control plane's promises (kernel/src/rpc.rs)

    Every request is answered exactly once, a replayed operation is not
    repeated, the operator verbs touch only waiting payloads, and the frame
    reader delivers exactly the body it was sent. *)

From S2P Require Import Prelude Hal Frames Mm Console Utf8 RpcJson KState Traps Payload Syscall Handler Rpc Sched KRun KSpec Events Elf ElfProofs Demo.

Section RpcProofs.
Context {B : Build}.

(** ** Answers *)

Definition rpc_text (ev : Z) (body : bytes) : bytes :=
  js "{'id':" ++ dec ev ++ js ",'type':'rpc','rpc':" ++ body ++ lit "}".

Definition too_large : bytes :=
  js "{'jsonrpc':'2.0','id':null,'error':{'code':-32001,'message':'response too large'}}".

(** What [emit_rpc] sends for a body. *)
Definition rpc_frame (ev : Z) (body : bytes) : bytes :=
  frame_bytes (if (length (rpc_text ev body) <=? CAPACITY)%nat then rpc_text ev body else rpc_text ev too_large).

Lemma emit_rpc_run (w : wprog) (k : K) :
  emit_rpc w k = (Val tt, sent (rpc_frame (next_id k) (text w)) (numbered k)).
Proof.
  unfold emit_rpc. run_bind. cbv zeta. rewrite send_or.
  - unfold rpc_frame. cbn [text]. rewrite !fmt_text. cbn [concat]. rewrite !app_nil_r, <- !app_assoc. done.
  - text_bound. unfold CAPACITY. lia.
Qed.

(** An answer on the wire: a frame of type rpc that carries a JSON-RPC body. *)
Definition answer (b : bytes) : Prop := exists ev body, b = rpc_frame ev body.

Definition killed_frame (b : bytes) : Prop :=
  exists ev rest, b = frame_bytes (js "{'id':" ++ dec ev ++ js ",'type':'payload_killed'," ++ rest).

(** The code sends exactly one answer, last, after at most one kill event. *)
Definition answers {T} (m : M T) : Prop := forall k, exists pre b,
  out (snd (m k)) = out k ++ pre ++ [b] /\ answer b /\ (pre = [] \/ exists e, pre = [e] /\ killed_frame e).

Lemma answers_rpc (w : wprog) : answers (emit_rpc w).
Proof.
  intros k. rewrite emit_rpc_run. exists [], (rpc_frame (next_id k) (text w)).
  split; [done|]. split; [by eexists _, _|by left].
Qed.

Lemma answers_result (id : bytes) (w : wprog) : answers (respond_result id w).
Proof. apply answers_rpc. Qed.
Lemma answers_error (id : bytes) (c : Z) (msg : bytes) : answers (respond_error id c msg).
Proof. apply answers_rpc. Qed.

Lemma answers_busy (id : bytes) : answers (busy id).
Proof. unfold busy. apply answers_error. Qed.
Lemma answers_accepted (id s : bytes) : answers (respond_accepted id s).
Proof. unfold respond_accepted. apply answers_result. Qed.
Lemma answers_duplicate (id s : bytes) : answers (respond_duplicate id s).
Proof. unfold respond_duplicate. apply answers_result. Qed.

(** Pick the responder by its name, without unfolding it. *)
Ltac answers_go :=
  lazymatch goal with
  | |- answers (respond_result _ _) => apply answers_result
  | |- answers (respond_error _ _ _) => apply answers_error
  | |- answers (busy _) => apply answers_busy
  | |- answers (respond_accepted _ _) => apply answers_accepted
  | |- answers (respond_duplicate _ _) => apply answers_duplicate
  end.

Lemma answers_before {S T} (m : M S) (f : S -> M T) : silent m ->
  (forall k, match fst (m k) with Val _ => True | Exit _ => False end) ->
  (forall v, answers (f v)) -> answers (bind m f).
Proof.
  intros Hm Hv Hf k. unfold bind. specialize (Hm k). specialize (Hv k).
  destruct (m k) as [[v|x] k1]; cbn in *; [|done]. destruct Hm as [_ <-]. apply Hf.
Qed.

Lemma answers_after {S T} (m : M S) (f : S -> M T) : answers m -> (forall v, silent (f v)) -> answers (bind m f).
Proof.
  intros Hm Hf k. destruct (Hm k) as (pre & b & Ho & H). exists pre, b. unfold bind.
  destruct (m k) as [[v|x] k1]; cbn in *; [|done]. destruct (Hf v k1) as [_ ->]. done.
Qed.

Lemma answers_once (id : bytes) (op : option bytes) (m : M unit) : answers m -> answers (once id op m).
Proof.
  intros Hm. unfold once. destruct op as [op|]; [|done]. apply answers_before; [done|done|]. intros o.
  destruct (op_seen _ o); [apply answers_duplicate|]. by apply answers_before.
Qed.

(** ** The operator verbs *)

Definition killed_event (ev pid elapsed cause : Z) : bytes :=
  js "{'id':" ++ dec ev ++ js ",'type':'payload_killed'," ++ js "'pid':" ++ dec pid ++
  js ",'reason':'operator','elapsed':" ++ dec elapsed ++ js ",'caused_by':" ++
  (if cause =? 0 then lit "null" else dec cause) ++ lit "}".

Lemma killed_event_fits (ev pid elapsed cause : Z) : (length (killed_event ev pid elapsed cause) <= CAPACITY)%nat.
Proof. unfold killed_event. destruct (cause =? 0); text_bound; unfold CAPACITY; lia. Qed.

Lemma killed_event_frame (ev pid elapsed cause : Z) : killed_frame (frame_bytes (killed_event ev pid elapsed cause)).
Proof. unfold killed_frame, killed_event. by eexists ev, _. Qed.

Lemma elapsed_since_run (t : Z) (k : K) : exists e k1, elapsed_since t k = (Val e, k1) /\
  pay k1 = pay k /\ pool k1 = pool k /\ traps k1 = traps k /\ ops k1 = ops k /\ events k1 = events k /\ out k1 = out k.
Proof.
  unfold elapsed_since. destruct (t =? 0); [by eexists _, _|]. unfold bind, read_time.
  destruct (hw_dt (hw k)); by eexists _, _.
Qed.

Lemma emit_killed_operator_run (k : K) (pid : Z) (s : Slot) : slot_at pid k = Some s ->
  exists e k1, emit_killed_operator pid k = (Val tt, k1) /\
  pay k1 = pay k /\ pool k1 = pool k /\ traps k1 = traps k /\ ops k1 = ops k /\
  events k1 = events k + 1 /\
  out k1 = out k ++ [frame_bytes (killed_event (next_id k) pid e (start_event s))].
Proof.
  intros Hs. unfold emit_killed_operator. run_bind.
  destruct (elapsed_since_run (started_at s) k) as (e & k1 & He & H1 & H2 & H3 & H4 & H5 & H6).
  rewrite (bind_val _ _ _ _ _ He). run_bind. exists e.
  set (F := (_ +! _)%W). assert (text F = killed_event (next_id k1) pid e (start_event s)) as EF.
  { unfold F. cbn [text]. rewrite fmt_text. cbn [concat]. rewrite app_nil_r. unfold killed_event.
    destruct (start_event s =? 0); cbn [text]; rewrite ?fmt_text; cbn [concat]; by rewrite ?app_nil_r, <- !app_assoc. }
  rewrite send_run by (rewrite EF; apply killed_event_fits). eexists. split; [reflexivity|].
  assert (next_id k1 = next_id k) as Ei by (unfold next_id; by rewrite H5).
  rewrite EF, Ei. split_and!; try done; [cbn; by rewrite H5|]. unfold out in *. cbn. by rewrite H6.
Qed.

(** An operator kill or budget reaches only a waiting payload. For a pid
    that does not exist or is not pending both verbs report why and change
    nothing at all; for a pending one [kill] marks exactly that slot KILLED and
    reports it in one event, and [set_deadline] changes exactly that slot's
    deadline. Frames are not touched: they are released when the slot is
    reaped. *)
Theorem operator_verbs (k : K) (pid units : Z) :
  match slot_at pid k with
  | None => kill_pid pid k = (Val (inl (lit "no such pid")), k) /\
            set_deadline pid units k = (Val (inl (lit "no such pid")), k)
  | Some s =>
      if has_state PENDING s then
        (exists e e' k', kill_pid pid k = (Val (inr e), k') /\
           pay k' = pay (stored pid (with_state KILLED s) k) /\ pool k' = pool k /\ traps k' = traps k /\
           ops k' = ops k /\
           out k' = out k ++ [frame_bytes (killed_event (next_id k) pid e' (start_event s))]) /\
        set_deadline pid units k = (Val (inr tt), stored pid (with_deadline units s) k)
      else kill_pid pid k = (Val (inl (lit "payload not alive")), k) /\
           set_deadline pid units k = (Val (inl (lit "payload not alive")), k)
  end.
Proof.
  unfold kill_pid, set_deadline. destruct (slot_at pid k) as [s|] eqn:Hs.
  2:{ by rewrite !(bind_val (gets _) _ _ _ _ eq_refl), Hs. }
  rewrite !(bind_val (gets (slot_at pid)) _ k k (Some s)) by (unfold gets; by rewrite Hs).
  destruct (has_state PENDING s) ; cbn [negb]; [|done]. split.
  - run_bind. pose proof (slot_at_stored pid (with_state KILLED s) s k Hs) as Hs1.
    destruct (emit_killed_operator_run _ _ _ Hs1) as (e & k1 & He & H1 & H2 & H3 & H4 & H5 & H6).
    rewrite (bind_val _ _ _ _ _ He).
    destruct (elapsed_since_run (started_at s) k1) as (e2 & k2 & He2 & G1 & G2 & G3 & G4 & G5 & G6).
    rewrite (bind_val _ _ _ _ _ He2). exists e2, e, k2. rewrite G1, G2, G3, G4, G6. done.
  - by run_bind.
Qed.

(** ** Every request is answered *)

Lemma answers_kill (id : bytes) (pid : Z) : answers (
  let! r := kill_pid pid in
  match r with
  | inr elapsed =>
      respond_result id (fmt [js "{'status':'killed','pid':"; dec pid; js ",'elapsed':"; dec elapsed; js "}"])
  | inl reason => respond_error id (-32602) reason
  end).
Proof.
  intros k. unfold kill_pid. rewrite bind_assoc. run_bind.
  destruct (slot_at pid k) as [s|] eqn:Hs; [|apply answers_error].
  destruct (has_state PENDING s); [|apply answers_error]. cbn [negb].
  rewrite bind_assoc. run_bind. pose proof (slot_at_stored pid (with_state KILLED s) s k Hs) as Hs1.
  rewrite bind_assoc. destruct (emit_killed_operator_run _ _ _ Hs1) as (e & k1 & He & _ & _ & _ & _ & _ & H6).
  rewrite (bind_val _ _ _ _ _ He), bind_assoc.
  destruct (elapsed_since_run (started_at s) k1) as (e2 & k2 & He2 & _ & _ & _ & _ & _ & G6).
  rewrite (bind_val _ _ _ _ _ He2). run_bind. unfold respond_result. rewrite emit_rpc_run. cbn [snd].
  match goal with |- context [sent ?b _] => set (ans := b) end.
  exists [frame_bytes (killed_event (next_id (stored pid (with_state KILLED s) k)) pid e (start_event s))], ans.
  split; [|split].
  - transitivity (out k2 ++ [ans]); [done|]. rewrite G6, H6, <- app_assoc. done.
  - by eexists _, _.
  - right. eexists. split; [reflexivity|apply killed_event_frame].
Qed.

Lemma answers_set_budget (id : bytes) (pid dl : Z) : answers (
  let! r := set_deadline pid dl in
  match r with
  | inr _ =>
      respond_result id (fmt [js "{'status':'budget_set','pid':"; dec pid; js ",'deadline':"; dec dl; js "}"])
  | inl reason => respond_error id (-32602) reason
  end).
Proof.
  intros k. unfold set_deadline. rewrite bind_assoc. run_bind.
  destruct (slot_at pid k) as [s|] eqn:Hs; [|apply answers_error].
  destruct (has_state PENDING s); [|apply answers_error]. cbn [negb].
  rewrite bind_assoc. run_bind. run_bind.
  exact (answers_result _ _ (stored pid (with_deadline dl s) k)).
Qed.

Lemma answers_gets {S T} (g : K -> S) (f : S -> M T) : (forall v, answers (f v)) -> answers (bind (gets g) f).
Proof. by apply answers_before. Qed.

Lemma answers_tools_call (json id : bytes) : answers (handle_tools_call json id).
Proof.
  unfold handle_tools_call. repeat match goal with |- answers (if ?b then _ else _) => destruct b end.
  - unfold tool_run_suite. destruct (suite_seed _) as [seed|] eqn:Es; [|apply answers_error].
    apply answers_gets. intros [|]; [apply answers_busy|]. apply answers_once, answers_after; [apply answers_accepted|].
    intros _. apply silent_bind; [by eapply silent_suite_seed|done].
  - unfold tool_crash. apply answers_gets. intros [|]; [apply answers_busy|].
    apply answers_once, answers_after; [apply answers_result|done].
  - unfold tool_kill. destruct (get_u32 _ _); [|apply answers_error]. apply answers_once, answers_kill.
  - unfold tool_set_budget. destruct (get_u32 _ _); [|apply answers_error].
    destruct (get_u32 _ _); [|apply answers_error]. apply answers_once, answers_set_budget.
  - apply answers_gets. intros t. apply answers_result.
  - unfold tool_set_surface. repeat match goal with |- answers (if ?b then _ else _) => destruct b end;
      [apply answers_before; [done|done|]; intros _; apply answers_result..|apply answers_error].
  - unfold tool_set_autonomy. repeat match goal with |- answers (if ?b then _ else _) => destruct b end;
      [apply answers_before; [done|done|]; intros _; apply answers_result..|apply answers_error].
  - apply answers_error.
  - apply answers_error.
Qed.

Lemma answers_resources_read (json id : bytes) : answers (handle_resources_read json id).
Proof.
  unfold handle_resources_read. apply answers_gets. intros k.
  repeat match goal with |- answers (if ?b then _ else _) => destruct b end; try destruct (stats _); answers_go.
Qed.

(** C33: every request gets exactly one answer. Whatever JSON text is
    dispatched, known or unknown method, tool, resource or suite, valid or
    missing arguments, replayed or not, and whatever the state, the wire grows
    by exactly one [rpc] frame, the last one, preceded by at most the one
    [payload_killed] event of a successful kill. An answer too large for a
    frame is replaced by an error answer, never dropped. *)
Theorem request_answered (json : bytes) (k : K) : exists pre b,
  out (snd (dispatch_request json k)) = out k ++ pre ++ [b] /\ answer b /\
  (pre = [] \/ exists e, pre = [e] /\ killed_frame e).
Proof.
  enough (answers (dispatch_request json)) as H by apply H.
  unfold dispatch_request. repeat match goal with |- answers (if ?b then _ else _) => destruct b end.
  - unfold respond_initialize. apply answers_result.
  - unfold respond_tools_list. apply answers_result.
  - apply answers_tools_call.
  - unfold respond_resources_list. apply answers_result.
  - apply answers_resources_read.
  - apply answers_error.
  - apply answers_error.
Qed.

(** ** Replays *)

Lemma op_seen_record (h : Z) (o : opring) : length (op_ids o) = OP_SLOTS -> op_seen h (op_record h o) = true.
Proof.
  intros Hl. unfold op_seen, op_record. cbn [op_ids]. apply existsb_exists. exists h. split; [|apply Z.eqb_refl].
  apply list_elem_of_In. eapply list_elem_of_lookup_2. apply list_lookup_insert_eq. rewrite Hl.
  pose proof (Z.mod_pos_bound (op_head o) (Z.of_nat OP_SLOTS) eq_refl). lia.
Qed.

(** Code that does not touch the idempotency window. *)
Definition keeps_ops {T} (m : M T) : Prop := forall k, ops (snd (m k)) = ops k.

Lemma keeps_ops_bind {S T} (m : M S) (f : S -> M T) : keeps_ops m -> (forall v, keeps_ops (f v)) -> keeps_ops (bind m f).
Proof.
  intros Hm Hf k. unfold bind. specialize (Hm k). destruct (m k) as [[v|x] k1]; [|done].
  cbn in Hm. rewrite <- Hm. apply Hf.
Qed.

Lemma keeps_ops_rpc (w : wprog) : keeps_ops (emit_rpc w).
Proof. intros k. by rewrite emit_rpc_run. Qed.

(** The window after further ids have been recorded. *)
Definition recorded (hs : list Z) (o : opring) : opring := fold_left (fun o h => op_record h o) hs o.

Lemma wrap64_mod8 (x : Z) : wrap64 x mod 8 = x mod 8.
Proof. apply Z.mod_mod_divide. by exists 2305843009213693952. Qed.

(** An id in slot [slot], [e] slots behind the head, is not the next to go. *)
Lemma recorded_survives (hs : list Z) (o : opring) (slot e h : Z) : length (op_ids o) = OP_SLOTS -> 0 <= slot < 8 ->
  op_ids o !! Z.to_nat slot = Some h -> op_head o mod 8 = (slot + e) mod 8 -> 1 <= e -> e + Z.of_nat (length hs) <= 8 ->
  op_seen h (recorded hs o) = true.
Proof.
  revert o e. induction hs as [|x hs IH]; intros o e Hl Hs Ho Hh He Hn; cbn [recorded fold_left length] in *.
  - unfold op_seen. apply existsb_exists. exists h. split; [|apply Z.eqb_refl]. apply list_elem_of_In. by eapply list_elem_of_lookup_2.
  - apply (IH (op_record x o) (e + 1)); [by cbn; rewrite length_insert|done| | |lia|lia].
    + cbn [op_record op_ids]. change (Z.of_nat OP_SLOTS) with 8. rewrite Hh, list_lookup_insert_ne; [done|].
      pose proof (Z.mod_pos_bound (slot + e) 8 eq_refl). intros E. assert (Em : (slot + e) mod 8 = slot) by lia.
      pose proof (Z.div_mod (slot + e) 8 ltac:(lia)). lia.
    + cbn [op_record op_head]. by rewrite wrap64_mod8, Z.add_assoc, <- (Z.add_mod_idemp_l (slot + e)), <- Hh, Z.add_mod_idemp_l by lia.
Qed.

(** A fresh id stays in the window through seven more. *)
Lemma op_record_survives (h : Z) (hs : list Z) (o : opring) : length (op_ids o) = OP_SLOTS -> (length hs <= 7)%nat ->
  op_seen h (recorded hs (op_record h o)) = true.
Proof.
  intros Hl Hn. pose proof (Z.mod_pos_bound (op_head o) 8 eq_refl) as Hm.
  apply (recorded_survives hs (op_record h o) (op_head o mod 8) 1); [by cbn; rewrite length_insert|done| | |lia|lia].
  - cbn [op_record op_ids]. change (Z.of_nat OP_SLOTS) with 8. apply list_lookup_insert_eq. rewrite Hl. unfold OP_SLOTS. lia.
  - cbn [op_record op_head]. by rewrite wrap64_mod8, Z.add_mod_idemp_l by lia.
Qed.

(** What serving an operation leaves in the window. *)
Lemma once_window (id op : bytes) (m : M unit) (k k1 : K) : keeps_ops m -> once id (Some op) m k = (Val tt, k1) ->
  ops k1 = if op_seen (fnv1a op) (ops k) then ops k else op_record (fnv1a op) (ops k).
Proof.
  intros Hm. unfold once. rewrite (bind_val (gets ops) _ _ _ _ eq_refl). destruct (op_seen _ (ops k)).
  - unfold respond_duplicate, respond_result. rewrite emit_rpc_run. by intros [= <-].
  - rewrite (bind_val (modify _) _ _ _ _ eq_refl). intros H.
    specialize (Hm (with_ops (op_record (fnv1a op) (ops k)) k)). rewrite H in Hm. exact Hm.
Qed.

Lemma once_seen (id op : bytes) (m : M unit) (k : K) : op_seen (fnv1a op) (ops k) = true ->
  once id (Some op) m k = respond_duplicate id op k.
Proof. intros H. unfold once. by rewrite (bind_val (gets ops) _ _ _ _ eq_refl), H. Qed.

Lemma once_replay (op : bytes) (hs : list Z) (k k1 k2 : K) : length (op_ids (ops k)) = OP_SLOTS ->
  ops k1 = (if op_seen (fnv1a op) (ops k) then ops k else op_record (fnv1a op) (ops k)) ->
  ops k2 = recorded hs (ops k1) -> (length hs <= if op_seen (fnv1a op) (ops k) then 0 else 7)%nat ->
  op_seen (fnv1a op) (ops k2) = true.
Proof.
  intros Hl H1 H2 Hn. rewrite H2, H1. destruct (op_seen _ (ops k)) eqn:E; [|by apply op_record_survives].
  destruct hs; [done|cbn in Hn; lia].
Qed.

Lemma keeps_ops_kill (pid : Z) : keeps_ops (kill_pid pid).
Proof.
  intros k. unfold kill_pid. run_bind. destruct (slot_at pid k) as [s|] eqn:Hs; [|done].
  destruct (has_state PENDING s); [|done]. cbn [negb]. run_bind.
  pose proof (slot_at_stored pid (with_state KILLED s) s k Hs) as Hs1.
  destruct (emit_killed_operator_run _ _ _ Hs1) as (e & k1 & He & _ & _ & _ & H4 & _).
  rewrite (bind_val _ _ _ _ _ He).
  destruct (elapsed_since_run (started_at s) k1) as (e2 & k2 & He2 & _ & _ & _ & G4 & _).
  rewrite (bind_val _ _ _ _ _ He2). cbn [snd ret]. by rewrite G4, H4.
Qed.

Lemma keeps_ops_set_deadline (pid dl : Z) : keeps_ops (set_deadline pid dl).
Proof.
  intros k. unfold set_deadline. run_bind. destruct (slot_at pid k) as [s|] eqn:Hs; [|done].
  destruct (has_state PENDING s); [|done]. cbn [negb]. by run_bind.
Qed.

Definition pid_of (params : bytes) : option Z := get_u32 (get_object params (lit "arguments")) (lit "pid").
Definition deadline_of (params : bytes) : option Z := get_u32 (get_object params (lit "arguments")) (lit "deadline").

(** A kill or a budget change that names its payload, and its deadline, is served. *)
Inductive served (params id : bytes) (op : option bytes) (k k1 : K) : Prop :=
  | served_kill : is_Some (pid_of params) -> tool_kill params id op k = (Val tt, k1) -> served params id op k k1
  | served_budget : is_Some (pid_of params) -> is_Some (deadline_of params) -> tool_set_budget params id op k = (Val tt, k1) ->
      served params id op k k1.

Lemma served_window (params id op : bytes) (k k1 : K) : served params id (Some op) k k1 ->
  ops k1 = if op_seen (fnv1a op) (ops k) then ops k else op_record (fnv1a op) (ops k).
Proof.
  intros [[p Hp] E|[p Hp] [d Hd] E]; unfold pid_of, deadline_of in *.
  - unfold tool_kill in E. rewrite Hp in E. eapply once_window; [|exact E]. apply keeps_ops_bind; [apply keeps_ops_kill|].
    intros [r|e]; unfold respond_error, respond_result; apply keeps_ops_rpc.
  - unfold tool_set_budget in E. rewrite Hp, Hd in E. eapply once_window; [|exact E]. apply keeps_ops_bind; [apply keeps_ops_set_deadline|].
    intros [r|e]; unfold respond_error, respond_result; apply keeps_ops_rpc.
Qed.

(** C37: a replayed operation is acknowledged and not repeated. Once a kill or a
    budget change with an operation id has been served, however it was answered,
    a kill (with a payload) or a budget change (with a payload and a deadline)
    with that id again does nothing but answer that it is a duplicate. The
    guarantee lasts for the window of eight ids: the replay may come after up to
    seven further operation ids have been recorded since the id was, and at once
    if the id was known already when it was served. *)
Theorem replay_harmless (params params' id id' op : bytes) (hs : list Z) (k k1 k2 : K) :
  length (op_ids (ops k)) = OP_SLOTS -> served params id (Some op) k k1 ->
  ops k2 = recorded hs (ops k1) -> (length hs <= if op_seen (fnv1a op) (ops k) then 0 else 7)%nat ->
  (is_Some (pid_of params') -> tool_kill params' id' (Some op) k2 = respond_duplicate id' op k2) /\
  (is_Some (pid_of params') -> is_Some (deadline_of params') ->
     tool_set_budget params' id' (Some op) k2 = respond_duplicate id' op k2).
Proof.
  intros Hl Hserved H2 Hn. pose proof (once_replay op hs k k1 k2 Hl (served_window _ _ _ _ _ Hserved) H2 Hn) as Hseen. unfold pid_of, deadline_of. split.
  - intros [p Hp]. unfold tool_kill. rewrite Hp. by apply once_seen.
  - intros [p Hp] [d Hd]. unfold tool_set_budget. rewrite Hp, Hd. by apply once_seen.
Qed.

(** A suite or a crash is refused while payloads are alive. If any slot is
    running or pending, [run_suite] and [crash] do nothing but send one busy
    error: no slot is cleared, no operation id is spent, and control stays with
    the caller. With nothing alive they are not refused. *)
Theorem busy_guard (params id : bytes) (op : option bytes) (seed : M unit) (k : K) :
  suite_seed (default [] (get_string (get_object params (lit "arguments")) (lit "suite"))) = Some seed ->
  if existsb (fun s => has_state RUNNING s || has_state PENDING s) (table (pay k)) then
    exists b, answer b /\
      tool_run_suite params id op k = (Val tt, sent b (numbered k)) /\
      tool_crash id op k = (Val tt, sent b (numbered k))
  else
    (op = None -> exists b k', answer b /\
       tool_run_suite params id op k = (seed ;;; stop XRun) (sent b (numbered k)) /\
       tool_crash id op k = (Exit XIllegal, k') /\ pay k' = pay k).
Proof.
  intros Hs. unfold tool_run_suite, tool_crash. rewrite Hs. unfold any_alive.
  rewrite !(bind_val (gets _) _ k k _ eq_refl).
  destruct (existsb _ _).
  - unfold busy, respond_error. rewrite emit_rpc_run. eexists. split; [by eexists _, _|done].
  - intros ->. unfold once, respond_accepted, respond_result.
    rewrite (bind_val _ _ _ _ _ (emit_rpc_run _ _)), (bind_val _ _ _ _ _ (emit_rpc_run _ _)).
    eexists _, _. split; [by eexists _, _|]. split; [reflexivity|]. split; [reflexivity|done].
Qed.

(** ** Framing *)

(** What a client sends after the 0xAA that announces a frame. *)
Definition request_bytes (body : bytes) : bytes :=
  x99 :: le_bytes 4 (Z.of_nat (length body)) ++ body.

(** The state with the console input replaced. *)
Definition fed (ins : list (option byte)) (k : K) : K := on_hw (with_hw_in ins) k.

Lemma fed_fed (a b : list (option byte)) (k : K) : fed a (fed b k) = fed a k.
Proof. done. Qed.

Lemma getc_ready (b : byte) (ins : list (option byte)) (k : K) : hw_in (hw k) = Some b :: ins ->
  getc_stall k = (Val (Some b), fed ins k).
Proof.
  intros H. unfold getc_stall. cbn [getc_loop MAX_STALL_WAITS].
  erewrite bind_val by (unfold console_getchar; rewrite H; reflexivity). done.
Qed.

Lemma read_bytes_ready (bs : bytes) (ins : list (option byte)) (k : K) :
  hw_in (hw k) = map Some bs ++ ins -> read_bytes (length bs) k = (Val (Some bs), fed ins k).
Proof.
  revert k. induction bs as [|b bs IH]; intros k H; cbn [read_bytes length map app] in *.
  - unfold ret, fed, on_hw. f_equal. rewrite <- H. by destruct k as [[]].
  - erewrite bind_val by (by apply getc_ready). cbv beta iota.
    erewrite bind_val by (apply IH; reflexivity). done.
Qed.

(** *** A stalled sender *)

Definition tick_text (id seq now : Z) : bytes :=
  js "{'id':" ++ dec id ++ js ",'type':'tick','seq':" ++ dec seq ++ js ",'time':" ++ dec now ++ js "}".
Definition tick_frame (b : bytes) : Prop := exists id seq now, b = frame_bytes (tick_text id seq now).

(** Between the two states [n] timer interrupts came and went with no payload on
    the hart: each took an event id, was counted, recorded in the trap ring and,
    unless the kernel is autonomous, announced. *)
Record ticked (n : nat) (k k' : K) : Prop := {
  tk_pool : pool k' = pool k;
  tk_pay : pay k' = pay k;
  tk_ops : ops k' = ops k;
  tk_in : hw_in (hw k') = hw_in (hw k);
  tk_satp : hw_satp (hw k') = hw_satp (hw k);
  tk_events : events k' = events k + Z.of_nat n;
  tk_count : wrap64 (ticks (traps k')) = wrap64 (ticks (traps k) + Z.of_nat n);
  tk_ecalls : ecall_traps (traps k') = ecall_traps (traps k);
  tk_faults : fault_traps (traps k') = fault_traps (traps k);
  tk_modes : autonomous (traps k') = autonomous (traps k) /\ classic_surface (traps k') = classic_surface (traps k);
  tk_out : exists l, out k' = out k ++ l /\ Forall tick_frame l /\ length l = if autonomous (traps k) then 0%nat else n
}.

Lemma ticked_none (k : K) : ticked 0 k k.
Proof.
  split; rewrite ?Z.add_0_r; try done. exists []. rewrite app_nil_r. split; [done|]. split; [constructor|by destruct (autonomous _)].
Qed.

Lemma ticked_trans (m n : nat) (k1 k2 k3 : K) : ticked m k1 k2 -> ticked n k2 k3 -> ticked (m + n) k1 k3.
Proof.
  intros [? ? ? ? ? E1 C1 ? ? [A1 A1'] (l1 & O1 & F1 & L1)] [? ? ? ? ? E2 C2 ? ? [A2 A2'] (l2 & O2 & F2 & L2)].
  split; try congruence; [lia| |split; congruence|].
  - rewrite C2. unfold wrap64 in *. rewrite Nat2Z.inj_add, Z.add_assoc, Z.add_mod, C1, <- Z.add_mod by (unfold W64; lia). done.
  - exists (l1 ++ l2). rewrite O2, O1, app_assoc. split; [done|]. split; [by apply Forall_app|].
    rewrite length_app, L1, L2, A1. by destruct (autonomous (traps k1)).
Qed.

Lemma clock_run (k : K) : exists now dts, read_time k = (Val now, on_hw (fun h => with_hw_dt dts (with_hw_now now h)) k).
Proof. unfold read_time. destruct (hw_dt (hw k)) as [|d r] eqn:E; [|by do 2 eexists]. exists (hw_now (hw k)), []. rewrite <- E. by destruct k as [[]]. Qed.

Lemma tick_text_fits (id seq now : Z) : (length (tick_text id seq now) <= CAPACITY)%nat.
Proof. unfold tick_text. text_bound. unfold CAPACITY. lia. Qed.

(** What is announced, by the mode. *)
Definition announced (k k' : K) : Prop := exists now dts l,
  k' = on_hw (fun h => with_hw_dt dts (with_hw_now now (with_hw_out (hw_out h ++ l) h))) k /\
  Forall tick_frame l /\ length l = if autonomous (traps k) then 0%nat else 1%nat.

Lemma announce_run (id seq : Z) (k : K) : exists k', emit_tick id seq k = (Val tt, k') /\ announced k k'.
Proof.
  unfold emit_tick, announced. run_bind. destruct (autonomous (traps k)).
  - exists k. split; [done|]. exists (hw_now (hw k)), (hw_dt (hw k)), []. split; [|by split]. destruct k as [[]]. cbn. unfold on_hw. cbn. by rewrite app_nil_r.
  - destruct (clock_run k) as (now & dts & E). rewrite (bind_val _ _ _ _ _ E).
    assert (Et : text (fmt [js "{'id':"; dec id; js ",'type':'tick','seq':"; dec seq; js ",'time':"; dec now; js "}"]) = tick_text id seq now)
      by (rewrite fmt_text; unfold tick_text; cbn [concat]; by rewrite app_nil_r).
    rewrite send_run by (rewrite Et; apply tick_text_fits). rewrite Et. eexists. split; [reflexivity|].
    exists now, dts, [frame_bytes (tick_text id seq now)]. split; [done|]. split; [|done]. constructor; [by do 3 eexists|constructor].
Qed.

Lemma tick_run (f : TrapFrame) (k : K) : sepc f <> scheduler_resume_pc -> current (pay k) = NO_PID ->
  exists k', kernel_tick f k = (Val tt, k') /\ ticked 1 k k'.
Proof.
  intros Hpc Hc. unfold kernel_tick. rewrite (proj2 (Z.eqb_neq _ _) Hpc).
  unfold handle. change (CAUSE_S_TIMER =? CAUSE_S_TIMER) with true. cbn iota.
  rewrite (bind_val next_event _ _ _ _ (next_event_run k)). rewrite (bind_val (modify _) _ _ _ _ eq_refl).
  set (k1 := on_traps _ _). unfold handle_tick, rearm. rewrite bind_assoc. destruct (clock_run k1) as (now & dts & E).
  rewrite (bind_val _ _ _ _ _ E). rewrite bind_assoc, (bind_val (gets _) _ _ _ _ eq_refl). rewrite bind_assoc, (bind_val (modify _) _ _ _ _ eq_refl).
  unfold set_timer at 1. rewrite (bind_val (modify _) _ _ _ _ eq_refl). unfold count_tick at 1. erewrite bind_val by reflexivity.
  set (seq := wrap64 _). set (k2 := on_traps (with_ticks seq) _).
  destruct (announce_run (next_id k) seq k2) as (k3 & E3 & now' & dts' & l & -> & Hf & Hl). rewrite (bind_val _ _ _ _ _ E3).
  set (k3 := on_hw _ k2) in *. assert (Hn : current_pid k3 = (Val None, k3)).
  { unfold current_pid, gets. change (current (pay k3)) with (current (pay k)). by rewrite Hc. }
  assert (Hd : (if feat_doom then drain_keys else ret false) k3 = (Val false, k3)).
  { destruct feat_doom; [|done]. unfold drain_keys. by rewrite (bind_val _ _ _ _ _ Hn). }
  rewrite (bind_val _ _ _ _ _ Hd).
  assert (Ho : on_tick k3 = (Val false, k3)) by (unfold on_tick; by rewrite (bind_val _ _ _ _ _ Hn)).
  rewrite (bind_val _ _ _ _ _ Ho). cbn [orb].
  assert (Hp : forall g, maybe_preempt g k3 = (Val false, k3)) by (intros g; unfold maybe_preempt; by rewrite (bind_val _ _ _ _ _ Hn)).
  rewrite (bind_val _ _ _ _ _ (Hp _)). cbn [ret]. change (sepc (with_sstatus _ f)) with (sepc f). rewrite (proj2 (Z.eqb_neq _ _) Hpc).
  exists k3. split; [done|]. split; try done.
  - change (ticks (traps k3)) with seq. subst seq. unfold wrap64. by rewrite Z.mod_mod.
  - exists l. by split.
Qed.

Context (elsewhere : wfi_pc <> scheduler_resume_pc).

Lemma wait_run (k : K) : current (pay k) = NO_PID -> exists k', wait_for_interrupt k = (Val tt, k') /\ ticked 1 k k'.
Proof.
  intros Hc. unfold wait_for_interrupt. destruct (next_irq _) as [[f r]|].
  - destruct (tick_run (with_sepc wfi_pc f) (on_hw (with_hw_irq r) k) elsewhere Hc) as (k' & E & H). exists k'. split; [exact E|].
    destruct H. by split.
  - destruct (tick_run parked_frame (on_hw (with_hw_irq []) k) elsewhere Hc) as (k' & E & H). exists k'. split; [exact E|].
    destruct H. by split.
Qed.

(** Nothing comes for the next [n] polls. *)
Definition silence (n : nat) (l : list (option byte)) : Prop := Forall (fun o => o = None) (take n l).

Lemma poll_none (k : K) (n : nat) : silence (S n) (hw_in (hw k)) ->
  console_getchar k = (Val None, fed (drop 1 (hw_in (hw k))) k) /\ silence n (drop 1 (hw_in (hw k))).
Proof.
  unfold silence, console_getchar. destruct (hw_in (hw k)) as [|o r] eqn:E.
  - intros _. cbn. split; [|by destruct n]. unfold fed. rewrite <- E. by destruct k as [[]].
  - cbn [take drop]. intros H. apply Forall_cons in H as [-> H]. by split.
Qed.

(** [w] more waits: the reader gives up after [w] interrupts. *)
Lemma stall_run (w : nat) (k : K) : current (pay k) = NO_PID -> silence (S w) (hw_in (hw k)) ->
  exists k', getc_loop w k = (Val None, k') /\ ticked w (fed (drop (S w) (hw_in (hw k))) k) k'.
Proof.
  revert k. induction w as [|w IH]; intros k Hc Hs; destruct (poll_none k _ Hs) as [E Hs']; cbn [getc_loop]; rewrite (bind_val _ _ _ _ _ E).
  - exists (fed (drop 1 (hw_in (hw k))) k). split; [done|apply ticked_none].
  - set (k1 := fed _ k) in *. destruct (wait_run k1 Hc) as (k2 & E2 & H2). rewrite (bind_val _ _ _ _ _ E2).
    destruct (IH k2) as (k3 & E3 & H3); [by rewrite (tk_pay _ _ _ H2)|by rewrite (tk_in _ _ _ H2)|].
    exists k3. split; [exact E3|]. apply (ticked_trans 1 w _ (fed (drop (S w) (hw_in (hw k2))) k2)); [|exact H3].
    assert (Ein : drop (S w) (hw_in (hw k2)) = drop (S (S w)) (hw_in (hw k))).
    { rewrite (tk_in _ _ _ H2). cbn [hw_in k1 fed]. change (hw_in (hw k1)) with (drop 1 (hw_in (hw k))). by rewrite drop_drop. }
    rewrite Ein. destruct H2. by split.
Qed.

(** A sender that stalls within the next [n] bytes. *)
Lemma read_bytes_stall (part : bytes) (rest : list (option byte)) (n : nat) (k : K) : current (pay k) = NO_PID ->
  (length part < n)%nat -> hw_in (hw k) = map Some part ++ rest -> silence (S MAX_STALL_WAITS) rest ->
  exists k', read_bytes n k = (Val None, k') /\ ticked MAX_STALL_WAITS (fed (drop (S MAX_STALL_WAITS) rest) k) k'.
Proof.
  intros Hc. revert n k Hc. induction part as [|b part IH]; intros n k Hc Hn Hi Hs; (destruct n as [|n]; [cbn in Hn; lia|]); cbn [read_bytes].
  - cbn [map app] in Hi. destruct (stall_run MAX_STALL_WAITS k Hc) as (k' & E & H); [by rewrite Hi|].
    unfold getc_stall. rewrite (bind_val _ _ _ _ _ E). rewrite Hi in H. by exists k'.
  - erewrite bind_val by (by apply (getc_ready b (map Some part ++ rest))). cbv beta iota.
    destruct (IH n (fed (map Some part ++ rest) k) Hc ltac:(cbn in Hn; lia) eq_refl Hs) as (k' & E & H).
    rewrite (bind_val _ _ _ _ _ E). exists k'. by split.
Qed.

Lemma le4_word (n : Z) : 0 <= n < W32 -> le_word (le_bytes 4 n) = n.
Proof. intros H. by apply le_word_bytes. Qed.

Lemma request_len (body : bytes) : Z.of_nat (length body) < W32 ->
  le_word (le_bytes 4 (Z.of_nat (length body))) = Z.of_nat (length body).
Proof. intros H. apply le4_word. lia. Qed.

Lemma read_header (n : Z) (ins : list (option byte)) (k : K) :
  hw_in (hw k) = map Some (x99 :: le_bytes 4 n) ++ ins ->
  read_request k =
  (let len := le_word (le_bytes 4 n) in
   if (len =? 0) || (MAX_REQ <? len) then ret tt else
   let! obody := read_bytes (Z.to_nat len) in
   match obody with None => ret tt | Some body => in_bounds (len <=? MAX_REQ) ;;; accept_body body end) (fed ins k).
Proof.
  intros H. unfold read_request. erewrite bind_val by (apply getc_ready; exact H). cbv beta.
  rewrite bool_decide_true by done. cbn [negb].
  pose proof (read_bytes_ready (le_bytes 4 n) ins (fed (map Some (le_bytes 4 n) ++ ins) k) eq_refl) as Hr.
  rewrite le_bytes_length in Hr. rewrite (bind_val _ _ _ _ _ Hr). done.
Qed.

(** C38: the frame reader delivers exactly the body that was sent. For any body
    of 1 to 512 bytes, reading the framed request off a console that has it
    hands that body, whole and in order, to the dispatcher, and consumes not a
    byte of what follows it. *)
Theorem request_roundtrip (body : bytes) (rest : list (option byte)) (k : K) :
  (0 < length body <= 512)%nat -> hw_in (hw k) = map Some (request_bytes body) ++ rest ->
  read_request k = accept_body body (fed rest k).
Proof.
  intros Hl H. unfold request_bytes in H. rewrite app_comm_cons, map_app, <- app_assoc in H.
  rewrite (read_header _ _ _ H). cbv zeta. rewrite request_len by (unfold W32; lia).
  destruct (_ || _) eqn:E; [unfold MAX_REQ in E; lia|]. rewrite Nat2Z.id.
  rewrite (bind_val _ _ _ _ _ (read_bytes_ready body rest (fed (map Some body ++ rest) k) eq_refl)).
  rewrite (bind_val (in_bounds _) _ (fed rest k) (fed rest k) tt); [done|]. apply in_bounds_run. unfold MAX_REQ. lia.
Qed.

(** A sender that stalls before the magic is complete, in the length, in the
    body. *)
Lemma truncated_magic (rest : list (option byte)) (k : K) : hw_in (hw k) = rest -> silence 17 rest -> current (pay k) = NO_PID ->
  exists k', read_request k = (Val tt, k') /\ ticked 16 (fed (drop 17 rest) k) k'.
Proof.
  intros H Hs Hc. destruct (stall_run MAX_STALL_WAITS k Hc) as (k' & E & Ht); [by rewrite H|].
  exists k'. split; [|by rewrite H in Ht]. unfold read_request, getc_stall. by rewrite (bind_val _ _ _ _ _ E).
Qed.

Lemma read_magic (ins : list (option byte)) (k : K) : hw_in (hw k) = Some x99 :: ins ->
  read_request k = (let! ol := read_bytes 4 in
    match ol with
    | None => ret tt
    | Some lenb =>
        let len := le_word lenb in
        if (len =? 0) || (MAX_REQ <? len) then ret tt else
        let! obody := read_bytes (Z.to_nat len) in
        match obody with None => ret tt | Some body => in_bounds (len <=? MAX_REQ) ;;; accept_body body end
    end) (fed ins k).
Proof. intros H. unfold read_request. erewrite bind_val by (apply getc_ready; exact H). cbv beta. by rewrite bool_decide_true by done. Qed.

Lemma truncated_length (part : bytes) (rest : list (option byte)) (k : K) : (length part < 4)%nat ->
  hw_in (hw k) = map Some (x99 :: part) ++ rest -> silence 17 rest -> current (pay k) = NO_PID ->
  exists k', read_request k = (Val tt, k') /\ ticked 16 (fed (drop 17 rest) k) k'.
Proof.
  intros Hl H Hs Hc. rewrite (read_magic _ _ H).
  destruct (read_bytes_stall part rest 4 (fed (map Some part ++ rest) k) Hc Hl eq_refl Hs) as (k' & E & Ht).
  rewrite (bind_val _ _ _ _ _ E). by exists k'.
Qed.

Lemma truncated_body (n : Z) (part : bytes) (rest : list (option byte)) (k : K) : 0 <= n < W32 -> 0 < n <= 512 ->
  Z.of_nat (length part) < n -> hw_in (hw k) = map Some (x99 :: le_bytes 4 n ++ part) ++ rest -> silence 17 rest ->
  current (pay k) = NO_PID -> exists k', read_request k = (Val tt, k') /\ ticked 16 (fed (drop 17 rest) k) k'.
Proof.
  intros Hn Hr Hl H Hs Hc. rewrite app_comm_cons, map_app, <- app_assoc in H. rewrite (read_header _ _ _ H). cbv zeta.
  rewrite le4_word by done. unfold MAX_REQ at 1. destruct (_ || _) eqn:E; [lia|].
  destruct (read_bytes_stall part rest (Z.to_nat n) (fed (map Some part ++ rest) k) Hc ltac:(lia) eq_refl Hs) as (k' & E' & Ht).
  rewrite (bind_val _ _ _ _ _ E'). by exists k'.
Qed.

(** C39: a bad or truncated frame is dropped. A frame that announces no bytes or
    more than 512 is discarded as soon as its header is read, with nothing but
    its header consumed. A frame whose sender falls silent anywhere before its
    end, the header included, is given up after a bounded wait: of the sixteen
    timer interrupts of the wait nothing remains but their count, their records
    and their tick events; nothing is dispatched, no process, pool or operation
    state changes, and what is sent after the silence is still there to be
    read. No payload is on the hart when requests are read. *)
Theorem bad_request_dropped (n : Z) (body part : bytes) (rest : list (option byte)) (k : K) :
  0 <= n < W32 ->
  (n = 0 \/ 512 < n -> hw_in (hw k) = map Some (x99 :: le_bytes 4 n) ++ rest ->
     read_request k = (Val tt, fed rest k)) /\
  (0 < n <= 512 -> Z.of_nat (length body) = n -> part `prefix_of` x99 :: le_bytes 4 n ++ body -> part <> x99 :: le_bytes 4 n ++ body ->
     hw_in (hw k) = map Some part ++ rest -> silence 17 rest -> current (pay k) = NO_PID ->
     exists k', read_request k = (Val tt, k') /\ ticked 16 (fed (drop 17 rest) k) k').
Proof.
  intros Hn. split.
  - intros Hb H. rewrite (read_header _ _ _ H). cbv zeta. rewrite le4_word by done.
    destruct (_ || _) eqn:E; [done|]. unfold MAX_REQ in E. lia.
  - intros Hr Hl Hpre Hne H Hs Hc. destruct part as [|b part]; [by apply (truncated_magic rest)|].
    destruct Hpre as [tail Hpre]. pose proof (le_bytes_length 4 n) as Hlen. remember (le_bytes 4 n) as lenb eqn:El.
    cbn [app] in Hpre. injection Hpre as <- Hpre.
    destruct (decide (length part < 4)%nat) as [Hlt|Hge]; [by apply (truncated_length part rest)|].
    assert (Hsplit : exists part', part = lenb ++ part' /\ body = part' ++ tail).
    { exists (drop 4 part). rewrite <- (take_drop 4 part), <- app_assoc in Hpre.
      apply app_inj_1 in Hpre as [E1 E2]; [|rewrite Hlen, length_take; lia]. by rewrite E1, E2, take_drop. }
    destruct Hsplit as (part' & -> & ->). subst lenb. apply (truncated_body n part' rest k Hn); try done.
    rewrite length_app in Hl. assert (tail <> []) by (intros ->; apply Hne; by rewrite app_nil_r).
    destruct tail; [done|]. cbn in Hl. lia.
Qed.

End RpcProofs.

(** ** Instances *)

Section Instances.
#[local] Existing Instance demo_build.

Definition demo_params : bytes := js "{'name':'kill','arguments':{'pid':0,'suite':'p'}}".

(** A payload waits in slot 0; it is killed once, and the replay comes after
    another operation. *)
Lemma replay_harmless_witness : exists k1,
  tool_kill demo_params (lit "1") (Some (lit "op")) (demo_k demo_loaded [] 0 (demo_slot PENDING CAP_WRITE)) = (Val tt, k1) /\
  let k2 := with_ops (op_record 77 (ops k1)) k1 in
  tool_kill demo_params (lit "2") (Some (lit "op")) k2 = respond_duplicate (lit "2") (lit "op") k2.
Proof.
  set (k := demo_k demo_loaded [] 0 (demo_slot PENDING CAP_WRITE)).
  assert (fst (tool_kill demo_params (lit "1") (Some (lit "op")) k) = Val tt) as Ev by (vm_compute; reflexivity).
  assert (Hl : length (op_ids (ops k)) = OP_SLOTS) by reflexivity.
  assert (Hu : op_seen (fnv1a (lit "op")) (ops k) = false) by (vm_compute; reflexivity).
  assert (Hp : is_Some (pid_of demo_params)) by (vm_compute; by eexists). clearbody k.
  destruct (tool_kill demo_params (lit "1") (Some (lit "op")) k) as [r k1] eqn:E. cbn in Ev. subst r. exists k1.
  split; [reflexivity|]. intros k2.
  refine (proj1 (replay_harmless demo_params demo_params (lit "1") (lit "2") (lit "op") [77] k k1 k2 Hl (served_kill _ _ _ _ _ Hp E) eq_refl _) Hp).
  rewrite Hu. cbn. lia.
Defined.

Lemma busy_guard_witness : exists b,
  tool_run_suite demo_params (lit "1") None (demo_k demo_loaded [] 0 (demo_slot PENDING CAP_WRITE)) =
  (Val tt, sent b (numbered (demo_k demo_loaded [] 0 (demo_slot PENDING CAP_WRITE)))).
Proof.
  assert (default [] (get_string (get_object demo_params (lit "arguments")) (lit "suite")) = lit "p") as Es
    by (vm_compute; reflexivity).
  pose proof (busy_guard demo_params (lit "1") None seed_suite_m3 (demo_k demo_loaded [] 0 (demo_slot PENDING CAP_WRITE))) as H.
  rewrite Es in H. specialize (H eq_refl). destruct H as (b & _ & H & _). exists b. exact H.
Defined.

Lemma request_roundtrip_witness :
  let k := demo_k demo_loaded (map Some (request_bytes (js "{}")) ++ [Some x72]) 0 (demo_slot PENDING CAP_WRITE) in
  read_request k = accept_body (js "{}") (fed [Some x72] k).
Proof. cbv zeta. apply request_roundtrip; [cbn; lia|reflexivity]. Defined.

(** A ten-byte body of which two arrive, and a byte behind the silence. *)
Lemma bad_request_dropped_witness :
  let k := on_pay (with_current NO_PID)
    (demo_k demo_loaded (map Some (x99 :: le_bytes 4 10 ++ js "{'") ++ replicate 17 None ++ [Some x72]) 0 (demo_slot PENDING CAP_WRITE)) in
  exists k', read_request k = (Val tt, k') /\ hw_in (hw k') = [Some x72].
Proof.
  assert (Hw : wfi_pc <> scheduler_resume_pc) by (vm_compute; discriminate). assert (Hn : 0 <= 10 < W32) by (unfold W32; lia).
  assert (Hr : 0 < 10 <= 512) by lia. assert (Hs : silence 17 (replicate 17 None ++ [Some x72])) by (unfold silence; cbn; repeat constructor).
  intros k. assert (Hi : hw_in (hw k) = map Some (x99 :: le_bytes 4 10 ++ js "{'") ++ replicate 17 None ++ [Some x72]) by reflexivity.
  assert (Hc : current (pay k) = NO_PID) by reflexivity. clearbody k.
  destruct (bad_request_dropped Hw 10 (js "{'a':'bc'}") (x99 :: le_bytes 4 10 ++ js "{'") (replicate 17 None ++ [Some x72]) k Hn) as [_ H].
  destruct (H Hr eq_refl (ex_intro _ (js "a':'bc'}") eq_refl) ltac:(discriminate) Hi Hs Hc) as (k' & E & Ht).
  exists k'. split; [exact E|]. rewrite (tk_in _ _ _ Ht). reflexivity.
Defined.
End Instances.
