(* ===== verification/KeysProofs.v ===== *)
(** * The operator key ring (kernel/src/payload.rs)

    The ring of 64 bytes with its two counters refines a bounded queue: pushes
    go to the back and are dropped when it is full, [getkey] takes from the
    front. *)

From S2P Require Import Prelude Hal Frames Mm Console RpcJson KState Traps Payload Elf ElfProofs Sched KRun Demo.

(** [p] holds the queue [q]. The counters run freely; only their difference
    and their residues matter. *)
Definition holds_keys (p : PayState) (q : bytes) : Prop :=
  length (key_ring p) = Z.to_nat KEY_RING_SIZE /\ u64_ok (key_head p) /\
  key_tail p = wrap64 (key_head p + Z.of_nat (length q)) /\ Z.of_nat (length q) <= KEY_RING_SIZE /\
  forall i, (i < length q)%nat ->
    key_ring p !! Z.to_nat ((key_head p + Z.of_nat i) mod KEY_RING_SIZE) = q !! i.

Lemma wrap_ring (z : Z) : wrap64 z mod KEY_RING_SIZE = z mod KEY_RING_SIZE.
Proof.
  unfold wrap64, W64, KEY_RING_SIZE.
  replace 18446744073709551616 with (64 * 288230376151711744) by lia.
  rewrite Z.rem_mul_r by lia. rewrite Z.mul_comm, Z.mod_add by lia. apply Z.mod_mod. lia.
Qed.

Lemma keys_pending (p : PayState) (q : bytes) : holds_keys p q ->
  wrap64 (key_tail p - key_head p) = Z.of_nat (length q).
Proof.
  intros (_ & Hh & Ht & Hl & _). rewrite Ht. unfold wrap64. rewrite Zminus_mod_idemp_l.
  replace (key_head p + Z.of_nat (length q) - key_head p) with (Z.of_nat (length q)) by lia.
  apply Z.mod_small. unfold KEY_RING_SIZE, W64 in *. lia.
Qed.

Lemma ring_slots_differ (h i j : Z) : 0 <= i < KEY_RING_SIZE -> 0 <= j < KEY_RING_SIZE -> i <> j ->
  (h + i) mod KEY_RING_SIZE <> (h + j) mod KEY_RING_SIZE.
Proof.
  unfold KEY_RING_SIZE. intros Hi Hj Hne E. Z.to_euclidean_division_equations. lia.
Qed.

Lemma push_key_refines (p : PayState) (q : bytes) (b : byte) : holds_keys p q ->
  holds_keys (push_key b p) (if Z.of_nat (length q) <? KEY_RING_SIZE then q ++ [b] else q).
Proof.
  intros H. unfold push_key. rewrite (keys_pending _ _ H). destruct H as (Hr & Hh & Ht & Hl & Hq).
  destruct (KEY_RING_SIZE <=? _) eqn:E; destruct (_ <? KEY_RING_SIZE) eqn:E2; zbool; try lia; [done|].
  assert (key_tail p mod KEY_RING_SIZE = (key_head p + Z.of_nat (length q)) mod KEY_RING_SIZE) as Em
    by (rewrite Ht; apply wrap_ring).
  assert (forall z, (Z.to_nat (z mod KEY_RING_SIZE) < length (key_ring p))%nat) as Hin.
  { intros z. pose proof (Z.mod_pos_bound z KEY_RING_SIZE eq_refl). unfold KEY_RING_SIZE in *. lia. }
  (split; [|split; [|split; [|split]]]); cbn [key_ring key_head key_tail with_key_tail with_key_ring].
  - by rewrite length_insert.
  - done.
  - rewrite Ht, length_app. cbn [length]. unfold wrap64. rewrite Zplus_mod_idemp_l. f_equal. lia.
  - rewrite length_app. cbn [length]. lia.
  - intros i Hi. rewrite length_app in Hi. cbn [length] in Hi. rewrite Em.
    destruct (decide (i = length q)) as [->|Hne].
    + rewrite list_lookup_insert_eq by apply Hin. rewrite lookup_app_r, Nat.sub_diag by lia. done.
    + rewrite list_lookup_insert_ne.
      * rewrite lookup_app_l by lia. apply Hq. lia.
      * intros Ez. apply (ring_slots_differ (key_head p) (Z.of_nat (length q)) (Z.of_nat i)); [lia|lia|lia|].
        pose proof (Z.mod_pos_bound (key_head p + Z.of_nat (length q)) KEY_RING_SIZE eq_refl).
        pose proof (Z.mod_pos_bound (key_head p + Z.of_nat i) KEY_RING_SIZE eq_refl). lia.
Qed.

Lemma getkey_refines (k : K) (q : bytes) : holds_keys (pay k) q ->
  match q with
  | [] => on_getkey k = (Val EAGAIN, k)
  | b :: r => exists k', on_getkey k = (Val (bz b), k') /\ holds_keys (pay k') r /\
      k' = on_pay (with_key_head (wrap64 (key_head (pay k) + 1))) k
  end.
Proof.
  intros H. unfold on_getkey. run_bind. pose proof H as (Hr & Hh & Ht & Hl & Hq). destruct q as [|b r].
  - rewrite Ht, Z.add_0_r, wrap64_small, Z.eqb_refl by done. done.
  - destruct (key_head (pay k) =? key_tail (pay k)) eqn:E; zbool.
    { pose proof (keys_pending _ _ H) as Hp. rewrite E, Z.sub_diag in Hp. change (wrap64 0) with 0 in Hp. cbn [length] in Hp. lia. }
    run_bind. pose proof (Hq 0%nat ltac:(cbn; lia)) as H0. rewrite Z.add_0_r in H0. cbn in H0.
    rewrite nth_lookup, H0. cbn [default from_option]. eexists. split; [done|]. split; [|done].
    (split; [|split; [|split; [|split]]]); cbn [pay on_pay with_pay key_ring key_head key_tail with_key_head].
    + done.
    + apply wrap64_range.
    + rewrite Ht. cbn [length]. unfold wrap64. rewrite Zplus_mod_idemp_l. f_equal. lia.
    + cbn [length] in Hl. lia.
    + intros i Hi. specialize (Hq (S i) ltac:(cbn; lia)). change ((b :: r) !! S i) with (r !! i) in Hq. rewrite <- Hq. f_equal. f_equal.
      rewrite <- (wrap_ring (wrap64 _ + _)). unfold wrap64. rewrite Zplus_mod_idemp_l. fold (wrap64 (key_head (pay k) + 1 + Z.of_nat i)).
      rewrite wrap_ring. f_equal. lia.
Qed.

(** The keys the payload has yet to take after a burst of operator keys. *)
Definition typed (q bs : bytes) : bytes := q ++ take (Z.to_nat KEY_RING_SIZE - length q) bs.

Lemma push_all_refines (p : PayState) (q bs : bytes) : holds_keys p q ->
  holds_keys (fold_left (fun p b => push_key b p) bs p) (typed q bs).
Proof.
  revert p q. induction bs as [|b bs IH]; intros p q H; cbn [fold_left].
  - unfold typed. by rewrite take_nil, app_nil_r.
  - apply push_key_refines with (b := b) in H as H'. pose proof (IH _ _ H') as H2.
    destruct H as (_ & _ & _ & Hl & _). destruct (_ <? _) eqn:E; zbool.
    + replace (typed q (b :: bs)) with (typed (q ++ [b]) bs); [done|]. unfold typed.
      rewrite length_app, <- app_assoc. f_equal. cbn [length app].
      replace (Z.to_nat KEY_RING_SIZE - length q)%nat with (S (Z.to_nat KEY_RING_SIZE - (length q + 1))) by lia. done.
    + replace (typed q (b :: bs)) with (typed q bs); [done|]. unfold typed.
      replace (Z.to_nat KEY_RING_SIZE - length q)%nat with 0%nat by lia. done.
Qed.

(** Operator keys reach the payload in order, none twice. Whatever the
    ring holds, after a burst of keys it holds those that fit in its 64 places
    behind the older ones and drops the rest; [getkey] then returns the oldest
    key and leaves the others in order, or EAGAIN when there is none. The
    counters may wrap around. *)
Theorem key_ring_fifo (k : K) (q bs : bytes) :
  holds_keys (pay k) q ->
  let k1 := on_pay (fun p => fold_left (fun p b => push_key b p) bs p) k in
  match typed q bs with
  | [] => on_getkey k1 = (Val EAGAIN, k1)
  | b :: r => exists k2, on_getkey k1 = (Val (bz b), k2) /\ holds_keys (pay k2) r /\
      k2 = on_pay (with_key_head (wrap64 (key_head (pay k1) + 1))) k1
  end.
Proof. intros H k1. apply (getkey_refines k1). by apply push_all_refines. Qed.

(** ** An instance *)

Lemma no_keys_at_boot : holds_keys pay_init [].
Proof. split; [reflexivity|]. split; [vm_compute; split; [discriminate|reflexivity]|]. split; [reflexivity|]. split; [discriminate|]. cbn. lia. Qed.

Lemma key_ring_fifo_witness : exists k1 k2,
  on_getkey k1 = (Val 97, k2) /\ holds_keys (pay k2) (lit "bc").
Proof.
  destruct (key_ring_fifo (demo_k demo_loaded [] 0 (demo_slot RUNNING CAP_WRITE)) [] (lit "abc") no_keys_at_boot)
    as (k2 & H & Hq & _).
  eexists _, k2. split; [exact H|exact Hq].
Defined.
