(* ===== verification/Traces.v ===== *)
(** * Concrete runs of the whole machine

    A boot, a suite started from the console and its first payload entered in
    user mode, evaluated step by step; and the runs that show where the code
    falls short of what it means to do. *)

From S2P Require Import Prelude Framing Hal Frames Mm MmSpec MmWalk Elf ElfProofs Console RpcJson KState Traps TrapsProofs Payload Syscall Handler Rpc Sched Docs KRun KSpec SchedInv SchedProofs Owner Iso Isolation Events Demo Sound Progress.

(** ** Steps *)

Lemma run_pair {T} (m : M T) (k : K) (r : res T) : fst (m k) = r -> m k = (r, snd (m k)).
Proof. intros <-. apply surjective_pairing. Qed.

(** A run of the scheduler that ends in a payload, as one step. *)
Lemma run_resume {B : Build} (k : K) (satp frame : Z) (c : control) :
  fst (run k) = Exit (XResume satp frame) ->
  resume_sret (load_frame (pmem (pool (snd (run k)))) frame) = c ->
  step (CRun, k) (c, on_hw (with_hw_satp satp) (snd (run k))).
Proof.
  intros Hr Hc. pose proof (step_run k _ _ (run_pair run k _ Hr)) as H. cbn [after] in H. by rewrite Hc in H.
Qed.

Lemma reach_step {B : Build} (s s' : control * K) : reachable s -> step s s' -> reachable s'.
Proof. intros (s0 & Hb & Hs) H. exists s0. split; [done|]. by eapply steps_step. Qed.

Lemma resume_user {B : Build} (f : TrapFrame) : is_from_user f = true -> resume_sret f = CUser f.
Proof. unfold resume_sret. by intros ->. Qed.
Lemma resume_kernel {B : Build} (f : TrapFrame) : is_from_user f = false -> resume_sret f = CKernel f.
Proof. unfold resume_sret. by intros ->. Qed.

#[local] Existing Instance demo_build.

(** ** From reset to a payload *)

(** The operator has typed p. *)
Definition k_boot : K := snd (kmain (k_init (mkHw [Some x70] [] 0 [] 0 0 []) (fun _ => x00))).
Definition k_seeded : K := snd (idle_step k_boot).
Definition k_started : K := snd (run k_seeded).

Lemma boot_idle : booted (CIdle, k_boot).
Proof.
  exists (mkHw [Some x70] [] 0 [] 0 0 []), (fun _ => x00), XIdle, k_boot. split; [reflexivity|]. split; [constructor|].
  split; [apply (run_pair kmain _ (Exit XIdle)); vm_compute; reflexivity|reflexivity].
Qed.

Lemma seeded_reachable : reachable (CRun, k_seeded).
Proof.
  exists (CIdle, k_boot). split; [apply boot_idle|].
  eapply steps_step; [apply steps_refl|]. apply (step_idle_exit k_boot XRun k_seeded).
  apply (run_pair idle_step k_boot (Exit XRun)). vm_compute. reflexivity.
Qed.

(** The payload's first frame and the satp it runs under. *)
Definition first_frame : Z := 2151702528.
Definition first_satp : Z := 9223372036855301121.
Definition f_user : TrapFrame := load_frame (pmem (pool k_started)) first_frame.
Definition k_user : K := on_hw (with_hw_satp first_satp) k_started.

Lemma user_reachable : reachable (CUser f_user, k_user).
Proof.
  apply (reach_step _ _ seeded_reachable). unfold k_user, f_user, k_started. apply (run_resume k_seeded first_satp first_frame).
  - vm_compute. reflexivity.
  - apply resume_user. vm_compute. reflexivity.
Qed.

Lemma capabilities_attenuate_witness : exists im,
  image_at (match slot_at 1 k_user with Some s => image s | None => 99 end) = Some im /\
  caps_sub (match slot_at 1 k_user with Some s => caps s | None => -1 end) (im_caps im).
Proof.
  assert (exists s, slot_at 1 k_user = Some s) as [s Hs] by (vm_compute; eexists; reflexivity).
  rewrite Hs. exact (proj1 (capabilities_attenuate (CUser f_user) k_user user_reachable ltac:(discriminate)) 1 s Hs).
Defined.

Lemma one_payload_runs_witness : exists s, slot_at (current (pay k_user)) k_user = Some s /\ state s = RUNNING.
Proof.
  exact (proj2 (proj2 (one_payload_runs (CUser f_user) k_user user_reachable ltac:(discriminate))) f_user eq_refl).
Defined.



(** The hello event and the start event. *)
Lemma event_ids_increase_witness : exists b0 b1 id0 id1,
  hw_out (hw k_user) = [b0; b1] /\ carries b0 id0 /\ carries b1 id1 /\ id0 < id1.
Proof.
  assert (exists b0 b1, hw_out (hw k_user) = [b0; b1] /\ hd_error b0 = Some xaa /\ hd_error b1 = Some xaa)
    as (b0 & b1 & E & H0 & H1).
  { vm_compute. eexists _, _. split; [reflexivity|]. split; reflexivity. }
  assert (events k_user <= W64) as En by (vm_compute; discriminate).
  destruct (proj2 (event_ids_increase (CUser f_user) k_user user_reachable En) 0%nat 1%nat b0 b1)
    as (id0 & id1 & C0 & C1 & Hlt); [lia|rewrite E; reflexivity|rewrite E; reflexivity| | |].
  - intros Hr. apply raw_bracket in Hr. rewrite H0 in Hr. discriminate.
  - intros Hr. apply raw_bracket in Hr. rewrite H1 in Hr. discriminate.
  - exists b0, b1, id0, id1. exact (conj E (conj C0 (conj C1 Hlt))).
Defined.

Lemma wire_json_witness : exists b0 b1, hw_out (hw k_user) = [b0; b1] /\ json_frame b0 /\ json_frame b1.
Proof.
  assert (exists b0 b1, hw_out (hw k_user) = [b0; b1] /\ hd_error b0 = Some xaa /\ hd_error b1 = Some xaa)
    as (b0 & b1 & E & H0 & H1).
  { vm_compute. eexists _, _. split; [reflexivity|]. split; reflexivity. }
  pose proof (wire_json (CUser f_user) k_user user_reachable) as H. rewrite E in H.
  apply Forall_cons in H as [Hb0 H]. apply Forall_cons in H as [Hb1 _].
  exists b0, b1. split; [exact E|]. split.
  - destruct Hb0 as [Hb0|Hb0]; [|exact Hb0]. apply raw_bracket in Hb0. rewrite H0 in Hb0. discriminate.
  - destruct Hb1 as [Hb1|Hb1]; [|exact Hb1]. apply raw_bracket in Hb1. rewrite H1 in Hb1. discriminate.
Defined.

(** The boot banner in one piece, the rest byte by byte. *)
Lemma wire_decodes_witness : exists s0 s1,
  feed_all (lit "OpenSBI v1.3" :: map (fun b => [b]) (concat (hw_out (hw k_user)))) decoder_new =
  (mkDecoder [] (lit "OpenSBI v1.3"), [s0; s1]) /\ frame_text s0 /\ frame_text s1.
Proof.
  assert (Hc : forall l : bytes, concat (map (fun b => [b]) l) = l) by (induction l as [|b l IH]; [done|]; cbn; by rewrite IH).
  pose proof (wire_decodes (CUser f_user) k_user (lit "OpenSBI v1.3") (lit "OpenSBI v1.3" :: map (fun b => [b]) (concat (hw_out (hw k_user))))
    user_reachable ltac:(by apply quiet_check) ltac:(cbn [concat]; by rewrite Hc)) as [H Hv].
  assert (E : exists s0 s1, frames_of (hw_out (hw k_user)) = [s0; s1]) by (vm_compute; eexists _, _; reflexivity).
  assert (En : noise_of (hw_out (hw k_user)) = []) by (vm_compute; reflexivity).
  destruct E as (s0 & s1 & E). rewrite E, En, app_nil_r in *. exists s0, s1. split; [exact H|].
  apply Forall_cons in Hv as [H0 Hv]. apply Forall_cons in Hv as [H1 _]. exact (conj H0 H1).
Defined.

(** ** A payload that writes *)

(** The same machine with payloads whose pages are writable. *)
Definition data_build : Build :=
  {| feat_doom := true; feat_cpayloads := true; dev_profile := false; payload_bytes := fun _ => demo_image 6 0 0x10000 120 8192;
     kernel_end := 0x80300000; boot_stack_top := 0x80210000; scheduler_resume_pc := 0x80200100; wfi_pc := 0x80200200 |}.

Definition data_boot : K := snd (kmain (B := data_build) (k_init (mkHw [Some x70] [] 0 [] 0 0 []) (fun _ => x00))).
Definition data_seeded : K := snd (idle_step (B := data_build) data_boot).
Definition data_started : K := snd (run (B := data_build) data_seeded).
Definition data_frame : TrapFrame := load_frame (pmem (pool data_started)) first_frame.
Definition data_user : K := on_hw (with_hw_satp first_satp) data_started.

Lemma data_reachable : reachable (B := data_build) (CUser data_frame, data_user).
Proof.
  unfold data_user, data_frame, data_started. eapply reach_step; [eapply reach_step|].
  - exists (CIdle, data_boot). split; [|apply steps_refl].
    exists (mkHw [Some x70] [] 0 [] 0 0 []), (fun _ => x00), XIdle, data_boot. split; [reflexivity|]. split; [constructor|].
    split; [apply (run_pair (kmain (B := data_build)) _ (Exit XIdle)); vm_compute; reflexivity|reflexivity].
  - apply (step_idle_exit (B := data_build) data_boot XRun data_seeded).
    apply (run_pair (idle_step (B := data_build)) data_boot (Exit XRun)). vm_compute. reflexivity.
  - apply (run_resume (B := data_build) data_seeded first_satp first_frame); [vm_compute; reflexivity|].
    apply resume_user. vm_compute. reflexivity.
Qed.

(** It stores a byte at 0x10008. *)
Definition data_pa : Z := 0x80402008.
Definition data_mem : mem := store (pmem (pool data_user)) data_pa [x2a].

Lemma data_writes : user_writes data_user data_mem.
Proof.
  intros a Ha. assert (a = data_pa) as ->.
  { destruct (decide (a = data_pa)) as [|Hne]; [done|]. destruct Ha. apply store_other. cbn [length]. lia. }
  exists 0x80401000, 0x10008. split; [reflexivity|]. split; [reflexivity|]. vm_compute. reflexivity.
Qed.

Lemma memory_isolated_witness : exists l,
  map claim_of l = [CSpace 0x80400000; CSpace 0x80401000; CFrame first_frame] /\ sep (pool data_user) l.
Proof.
  assert (E : pay_claims (pay data_user) = [CSpace 0x80400000; CSpace 0x80401000; CFrame first_frame]) by (vm_compute; reflexivity).
  rewrite <- E. exact (proj2 (memory_isolated (B := data_build) (CUser data_frame) data_user data_reachable)).
Defined.

Lemma payload_confined_witness : data_mem data_pa = x2a /\ exists s, slot_at 0 data_user = Some s /\ state s = RUNNING /\
  forall va need, translate_checked data_mem (root s) va need = translate_checked (pmem (pool data_user)) (root s) va need.
Proof.
  split; [reflexivity|].
  destruct (payload_confined (B := data_build) data_frame data_user data_mem data_reachable data_writes) as (s & Hs & Hst & _ & Ht & _).
  exists s. assert (E : current (pay data_user) = 0) by (vm_compute; reflexivity). rewrite E in Hs. exact (conj Hs (conj Hst Ht)).
Defined.

(** ** A tick between CURRENT and resume_user *)

(** The console poll of the scheduler finds nothing, then a byte arrives; the
    third interruptible point of the run, after CURRENT is set and before
    [resume_user], takes a timer interrupt in the kernel at this pc. *)
Definition kernel_pc : Z := 0x80203344.
Definition f_kernel : TrapFrame := mkFrame (replicate 31 0x80212000) kernel_pc SSTATUS_SPIE.

Definition race_boot : K :=
  snd (kmain (k_init (mkHw [Some x70; None; Some x72] [] 0 [] 0 0 [None; None; Some f_kernel]) (fun _ => x00))).
Definition race_seeded : K := snd (idle_step race_boot).
Definition race_hit : K := snd (run race_seeded).
Definition race_back : K := snd (run race_hit).
Definition race_frame : TrapFrame := load_frame (pmem (pool race_back)) first_frame.

Lemma race_reachable : reachable (CRun, race_hit).
Proof.
  eapply reach_step; [eapply reach_step|].
  - exists (CIdle, race_boot). split; [|apply steps_refl].
    exists (mkHw [Some x70; None; Some x72] [] 0 [] 0 0 [None; None; Some f_kernel]), (fun _ => x00), XIdle, race_boot.
    split; [reflexivity|]. split; [repeat constructor; by intros f [= <-]|].
    split; [apply (run_pair kmain _ (Exit XIdle)); vm_compute; reflexivity|reflexivity].
  - apply (step_idle_exit race_boot XRun race_seeded). apply (run_pair idle_step race_boot (Exit XRun)). vm_compute. reflexivity.
  - apply (step_run race_seeded XRun race_hit). apply (run_pair run race_seeded (Exit XRun)). vm_compute. reflexivity.
Qed.

(** A timer interrupt taken in [start] after CURRENT is set preempts the
    payload before it ever ran: the frame saved as the payload's is the
    kernel's own, and the next dispatch of that payload returns into the
    kernel in supervisor mode, at the interrupted pc, with the payload's
    address space active and the payload's slot RUNNING. *)
Theorem preempt_in_start_resumes_kernel : exists satp,
  reachable (CKernel race_frame, on_hw (with_hw_satp satp) race_back) /\
  sepc race_frame = kernel_pc /\ is_from_user race_frame = false /\
  option_map state (slot_at 0 race_back) = Some RUNNING.
Proof.
  exists first_satp. split; [|split; [vm_compute; reflexivity|split; vm_compute; reflexivity]].
  apply (reach_step _ _ race_reachable). unfold race_frame, race_back.
  apply (run_resume race_hit first_satp first_frame); [vm_compute; reflexivity|].
  apply resume_kernel. vm_compute. reflexivity.
Qed.

(** ** A kill and a new suite in one service of the console *)

Definition request (body : bytes) : list (option byte) :=
  map Some (xaa :: x99 :: le_bytes 4 (Z.of_nat (length body)) ++ body).

Definition kill_request : bytes :=
  js "{'id':1,'method':'tools/call','params':{'name':'kill','arguments':{'pid':0}}}".
Definition suite_request : bytes :=
  js "{'id':2,'method':'tools/call','params':{'name':'run_suite','arguments':{'suite':'d'}}}".

(** The operator starts suite d; once its payload runs, sends both requests. *)
Definition leak_hw : Hw :=
  mkHw ([Some x64; None] ++ request kill_request ++ request suite_request) [] 0 [] 0 0 [].
Definition leak_boot : K := snd (kmain (k_init leak_hw (fun _ => x00))).
Definition leak_seeded : K := snd (idle_step leak_boot).
Definition leak_started : K := snd (run leak_seeded).
Definition leak_user : K := on_hw (with_hw_satp first_satp) leak_started.
Definition leak_frame : TrapFrame := load_frame (pmem (pool leak_started)) first_frame.
Definition leak_tick : K := snd (handle CAUSE_S_TIMER 0 leak_frame leak_user).
Definition leak_end : K := snd (run leak_tick).

Lemma leak_user_reachable : reachable (CUser leak_frame, leak_user).
Proof.
  unfold leak_user, leak_frame, leak_started. eapply reach_step; [eapply reach_step|].
  - exists (CIdle, leak_boot). split; [|apply steps_refl]. exists leak_hw, (fun _ => x00), XIdle, leak_boot.
    split; [reflexivity|]. split; [repeat constructor; by intros f [= <-]|].
    split; [apply (run_pair kmain _ (Exit XIdle)); vm_compute; reflexivity|reflexivity].
  - apply (step_idle_exit leak_boot XRun leak_seeded). apply (run_pair idle_step leak_boot (Exit XRun)). vm_compute. reflexivity.
  - apply (run_resume leak_seeded first_satp first_frame); [vm_compute; reflexivity|].
    apply resume_user. vm_compute. reflexivity.
Qed.

Lemma leak_tick_reachable : reachable (CRun, leak_tick).
Proof.
  assert (exists f, fst (handle CAUSE_S_TIMER 0 leak_frame leak_user) = Val f /\ sret f = CRun) as (f & Ef & Es).
  { vm_compute. eexists. split; reflexivity. }
  assert (u64_ok CAUSE_S_TIMER /\ u64_ok 0) as [Hc H0] by (vm_compute; repeat split; discriminate).
  pose proof (step_trap leak_user leak_frame CAUSE_S_TIMER 0 f leak_tick Hc H0
    (run_pair (handle CAUSE_S_TIMER 0 leak_frame) leak_user (Val f) Ef)) as H.
  rewrite Es in H. exact (reach_step _ _ leak_user_reachable H).
Qed.

(** A payload killed by the operator keeps its frames until it is reaped. When
    the same service of the console also starts a new suite, the killed slot is
    cleared and reused before the scheduler reaps it: afterwards no slot and no
    checkpoint names any frame, yet six frames beyond the kernel's own are
    still allocated, and nothing can ever free them. *)
Theorem kill_then_suite_leaks :
  reachable (CRun, leak_end) /\
  Forall (fun s => root s = 0 /\ resume_frame s = 0) (table (pay leak_end)) /\
  Forall (fun s => sn_valid s = false) (snaps (pay leak_end)) /\
  allocated (pool leak_end) = allocated (pool leak_boot) + 6.
Proof.
  split; [|split; [|split; [|vm_compute; reflexivity]]].
  - apply (reach_step _ _ leak_tick_reachable). apply (step_run leak_tick XRun leak_end).
    apply (run_pair run leak_tick (Exit XRun)). vm_compute. reflexivity.
  - vm_compute. repeat constructor.
  - vm_compute. repeat constructor.
Qed.
