(* ===== verification/Overflow.v ===== *)
(** * The stack overflow fixture

    Unbounded recursion on a bounded stack, end to end: for any layout of the
    stack frames the payload is killed at a store just below its stack, after as
    many calls as the stack has room for and long before the recursion ends. *)

From S2P Require Import Prelude Hal Frames Mm MmSpec MmWalk Elf PoolAcct ElfProofs CopySpec Console RpcJson KState Traps TrapsProofs Payload Syscall Handler Rpc Sched Userland KRun HandlerProofs UserlandProofs Owner Iso Isolation Traces.

Section Overflow.
Context {B : Build} {Bin : Binary}.

(** A byte stored through the payload's own table. *)
Lemma store_confined (p : fpool) (r : Z) (sh : shape) (va pa : Z) (b : byte) : space_ok p sh r ->
  translate_checked (pmem p) r va (Z.lor U W) = Some pa -> confined p sh (store (pmem p) pa [b]).
Proof.
  intros Hok Ht a Ha. assert (a = pa) as ->.
  { destruct (decide (a = pa)) as [|Hne]; [done|]. destruct Ha. apply store_other. cbn [length]. lia. }
  destruct (user_access p sh r va (Z.lor U W) pa Hok ltac:(done) Ht) as (i2 & i1 & i0 & e & Hi & He & Hu & Hr).
  exists i2, i1, i0, e. split; [done|]. split; [done|]. split; [|done]. apply (ok_win _ _ _ Hok i2 i1 i0 e Hi He).
  unfold has. apply negb_true_iff, Z.eqb_neq. intros E0. assert (E : Z.land (Z.land e (Z.lor U W)) W = W) by (by rewrite Hu).
  rewrite <- Z.land_assoc in E. change (Z.land (Z.lor U W) W) with W in E. by rewrite E0 in E.
Qed.

(** The running payload at work in its own space [sh], beside the tenants [l]. *)
Record at_work (pid : Z) (s : Slot) (sh : shape) (l : list tenant) (k : K) : Prop := {
  aw_running : running k pid s;
  aw_root : root s <> 0;
  aw_pool : pool_ok (pool k);
  aw_sep : sep (pool k) (TSpace (root s) sh :: l)
}.

(** Its stores change neither what it can reach nor what belongs to another. *)
Record worked (r : Z) (cs : list claim) (k k' : K) : Prop := {
  wk_out : hw_out (hw k') = hw_out (hw k);
  wk_events : events k' = events k;
  wk_pay : pay k' = pay k;
  wk_maps : forall va need, translate_checked (pmem (pool k')) r va need = translate_checked (pmem (pool k)) r va need;
  wk_rest : Forall (untouched (pmem (pool k)) (pmem (pool k'))) cs
}.

#[global] Instance worked_preorder (r : Z) (cs : list claim) : PreOrder (worked r cs).
Proof.
  split.
  - intros k. split; try done. apply Forall_true. intros c. apply untouched_refl.
  - intros k1 k2 k3 [A1 A2 A3 A4 A5] [B1 B2 B3 B4 B5]. split; [congruence..| |].
    + intros va need. by rewrite B4.
    + rewrite Forall_forall in *. intros c Hc. eapply untouched_trans; [by apply A5|by apply B5].
Qed.

Lemma went_at_work (pid : Z) (s : Slot) (sh : shape) (l : list tenant) (k k' : K) (out : list bytes) (n : Z) :
  went k k' out n -> at_work pid s sh l k -> at_work pid s sh l k'.
Proof.
  intros Hw [H1 H2 H3 H4]. pose proof (af_pool _ _ _ _ Hw) as Hp.
  split; rewrite ?Hp; try done. by eapply after_running.
Qed.

Section Payload.
Context (pid : Z) (s : Slot) (sh : shape) (l : list tenant) (f : TrapFrame) (Hf : on_hart f).

Lemma poked_work (va pa : Z) (b : byte) (k : K) : at_work pid s sh l k ->
  translate_checked (pmem (pool k)) (root s) va (Z.lor U W) = Some pa ->
  at_work pid s sh l (poked pa b k) /\ worked (root s) (map claim_of l) k (poked pa b k).
Proof.
  intros [Hr Hz Hp Hs] Ht. pose proof (proj1 Hs) as Hok. cbn in Hok. pose proof (store_confined _ _ _ va pa b Hok Ht) as Hc.
  destruct (confined_space (pool k) (root s) sh l _ Hp Hs Hc) as (_ & _ & Hm).
  destruct (confined_sep (pool k) (root s) sh l _ Hp Hs Hc) as [Hs' Hu].
  split; split; try done; by apply (running_same k).
Qed.

(** Initialising an array that lies in the stack. *)
Lemma fill_run {T} (bs : bytes) (va : Z) (g : unit -> user T) (k : K) : at_work pid s sh l k -> 0 <= va -> va + Z.of_nat (length bs) < W64 ->
  (forall a, va <= a < va + Z.of_nat (length bs) -> translate_checked (pmem (pool k)) (root s) a (Z.lor U W) <> None) ->
  exists k', at_work pid s sh l k' /\ worked (root s) (map claim_of l) k k' /\ user_run (user_bind (fill va bs) g) f k = user_run (g tt) f k'.
Proof.
  revert va k. induction bs as [|b bs IH]; intros va k Hk H0 Hw Hm; cbn [length] in *.
  - exists k. split; [done|]. split; [reflexivity|done].
  - cbn [fill user_bind]. destruct (translate_checked (pmem (pool k)) (root s) va (Z.lor U W)) as [pa|] eqn:Et; [|by destruct (Hm va ltac:(lia))].
    destruct (poked_work va pa b k Hk Et) as [Hk1 Hw1].
    assert (Hn : wrap64 (va + 1) = va + 1) by (apply wrap64_small; lia). rewrite Hn.
    destruct (IH (va + 1) (poked pa b k) Hk1) as (k' & Hk' & Hw' & E); [lia|lia| |].
    + intros a Ha. rewrite (wk_maps _ _ _ _ Hw1). apply Hm. lia.
    + exists k'. split; [done|]. split; [by etransitivity|]. rewrite <- E.
      by rewrite (write_goes va pa b _ f k pid s (aw_running _ _ _ _ _ Hk) (aw_root _ _ _ _ _ Hk) Et).
Qed.

(** The stack and the gap below it. *)
Context (lo hi : Z) (Hlo : 2 * recurse_frame <= lo) (Hhi : hi <= W64 - 1) (Ha0 : 0 <= recurse_array) (Ha1 : recurse_array + 256 <= recurse_frame).

Definition stack_of (k : K) : Prop :=
  (forall a, lo <= a < hi -> translate_checked (pmem (pool k)) (root s) a (Z.lor U W) <> None) /\
  (forall a, lo - recurse_frame <= a < lo -> translate_checked (pmem (pool k)) (root s) a (Z.lor U W) = None).

Lemma worked_stack (k k' : K) : worked (root s) (map claim_of l) k k' -> stack_of k -> stack_of k'.
Proof. intros Hw [H1 H2]. split; intros a Ha; rewrite (wk_maps _ _ _ _ Hw); auto. Qed.

(** The state after the fault at [va]. *)
Definition overflowed_at (va : Z) (k1 : K) : K :=
  let kt := recorded_trap 15 va f k1 in
  vacated (stored pid (with_state FAULTED s) (sent (fault_burst kt f (next_id k1) 15 va (Some (pid, s))) kt)).

Lemma fill_faults {T} (bs : bytes) (va : Z) (g : unit -> user T) (k : K) : at_work pid s sh l k -> bs <> [] ->
  translate_checked (pmem (pool k)) (root s) va (Z.lor U W) = None ->
  user_run (user_bind (fill va bs) g) f k = (Val (Gone, to_scheduler f), overflowed_at va k).
Proof.
  intros Hk Hb Ht. destruct bs as [|b bs]; [done|]. cbn [fill user_bind].
  by rewrite (write_fault va b _ f k pid s Hf (aw_running _ _ _ _ _ Hk) (aw_root _ _ _ _ _ Hk) Ht).
Qed.

Lemma array_length (n : nat) : length (concat (replicate 32 (le_bytes 8 (Z.of_nat n)))) = 256%nat.
Proof. cbn [replicate concat]. rewrite !length_app, !le_bytes_length. done. Qed.

(** With room for at most [c] more frames, a recursion of depth [c] or more
    ends in a fault below the stack. *)
Lemma recurse_faults (c n : nat) (sp : Z) (k : K) : (c <= n)%nat -> at_work pid s sh l k -> stack_of k ->
  lo - recurse_array <= sp <= hi -> sp - lo < Z.of_nat c * recurse_frame ->
  exists va k1, lo - recurse_frame <= va < lo /\ worked (root s) (map claim_of l) k k1 /\
    user_run (recurse n sp) f k = (Val (Gone, to_scheduler f), overflowed_at va k1).
Proof.
  revert n sp k. induction c as [|c IH]; intros n sp k Hn Hk Hst Hsp Hc.
  all: assert (Hs1 : wrap64 (sp - recurse_frame) = sp - recurse_frame) by (apply wrap64_small; lia).
  all: assert (Hb : wrap64 (sp - recurse_frame + recurse_array) = sp - recurse_frame + recurse_array) by (apply wrap64_small; lia).
  all: pose proof (array_length n) as Hl.
  all: assert (Hne : concat (replicate 32 (le_bytes 8 (Z.of_nat n))) <> []) by (intros E; by rewrite E in Hl).
  - exists (sp - recurse_frame + recurse_array), k. split; [lia|]. split; [reflexivity|].
    destruct n as [|n]; cbn [recurse]; cbv zeta; rewrite Hs1, Hb; apply fill_faults; try done; apply Hst; lia.
  - destruct n as [|n]; [lia|]. cbn [recurse]. cbv zeta. rewrite Hs1, Hb.
    destruct (decide (sp - recurse_frame + recurse_array < lo)) as [Hlt|Hge].
    + exists (sp - recurse_frame + recurse_array), k. split; [lia|]. split; [reflexivity|].
      apply fill_faults; [done|done|]. apply Hst. lia.
    + match goal with |- context [user_bind (fill ?va ?bs) ?g] => destruct (fill_run bs va g k Hk) as (k1 & Hk1 & Hw1 & E) end.
      * lia.
      * rewrite Hl. lia.
      * intros a Ha. apply Hst. rewrite Hl in Ha. lia.
      * rewrite E. destruct (IH n (sp - recurse_frame) k1 ltac:(lia) Hk1 (worked_stack _ _ Hw1 Hst)) as (va & k2 & Hva & Hw2 & E2); [lia|lia|].
        exists va, k2. split; [done|]. split; [by etransitivity|]. by apply gone_bind.
Qed.

End Payload.

Lemma user_at_work (f : TrapFrame) (k : K) : reachable (CUser f, k) -> exists s sh l,
  at_work (current (pay k)) s sh l k /\ CSpace (root s) :: map claim_of l ≡ₚ pay_claims (pay k).
Proof.
  intros Hr. destruct (user_runs f k Hr) as (s & Hn & Hs & Hst). apply reachable_isolated in Hr as [_ Hk].
  destruct (running_tenant _ k s (pmem (pool k)) Hk Hn Hs Hst ltac:(by intros a Ha)) as (Hz & sh & l & Hsep & Hp & _ & _).
  exists s, sh, l. split; [|done]. split; [by split|done|apply (kp_pool _ _ _ _ Hk)|done].
Qed.

(** C28: unbounded recursion is contained. Let the fixture run in any reachable
    state, on a stack that ends at [lo] above a gap it cannot write, with any
    frame layout the compiler may give it that fits the gap. It never returns
    from [recurse] and never prints its last line: it is killed by a store page
    fault at an address less than one frame below its stack. The operator sees
    at most its announcement and one report, of that address; only its own slot
    changes, to FAULTED; its page table maps what it mapped, and the address
    space and saved context of everything else are untouched. *)
Theorem stackover_contained (f : TrapFrame) (k : K) (s : Slot) (lo : Z) :
  reachable (CUser f, k) -> on_hart f -> slot_at (current (pay k)) k = Some s ->
  256 + recurse_array <= recurse_frame -> 0 <= recurse_array -> 2 * recurse_frame <= lo ->
  0 <= pmain_frame -> lo <= user_stack_top - pmain_frame -> user_stack_top < W64 ->
  (forall a, lo <= a < user_stack_top -> translate_checked (pmem (pool k)) (root s) a (Z.lor U W) <> None) ->
  (forall a, lo - recurse_frame <= a < lo -> translate_checked (pmem (pool k)) (root s) a (Z.lor U W) = None) ->
  exists f' k' out va f1 k1, user_run (program stackover) f k = (Val (Gone, f'), k') /\ sret f' = CRun /\
    lo - recurse_frame <= va < lo /\ (length out <= 1)%nat /\
    hw_out (hw k') = hw_out (hw k) ++ out ++ [fault_burst (recorded_trap 15 va f1 k1) f1 (next_id k1) 15 va (Some (current (pay k), s))] /\
    table (pay k') = <[Z.to_nat (current (pay k)) := with_state FAULTED s]> (table (pay k)) /\ current (pay k') = NO_PID /\
    (forall a need, translate_checked (pmem (pool k')) (root s) a need = translate_checked (pmem (pool k)) (root s) a need) /\
    exists others, CSpace (root s) :: others ≡ₚ pay_claims (pay k) /\ Forall (untouched (pmem (pool k)) (pmem (pool k'))) others.
Proof.
  intros Hr Hf Hs Hfr Ha0 Hlo Hp0 Hp Htop Hin Hgap. destruct (user_at_work f k Hr) as (s' & sh & l & Hk & Hc).
  assert (s' = s) as -> by (destruct (aw_running _ _ _ _ _ Hk) as (_ & _ & E); congruence).
  unfold program, stackover, say, write, write_raw, syscall. set (msg := lit "recursing until the stack runs out"). cbn [user_bind].
  match goal with |- context [user_run (Sys _ _ _ _ ?next) f k] =>
    destruct (say_step (literal msg) (Z.of_nat (length msg)) next f k _ s Hf (aw_running _ _ _ _ _ Hk) ltac:(lia)) as (v & f1 & k1 & out & n & Hf1 & Hrun & Hw & Ho) end.
  rewrite Hrun. cbn [user_bind]. rewrite (wrap64_small (user_stack_top - pmain_frame)) by lia.
  pose proof (went_at_work _ _ _ _ _ _ _ _ Hw Hk) as Hk1.
  assert (Hhi : user_stack_top <= W64 - 1) by lia. assert (Ha1 : recurse_array + 256 <= recurse_frame) by lia.
  destruct (recurse_faults (current (pay k)) s sh l f1 Hf1 lo user_stack_top Hlo Hhi Ha0 Ha1 (Z.to_nat user_stack_top) DEPTH
    (user_stack_top - pmain_frame) k1) as (va & k2 & Hva & Hk2 & E); [apply depth_max; rewrite Z2Nat.id; lia|done| |lia|rewrite Z2Nat.id; nia|].
  { destruct Hw as [_ _ _ _ Hpool]. by split; rewrite Hpool. }
  eexists _, _, out, va, f1, k2. split; [apply gone_bind, gone_bind, E|]. split; [apply sret_scheduler|].
  split; [done|]. split; [done|]. destruct Hw as [W1 W2 W3 W4 W5], Hk2 as [V1 V2 V3 V4 V5].
  split; [|split; [|split; [done|split]]].
  - unfold overflowed_at. cbn [hw_out hw vacated on_pay with_pay stored sent on_hw with_hw with_hw_out].
    rewrite (af_out _ _ _ _ (after_trap 15 va f1 k2)), V1, W1, app_nil_r, <- app_assoc. done.
  - unfold overflowed_at. cbn [table pay vacated on_pay with_pay stored sent on_hw with_hw with_current with_table].
    by rewrite (af_table _ _ _ _ (after_trap 15 va f1 k2)), V3, W3.
  - intros a need. rewrite <- W5. apply V4.
  - exists (map claim_of l). split; [done|]. by rewrite <- W5.
Qed.

End Overflow.

(** ** Instances *)

(** A stack of one page at 0x10000, in the payload of [data_build]. *)
Definition small_stack : Binary :=
  {| literal := fun _ => 0x10800; DATA := 0x11000; BUF := 0x11008; pmain_addr := 0x10078; user_stack_top := 0x10400; illegal_stval := 0;
     ebreak_stval := 0; amo_misaligned := 6; pmain_frame := 16; recurse_frame := 272; recurse_array := 16 |}.

(** Whether the payload can write at [a]. *)
Definition data_can_write (a : Z) : bool :=
  match translate_checked (pmem (pool data_user)) 0x80401000 a (Z.lor U W) with Some _ => true | None => false end.

Lemma data_stack : forallb data_can_write (seqZ 0x10000 0x400) = true /\ forallb (fun a => negb (data_can_write a)) (seqZ (0x10000 - 272) 272) = true.
Proof. split; vm_compute; reflexivity. Qed.

Lemma data_stack_writable (a : Z) : 0x10000 <= a < 0x10400 -> data_can_write a = true.
Proof. intros Ha. pose proof (proj1 data_stack) as H. rewrite forallb_forall in H. apply H, list_elem_of_In, elem_of_seqZ. lia. Qed.

Lemma data_gap (a : Z) : 0x10000 - 272 <= a < 0x10000 -> data_can_write a = false.
Proof. intros Ha. apply negb_true_iff. pose proof (proj2 data_stack) as H. rewrite forallb_forall in H. apply H, list_elem_of_In, elem_of_seqZ. lia. Qed.

Lemma stackover_contained_witness : exists f' k' va, user_run (B := data_build) (program (stackover (Bin := small_stack))) data_frame data_user = (Val (Gone, f'), k') /\
  sret (B := data_build) f' = CRun /\ 0x10000 - 272 <= va < 0x10000 /\ current (pay k') = NO_PID.
Proof.
  assert (E : option_map root (slot_at (current (pay data_user)) data_user) = Some 0x80401000) by (vm_compute; reflexivity).
  destruct (slot_at (current (pay data_user)) data_user) as [s|] eqn:Es; [|discriminate E]. injection E as Er.
  assert (Hf : on_hart data_frame) by (split; vm_compute; reflexivity).
  pose proof (stackover_contained (B := data_build) (Bin := small_stack) data_frame data_user s 0x10000 data_reachable Hf Es) as H.
  rewrite Er in H. destruct H as (f' & k' & out & va & f1 & k1 & H1 & H2 & H3 & _ & _ & _ & H4 & _).
  1-6: unfold W64; cbn; lia.
  - intros a Ha Hn. apply data_stack_writable in Ha. unfold data_can_write in Ha. by rewrite Hn in Ha.
  - intros a Ha. apply data_gap in Ha. unfold data_can_write in Ha. destruct (translate_checked _ _ a _); [discriminate Ha|reflexivity].
  - exists f', k', va. exact (conj H1 (conj H2 (conj H3 H4))).
Defined.
