(* ===== verification/Fork.v ===== *)
(** * A checkpoint taken, outlived and continued

    The writing payload of [Traces] takes a checkpoint, overwrites a byte of its
    memory, and a continuation is queued: a concrete run from reset for the
    theorems about checkpoints. *)

From S2P Require Import Prelude Hal Frames Mm MmSpec MmWalk Elf ElfProofs Console RpcJson KState Traps TrapsProofs Payload Syscall Handler Rpc Sched KRun KSpec SchedInv SchedProofs Owner Iso Isolation Checkpoint Hart Vector VectorProofs TrapMachine Demo Traces.

#[local] Existing Instance data_build.

(** A closed word. *)
Ltac word := vm_compute; split; [discriminate|reflexivity].

(** The payload asks for a checkpoint. *)
Definition call_frame : TrapFrame := mkFrame (<[X_A7 := SYS_SNAPSHOT]> (replicate 31 5)) 0x10000 SSTATUS_SPIE.
Definition back_frame : TrapFrame := set_a0 1 (advance_past_ecall call_frame).
Definition k_taken : K := snd (handle CAUSE_U_ECALL 0 call_frame data_user).
Definition fork_snap : Snapshot := mkSnap true 0x80407000 0x8040c000 1 0.

(** It goes on and overwrites a byte. *)
Definition later_mem : mem := store (pmem (pool k_taken)) data_pa [x2a].
Definition k_later : K := with_pool (with_mem (pool k_taken) later_mem) k_taken.
Definition k_queued : K := snd (enqueue_restore 0 k_later).

Lemma call_frame_ok : frame_ok call_frame.
Proof.
  split; [reflexivity|]. split; [|split; word]. apply Forall_insert; [apply Forall_replicate|]; word.
Qed.

Lemma same_memory (k : K) : with_pool (with_mem (pool k) (pmem (pool k))) k = k.
Proof. by destruct k as [? [] ? ? ? ?]. Qed.

Lemma call_reachable : reachable (CUser call_frame, data_user).
Proof.
  apply (reach_step _ _ data_reachable).
  rewrite <- (same_memory data_user) at 2. apply step_user; [|by intros a Ha]. destruct call_frame_ok as (H1 & H2 & H3 & H4). by split_and!.
Qed.

Lemma call_returns : handle CAUSE_U_ECALL 0 call_frame data_user = (Val back_frame, k_taken).
Proof.
  assert (E : fst (handle CAUSE_U_ECALL 0 call_frame data_user) = Val back_frame) by (vm_compute; reflexivity).
  unfold k_taken. exact (run_pair _ _ _ E).
Qed.

Lemma taken_snap : snap_at 0 k_taken = Some fork_snap.
Proof. vm_compute. reflexivity. Qed.

Lemma later_writes : user_writes k_taken later_mem.
Proof.
  intros a Ha. assert (a = data_pa) as ->.
  { destruct (decide (a = data_pa)) as [|Hne]; [done|]. destruct Ha. apply store_other. cbn [length]. lia. }
  exists 0x80401000, 0x10008. split; [vm_compute; reflexivity|]. split; [reflexivity|]. vm_compute. reflexivity.
Qed.

Lemma back_user : sret back_frame = CUser back_frame.
Proof. vm_compute. reflexivity. Qed.

Lemma back_frame_ok : user_frame back_frame.
Proof.
  split; [reflexivity|]. split; [|split; [word|split; [word|reflexivity]]].
  apply Forall_insert; [apply Forall_insert; [apply Forall_replicate|]|]; word.
Qed.

Lemma taken_reachable : reachable (sret back_frame, k_taken).
Proof.
  exact (reach_step _ _ call_reachable (step_trap data_user call_frame CAUSE_U_ECALL 0 back_frame k_taken ltac:(word) ltac:(word) call_returns)).
Qed.

Lemma taken_id : a0 back_frame - 1 = 0.
Proof. vm_compute. reflexivity. Qed.

Lemma later_keeping : steps_keeping 0 fork_snap (sret back_frame, k_taken) (CUser back_frame, k_later).
Proof.
  assert (Hs : snap_at 0 k_later = Some fork_snap) by (vm_compute; reflexivity). rewrite back_user.
  exact (keeping_step 0 fork_snap _ _ _ (keeping_refl 0 fork_snap _) (step_user k_taken back_frame back_frame later_mem back_frame_ok later_writes) Hs).
Qed.

Lemma frozen_byte (m m' : mem) (b : list byte) : Forall (untouched m m') (snap_claims fork_snap) ->
  copy_from_user m 0x80407000 0x10008 1 = Some b -> copy_from_user m' 0x80407000 0x10008 1 = Some b.
Proof. intros H Hb. apply Forall_cons in H as [[_ H] _]. cbn in H. by rewrite H. Qed.

Lemma taken_byte : copy_from_user (pmem (pool k_taken)) 0x80407000 0x10008 1 = Some [x00].
Proof. vm_compute. reflexivity. Qed.
Lemma later_byte : copy_from_user (pmem (pool k_later)) 0x80401000 0x10008 1 = Some [x2a].
Proof. vm_compute. reflexivity. Qed.

(** The checkpoint still has the byte the payload has overwritten. *)
Lemma checkpoint_frozen_witness : copy_from_user (pmem (pool k_later)) 0x80407000 0x10008 1 = Some [x00] /\
  copy_from_user (pmem (pool k_later)) 0x80401000 0x10008 1 = Some [x2a].
Proof.
  exact (conj (frozen_byte _ _ _ (checkpoint_frozen 0 fork_snap (sret back_frame) (CUser back_frame) k_taken k_later taken_reachable taken_snap eq_refl
    later_keeping) taken_byte) later_byte).
Defined.

Lemma queued_run : enqueue_restore 0 k_later = (Val (Some 2), k_queued).
Proof.
  assert (E : fst (enqueue_restore 0 k_later) = Val (Some 2)) by (vm_compute; reflexivity).
  unfold k_queued. exact (run_pair _ _ _ E).
Qed.

Lemma option_map_at {A B} (f : A -> B) (o : option A) (a : A) (b : B) : option_map f o = Some b -> o = Some a -> f a = b.
Proof. intros H ->. by injection H. Qed.

Lemma data_byte (s : Slot) : slot_at (current (pay data_user)) data_user = Some s ->
  copy_from_user (pmem (pool data_user)) (root s) 0x10008 1 = Some [x00].
Proof.
  assert (E : option_map (fun s => copy_from_user (pmem (pool data_user)) (root s) 0x10008 1) (slot_at (current (pay data_user)) data_user) = Some (Some [x00]))
    by (vm_compute; reflexivity).
  exact (option_map_at _ _ s _ E).
Qed.


(** ** The checkpoint call on the hart *)

(** The hart at the call. *)
Definition call_hart : hart := mkHart (fun n => nth (Z.to_nat (n - 1)) (regs call_frame) 0)
  (fun c => match c with
            | SEPC => 0x10000 | SSTATUS => SSTATUS_SPIE | SSCRATCH => 0x80230000 | SCAUSE => CAUSE_U_ECALL
            | SATP => first_satp | _ => 0
            end) (pmem (pool data_user)).

Lemma call_hart_frame : hart_frame call_hart = call_frame.
Proof. reflexivity. Qed.

Lemma call_hart_ok : hart_ok call_hart.
Proof.
  split; [|intros []; word]. intros n. unfold gpr. destruct (n =? 0); [word|]. cbn [xreg call_hart].
  destruct (nth_in_or_default (Z.to_nat (n - 1)) (regs call_frame) 0) as [H| ->]; [|word].
  destruct call_frame_ok as (_ & Hf & _). rewrite List.Forall_forall in Hf. by apply Hf.
Qed.

Lemma call_hart_agrees : agrees call_hart data_user.
Proof. by split. Qed.

Lemma call_hart_returns :
  handle (csrs call_hart SCAUSE) (csrs call_hart STVAL) (hart_frame call_hart) data_user = (Val back_frame, k_taken).
Proof.
  assert (E1 : csrs call_hart SCAUSE = CAUSE_U_ECALL) by reflexivity. assert (E2 : csrs call_hart STVAL = 0) by reflexivity.
  rewrite E1, E2, call_hart_frame. exact call_returns.
Qed.

Lemma call_hart_reachable : reachable (CUser (hart_frame call_hart), data_user).
Proof. rewrite call_hart_frame. exact call_reachable. Qed.

Lemma trap_refines_step_witness : exists h', trap_once (I := demo_isa) (L := demo_link) 60 (rust_handle data_user) call_hart = Srets h' /\
  hart_frame h' = legal (I := demo_isa) back_frame /\ agrees h' k_taken.
Proof.
  pose proof (trap_refines_step (B := data_build) (I := demo_isa) (HI := demo_isa_laws) (L := demo_link) ltac:(word) ltac:(word)
    call_hart data_user k_taken back_frame call_hart_reachable call_hart_agrees call_hart_ok eq_refl) as H.
  specialize (H ltac:(split; vm_compute; discriminate) call_hart_returns). destruct H as [_ (h' & H1 & H2 & H3 & _)].
  exists h'. split; [exact H1|]. split; [exact H2|exact H3].
Defined.
